(* ===== verification/_CoqProject ===== *)
-Q . S2P
Prelude.v
Xdr.v
Rfc4506.v
RpcXdr.v
GssxXdr.v
RpcProcess.v
RpcTable.v
RpcReply.v
RpcExamples.v
Socket.v
Accept.v
World.v
Toy.v
Util.v
Dlist.v
Service.v
Format.v
Conv.v
Crypt.v
Export.v
ExportProps.v
LinuxCreds.v
Creds.v
CredsProps.v
Handlers.v
CredHandlers.v
HandlerProps.v
Workers.v
WorkersProps.v
WorkersTheorems.v
Server.v
PoolExamples.v
ParseFlags.v
Outcome.v
Trace.v
Config.v
ConfigProps.v
Client.v
ClientLogic.v
ClientFds.v
ClientWire.v
ClientEnds.v
RemoteCall.v
ClientExamples.v
Gpm.v
GpmLogic.v
GpmNames.v
GpmCreds.v
GpmContexts.v
GpmRemote.v
GpmProps.v
GpmExamples.v
Plugin.v
Glue.v
GppContext.v
GppNames.v
GppCreds.v
GppCredOps.v
GppAcquire.v
GppInit.v
SpecialList.v
SpecialConc.v
PluginProps.v
GppInitProps.v
GppRemote.v
GppCache.v
PluginExamples.v
Reload.v
ReloadProps.v
HupProps.v
Privs.v
PrivsProps.v
Mgmt.v
Log.v
Extract.v
Start.v
StartProps.v
Dump.v
DumpProps.v
