(* ===== verification/Prelude.v ===== *)
(** * A verification of gssproxy

    gssproxy is a daemon that holds Kerberos credentials and performs GSSAPI operations for
    clients that may not see the keys.  A client connects to a Unix socket, sends a framed
    ONC RPC call, and gets a framed reply; each call is one GSSAPI operation.  This library
    models the daemon of src/src and the protocol of src/rpcgen, function by function, and
    proves what makes it correct.  Definitions keep the names of the C functions.

    ** How the program is put together, and which file models what

    - gp_socket.c (Socket.v, Accept.v): the event loop's callbacks.  accept_sock_conn takes
      a connection and its peer's credentials; gp_socket_read collects one request and
      hands it to gp_query_new; gp_socket_write sends the reply and reads again.  A
      connection is a [conn_state]; a callback is a function of it and of what the kernel
      answers (an environment record with one field per system call).
    - gp_workers.c (Workers.v, Server.v): the dispatcher gives a query to a free thread or
      queues it; the thread runs gp_handle_query, puts the query on the reply list and
      writes to a pipe; gp_handle_reply reads the pipe and sends the reply.  The pool is a
      step relation, [step], each step one critical section; [reachable] is its closure.
      The two thread lists are sequences here; Dlist.v proves that the list macros of
      gp_common.h, on linked structures, implement them.
    - gp_rpc_process.c and rpcgen/ (Xdr.v, RpcXdr.v, GssxXdr.v, RpcProcess.v, RpcTable.v,
      RpcReply.v): decode the call, look the procedure up in the table, run it, encode the
      reply.  The fifteen procedures are the operations of the class [RpcHandlers];
      Server.v's [QueryHandler] and CredHandlers.v's [server_handlers] instantiate the
      interfaces with the code that stands behind them.
    - gp_creds.c (Service.v, Format.v, Creds.v): which service a connection belongs to, the
      environment a credential is acquired in, acquisition and impersonation, the checks of
      a credential before it is used.
    - gp_export.c (Crypt.v, Export.v, LinuxCreds.v): the encryption of credential handles,
      the export and import of credentials and contexts, the forms the Linux kernel wants.
    - gp_conv.c, gp_util.c (Conv.v, Util.v): conversions between GSSAPI and protocol data,
      options, the read and write loops.
    - gp_rpc_*.c (Handlers.v, CredHandlers.v): the procedures.
    - gp_config.c (ParseFlags.v, Config.v; theorems in ConfigProps.v): the configuration
      files, over the ini library as the class [IniLib].
    - gssproxy.c and gp_init.c: main is the function of its options in Start.v, up to its event
      loop the configuration, the fork, the signals, the sockets (Reload.v, with the reload
      that SIGHUP asks for: HupProps.v), the privileges (Privs.v) and the threads.  Outcome.v
      is the monad of this code and of gp_config.c.
    - gp_mgmt.c, gp_debug.c, gp_log.c (Mgmt.v, Trace.v, Log.v): the timer of an idle daemon,
      the tracing of the Kerberos library, the lines that are logged.  The options of main and
      each reading of the configuration change the tracing, whose variables are in the world
      ([Statics]).
    - gp_rpc_debug.c (Dump.v): the texts of the messages.  extract_ccache.c (Extract.v).
    - client/gpm_common.c (Client.v): the one connection a process keeps to the daemon, and
      gpm_make_call.  ClientLogic.v is the logic of its computations, and three files
      instantiate it: ClientFds.v with descriptors and locks, ClientWire.v with the bytes
      exchanged, ClientEnds.v with how long a call can take.  RemoteCall.v puts the client
      and the dispatcher together.
    - the other files of client/ (Gpm.v, GpmNames.v, GpmCreds.v, GpmContexts.v; GpmLogic.v
      is their logic): the client's half of each procedure, the table of mechanisms, the
      status of the last call.  GpmRemote.v puts each of them and the daemon's half together.
    - mechglue/ (Plugin.v, GppContext.v, GppNames.v, GppCreds.v, GppCredOps.v,
      GppAcquire.v, GppInit.v; Glue.v is what they call): the plugin that interposes the Kerberos
      mechanism of an application and asks the daemon, the local mechanism, or both.  The list
      of special OIDs has files of its own: SpecialList.v for one thread, SpecialConc.v for
      all of them.  GppRemote.v carries the theorems of GpmRemote.v through the plugin.
    - Prelude.v, World.v: shared lemmas and automation; the state monad.

    ** How C is modelled

    An integer is a [Z], and a conversion that can wrap says so ([u32], [s32], [truncate32]).
    Bytes are [list byte]; a buffer that may be NULL is an option.  A function that calls a
    library is a computation [M W] over a world [W] that stays abstract; [wp c Q w] says that
    the computation [c] from [w] ends with a result in [Q].  Releases are operations of the
    world, so that Toy.v can count what is alive.  A result that is [None] where C would go on is a
    fault: a null pointer used, a call through a null function, bytes written past a buffer.
    A failed allocation is an answer of the world, never assumed away.  What the code does
    not define is a parameter: the XDR runtime is the class [XdrLib] with the laws of
    RFC 4506 as [XdrLaws] (instance in Rfc4506.v), libkrb5 is [KrbLib] and [CcLib], GSSAPI
    is [GssLib], the user database is [NssLib], the system calls of the client are [NetLib],
    the mechglue the plugin calls back is [MechGlue], its credential caches are [CacheLib];
    what main calls is in [DaemonLib], [LoopLib], [TimerLib] and [TraceLib], and the calls
    that change privileges are [ProcLib], with their manual pages as [ProcLaws].
    Toy.v, ClientExamples.v, GpmExamples.v, GppCache.v, PrivsProps.v and
    StartProps.v have small concrete worlds, on which the witnesses run.

    A computation of the client ends with [None] when its fuel is used up, one of its
    procedures and one of the plugin with [Some None] when it reads through a null pointer;
    [wpc], [gwp] and [pwp] are the weakest preconditions at the three levels, with what is said
    of the two other ends as parameters.

    ** Fuel

    The loops of gp_export_creds_linux take fuel; ten rounds and more are enough when the
    lookups are not interrupted for ever ([linux_creds_terminate]): the buffers double from
    1024 bytes to a fixed maximum.  The message loop of gp_conv_err_to_gssx_string runs as
    long as the library has messages; its bound is a field of [GssLib], and
    [err_string_terminates] is the case that it is not reached.  The loop over a keytab is
    bounded by the number of its entries, a field of [KrbLib], the count of tickets by one
    of [CcLib].  The loops of Config.v that take values from the ini library end when their
    fuel exceeds the number of values ([string_array_values]).  The loops of Client.v that
    wait for the kernel never use up a fuel that exceeds the interruptions to come and the
    size of what is sent ([make_call_returns]).  A traversal of the list of special OIDs meets an
    item at most once, [walk_fuel]; alone, a thread ends within twice the items and four
    more accesses ([traversal_ends]).  The loop of Privs.v ends when its fuel exceeds the
    number of capabilities ([privileges_dropped]).

    ** What the theorems show

    - The whole path: [server_answers] for the daemon, with the service of the connection;
      [remote_call] for a call, [init_sec_context_remote] for the statuses and the step of a
      context, [get_mic_remote], [verify_mic_remote], [wrap_remote], [unwrap_remote] for
      messages, [gssi_init_refines] from the application on.
    - Dispatch: a message gets one reply with its transaction id ([process_call_replies],
      [process_call_total]), of the right kind: the result of the procedure when it fits, else
      an error ([rpc_call_roundtrip], [process_call_rejects], [process_call_oversize]); what
      is encoded decodes ([procedure_codecs_roundtrip], [gp_xdr_uint64_is_hyper]).
    - The life of the daemon: it comes to its event loop with its sockets open and as the
      configured user in all threads, in a build with libcap with one capability
      ([serves_unprivileged], [privileges_dropped]: for a process that may change its user);
      a reload keeps it serving, where the services have different names
      ([hup_keeps_serving]); it ends when it was idle for its time, whichever of its timers
      fires ([idle_daemon_ends]).
    - Its log: [secrets_not_dumped], [octets_printable], [status_line], [tracer_copies].
    - The pool: no query is lost or answered twice ([pool_keeps_queries]), the lists
      partition the threads ([pool_threads_listed]); left alone it stops, and with all
      accepted work done unless a procedure faults or the pipe is full ([pool_drains]); and two
      behaviours nobody wants ([shutdown_may_hang], [later_query_first]).
    - Authorization: [match_conn_first], [init_sec_context_gated], [cred_allowed_sound],
      [acquire_cred_allowed], [check_cred_sound], [cred_environment_bounded],
      [filter_flags_bits].
    - Data that leaves the server: [cred_handle_roundtrip] and [encrypt_decrypt_roundtrip], for
      the keys and tokens the padding covers ([fits]),
      [lucid_layout], [linux_creds_layout], and the replies of the procedures
      ([accept_sec_context_steps], [acquire_cred_handles], [get_mic_complete],
      [wrap_complete], [unwrap_complete], [status_faithful]).
    - The wire and the descriptors: a request whose length arrives whole is delivered, however
      the rest is split ([reader_delivers], [reader_bounded]); what is written is a prefix of
      the frame, unless the first write stops right after the length ([writer_sends_frame]);
      [accept_ownership], on the error paths too, [init_unix_socket_balanced],
      [gp_safe_read_full], [gp_safe_write_prefix].
    - Configuration: [services_unambiguous], for the default socket, [load_config_ok],
      [parse_flags_spec]; credential store values are expanded ([formatted_string_expands],
      for uids below 2^31).
    - The client: [make_call_balanced], [make_call_returns], [inquire_cred_summary],
      [static_mech_stays], [indicate_by_attrs_chosen], [status_displayed],
      [compare_name_result].
    - The plugin: [special_list_safe], [traversal_ends], [special_mech_roundtrip],
      [remote_to_local_imports], [map_error_roundtrip], [init_local_only],
      [init_reports_local], [cached_cred_found].
    - Defects, stated as what the code does: [missing_target_faults],
      [failed_export_faults], [writer_repeats_header], [formatted_string_escape_broken],
      [block16_roundtrip_broken], [denied_impersonation_default_store],
      [get_mic_leaks_context], [accept_eintr_leaks], [count_loop_counts_end],
      [lost_item], [token_overflow], [init_null_context], [indicate_retry_crashes],
      [twins_leak], [tracing_once], [short_write_garbles], [extract_depad_keeps],
      [conn_id_lost], [second_reload_joins], [option_undone], [rejected_untraced],
      [except_is_required], [big_uid_negative], [check_assumes_default_socket], [line_outside].

    ** What is not modelled

    A procedure runs as one step of the pool: the GSSAPI library is thread safe and the
    procedures share no state of the daemon but the service they read.  Within a call,
    memory is not modelled except where a null or dangling pointer is followed.  The steps of
    SpecialConc.v are the accesses of the program in program order: the memory is taken to be
    sequentially consistent, which is what the barriers of the code are for.  The status of
    the last call is thread-local in the client; its model is of one thread.
    What happens after the event loop has started is in the models of its callbacks: that
    they are run one after the other is what libverto does.  A reload frees the configuration
    the threads may be using; Reload.v keeps the number of the configuration a name belongs
    to, and does not follow the threads.  popt, the messages to systemd and the printf
    functions have no model; nor have functions that only release memory (free_config,
    gp_service_free, gpm_release_name and the like), and gssi_export_name_composite, which
    the preprocessor removes.
    gssi_export_sec_context of the plugin reads past the application's variable, so that
    what it does is not a function of its arguments. *)

From stdpp Require Export base list strings gmap relations sorting pretty.
From Stdlib Require Export Strings.Byte ZArith Lia.

Open Scope Z_scope.

Declare Scope gp_scope.
Delimit Scope gp_scope with gp.

(** ** Machine integers

    A C integer is a [Z]; the wrap-around of a conversion to a width is
    written where the code converts. *)

Definition u8 (z : Z) : Z := z mod 2 ^ 8.
Definition u32 (z : Z) : Z := z mod 2 ^ 32.
Definition u64 (z : Z) : Z := z mod 2 ^ 64.
(** Two's complement reading of the low [w] bits. *)
Definition signed (w : Z) (z : Z) : Z :=
  let m := z mod 2 ^ w in if m <? 2 ^ (w - 1) then m else m - 2 ^ w.
Definition s8 := signed 8.
Definition s32 := signed 32.

Definition in_u32 (z : Z) : Prop := 0 <= z < 2 ^ 32.
Definition in_u64 (z : Z) : Prop := 0 <= z < 2 ^ 64.
Definition in_s32 (z : Z) : Prop := - 2 ^ 31 <= z < 2 ^ 31.

Create HintDb gp discriminated.

Lemma u32_id z : in_u32 z -> u32 z = z.
Proof. intros H. apply Z.mod_small, H. Qed.

Lemma u64_id z : in_u64 z -> u64 z = z.
Proof. intros H. apply Z.mod_small, H. Qed.

Lemma u32_range z : in_u32 (u32 z).
Proof. apply Z.mod_pos_bound. lia. Qed.

Lemma u64_range z : in_u64 (u64 z).
Proof. apply Z.mod_pos_bound. lia. Qed.

Lemma s32_u32 z : in_s32 z -> s32 (u32 z) = z.
Proof.
  unfold in_s32, s32, signed, u32. intros H.
  rewrite Z.mod_mod by lia.
  change (32 - 1) with 31.
  destruct (Z.ltb_spec (z mod 2 ^ 32) (2 ^ 31)); Z.div_mod_to_equations; lia.
Qed.

Lemma s32_range z : in_s32 (s32 z).
Proof.
  unfold in_s32, s32, signed. change (32 - 1) with 31.
  pose proof (Z.mod_pos_bound z (2 ^ 32) ltac:(lia)).
  destruct (Z.ltb_spec (z mod 2 ^ 32) (2 ^ 31)); lia.
Qed.

#[export] Hint Resolve u32_range u64_range s32_range : gp.

(** ** Bytes *)

Abbreviation bytes := (list Byte.byte).

#[export] Instance byte_eq_decision : EqDecision Byte.byte := Byte.byte_eq_dec.

Definition byte_val (b : Byte.byte) : Z := Z.of_N (Byte.to_N b).
Definition byte_of (z : Z) : Byte.byte :=
  default Byte.x00 (Byte.of_N (Z.to_N (z mod 256))).

Lemma byte_val_range b : 0 <= byte_val b < 256.
Proof. unfold byte_val. pose proof (Byte.to_N_bounded b). lia. Qed.

Lemma byte_of_val b : byte_of (byte_val b) = b.
Proof.
  unfold byte_of. rewrite Z.mod_small by apply byte_val_range.
  unfold byte_val. by rewrite N2Z.id, Byte.of_to_N.
Qed.

Lemma byte_val_of z : byte_val (byte_of z) = z mod 256.
Proof.
  unfold byte_of. pose proof (Z.mod_pos_bound z 256 ltac:(lia)) as Hb.
  destruct (Byte.of_N (Z.to_N (z mod 256))) as [b|] eqn:E; simpl.
  - apply Byte.to_of_N in E. unfold byte_val. rewrite E. lia.
  - apply Byte.of_N_None_iff in E. lia.
Qed.

(** The signed [char] a byte reads as. *)
Definition char_val (b : Byte.byte) : Z := s8 (byte_val b).

Lemma char_val_small b : byte_val b < 128 -> char_val b = byte_val b.
Proof.
  intros H. pose proof (byte_val_range b).
  unfold char_val, s8, signed. rewrite Z.mod_small by lia.
  destruct (Z.ltb_spec (byte_val b) (2 ^ (8 - 1))); lia.
Qed.

Lemma char_val_large b : 128 <= byte_val b -> char_val b < 0.
Proof.
  intros H. pose proof (byte_val_range b).
  unfold char_val, s8, signed. rewrite Z.mod_small by lia.
  destruct (Z.ltb_spec (byte_val b) (2 ^ (8 - 1))); lia.
Qed.

Lemma byte_val_inj a b : byte_val a = byte_val b -> a = b.
Proof. intros H. rewrite <- (byte_of_val a), H. apply byte_of_val. Qed.

(** Big- and little-endian images of an integer on [n] bytes. *)
Fixpoint le_bytes (n : nat) (z : Z) : bytes :=
  match n with
  | O => []
  | S n => byte_of z :: le_bytes n (z / 256)
  end.
Fixpoint le_val (bs : bytes) : Z :=
  match bs with
  | [] => 0
  | b :: bs => byte_val b + 256 * le_val bs
  end.
Definition be_bytes (n : nat) (z : Z) : bytes := reverse (le_bytes n z).
Definition be_val (bs : bytes) : Z := le_val (reverse bs).

Arguments be_bytes : simpl never.
Arguments be_val : simpl never.

Lemma length_le_bytes n z : length (le_bytes n z) = n.
Proof. revert z; induction n; intros z; simpl; auto. Qed.

Lemma length_be_bytes n z : length (be_bytes n z) = n.
Proof. unfold be_bytes. by rewrite length_reverse, length_le_bytes. Qed.

Lemma le_val_bytes n z : le_val (le_bytes n z) = z mod 256 ^ Z.of_nat n.
Proof.
  revert z; induction n as [|n IH]; intros z.
  - simpl. by rewrite Z.mod_1_r.
  - cbn [le_bytes le_val]. rewrite byte_val_of, IH.
    rewrite Nat2Z.inj_succ, Z.pow_succ_r by lia.
    rewrite (Z.mul_comm 256 (256 ^ _)).
    rewrite (Z.mul_comm (256 ^ _) 256), Z.rem_mul_r by lia. lia.
Qed.

Lemma be_val_bytes n z : be_val (be_bytes n z) = z mod 256 ^ Z.of_nat n.
Proof.
  unfold be_val, be_bytes. by rewrite reverse_involutive, le_val_bytes.
Qed.

Lemma le_val_range bs : 0 <= le_val bs < 256 ^ Z.of_nat (length bs).
Proof.
  induction bs as [|b bs IH]; simpl le_val; [simpl; lia|].
  rewrite length_cons, Nat2Z.inj_succ, Z.pow_succ_r by lia.
  pose proof (byte_val_range b). lia.
Qed.

Lemma be_val_range bs : 0 <= be_val bs < 256 ^ Z.of_nat (length bs).
Proof. unfold be_val. rewrite <- length_reverse. apply le_val_range. Qed.

Create Rewrite HintDb gpr.
#[export] Hint Rewrite length_le_bytes length_be_bytes : gpr.

(** Length of a buffer as an integer. *)
Definition len {A} (l : list A) : Z := Z.of_nat (length l).

Lemma len_nonneg {A} (l : list A) : 0 <= len l.
Proof. unfold len. lia. Qed.

Lemma len_nil {A} : len (A := A) [] = 0.
Proof. reflexivity. Qed.

Lemma len_cons {A} (x : A) l : len (x :: l) = 1 + len l.
Proof. unfold len. rewrite length_cons. lia. Qed.

Lemma len_app {A} (l k : list A) : len (l ++ k) = len l + len k.
Proof. unfold len. rewrite length_app. lia. Qed.

#[export] Hint Rewrite @len_nil @len_cons @len_app : gpr.
#[export] Hint Resolve len_nonneg : gp.

(** ** errno values (Linux) *)
Definition ENOENT := 2.
Definition ESRCH := 3.
Definition EINTR := 4.
Definition EIO := 5.
Definition E2BIG := 7.
Definition EAGAIN := 11.
Definition ENOMEM := 12.
Definition EACCES := 13.
Definition EFAULT := 14.
Definition EINVAL := 22.
Definition ENOSPC := 28.
Definition ERANGE := 34.
Definition ENOTSUP := 95.
Definition EBADF := 9.
Definition EEXIST := 17.
Definition ENAMETOOLONG := 36.
Definition EBADFD := 77.
Definition EMSGSIZE := 90.
Definition ETIMEDOUT := 110.
