(* ===== verification/Xdr.v ===== *)
(** * XDR codecs

    The XDR library (libtirpc) is not part of the repository: a stream it
    encodes into and its primitive routines are the operations of the class
    [XdrLib], the class [XdrLaws] states what RFC 4506 and the library's
    manual promise about them, and every routine of rpcgen/ is built from
    them with the combinators below.  [Rfc4506] at the end is a concrete
    instance of both classes.

    An rpcgen routine is one C function for both directions.  Its model is a
    [codec]: what it does on an encoding stream, what it does on the bytes
    left of a decoding stream, and the values its C type can hold. *)

From S2P Require Import Prelude.

Class XdrLib := {
  (** a memory stream being encoded into, with its buffer's contents up to the
      current position and the size it was created with *)
  xstream : Type;
  xdrmem_create : Z -> xstream;
  xdr_getpos : xstream -> Z;
  xdr_setpos : xstream -> Z -> xstream;
  xdr_buffer : xstream -> bytes;
  xdr_size : xstream -> Z;
  (** the primitive routines, by direction *)
  u_int_enc : Z -> xstream -> option xstream;
  u_int_dec : bytes -> option (Z * bytes);
  enum_enc : Z -> xstream -> option xstream;
  enum_dec : bytes -> option (Z * bytes);
  bool_enc : bool -> xstream -> option xstream;
  bool_dec : bytes -> option (bool * bytes);
  u_int32_enc : Z -> xstream -> option xstream;
  u_int32_dec : bytes -> option (Z * bytes);
  bytes_enc : Z -> bytes -> xstream -> option xstream;
  bytes_dec : Z -> bytes -> option (bytes * bytes);
  array_enc : forall A, Z -> Z -> (A -> xstream -> option xstream) ->
              list A -> xstream -> option xstream;
  array_dec : forall A, Z -> Z -> (bytes -> option (A * bytes)) ->
              bytes -> option (list A * bytes);
  pointer_enc : forall A, (A -> xstream -> option xstream) ->
                option A -> xstream -> option xstream;
  pointer_dec : forall A, (bytes -> option (A * bytes)) ->
                bytes -> option (option A * bytes);
}.

Section codecs.
Context `{XL : XdrLib}.

Record codec (A : Type) := Codec {
  xenc : A -> xstream -> option xstream;
  xdec : bytes -> option (A * bytes);
  xdom : A -> Prop;
}.
Arguments Codec {A}.
Arguments xenc {A}.
Arguments xdec {A}.
Arguments xdom {A}.

(** ** The library's routines as codecs *)

Definition xdr_u_int : codec Z := Codec u_int_enc u_int_dec in_u32.
Definition xdr_enum : codec Z := Codec enum_enc enum_dec in_s32.
Definition xdr_bool : codec bool := Codec bool_enc bool_dec (fun _ => True).
Definition xdr_u_int32 : codec Z := Codec u_int32_enc u_int32_dec in_u32.
Definition xdr_bytes (max : Z) : codec bytes :=
  Codec (bytes_enc max) (bytes_dec max) (fun b => len b <= max /\ in_u32 (len b)).
(** [xdr_array] refuses a count over [max], and one whose elements, of [elsize]
    bytes each in memory, would not fit an unsigned int. *)
Definition xdr_array {A} (max elsize : Z) (c : codec A) : codec (list A) :=
  Codec (array_enc A max elsize (xenc c)) (array_dec A max elsize (xdec c))
    (fun l => Forall (xdom c) l /\ len l <= max /\ len l * elsize < 2 ^ 32).
Definition xdr_pointer {A} (c : codec A) : codec (option A) :=
  Codec (pointer_enc A (xenc c)) (pointer_dec A (xdec c))
    (fun o => match o with Some a => xdom c a | None => True end).

(** ** Combinators: the shapes of rpcgen's output *)

(** [if (!f(xdrs, &a)) return FALSE; if (!g(xdrs, &b)) return FALSE;] *)
Definition xdr_seq {A B} (f : codec A) (g : codec B) : codec (A * B) :=
  Codec (fun ab s => s ← xenc f ab.1 s; xenc g ab.2 s)
        (fun i => '(a, i) ← xdec f i; '(b, i) ← xdec g i; Some ((a, b), i))
        (fun ab => xdom f ab.1 /\ xdom g ab.2).

(** a view of [B] as an [A]: the fields of a struct, or one arm of a union *)
Definition xdr_view {A B} (out : B -> option A) (into : A -> B) (c : codec A) : codec B :=
  Codec (fun b s => a ← out b; xenc c a s)
        (fun i => '(a, i) ← xdec c i; Some (into a, i))
        (fun b => match out b with
                  | Some a => xdom c a /\ into a = b
                  | None => False
                  end).
Definition xdr_struct {A B} (out : B -> A) (into : A -> B) (c : codec A) : codec B :=
  xdr_view (fun b => Some (out b)) into c.

(** [if (!tag(xdrs, &objp->t)) return FALSE; switch (objp->t) { ... }] *)
Definition xdr_switch {T B} (ct : codec T) (tag : B -> T) (arm : T -> codec B) : codec B :=
  Codec (fun b s => s ← xenc ct (tag b) s; xenc (arm (tag b)) b s)
        (fun i => '(t, i) ← xdec ct i; xdec (arm t) i)
        (fun b => xdom ct (tag b) /\ xdom (arm (tag b)) b).

(** an arm with no data, and [default: return FALSE] *)
Definition xdr_void : codec unit :=
  Codec (fun _ s => Some s) (fun i => Some (tt, i)) (fun _ => True).
Definition xdr_refuse {A} : codec A :=
  Codec (fun _ _ => None) (fun _ => None) (fun _ => False).

(** ** What it is for a codec to be correct *)

Definition room (s : xstream) : Z := xdr_size s - len (xdr_buffer s).

(** [bs] is the wire image of [a]: it decodes to [a] whatever follows it, and
    encoding [a] appends it when it fits and fails otherwise. *)
Definition image_of {A} (c : codec A) (a : A) (bs : bytes) : Prop :=
  (forall tl, xdec c (bs ++ tl) = Some (a, tl)) /\
  (forall s, len bs <= room s ->
     exists s', xenc c a s = Some s' /\ xdr_buffer s' = xdr_buffer s ++ bs /\
                xdr_size s' = xdr_size s) /\
  (forall s, room s < len bs -> xenc c a s = None).

Definition codec_ok {A} (c : codec A) : Prop :=
  forall a, xdom c a -> exists bs, image_of c a bs.
(** ... with an image of at most [n a] bytes. *)
Definition codec_le {A} (n : A -> Z) (c : codec A) : Prop :=
  forall a, xdom c a -> exists bs, image_of c a bs /\ len bs <= n a.

Lemma codec_le_ok {A} n (c : codec A) : codec_le n c -> codec_ok c.
Proof. intros H a Ha. destruct (H a Ha) as (bs & Hi & _). eauto. Qed.

(** Encoding then decoding, as one statement. *)
Lemma codec_ok_roundtrip {A} (c : codec A) a s s' :
  codec_ok c -> xdom c a -> xenc c a s = Some s' ->
  exists bs, xdr_buffer s' = xdr_buffer s ++ bs /\ xdr_size s' = xdr_size s /\
             forall tl, xdec c (bs ++ tl) = Some (a, tl).
Proof.
  intros Hok Ha Henc. destruct (Hok a Ha) as (bs & Hdec & Hfit & Hno).
  destruct (decide (len bs <= room s)) as [Hle|Hgt].
  - destruct (Hfit s Hle) as (s2 & He & Hb & Hs). rewrite Henc in He.
    injection He as <-. eauto.
  - rewrite Hno in Henc by lia. discriminate.
Qed.
End codecs.

Arguments Codec {XL A}.
Arguments xenc {XL A}.
Arguments xdec {XL A}.
Arguments xdom {XL A}.

Declare Scope xdr_scope.
Delimit Scope xdr_scope with xdr.
Infix "⊗" := xdr_seq (at level 50, left associativity) : xdr_scope.

(** ** The promises of the library *)

Definition pad4 (n : Z) : Z := (4 - n mod 4) mod 4.

Class XdrLaws (XL : XdrLib) : Prop := {
  xdrmem_create_spec n : 0 <= n ->
    xdr_buffer (xdrmem_create n) = [] /\ xdr_size (xdrmem_create n) = n;
  xdr_room s : len (xdr_buffer s) <= xdr_size s;
  xdr_getpos_spec s : xdr_getpos s = len (xdr_buffer s);
  xdr_setpos_0 s : xdr_buffer (xdr_setpos s 0) = [] /\
                   xdr_size (xdr_setpos s 0) = xdr_size s;
  xdr_u_int_law : codec_le (fun _ => 4) xdr_u_int;
  u_int_dec_range i z i' : u_int_dec i = Some (z, i') -> in_u32 z;
  xdr_enum_law : codec_le (fun _ => 4) xdr_enum;
  xdr_bool_law : codec_le (fun _ => 4) xdr_bool;
  xdr_u_int32_law : codec_le (fun _ => 4) xdr_u_int32;
  xdr_bytes_law max : codec_le (fun b => 4 + len b + pad4 (len b)) (xdr_bytes max);
  xdr_array_law A max elsize (c : codec A) : 0 < elsize ->
    codec_ok c -> codec_ok (xdr_array max elsize c);
  xdr_pointer_law A (c : codec A) : codec_ok c -> codec_ok (xdr_pointer c);
}.

Create HintDb xdr discriminated.

(** ** The combinators preserve correctness *)

Section combinators.
Context {XL : XdrLib}.

Lemma image_seq {A B} (f : codec A) (g : codec B) a b x y :
  image_of f a x -> image_of g b y -> image_of (xdr_seq f g) (a, b) (x ++ y).
Proof.
  intros (Df & Ef & Nf) (Dg & Eg & Ng). split_and!; simpl.
  - intros tl. rewrite <- app_assoc, Df. simpl. by rewrite Dg.
  - intros s Hs. rewrite len_app in Hs. pose proof (len_nonneg y).
    destruct (Ef s) as (s1 & E1 & B1 & S1); [lia|].
    destruct (Eg s1) as (s2 & E2 & B2 & S2).
    { unfold room in *. rewrite B1, S1, len_app. lia. }
    exists s2. rewrite E1. simpl. rewrite B2, B1, S2, app_assoc. auto.
  - intros s Hs. rewrite len_app in Hs.
    destruct (decide (room s < len x)) as [Hx|Hx]; [by rewrite Nf|].
    destruct (Ef s) as (s1 & E1 & B1 & S1); [lia|].
    rewrite E1. simpl. apply Ng. unfold room in *. rewrite B1, S1, len_app. lia.
Qed.

Lemma image_view {A B} (out : B -> option A) into (c : codec A) a b x :
  out b = Some a -> into a = b -> image_of c a x ->
  image_of (xdr_view out into c) b x.
Proof.
  intros Ho Hi (D & E & N). split_and!; simpl.
  - intros tl. rewrite D. simpl. by rewrite Hi.
  - intros s Hs. rewrite Ho. apply E, Hs.
  - intros s Hs. rewrite Ho. apply N, Hs.
Qed.

Lemma image_switch {T B} (ct : codec T) (tag : B -> T) (arm : T -> codec B) b x y :
  image_of ct (tag b) x -> image_of (arm (tag b)) b y ->
  image_of (xdr_switch ct tag arm) b (x ++ y).
Proof.
  intros Hf Hg.
  destruct (image_seq ct (arm (tag b)) (tag b) b x y Hf Hg) as (_ & E & N).
  destruct Hf as (Df & _), Hg as (Dg & _). split_and!; simpl; auto.
  intros tl. rewrite <- app_assoc, Df. simpl. by rewrite Dg.
Qed.

Lemma codec_le_seq {A B} n m (f : codec A) (g : codec B) :
  codec_le n f -> codec_le m g -> codec_le (fun ab => n ab.1 + m ab.2) (xdr_seq f g).
Proof.
  intros Hf Hg [a b] [Ha Hb]. destruct (Hf a Ha) as (x & Hx & Lx).
  destruct (Hg b Hb) as (y & Hy & Ly).
  exists (x ++ y). split; [by apply image_seq|]. rewrite len_app. simpl. lia.
Qed.

Lemma codec_ok_seq {A B} (f : codec A) (g : codec B) :
  codec_ok f -> codec_ok g -> codec_ok (xdr_seq f g).
Proof.
  intros Hf Hg [a b] [Ha Hb]. destruct (Hf a Ha) as (x & Hx).
  destruct (Hg b Hb) as (y & Hy). exists (x ++ y). by apply image_seq.
Qed.

Lemma codec_le_view {A B} n (out : B -> option A) into (c : codec A) :
  codec_le n c ->
  codec_le (fun b => match out b with Some a => n a | None => 0 end) (xdr_view out into c).
Proof.
  intros Hc b Hb. simpl in Hb. destruct (out b) as [a|] eqn:Ho; [|done].
  destruct Hb as [Ha Hi]. destruct (Hc a Ha) as (x & Hx & Lx).
  exists x. split; [by eapply image_view|done].
Qed.

Lemma codec_ok_view {A B} (out : B -> option A) into (c : codec A) :
  codec_ok c -> codec_ok (xdr_view out into c).
Proof.
  intros Hc b Hb. simpl in Hb. destruct (out b) as [a|] eqn:Ho; [|done].
  destruct Hb as [Ha Hi]. destruct (Hc a Ha) as (x & Hx).
  exists x. by eapply image_view.
Qed.

Lemma codec_ok_struct {A B} (out : B -> A) into (c : codec A) :
  codec_ok c -> codec_ok (xdr_struct out into c).
Proof. apply codec_ok_view. Qed.

Lemma codec_le_struct {A B} n (out : B -> A) into (c : codec A) :
  codec_le n c -> codec_le (fun b => n (out b)) (xdr_struct out into c).
Proof. apply codec_le_view. Qed.

Lemma codec_le_switch {T B} n m (ct : codec T) (tag : B -> T) (arm : T -> codec B) :
  codec_le n ct -> (forall t, codec_le m (arm t)) ->
  codec_le (fun b => n (tag b) + m b) (xdr_switch ct tag arm).
Proof.
  intros Ht Ha b [Hb1 Hb2]. destruct (Ht _ Hb1) as (x & Hx & Lx).
  destruct (Ha _ _ Hb2) as (y & Hy & Ly).
  exists (x ++ y). split; [by apply image_switch|]. rewrite len_app. lia.
Qed.

Lemma codec_ok_switch {T B} (ct : codec T) (tag : B -> T) (arm : T -> codec B) :
  codec_ok ct -> (forall t, codec_ok (arm t)) -> codec_ok (xdr_switch ct tag arm).
Proof.
  intros Ht Ha b [Hb1 Hb2]. destruct (Ht _ Hb1) as (x & Hx).
  destruct (Ha _ _ Hb2) as (y & Hy). exists (x ++ y). by apply image_switch.
Qed.

Lemma codec_le_weaken {A} n m (c : codec A) :
  (forall a, xdom c a -> n a <= m a) -> codec_le n c -> codec_le m c.
Proof.
  intros Hle Hc a Ha. destruct (Hc a Ha) as (x & Hx & Lx).
  exists x. split; [done|]. specialize (Hle a Ha). lia.
Qed.

Lemma codec_le_refuse {A} n : codec_le n (xdr_refuse (A := A)).
Proof. by intros a []. Qed.

Lemma codec_ok_refuse {A} : codec_ok (xdr_refuse (A := A)).
Proof. by intros a []. Qed.

(** ** Inversion of a successful decode *)

Lemma xdec_seq_inv {A B} (f : codec A) (g : codec B) i a b j :
  xdec (xdr_seq f g) i = Some ((a, b), j) ->
  exists k, xdec f i = Some (a, k) /\ xdec g k = Some (b, j).
Proof.
  simpl. destruct (xdec f i) as [[a' k]|]; simpl; [|done].
  destruct (xdec g k) as [[b' j']|] eqn:E; simpl; [|done]. intros [= -> -> ->]. eauto.
Qed.

Lemma xdec_view_inv {A B} (out : B -> option A) into (c : codec A) i b j :
  xdec (xdr_view out into c) i = Some (b, j) ->
  exists a, xdec c i = Some (a, j) /\ b = into a.
Proof.
  simpl. destruct (xdec c i) as [[a' k]|]; simpl; [|done]. intros [= <- ->]. eauto.
Qed.

Context {LAWS : XdrLaws XL}.

(** A value has one wire image. *)
Lemma image_unique {A} (c : codec A) a x y : image_of c a x -> image_of c a y -> x = y.
Proof.
  intros (_ & Ex & _) (_ & Ey & _).
  destruct (xdrmem_create_spec (len x + len y)) as [Hb Hs];
    [pose proof (len_nonneg x); pose proof (len_nonneg y); lia|].
  set (s := xdrmem_create (len x + len y)) in *.
  assert (Hr : room s = len x + len y) by (unfold room; rewrite Hb, Hs, len_nil; lia).
  pose proof (len_nonneg x). pose proof (len_nonneg y).
  destruct (Ex s) as (s1 & E1 & B1 & _); [lia|].
  destruct (Ey s) as (s2 & E2 & B2 & _); [lia|]. rewrite E1 in E2. injection E2 as <-.
  rewrite B1, Hb in B2. by simplify_list_eq.
Qed.

(** What the encoder writes into a fresh stream is the image. *)
Lemma image_eval {A} (c : codec A) a n s : 0 <= n -> codec_ok c -> xdom c a ->
  xenc c a (xdrmem_create n) = Some s -> image_of c a (xdr_buffer s).
Proof.
  intros Hn Hok Ha He. destruct (Hok a Ha) as (bs & Hi).
  destruct (xdrmem_create_spec n Hn) as [Hb _]. pose proof Hi as (_ & Hfit & Hno).
  destruct (decide (len bs <= room (xdrmem_create n))) as [Hle|Hgt].
  - destruct (Hfit _ Hle) as (s' & E & B & _). rewrite He in E. injection E as <-.
    by rewrite B, Hb.
  - rewrite Hno in He by lia. discriminate.
Qed.

Lemma codec_le_void : codec_le (fun _ => 0) xdr_void.
Proof.
  intros [] _. exists []. split; [|done]. split_and!; simpl; auto.
  - intros s _. exists s. rewrite app_nil_r. auto.
  - intros s Hs. unfold room in Hs. rewrite len_nil in Hs.
    pose proof (xdr_room s). lia.
Qed.

Lemma codec_ok_u_int : codec_ok xdr_u_int.
Proof. eapply codec_le_ok, xdr_u_int_law. Qed.
Lemma codec_ok_enum : codec_ok xdr_enum.
Proof. eapply codec_le_ok, xdr_enum_law. Qed.
Lemma codec_ok_bool : codec_ok xdr_bool.
Proof. eapply codec_le_ok, xdr_bool_law. Qed.
Lemma codec_ok_u_int32 : codec_ok xdr_u_int32.
Proof. eapply codec_le_ok, xdr_u_int32_law. Qed.
Lemma codec_ok_bytes max : codec_ok (xdr_bytes max).
Proof. eapply codec_le_ok, xdr_bytes_law. Qed.
Lemma codec_ok_void : codec_ok xdr_void.
Proof. eapply codec_le_ok, codec_le_void. Qed.
End combinators.

#[export] Hint Resolve codec_ok_seq codec_ok_struct codec_ok_view codec_ok_switch
  codec_ok_refuse codec_ok_void codec_ok_u_int codec_ok_enum codec_ok_bool
  codec_ok_u_int32 codec_ok_bytes : xdr.
#[export] Hint Extern 2 (codec_ok (xdr_array _ _ _)) => apply xdr_array_law; [reflexivity|] : xdr.
#[export] Hint Extern 2 (codec_ok (xdr_pointer _)) => apply xdr_pointer_law : xdr.

#[export] Hint Extern 0 (XdrLaws _) => typeclasses eauto : xdr.

(** [solve_codec] proves that a routine assembled from the combinators and from
    routines already proved is correct. *)
Ltac solve_codec :=
  intros; repeat first
    [ solve [eauto 2 with xdr nocore]
    | apply codec_ok_struct | apply codec_ok_seq | apply codec_ok_view
    | apply codec_ok_switch; [|intros ?; repeat case_match]
    | apply xdr_array_law; [reflexivity|] | apply xdr_pointer_law ].
