(* ===== verification/Rfc4506.v ===== *)
(** * A concrete XDR library

    An instance of [XdrLib] that follows RFC 4506, with its proof of
    [XdrLaws]: the laws the other files assume are satisfiable, and the
    witnesses evaluate on it.  Nothing here is code of the repository. *)

From S2P Require Import Prelude Xdr.

(** A stream never holds more than its capacity, by construction: the capacity
    is what is written plus the room that is left. *)
Record stream := Stream { st_out : bytes; st_left : nat }.

Definition st_put (x : bytes) (s : stream) : option stream :=
  if decide (length x <= st_left s)%nat
  then Some (Stream (st_out s ++ x) (st_left s - length x)%nat) else None.

Definition get_n (n : nat) (i : bytes) : option (bytes * bytes) :=
  if decide (n <= length i)%nat then Some (take n i, drop n i) else None.

Definition padding (n : Z) : bytes := replicate (Z.to_nat (pad4 n)) Byte.x00.

Definition r_u_int_dec (i : bytes) : option (Z * bytes) :=
  '(x, i) ← get_n 4 i; Some (be_val x, i).
Definition r_enum_dec (i : bytes) : option (Z * bytes) :=
  '(x, i) ← get_n 4 i; Some (s32 (be_val x), i).
Definition r_bool_dec (i : bytes) : option (bool * bytes) :=
  '(x, i) ← get_n 4 i; Some (negb (be_val x =? 0), i).
Definition r_bytes_img (b : bytes) : bytes :=
  be_bytes 4 (len b) ++ b ++ padding (len b).
Definition r_bytes_dec (max : Z) (i : bytes) : option (bytes * bytes) :=
  '(n, i) ← r_u_int_dec i;
  if n <=? max then
    '(b, i) ← get_n (Z.to_nat n) i;
    '(_, i) ← get_n (Z.to_nat (pad4 n)) i;
    Some (b, i)
  else None.

Fixpoint r_list_enc {A} (el : A -> stream -> option stream) (l : list A) (s : stream)
  : option stream :=
  match l with
  | [] => Some s
  | a :: l => s ← el a s; r_list_enc el l s
  end.
Fixpoint r_list_dec {A} (el : bytes -> option (A * bytes)) (n : nat) (i : bytes)
  : option (list A * bytes) :=
  match n with
  | O => Some ([], i)
  | S n => '(a, i) ← el i; '(l, i) ← r_list_dec el n i; Some (a :: l, i)
  end.
Definition array_fits (max elsize n : Z) : bool :=
  (n <=? max) && (n * elsize <? 2 ^ 32).
Definition r_array_enc {A} (max elsize : Z) (el : A -> stream -> option stream)
    (l : list A) (s : stream) : option stream :=
  if array_fits max elsize (len l) then
    s ← st_put (be_bytes 4 (len l)) s; r_list_enc el l s
  else None.
Definition r_array_dec {A} (max elsize : Z) (el : bytes -> option (A * bytes))
    (i : bytes) : option (list A * bytes) :=
  '(n, i) ← r_u_int_dec i;
  if array_fits max elsize n then r_list_dec el (Z.to_nat n) i else None.

Definition r_pointer_enc {A} (el : A -> stream -> option stream) (o : option A) (s : stream)
  : option stream :=
  match o with
  | None => st_put (be_bytes 4 0) s
  | Some a => s ← st_put (be_bytes 4 1) s; el a s
  end.
Definition r_pointer_dec {A} (el : bytes -> option (A * bytes)) (i : bytes)
  : option (option A * bytes) :=
  '(b, i) ← r_bool_dec i;
  if (b : bool) then '(a, i) ← el i; Some (Some a, i) else Some (None, i).

#[export] Instance Rfc4506 : XdrLib := {|
  xstream := stream;
  xdrmem_create n := Stream [] (Z.to_nat n);
  xdr_getpos s := len (st_out s);
  xdr_setpos s n :=
    Stream (take (Z.to_nat n) (st_out s))
           (st_left s + length (drop (Z.to_nat n) (st_out s)))%nat;
  xdr_buffer := st_out;
  xdr_size s := len (st_out s) + Z.of_nat (st_left s);
  u_int_enc z := st_put (be_bytes 4 z);
  u_int_dec := r_u_int_dec;
  enum_enc z := st_put (be_bytes 4 z);
  enum_dec := r_enum_dec;
  bool_enc b := st_put (be_bytes 4 (if b then 1 else 0));
  bool_dec := r_bool_dec;
  u_int32_enc z := st_put (be_bytes 4 z);
  u_int32_dec := r_u_int_dec;
  bytes_enc max b s := if len b <=? max then st_put (r_bytes_img b) s else None;
  bytes_dec := r_bytes_dec;
  array_enc A := r_array_enc;
  array_dec A := r_array_dec;
  pointer_enc A := r_pointer_enc;
  pointer_dec A := r_pointer_dec;
|}.

(** ** It keeps the laws *)

Lemma st_put_fits x s : len x <= room (XL := Rfc4506) s ->
  exists s', st_put x s = Some s' /\ st_out s' = st_out s ++ x /\
             len (st_out s') + Z.of_nat (st_left s') = len (st_out s) + Z.of_nat (st_left s).
Proof.
  unfold room, st_put. simpl. intros H. unfold len in *.
  rewrite decide_True by lia. eexists. split; [done|]. simpl.
  rewrite length_app. split; [done|lia].
Qed.

Lemma st_put_full x s : room (XL := Rfc4506) s < len x -> st_put x s = None.
Proof. unfold room, st_put. simpl. intros H. unfold len in *. by rewrite decide_False by lia. Qed.

Lemma get_n_app n x tl : length x = n -> get_n n (x ++ tl) = Some (x, tl).
Proof.
  intros <-. unfold get_n. rewrite decide_True by (rewrite length_app; lia).
  by rewrite take_app_length, drop_app_length.
Qed.

Lemma u_int_dec_app z tl : in_u32 z -> r_u_int_dec (be_bytes 4 z ++ tl) = Some (z, tl).
Proof.
  intros Hz. unfold r_u_int_dec. rewrite get_n_app by apply length_be_bytes. simpl.
  rewrite be_val_bytes, Z.mod_small; [done|]. apply Hz.
Qed.

Lemma bool_dec_app (b : bool) tl :
  r_bool_dec (be_bytes 4 (if b then 1 else 0) ++ tl) = Some (b, tl).
Proof.
  unfold r_bool_dec. rewrite get_n_app by apply length_be_bytes. simpl.
  rewrite be_val_bytes. by destruct b.
Qed.

(** A routine that puts [img a] at once has it as its image. *)
Lemma put_image {A} (c : codec (XL := Rfc4506) A) a x :
  (forall s, xenc c a s = st_put x s) ->
  (forall tl, xdec c (x ++ tl) = Some (a, tl)) -> image_of c a x.
Proof.
  intros He Hd. split_and!; [done| |].
  - intros s Hs. rewrite He. by apply st_put_fits.
  - intros s Hs. rewrite He. by apply st_put_full.
Qed.

Lemma u_int_image z : in_u32 z -> image_of (XL := Rfc4506) xdr_u_int32 z (be_bytes 4 z).
Proof. intros Hz. apply put_image; [done|]. intros tl. by apply u_int_dec_app. Qed.

Lemma r_u_int_law : codec_le (XL := Rfc4506) (fun _ => 4) xdr_u_int.
Proof.
  intros z Hz. exists (be_bytes 4 z). split; [by apply u_int_image|].
  unfold len. by rewrite length_be_bytes.
Qed.

Lemma r_u_int_dec_range i z i' : r_u_int_dec i = Some (z, i') -> in_u32 z.
Proof.
  unfold r_u_int_dec, get_n. case_decide as Hn; simpl; [|done]. intros [= <- <-].
  pose proof (be_val_range (take 4 i)) as Hr. rewrite length_take_le in Hr by done. exact Hr.
Qed.

Lemma r_enum_law : codec_le (XL := Rfc4506) (fun _ => 4) xdr_enum.
Proof.
  intros z Hz. simpl in Hz. exists (be_bytes 4 z). split; [|by unfold len; rewrite length_be_bytes].
  apply put_image; [done|]. intros tl. change (r_enum_dec (be_bytes 4 z ++ tl) = Some (z, tl)). unfold r_enum_dec.
  rewrite get_n_app by apply length_be_bytes. simpl. rewrite be_val_bytes.
  change (z mod 256 ^ Z.of_nat 4) with (u32 z). by rewrite (s32_u32 z Hz).
Qed.

Lemma r_bool_law : codec_le (XL := Rfc4506) (fun _ => 4) xdr_bool.
Proof.
  intros b _. exists (be_bytes 4 (if b then 1 else 0)).
  split; [|by unfold len; rewrite length_be_bytes].
  apply put_image; [done|]. apply bool_dec_app.
Qed.

Lemma pad4_range n : 0 <= pad4 n < 4.
Proof. unfold pad4. apply Z.mod_pos_bound. lia. Qed.

Lemma r_bytes_image max b : len b <= max /\ in_u32 (len b) ->
  image_of (XL := Rfc4506) (xdr_bytes max) b (r_bytes_img b).
Proof.
  intros [Hmax Hb]. pose proof (pad4_range (len b)) as Hp.
  assert (Hpad : length (padding (len b)) = Z.to_nat (pad4 (len b)))
    by apply length_replicate.
  apply put_image.
  - intros s. simpl. by rewrite (proj2 (Z.leb_le _ _) Hmax).
  - intros tl. change (r_bytes_dec max (r_bytes_img b ++ tl) = Some (b, tl)).
    unfold r_bytes_dec, r_bytes_img. rewrite <- !app_assoc.
    rewrite u_int_dec_app by done. simpl. rewrite (proj2 (Z.leb_le _ _) Hmax).
    rewrite get_n_app by (unfold len; lia). simpl. by rewrite get_n_app.
Qed.

Lemma r_bytes_law max :
  codec_le (XL := Rfc4506) (fun b => 4 + len b + pad4 (len b)) (xdr_bytes max).
Proof.
  intros b Hb. exists (r_bytes_img b). split; [by apply r_bytes_image|].
  pose proof (pad4_range (len b)) as Hp. unfold r_bytes_img. rewrite !len_app.
  assert (len (be_bytes 4 (len b)) = 4) as -> by (unfold len at 1; by rewrite length_be_bytes).
  assert (len (padding (len b)) = pad4 (len b)) as ->; [|lia].
  unfold len at 1, padding. rewrite length_replicate. lia.
Qed.

Section list_law.
Context {A} (c : codec (XL := Rfc4506) A) (Hc : codec_ok c).

Definition list_codec (n : nat) : codec (XL := Rfc4506) (list A) :=
  Codec (r_list_enc (xenc c)) (r_list_dec (xdec c) n)
    (fun l => Forall (xdom c) l /\ length l = n).

Lemma list_codec_ok l : Forall (xdom c) l ->
  exists x, image_of (list_codec (length l)) l x.
Proof.
  induction 1 as [|a l Ha Hl (y & Dy & Ey & Ny)].
  - exists []. split_and!; simpl.
    + by intros tl.
    + intros s _. exists s. by rewrite app_nil_r.
    + intros s Hs. unfold room, len in Hs. simpl in Hs. unfold len in Hs. simpl in Hs. lia.
  - destruct (Hc a Ha) as (x & Dx & Ex & Nx). exists (x ++ y). simpl in Dy, Ey, Ny.
    split_and!; simpl.
    + intros tl. rewrite <- app_assoc, Dx. simpl. by rewrite Dy.
    + apply (image_seq c (list_codec (length l)) a l x y); by split_and!.
    + apply (image_seq c (list_codec (length l)) a l x y); by split_and!.
Qed.

Lemma r_array_law max elsize : 0 < elsize ->
  codec_ok (XL := Rfc4506) (xdr_array max elsize c).
Proof.
  intros Hel l (Hl & Hmax & Hsz). pose proof (len_nonneg l) as Hnn.
  assert (Hn : in_u32 (len l)) by (split; [lia|nia]).
  destruct (list_codec_ok l Hl) as (y & Iy).
  destruct (r_u_int_law (len l) Hn) as (x & Ix & _).
  destruct (image_seq _ _ _ _ _ _ Ix Iy) as (_ & E & N).
  assert (Hfit : array_fits max elsize (len l) = true) by (unfold array_fits; lia).
  exists (x ++ y). split_and!; simpl in *.
  - intros tl. unfold r_array_dec. rewrite <- app_assoc.
    destruct Ix as (Dx & _). simpl in Dx. rewrite Dx. simpl. rewrite Hfit.
    unfold len. rewrite Nat2Z.id. apply Iy.
  - intros s. unfold r_array_enc. rewrite Hfit. apply E.
  - intros s. unfold r_array_enc. rewrite Hfit. apply N.
Qed.

Lemma r_pointer_law : codec_ok (XL := Rfc4506) (xdr_pointer c).
Proof.
  intros [a|] Ha; simpl in Ha.
  - destruct (Hc a Ha) as (y & Iy). destruct (r_bool_law true I) as (x & Ix & _).
    destruct (image_seq _ _ _ _ _ _ Ix Iy) as (_ & E & N).
    destruct Ix as (Dx & _), Iy as (Dy & _). simpl in *.
    exists (x ++ y). split_and!; simpl; [|apply E|apply N].
    intros tl. rewrite <- app_assoc. unfold r_pointer_dec. rewrite Dx. simpl. by rewrite Dy.
  - exists (be_bytes 4 0). apply put_image; [done|].
    intros tl. change (r_pointer_dec (xdec c) (be_bytes 4 0 ++ tl) = Some (None, tl)).
    unfold r_pointer_dec. by rewrite (bool_dec_app false tl).
Qed.
End list_law.

#[export] Instance Rfc4506_laws : XdrLaws Rfc4506.
Proof.
  split.
  - intros n Hn. split; [done|]. simpl. unfold len. simpl. lia.
  - intros s. simpl. lia.
  - done.
  - intros s. split; [done|]. simpl. rewrite drop_0. unfold len. simpl. lia.
  - apply r_u_int_law.
  - apply r_u_int_dec_range.
  - apply r_enum_law.
  - apply r_bool_law.
  - apply r_u_int_law.
  - apply r_bytes_law.
  - intros. by apply r_array_law.
  - intros. by apply r_pointer_law.
Qed.
