(* ===== verification/RpcXdr.v ===== *)
(** * ONC RPC messages and their XDR routines

    rpcgen/gp_rpc.h (the types), rpcgen/gp_rpc_xdr.c (one routine per type) and
    rpcgen/gp_xdr.c (64-bit integers).  An XDR enum is the integer it is on the
    wire, since decoding accepts any. *)

From S2P Require Import Prelude Xdr Rfc4506.

(** ** Constants (rpcgen/gp_rpc.h) *)
Definition GP_RPC_AUTH_NONE := 0.
Definition GP_RPC_CALL := 0.
Definition GP_RPC_REPLY := 1.
Definition GP_RPC_MSG_ACCEPTED := 0.
Definition GP_RPC_MSG_DENIED := 1.
Definition GP_RPC_SUCCESS := 0.
Definition GP_RPC_PROG_UNAVAIL := 1.
Definition GP_RPC_PROG_MISMATCH := 2.
Definition GP_RPC_PROC_UNAVAIL := 3.
Definition GP_RPC_GARBAGE_ARGS := 4.
Definition GP_RPC_SYSTEM_ERR := 5.
Definition GP_RPC_RPC_MISMATCH := 0.
Definition GP_RPC_AUTH_ERROR := 1.
Definition GP_RPC_AUTH_FAILED := 7.

(** ** Types *)

Record gp_rpc_opaque_auth := OpaqueAuth { flavor : Z; body : bytes }.
Record gp_rpc_mismatch_info := MismatchInfo { low : Z; high : Z }.

(** [default: break] keeps any other status, with no data *)
Inductive gp_rpc_reply_union :=
| ReplySuccess
| ReplyProgMismatch (mismatch_info : gp_rpc_mismatch_info)
| ReplyVoid (status : Z).

Record gp_rpc_accepted_reply := AcceptedReply {
  ar_verf : gp_rpc_opaque_auth; reply_data : gp_rpc_reply_union }.

Inductive gp_rpc_rejected_reply :=
| RejRpcMismatch (mismatch_info : gp_rpc_mismatch_info)
| RejAuthError (status : Z).

Record gp_rpc_call_header := CallHeader {
  rpcvers : Z; prog : Z; vers : Z; proc : Z;
  cred : gp_rpc_opaque_auth; verf : gp_rpc_opaque_auth }.

Inductive gp_rpc_reply_header :=
| MsgAccepted (accepted : gp_rpc_accepted_reply)
| MsgDenied (rejected : gp_rpc_rejected_reply).

Inductive gp_rpc_msg_union :=
| MsgCall (chdr : gp_rpc_call_header)
| MsgReply (rhdr : gp_rpc_reply_header).

Record gp_rpc_msg := RpcMsg { xid : Z; header : gp_rpc_msg_union }.

(** ** The discriminants *)

Definition reply_union_status (r : gp_rpc_reply_union) : Z :=
  match r with
  | ReplySuccess => GP_RPC_SUCCESS
  | ReplyProgMismatch _ => GP_RPC_PROG_MISMATCH
  | ReplyVoid s => s
  end.
Definition rejected_status (r : gp_rpc_rejected_reply) : Z :=
  match r with
  | RejRpcMismatch _ => GP_RPC_RPC_MISMATCH
  | RejAuthError _ => GP_RPC_AUTH_ERROR
  end.
Definition reply_header_status (r : gp_rpc_reply_header) : Z :=
  match r with
  | MsgAccepted _ => GP_RPC_MSG_ACCEPTED
  | MsgDenied _ => GP_RPC_MSG_DENIED
  end.
Definition msg_union_type (m : gp_rpc_msg_union) : Z :=
  match m with MsgCall _ => GP_RPC_CALL | MsgReply _ => GP_RPC_REPLY end.

Section routines.
Context {XL : XdrLib}.
Open Scope xdr_scope.

(** rpcgen/gp_xdr.c: two 32-bit words, the high one first *)
Definition gp_xdr_uint64_t : codec Z :=
  xdr_view (fun v => Some (u32 (Z.shiftr v 32), u32 v))
           (fun hl => u64 (Z.lor (Z.shiftl hl.1 32) hl.2))
           (xdr_u_int32 ⊗ xdr_u_int32).

Definition xdr_gp_rpc_auth_flavor : codec Z := xdr_enum.
Definition xdr_gp_rpc_opaque_auth : codec gp_rpc_opaque_auth :=
  xdr_struct (fun a => (flavor a, body a)) (fun '(f, b) => OpaqueAuth f b)
    (xdr_gp_rpc_auth_flavor ⊗ xdr_bytes 400).
Definition xdr_gp_rpc_msg_type : codec Z := xdr_enum.
Definition xdr_gp_rpc_reply_status : codec Z := xdr_enum.
Definition xdr_gp_rpc_accept_status : codec Z := xdr_enum.
Definition xdr_gp_rpc_reject_status : codec Z := xdr_enum.
Definition xdr_gp_rpc_auth_status : codec Z := xdr_enum.
Definition xdr_gp_rpc_mismatch_info : codec gp_rpc_mismatch_info :=
  xdr_struct (fun m => (low m, high m)) (fun '(l, h) => MismatchInfo l h)
    (xdr_u_int ⊗ xdr_u_int).

(** the [opaque results[0]] of a success takes no bytes *)
Definition xdr_gp_rpc_reply_union : codec gp_rpc_reply_union :=
  xdr_switch xdr_gp_rpc_accept_status reply_union_status (fun t =>
    if t =? GP_RPC_SUCCESS then
      xdr_view (fun r => match r with ReplySuccess => Some tt | _ => None end)
               (fun _ => ReplySuccess) xdr_void
    else if t =? GP_RPC_PROG_MISMATCH then
      xdr_view (fun r => match r with ReplyProgMismatch m => Some m | _ => None end)
               ReplyProgMismatch xdr_gp_rpc_mismatch_info
    else
      xdr_view (fun r => match r with ReplyVoid _ => Some tt | _ => None end)
               (fun _ => ReplyVoid t) xdr_void).

Definition xdr_gp_rpc_accepted_reply : codec gp_rpc_accepted_reply :=
  xdr_struct (fun a => (ar_verf a, reply_data a)) (fun '(v, r) => AcceptedReply v r)
    (xdr_gp_rpc_opaque_auth ⊗ xdr_gp_rpc_reply_union).

Definition xdr_gp_rpc_rejected_reply : codec gp_rpc_rejected_reply :=
  xdr_switch xdr_gp_rpc_reject_status rejected_status (fun t =>
    if t =? GP_RPC_RPC_MISMATCH then
      xdr_view (fun r => match r with RejRpcMismatch m => Some m | _ => None end)
               RejRpcMismatch xdr_gp_rpc_mismatch_info
    else if t =? GP_RPC_AUTH_ERROR then
      xdr_view (fun r => match r with RejAuthError s => Some s | _ => None end)
               RejAuthError xdr_gp_rpc_auth_status
    else xdr_refuse).

(** the XDR_INLINE fast path moves the same four words *)
Definition xdr_gp_rpc_call_header : codec gp_rpc_call_header :=
  xdr_struct (fun h => (rpcvers h, prog h, vers h, proc h, cred h, verf h))
    (fun '(r, p, v, q, c, w) => CallHeader r p v q c w)
    (xdr_u_int ⊗ xdr_u_int ⊗ xdr_u_int ⊗ xdr_u_int
     ⊗ xdr_gp_rpc_opaque_auth ⊗ xdr_gp_rpc_opaque_auth).

Definition xdr_gp_rpc_reply_header : codec gp_rpc_reply_header :=
  xdr_switch xdr_gp_rpc_reply_status reply_header_status (fun t =>
    if t =? GP_RPC_MSG_ACCEPTED then
      xdr_view (fun r => match r with MsgAccepted a => Some a | _ => None end)
               MsgAccepted xdr_gp_rpc_accepted_reply
    else if t =? GP_RPC_MSG_DENIED then
      xdr_view (fun r => match r with MsgDenied d => Some d | _ => None end)
               MsgDenied xdr_gp_rpc_rejected_reply
    else xdr_refuse).

Definition xdr_gp_rpc_msg_union : codec gp_rpc_msg_union :=
  xdr_switch xdr_gp_rpc_msg_type msg_union_type (fun t =>
    if t =? GP_RPC_CALL then
      xdr_view (fun m => match m with MsgCall c => Some c | _ => None end)
               MsgCall xdr_gp_rpc_call_header
    else if t =? GP_RPC_REPLY then
      xdr_view (fun m => match m with MsgReply r => Some r | _ => None end)
               MsgReply xdr_gp_rpc_reply_header
    else xdr_refuse).

Definition xdr_gp_rpc_msg : codec gp_rpc_msg :=
  xdr_struct (fun m => (xid m, header m)) (fun '(x, h) => RpcMsg x h)
    (xdr_u_int ⊗ xdr_gp_rpc_msg_union).

(** ** Correctness *)
Context {LAWS : XdrLaws XL}.

Lemma uint64_split v : in_u64 v ->
  u64 (Z.lor (Z.shiftl (u32 (Z.shiftr v 32)) 32) (u32 v)) = v.
Proof.
  unfold in_u64, u64, u32. intros Hv.
  rewrite Z.shiftr_div_pow2 by lia.
  rewrite (Z.mod_small (v / _)) by (split; [apply Z.div_pos|apply Z.div_lt_upper_bound]; lia).
  set (h := Z.shiftl _ 32). set (l := v mod 2 ^ 32).
  assert (Hd : Z.land h l = 0).
  { unfold h, l. rewrite <- Z.land_ones by lia. apply Z.bits_inj'. intros n Hn.
    rewrite Z.land_spec, Z.shiftl_spec, Z.land_spec, Z.bits_0 by lia.
    destruct (Z.ltb_spec n 32).
    - by rewrite Z.testbit_neg_r by lia.
    - rewrite Z.ones_spec_high by lia. by rewrite !andb_false_r. }
  pose proof (Z.add_lor_land h l) as Hsum. rewrite Hd in Hsum.
  replace (Z.lor h l) with (h + l) by lia. unfold h, l.
  rewrite Z.shiftl_mul_pow2 by lia. pose proof (Z.div_mod v (2 ^ 32) ltac:(lia)).
  rewrite Z.mod_small; lia.
Qed.

(** A 64-bit value always is in the routine's domain. *)
Lemma uint64_dom v : in_u64 v -> xdom gp_xdr_uint64_t v.
Proof.
  intros Hv. simpl. split; [split; apply u32_range|]. by apply uint64_split.
Qed.

Lemma codec_ok_uint64 : codec_ok gp_xdr_uint64_t.
Proof. solve_codec. Qed.

Lemma codec_ok_opaque_auth : codec_ok xdr_gp_rpc_opaque_auth.
Proof. solve_codec. Qed.
Lemma codec_ok_mismatch_info : codec_ok xdr_gp_rpc_mismatch_info.
Proof. solve_codec. Qed.
Hint Resolve codec_ok_opaque_auth codec_ok_mismatch_info : xdr.
Lemma codec_ok_reply_union : codec_ok xdr_gp_rpc_reply_union.
Proof. solve_codec. Qed.
Hint Resolve codec_ok_reply_union : xdr.
Lemma codec_ok_accepted_reply : codec_ok xdr_gp_rpc_accepted_reply.
Proof. solve_codec. Qed.
Lemma codec_ok_rejected_reply : codec_ok xdr_gp_rpc_rejected_reply.
Proof. solve_codec. Qed.
Lemma codec_ok_call_header : codec_ok xdr_gp_rpc_call_header.
Proof. solve_codec. Qed.
Hint Resolve codec_ok_accepted_reply codec_ok_rejected_reply codec_ok_call_header : xdr.
Lemma codec_ok_reply_header : codec_ok xdr_gp_rpc_reply_header.
Proof. solve_codec. Qed.
Hint Resolve codec_ok_reply_header : xdr.
Lemma codec_ok_msg_union : codec_ok xdr_gp_rpc_msg_union.
Proof. solve_codec. Qed.
Hint Resolve codec_ok_msg_union : xdr.
Lemma codec_ok_msg : codec_ok xdr_gp_rpc_msg.
Proof. solve_codec. Qed.

(** ** The length of a message's image *)

Definition auth_size (a : gp_rpc_opaque_auth) : Z :=
  8 + len (body a) + pad4 (len (body a)).
Definition reply_header_size (r : gp_rpc_reply_header) : Z :=
  match r with MsgAccepted a => auth_size (ar_verf a) + 12 | MsgDenied _ => 12 end.
Definition rpc_msg_size (m : gp_rpc_msg) : Z :=
  12 + match header m with
       | MsgCall c => 16 + auth_size (cred c) + auth_size (verf c)
       | MsgReply r => reply_header_size r
       end.

(** an arm of a switch, bounded by what the whole is bounded by *)
Lemma codec_le_arm {A B} n m (out : B -> option A) into (c : codec A) :
  codec_le n c -> (forall a b, out b = Some a -> n a <= m b) ->
  codec_le m (xdr_view out into c).
Proof.
  intros Hc Hm. eapply codec_le_weaken; [|by apply codec_le_view].
  intros b Hb. simpl in *. destruct (out b) eqn:E; [by apply Hm|done].
Qed.

Lemma codec_le_opaque_auth : codec_le auth_size xdr_gp_rpc_opaque_auth.
Proof.
  eapply codec_le_arm; [apply codec_le_seq; [apply xdr_enum_law|apply xdr_bytes_law]|].
  intros [f b] a [= <- <-]. unfold auth_size. simpl. lia.
Qed.

Lemma codec_le_mismatch_info : codec_le (fun _ => 8) xdr_gp_rpc_mismatch_info.
Proof.
  eapply codec_le_arm; [apply codec_le_seq; apply xdr_u_int_law|].
  intros a b _. lia.
Qed.

Lemma codec_le_reply_union : codec_le (fun _ => 12) xdr_gp_rpc_reply_union.
Proof.
  eapply codec_le_weaken; [|apply codec_le_switch with (m := fun _ => 8);
    [apply xdr_enum_law|intros t; repeat case_match]].
  - intros. simpl. lia.
  - eapply codec_le_arm; [apply codec_le_void|]. intros. lia.
  - eapply codec_le_arm; [apply codec_le_mismatch_info|]. intros. lia.
  - eapply codec_le_arm; [apply codec_le_void|]. intros. lia.
Qed.

Lemma codec_le_rejected_reply : codec_le (fun _ => 12) xdr_gp_rpc_rejected_reply.
Proof.
  eapply codec_le_weaken; [|apply codec_le_switch with (m := fun _ => 8);
    [apply xdr_enum_law|intros t; repeat case_match]].
  - intros. simpl. lia.
  - eapply codec_le_arm; [apply codec_le_mismatch_info|]. intros. lia.
  - eapply codec_le_arm; [apply xdr_enum_law|]. intros. lia.
  - apply codec_le_refuse.
Qed.

Lemma codec_le_accepted_reply :
  codec_le (fun a => auth_size (ar_verf a) + 12) xdr_gp_rpc_accepted_reply.
Proof.
  eapply codec_le_arm;
    [apply codec_le_seq; [apply codec_le_opaque_auth|apply codec_le_reply_union]|].
  intros a b [= <-]. simpl. lia.
Qed.

Lemma codec_le_call_header :
  codec_le (fun c => 16 + auth_size (cred c) + auth_size (verf c)) xdr_gp_rpc_call_header.
Proof.
  eapply codec_le_arm.
  - apply codec_le_seq; [|apply codec_le_opaque_auth].
    apply codec_le_seq; [|apply codec_le_opaque_auth].
    apply codec_le_seq; [|apply xdr_u_int_law]. apply codec_le_seq; [|apply xdr_u_int_law].
    apply codec_le_seq; apply xdr_u_int_law.
  - intros a b [= <-]. simpl. lia.
Qed.

Lemma codec_le_reply_header :
  codec_le (fun r => 4 + reply_header_size r) xdr_gp_rpc_reply_header.
Proof.
  apply codec_le_switch with (n := fun _ => 4); [apply xdr_enum_law|].
  intros t. repeat case_match.
  - eapply codec_le_arm; [apply codec_le_accepted_reply|]. by intros a [] [= <-].
  - eapply codec_le_arm; [apply codec_le_rejected_reply|]. by intros a [] [= <-].
  - apply codec_le_refuse.
Qed.

Lemma codec_le_msg : codec_le rpc_msg_size xdr_gp_rpc_msg.
Proof.
  eapply codec_le_arm.
  - apply codec_le_seq; [apply xdr_u_int_law|].
    apply codec_le_switch with (n := fun _ => 4)
      (m := fun u => match u with
                     | MsgCall c => 16 + auth_size (cred c) + auth_size (verf c)
                     | MsgReply r => 4 + reply_header_size r
                     end); [apply xdr_enum_law|].
    intros t. repeat case_match.
    + eapply codec_le_arm; [apply codec_le_call_header|]. by intros a [] [= <-].
    + eapply codec_le_arm; [apply codec_le_reply_header|]. by intros a [] [= <-].
    + apply codec_le_refuse.
  - intros [x h] m [= <- <-]. unfold rpc_msg_size. simpl. destruct (header m); lia.
Qed.

(** The transaction id a message decodes with is an unsigned int. *)
Lemma msg_dec_xid i m i' : xdec xdr_gp_rpc_msg i = Some (m, i') -> in_u32 (xid m).
Proof.
  intros H. apply xdec_view_inv in H as ([x h] & H & ->).
  apply xdec_seq_inv in H as (j & Hx & _). by eapply u_int_dec_range.
Qed.
End routines.

#[export] Hint Resolve codec_ok_uint64 codec_ok_msg : xdr.

(** ** Two words make a hyper

    [gp_xdr_uint64_t] puts the high word first, so it writes the 8 bytes of RFC 4506's
    unsigned hyper. *)

Lemma le_bytes_app n m z :
  le_bytes (n + m) z = le_bytes n z ++ le_bytes m (z / 256 ^ Z.of_nat n).
Proof.
  revert z. induction n as [|n IH]; intros z; [by rewrite Z.div_1_r|].
  cbn [le_bytes Nat.add app]. rewrite IH, Z.div_div by lia.
  by rewrite Nat2Z.inj_succ, Z.pow_succ_r by lia.
Qed.

Lemma byte_of_mod z k : k mod 256 = 0 -> byte_of (z mod k) = byte_of z \/ k = 0.
Proof.
  intros Hk. destruct (decide (k = 0)) as [->|Hk0]; [auto|]. left. unfold byte_of.
  apply Z.mod_divide in Hk as [q ->]; [|lia]. by rewrite Z.mul_comm, Z.mod_mod_divide
    by (exists q; lia).
Qed.

Lemma le_bytes_mod n z : le_bytes n (z mod 256 ^ Z.of_nat n) = le_bytes n z.
Proof.
  revert z. induction n as [|n IH]; intros z; [done|]. cbn [le_bytes].
  rewrite Nat2Z.inj_succ, Z.pow_succ_r by lia. f_equal.
  - destruct (byte_of_mod z (256 * 256 ^ Z.of_nat n)) as [->|H]; [|done|].
    + by rewrite Z.mul_comm, Z.mod_mul by lia.
    + pose proof (Z.pow_pos_nonneg 256 (Z.of_nat n)). lia.
  - rewrite <- (IH (z / 256)). f_equal. rewrite Z.rem_mul_r by lia.
    rewrite Z.mul_comm, Z.div_add by lia.
    rewrite (Z.div_small (z mod 256)) by (apply Z.mod_pos_bound; lia). lia.
Qed.

(** On the wire a 64-bit integer is exactly the 8 bytes, most significant first, of
    an RFC 4506 unsigned hyper, and it reads back. *)
Theorem gp_xdr_uint64_is_hyper v : in_u64 v ->
  image_of (XL := Rfc4506) gp_xdr_uint64_t v (be_bytes 8 v).
Proof.
  intros Hv. destruct (uint64_dom (XL := Rfc4506) v Hv) as [[Hh Hl] Hb].
  assert (be_bytes 8 v = be_bytes 4 (u32 (Z.shiftr v 32)) ++ be_bytes 4 (u32 v)) as ->.
  { unfold be_bytes, u32. rewrite <- reverse_app. f_equal.
    change (2 ^ 32) with (256 ^ Z.of_nat 4). rewrite !le_bytes_mod.
    rewrite Z.shiftr_div_pow2 by lia. change (2 ^ 32) with (256 ^ Z.of_nat 4).
    by rewrite <- le_bytes_app. }
  eapply image_view; [reflexivity|exact Hb|]. apply image_seq; by apply u_int_image.
Qed.

Lemma gp_xdr_uint64_is_hyper_witness : in_u64 (2 ^ 40 + 5) /\
  image_of (XL := Rfc4506) gp_xdr_uint64_t (2 ^ 40 + 5) (be_bytes 8 (2 ^ 40 + 5)).
Proof. split; [done|]. apply gp_xdr_uint64_is_hyper. done. Defined.
