(* ===== verification/GssxXdr.v ===== *)
(** * The GSS-Proxy protocol: data and XDR routines

    rpcgen/gss_proxy.h (the structures) and rpcgen/gss_proxy_xdr.c (one routine
    per structure).  A counted octet string is its bytes, a counted array a list,
    an optional pointer an option; a field [f] of [struct gssx_s] is [s_f]. *)

From S2P Require Import Prelude Xdr RpcXdr.

Definition GSSX_C_INITIATE := 1.
Definition GSSX_C_ACCEPT := 2.
Definition GSSX_C_BOTH := 3.
Definition GSSX_C_HANDLE_SEC_CTX := 0.
Definition GSSX_C_HANDLE_CRED := 1.

(** [~0] as an unsigned int: the bound rpcgen gives an unbounded array *)
Definition MAXCOUNT := 2 ^ 32 - 1.

(** sizeof the element types of arrays, in the LP64 data model *)
Definition sizeof_gssx_OID := 16.
Definition sizeof_gssx_buffer := 16.
Definition sizeof_gssx_cred_element := 152.
Definition sizeof_gssx_mech_attr := 80.
Definition sizeof_gssx_mech_info := 160.
Definition sizeof_gssx_name_attr := 48.
Definition sizeof_gssx_option := 32.

(** ** Data *)

Record gssx_option := Mk_option {
  option_option : bytes;
  option_value : bytes }.

Record gssx_mech_attr := Mk_mech_attr {
  mech_attr_attr : bytes;
  mech_attr_name : bytes;
  mech_attr_short_desc : bytes;
  mech_attr_long_desc : bytes;
  mech_attr_extensions : list gssx_option }.

Record gssx_mech_info := Mk_mech_info {
  mech_info_mech : bytes;
  mech_info_name_types : list bytes;
  mech_info_mech_attrs : list bytes;
  mech_info_known_mech_attrs : list bytes;
  mech_info_cred_options : list bytes;
  mech_info_sec_ctx_options : list bytes;
  mech_info_saslname_sasl_mech_name : bytes;
  mech_info_saslname_mech_name : bytes;
  mech_info_saslname_mech_desc : bytes;
  mech_info_extensions : list gssx_option }.

Record gssx_name_attr := Mk_name_attr {
  name_attr_attr : bytes;
  name_attr_value : bytes;
  name_attr_extensions : list gssx_option }.

Record gssx_status := Mk_status {
  status_major_status : Z;
  status_mech : bytes;
  status_minor_status : Z;
  status_major_status_string : bytes;
  status_minor_status_string : bytes;
  status_server_ctx : bytes;
  status_options : list gssx_option }.

Record gssx_call_ctx := Mk_call_ctx {
  call_ctx_locale : bytes;
  call_ctx_server_ctx : bytes;
  call_ctx_options : list gssx_option }.

Record gssx_name := Mk_name {
  name_display_name : bytes;
  name_name_type : bytes;
  name_exported_name : bytes;
  name_exported_composite_name : bytes;
  name_name_attributes : list gssx_name_attr;
  name_extensions : list gssx_option }.

Record gssx_cred_element := Mk_cred_element {
  cred_element_MN : gssx_name;
  cred_element_mech : bytes;
  cred_element_cred_usage : Z;
  cred_element_initiator_time_rec : Z;
  cred_element_acceptor_time_rec : Z;
  cred_element_options : list gssx_option }.

Record gssx_cred := Mk_cred {
  cred_desired_name : gssx_name;
  cred_elements : list gssx_cred_element;
  cred_cred_handle_reference : bytes;
  cred_needs_release : bool }.

Record gssx_ctx := Mk_ctx {
  ctx_exported_context_token : bytes;
  ctx_state : bytes;
  ctx_needs_release : bool;
  ctx_mech : bytes;
  ctx_src_name : gssx_name;
  ctx_targ_name : gssx_name;
  ctx_lifetime : Z;
  ctx_ctx_flags : Z;
  ctx_locally_initiated : bool;
  ctx_open : bool;
  ctx_options : list gssx_option }.

Inductive gssx_handle :=
| HandleCred (cred_info : gssx_cred)
| HandleSecCtx (sec_ctx_info : gssx_ctx)
| HandleOther (handle_type : Z) (extensions : bytes).

Record gssx_cb := Mk_cb {
  cb_initiator_addrtype : Z;
  cb_initiator_address : bytes;
  cb_acceptor_addrtype : Z;
  cb_acceptor_address : bytes;
  cb_application_data : bytes }.

Record gssx_arg_release_handle := Mk_arg_release_handle {
  arg_release_handle_call_ctx : gssx_call_ctx;
  arg_release_handle_cred_handle : gssx_handle }.

Record gssx_res_release_handle := Mk_res_release_handle {
  res_release_handle_status : gssx_status }.

Record gssx_arg_indicate_mechs := Mk_arg_indicate_mechs {
  arg_indicate_mechs_call_ctx : gssx_call_ctx }.

Record gssx_res_indicate_mechs := Mk_res_indicate_mechs {
  res_indicate_mechs_status : gssx_status;
  res_indicate_mechs_mechs : list gssx_mech_info;
  res_indicate_mechs_mech_attr_descs : list gssx_mech_attr;
  res_indicate_mechs_supported_extensions : list bytes;
  res_indicate_mechs_extensions : list gssx_option }.

Record gssx_arg_import_and_canon_name := Mk_arg_import_and_canon_name {
  arg_import_and_canon_name_call_ctx : gssx_call_ctx;
  arg_import_and_canon_name_input_name : gssx_name;
  arg_import_and_canon_name_mech : bytes;
  arg_import_and_canon_name_name_attributes : list gssx_name_attr;
  arg_import_and_canon_name_options : list gssx_option }.

Record gssx_res_import_and_canon_name := Mk_res_import_and_canon_name {
  res_import_and_canon_name_status : gssx_status;
  res_import_and_canon_name_output_name : option gssx_name;
  res_import_and_canon_name_options : list gssx_option }.

Record gssx_arg_get_call_context := Mk_arg_get_call_context {
  arg_get_call_context_call_ctx : gssx_call_ctx;
  arg_get_call_context_options : list gssx_option }.

Record gssx_res_get_call_context := Mk_res_get_call_context {
  res_get_call_context_status : gssx_status;
  res_get_call_context_server_call_ctx : bytes;
  res_get_call_context_options : list gssx_option }.

Record gssx_arg_acquire_cred := Mk_arg_acquire_cred {
  arg_acquire_cred_call_ctx : gssx_call_ctx;
  arg_acquire_cred_input_cred_handle : option gssx_cred;
  arg_acquire_cred_add_cred_to_input_handle : bool;
  arg_acquire_cred_desired_name : option gssx_name;
  arg_acquire_cred_time_req : Z;
  arg_acquire_cred_desired_mechs : list bytes;
  arg_acquire_cred_cred_usage : Z;
  arg_acquire_cred_initiator_time_req : Z;
  arg_acquire_cred_acceptor_time_req : Z;
  arg_acquire_cred_options : list gssx_option }.

Record gssx_res_acquire_cred := Mk_res_acquire_cred {
  res_acquire_cred_status : gssx_status;
  res_acquire_cred_output_cred_handle : option gssx_cred;
  res_acquire_cred_options : list gssx_option }.

Record gssx_arg_export_cred := Mk_arg_export_cred {
  arg_export_cred_call_ctx : gssx_call_ctx;
  arg_export_cred_input_cred_handle : gssx_cred;
  arg_export_cred_cred_usage : Z;
  arg_export_cred_options : list gssx_option }.

Record gssx_res_export_cred := Mk_res_export_cred {
  res_export_cred_status : gssx_status;
  res_export_cred_usage_exported : Z;
  res_export_cred_exported_handle : option bytes;
  res_export_cred_options : list gssx_option }.

Record gssx_arg_import_cred := Mk_arg_import_cred {
  arg_import_cred_call_ctx : gssx_call_ctx;
  arg_import_cred_exported_handle : bytes;
  arg_import_cred_options : list gssx_option }.

Record gssx_res_import_cred := Mk_res_import_cred {
  res_import_cred_status : gssx_status;
  res_import_cred_output_cred_handle : option gssx_cred;
  res_import_cred_options : list gssx_option }.

Record gssx_arg_store_cred := Mk_arg_store_cred {
  arg_store_cred_call_ctx : gssx_call_ctx;
  arg_store_cred_input_cred_handle : gssx_cred;
  arg_store_cred_cred_usage : Z;
  arg_store_cred_desired_mech : bytes;
  arg_store_cred_overwrite_cred : bool;
  arg_store_cred_default_cred : bool;
  arg_store_cred_options : list gssx_option }.

Record gssx_res_store_cred := Mk_res_store_cred {
  res_store_cred_status : gssx_status;
  res_store_cred_elements_stored : list bytes;
  res_store_cred_cred_usage_stored : Z;
  res_store_cred_options : list gssx_option }.

Record gssx_arg_init_sec_context := Mk_arg_init_sec_context {
  arg_init_sec_context_call_ctx : gssx_call_ctx;
  arg_init_sec_context_context_handle : option gssx_ctx;
  arg_init_sec_context_cred_handle : option gssx_cred;
  arg_init_sec_context_target_name : option gssx_name;
  arg_init_sec_context_mech_type : bytes;
  arg_init_sec_context_req_flags : Z;
  arg_init_sec_context_time_req : Z;
  arg_init_sec_context_input_cb : option gssx_cb;
  arg_init_sec_context_input_token : option bytes;
  arg_init_sec_context_options : list gssx_option }.

Record gssx_res_init_sec_context := Mk_res_init_sec_context {
  res_init_sec_context_status : gssx_status;
  res_init_sec_context_context_handle : option gssx_ctx;
  res_init_sec_context_output_token : option bytes;
  res_init_sec_context_options : list gssx_option }.

Record gssx_arg_accept_sec_context := Mk_arg_accept_sec_context {
  arg_accept_sec_context_call_ctx : gssx_call_ctx;
  arg_accept_sec_context_context_handle : option gssx_ctx;
  arg_accept_sec_context_cred_handle : option gssx_cred;
  arg_accept_sec_context_input_token : bytes;
  arg_accept_sec_context_input_cb : option gssx_cb;
  arg_accept_sec_context_ret_deleg_cred : bool;
  arg_accept_sec_context_options : list gssx_option }.

Record gssx_res_accept_sec_context := Mk_res_accept_sec_context {
  res_accept_sec_context_status : gssx_status;
  res_accept_sec_context_context_handle : option gssx_ctx;
  res_accept_sec_context_output_token : option bytes;
  res_accept_sec_context_delegated_cred_handle : option gssx_cred;
  res_accept_sec_context_options : list gssx_option }.

Record gssx_arg_get_mic := Mk_arg_get_mic {
  arg_get_mic_call_ctx : gssx_call_ctx;
  arg_get_mic_context_handle : gssx_ctx;
  arg_get_mic_qop_req : Z;
  arg_get_mic_message_buffer : bytes }.

Record gssx_res_get_mic := Mk_res_get_mic {
  res_get_mic_status : gssx_status;
  res_get_mic_context_handle : option gssx_ctx;
  res_get_mic_token_buffer : bytes;
  res_get_mic_qop_state : option Z }.

Record gssx_arg_verify_mic := Mk_arg_verify_mic {
  arg_verify_mic_call_ctx : gssx_call_ctx;
  arg_verify_mic_context_handle : gssx_ctx;
  arg_verify_mic_message_buffer : bytes;
  arg_verify_mic_token_buffer : bytes }.

Record gssx_res_verify_mic := Mk_res_verify_mic {
  res_verify_mic_status : gssx_status;
  res_verify_mic_context_handle : option gssx_ctx;
  res_verify_mic_qop_state : option Z }.

Record gssx_arg_wrap := Mk_arg_wrap {
  arg_wrap_call_ctx : gssx_call_ctx;
  arg_wrap_context_handle : gssx_ctx;
  arg_wrap_conf_req : bool;
  arg_wrap_message_buffer : list bytes;
  arg_wrap_qop_state : Z }.

Record gssx_res_wrap := Mk_res_wrap {
  res_wrap_status : gssx_status;
  res_wrap_context_handle : option gssx_ctx;
  res_wrap_token_buffer : list bytes;
  res_wrap_conf_state : option bool;
  res_wrap_qop_state : option Z }.

Record gssx_arg_unwrap := Mk_arg_unwrap {
  arg_unwrap_call_ctx : gssx_call_ctx;
  arg_unwrap_context_handle : gssx_ctx;
  arg_unwrap_token_buffer : list bytes;
  arg_unwrap_qop_state : Z }.

Record gssx_res_unwrap := Mk_res_unwrap {
  res_unwrap_status : gssx_status;
  res_unwrap_context_handle : option gssx_ctx;
  res_unwrap_message_buffer : list bytes;
  res_unwrap_conf_state : option bool;
  res_unwrap_qop_state : option Z }.

Record gssx_arg_wrap_size_limit := Mk_arg_wrap_size_limit {
  arg_wrap_size_limit_call_ctx : gssx_call_ctx;
  arg_wrap_size_limit_context_handle : gssx_ctx;
  arg_wrap_size_limit_conf_req : bool;
  arg_wrap_size_limit_qop_state : Z;
  arg_wrap_size_limit_req_output_size : Z }.

Record gssx_res_wrap_size_limit := Mk_res_wrap_size_limit {
  res_wrap_size_limit_status : gssx_status;
  res_wrap_size_limit_max_input_size : Z }.

Definition handle_type (h : gssx_handle) : Z :=
  match h with
  | HandleCred _ => GSSX_C_HANDLE_CRED
  | HandleSecCtx _ => GSSX_C_HANDLE_SEC_CTX
  | HandleOther t _ => t
  end.

(** ** Routines *)

Section routines.
Context {XL : XdrLib}.
Open Scope xdr_scope.

Definition xdr_utf8string : codec bytes := xdr_bytes MAXCOUNT.
Definition xdr_octet_string : codec bytes := xdr_bytes MAXCOUNT.
Definition xdr_gssx_uint64 : codec Z := gp_xdr_uint64_t.
Definition xdr_gssx_qop : codec Z := gp_xdr_uint64_t.
Definition xdr_gssx_buffer : codec bytes := xdr_octet_string.
Definition xdr_gssx_OID : codec bytes := xdr_octet_string.
Definition xdr_gssx_OID_set : codec (list bytes) :=
  xdr_array MAXCOUNT sizeof_gssx_OID xdr_gssx_OID.
Definition xdr_gssx_cred_usage : codec Z := xdr_enum.
Definition xdr_gssx_time : codec Z := gp_xdr_uint64_t.

Definition xdr_gssx_option : codec gssx_option :=
  xdr_struct (fun r => (option_option r, option_value r))
    (fun '(f0, f1) => Mk_option f0 f1)
    (xdr_gssx_buffer
     ⊗ xdr_gssx_buffer).

Definition xdr_gssx_mech_attr : codec gssx_mech_attr :=
  xdr_struct (fun r => (mech_attr_attr r, mech_attr_name r, mech_attr_short_desc r, mech_attr_long_desc r, mech_attr_extensions r))
    (fun '(f0, f1, f2, f3, f4) => Mk_mech_attr f0 f1 f2 f3 f4)
    (xdr_gssx_OID
     ⊗ xdr_gssx_buffer
     ⊗ xdr_gssx_buffer
     ⊗ xdr_gssx_buffer
     ⊗ xdr_array MAXCOUNT sizeof_gssx_option xdr_gssx_option).

Definition xdr_gssx_mech_info : codec gssx_mech_info :=
  xdr_struct (fun r => (mech_info_mech r, mech_info_name_types r, mech_info_mech_attrs r, mech_info_known_mech_attrs r, mech_info_cred_options r, mech_info_sec_ctx_options r, mech_info_saslname_sasl_mech_name r, mech_info_saslname_mech_name r, mech_info_saslname_mech_desc r, mech_info_extensions r))
    (fun '(f0, f1, f2, f3, f4, f5, f6, f7, f8, f9) => Mk_mech_info f0 f1 f2 f3 f4 f5 f6 f7 f8 f9)
    (xdr_gssx_OID
     ⊗ xdr_gssx_OID_set
     ⊗ xdr_gssx_OID_set
     ⊗ xdr_gssx_OID_set
     ⊗ xdr_gssx_OID_set
     ⊗ xdr_gssx_OID_set
     ⊗ xdr_gssx_buffer
     ⊗ xdr_gssx_buffer
     ⊗ xdr_gssx_buffer
     ⊗ xdr_array MAXCOUNT sizeof_gssx_option xdr_gssx_option).

Definition xdr_gssx_name_attr : codec gssx_name_attr :=
  xdr_struct (fun r => (name_attr_attr r, name_attr_value r, name_attr_extensions r))
    (fun '(f0, f1, f2) => Mk_name_attr f0 f1 f2)
    (xdr_gssx_buffer
     ⊗ xdr_gssx_buffer
     ⊗ xdr_array MAXCOUNT sizeof_gssx_option xdr_gssx_option).

Definition xdr_gssx_status : codec gssx_status :=
  xdr_struct (fun r => (status_major_status r, status_mech r, status_minor_status r, status_major_status_string r, status_minor_status_string r, status_server_ctx r, status_options r))
    (fun '(f0, f1, f2, f3, f4, f5, f6) => Mk_status f0 f1 f2 f3 f4 f5 f6)
    (xdr_gssx_uint64
     ⊗ xdr_gssx_OID
     ⊗ xdr_gssx_uint64
     ⊗ xdr_utf8string
     ⊗ xdr_utf8string
     ⊗ xdr_octet_string
     ⊗ xdr_array MAXCOUNT sizeof_gssx_option xdr_gssx_option).

Definition xdr_gssx_call_ctx : codec gssx_call_ctx :=
  xdr_struct (fun r => (call_ctx_locale r, call_ctx_server_ctx r, call_ctx_options r))
    (fun '(f0, f1, f2) => Mk_call_ctx f0 f1 f2)
    (xdr_utf8string
     ⊗ xdr_octet_string
     ⊗ xdr_array MAXCOUNT sizeof_gssx_option xdr_gssx_option).

Definition xdr_gssx_name : codec gssx_name :=
  xdr_struct (fun r => (name_display_name r, name_name_type r, name_exported_name r, name_exported_composite_name r, name_name_attributes r, name_extensions r))
    (fun '(f0, f1, f2, f3, f4, f5) => Mk_name f0 f1 f2 f3 f4 f5)
    (xdr_gssx_buffer
     ⊗ xdr_gssx_OID
     ⊗ xdr_gssx_buffer
     ⊗ xdr_gssx_buffer
     ⊗ xdr_array MAXCOUNT sizeof_gssx_name_attr xdr_gssx_name_attr
     ⊗ xdr_array MAXCOUNT sizeof_gssx_option xdr_gssx_option).

Definition xdr_gssx_cred_element : codec gssx_cred_element :=
  xdr_struct (fun r => (cred_element_MN r, cred_element_mech r, cred_element_cred_usage r, cred_element_initiator_time_rec r, cred_element_acceptor_time_rec r, cred_element_options r))
    (fun '(f0, f1, f2, f3, f4, f5) => Mk_cred_element f0 f1 f2 f3 f4 f5)
    (xdr_gssx_name
     ⊗ xdr_gssx_OID
     ⊗ xdr_gssx_cred_usage
     ⊗ xdr_gssx_time
     ⊗ xdr_gssx_time
     ⊗ xdr_array MAXCOUNT sizeof_gssx_option xdr_gssx_option).

Definition xdr_gssx_cred : codec gssx_cred :=
  xdr_struct (fun r => (cred_desired_name r, cred_elements r, cred_cred_handle_reference r, cred_needs_release r))
    (fun '(f0, f1, f2, f3) => Mk_cred f0 f1 f2 f3)
    (xdr_gssx_name
     ⊗ xdr_array MAXCOUNT sizeof_gssx_cred_element xdr_gssx_cred_element
     ⊗ xdr_octet_string
     ⊗ xdr_bool).

Definition xdr_gssx_ctx : codec gssx_ctx :=
  xdr_struct (fun r => (ctx_exported_context_token r, ctx_state r, ctx_needs_release r, ctx_mech r, ctx_src_name r, ctx_targ_name r, ctx_lifetime r, ctx_ctx_flags r, ctx_locally_initiated r, ctx_open r, ctx_options r))
    (fun '(f0, f1, f2, f3, f4, f5, f6, f7, f8, f9, f10) => Mk_ctx f0 f1 f2 f3 f4 f5 f6 f7 f8 f9 f10)
    (xdr_gssx_buffer
     ⊗ xdr_octet_string
     ⊗ xdr_bool
     ⊗ xdr_gssx_OID
     ⊗ xdr_gssx_name
     ⊗ xdr_gssx_name
     ⊗ xdr_gssx_time
     ⊗ xdr_gssx_uint64
     ⊗ xdr_bool
     ⊗ xdr_bool
     ⊗ xdr_array MAXCOUNT sizeof_gssx_option xdr_gssx_option).

Definition xdr_gssx_handle_type : codec Z := xdr_enum.
Definition xdr_gssx_handle : codec gssx_handle :=
  xdr_switch xdr_gssx_handle_type handle_type (fun t =>
    if t =? GSSX_C_HANDLE_CRED then
      xdr_view (fun h => match h with HandleCred c => Some c | _ => None end)
               HandleCred xdr_gssx_cred
    else if t =? GSSX_C_HANDLE_SEC_CTX then
      xdr_view (fun h => match h with HandleSecCtx c => Some c | _ => None end)
               HandleSecCtx xdr_gssx_ctx
    else
      xdr_view (fun h => match h with HandleOther _ e => Some e | _ => None end)
               (HandleOther t) xdr_octet_string).

Definition xdr_gssx_cb : codec gssx_cb :=
  xdr_struct (fun r => (cb_initiator_addrtype r, cb_initiator_address r, cb_acceptor_addrtype r, cb_acceptor_address r, cb_application_data r))
    (fun '(f0, f1, f2, f3, f4) => Mk_cb f0 f1 f2 f3 f4)
    (xdr_gssx_uint64
     ⊗ xdr_gssx_buffer
     ⊗ xdr_gssx_uint64
     ⊗ xdr_gssx_buffer
     ⊗ xdr_gssx_buffer).

Definition xdr_gssx_arg_release_handle : codec gssx_arg_release_handle :=
  xdr_struct (fun r => (arg_release_handle_call_ctx r, arg_release_handle_cred_handle r))
    (fun '(f0, f1) => Mk_arg_release_handle f0 f1)
    (xdr_gssx_call_ctx
     ⊗ xdr_gssx_handle).

Definition xdr_gssx_res_release_handle : codec gssx_res_release_handle :=
  xdr_struct res_release_handle_status Mk_res_release_handle (xdr_gssx_status).

Definition xdr_gssx_arg_indicate_mechs : codec gssx_arg_indicate_mechs :=
  xdr_struct arg_indicate_mechs_call_ctx Mk_arg_indicate_mechs (xdr_gssx_call_ctx).

Definition xdr_gssx_res_indicate_mechs : codec gssx_res_indicate_mechs :=
  xdr_struct (fun r => (res_indicate_mechs_status r, res_indicate_mechs_mechs r, res_indicate_mechs_mech_attr_descs r, res_indicate_mechs_supported_extensions r, res_indicate_mechs_extensions r))
    (fun '(f0, f1, f2, f3, f4) => Mk_res_indicate_mechs f0 f1 f2 f3 f4)
    (xdr_gssx_status
     ⊗ xdr_array MAXCOUNT sizeof_gssx_mech_info xdr_gssx_mech_info
     ⊗ xdr_array MAXCOUNT sizeof_gssx_mech_attr xdr_gssx_mech_attr
     ⊗ xdr_array MAXCOUNT sizeof_gssx_buffer xdr_gssx_buffer
     ⊗ xdr_array MAXCOUNT sizeof_gssx_option xdr_gssx_option).

Definition xdr_gssx_arg_import_and_canon_name : codec gssx_arg_import_and_canon_name :=
  xdr_struct (fun r => (arg_import_and_canon_name_call_ctx r, arg_import_and_canon_name_input_name r, arg_import_and_canon_name_mech r, arg_import_and_canon_name_name_attributes r, arg_import_and_canon_name_options r))
    (fun '(f0, f1, f2, f3, f4) => Mk_arg_import_and_canon_name f0 f1 f2 f3 f4)
    (xdr_gssx_call_ctx
     ⊗ xdr_gssx_name
     ⊗ xdr_gssx_OID
     ⊗ xdr_array MAXCOUNT sizeof_gssx_name_attr xdr_gssx_name_attr
     ⊗ xdr_array MAXCOUNT sizeof_gssx_option xdr_gssx_option).

Definition xdr_gssx_res_import_and_canon_name : codec gssx_res_import_and_canon_name :=
  xdr_struct (fun r => (res_import_and_canon_name_status r, res_import_and_canon_name_output_name r, res_import_and_canon_name_options r))
    (fun '(f0, f1, f2) => Mk_res_import_and_canon_name f0 f1 f2)
    (xdr_gssx_status
     ⊗ xdr_pointer xdr_gssx_name
     ⊗ xdr_array MAXCOUNT sizeof_gssx_option xdr_gssx_option).

Definition xdr_gssx_arg_get_call_context : codec gssx_arg_get_call_context :=
  xdr_struct (fun r => (arg_get_call_context_call_ctx r, arg_get_call_context_options r))
    (fun '(f0, f1) => Mk_arg_get_call_context f0 f1)
    (xdr_gssx_call_ctx
     ⊗ xdr_array MAXCOUNT sizeof_gssx_option xdr_gssx_option).

Definition xdr_gssx_res_get_call_context : codec gssx_res_get_call_context :=
  xdr_struct (fun r => (res_get_call_context_status r, res_get_call_context_server_call_ctx r, res_get_call_context_options r))
    (fun '(f0, f1, f2) => Mk_res_get_call_context f0 f1 f2)
    (xdr_gssx_status
     ⊗ xdr_octet_string
     ⊗ xdr_array MAXCOUNT sizeof_gssx_option xdr_gssx_option).

Definition xdr_gssx_arg_acquire_cred : codec gssx_arg_acquire_cred :=
  xdr_struct (fun r => (arg_acquire_cred_call_ctx r, arg_acquire_cred_input_cred_handle r, arg_acquire_cred_add_cred_to_input_handle r, arg_acquire_cred_desired_name r, arg_acquire_cred_time_req r, arg_acquire_cred_desired_mechs r, arg_acquire_cred_cred_usage r, arg_acquire_cred_initiator_time_req r, arg_acquire_cred_acceptor_time_req r, arg_acquire_cred_options r))
    (fun '(f0, f1, f2, f3, f4, f5, f6, f7, f8, f9) => Mk_arg_acquire_cred f0 f1 f2 f3 f4 f5 f6 f7 f8 f9)
    (xdr_gssx_call_ctx
     ⊗ xdr_pointer xdr_gssx_cred
     ⊗ xdr_bool
     ⊗ xdr_pointer xdr_gssx_name
     ⊗ xdr_gssx_time
     ⊗ xdr_gssx_OID_set
     ⊗ xdr_gssx_cred_usage
     ⊗ xdr_gssx_time
     ⊗ xdr_gssx_time
     ⊗ xdr_array MAXCOUNT sizeof_gssx_option xdr_gssx_option).

Definition xdr_gssx_res_acquire_cred : codec gssx_res_acquire_cred :=
  xdr_struct (fun r => (res_acquire_cred_status r, res_acquire_cred_output_cred_handle r, res_acquire_cred_options r))
    (fun '(f0, f1, f2) => Mk_res_acquire_cred f0 f1 f2)
    (xdr_gssx_status
     ⊗ xdr_pointer xdr_gssx_cred
     ⊗ xdr_array MAXCOUNT sizeof_gssx_option xdr_gssx_option).

Definition xdr_gssx_arg_export_cred : codec gssx_arg_export_cred :=
  xdr_struct (fun r => (arg_export_cred_call_ctx r, arg_export_cred_input_cred_handle r, arg_export_cred_cred_usage r, arg_export_cred_options r))
    (fun '(f0, f1, f2, f3) => Mk_arg_export_cred f0 f1 f2 f3)
    (xdr_gssx_call_ctx
     ⊗ xdr_gssx_cred
     ⊗ xdr_gssx_cred_usage
     ⊗ xdr_array MAXCOUNT sizeof_gssx_option xdr_gssx_option).

Definition xdr_gssx_res_export_cred : codec gssx_res_export_cred :=
  xdr_struct (fun r => (res_export_cred_status r, res_export_cred_usage_exported r, res_export_cred_exported_handle r, res_export_cred_options r))
    (fun '(f0, f1, f2, f3) => Mk_res_export_cred f0 f1 f2 f3)
    (xdr_gssx_status
     ⊗ xdr_gssx_cred_usage
     ⊗ xdr_pointer xdr_octet_string
     ⊗ xdr_array MAXCOUNT sizeof_gssx_option xdr_gssx_option).

Definition xdr_gssx_arg_import_cred : codec gssx_arg_import_cred :=
  xdr_struct (fun r => (arg_import_cred_call_ctx r, arg_import_cred_exported_handle r, arg_import_cred_options r))
    (fun '(f0, f1, f2) => Mk_arg_import_cred f0 f1 f2)
    (xdr_gssx_call_ctx
     ⊗ xdr_octet_string
     ⊗ xdr_array MAXCOUNT sizeof_gssx_option xdr_gssx_option).

Definition xdr_gssx_res_import_cred : codec gssx_res_import_cred :=
  xdr_struct (fun r => (res_import_cred_status r, res_import_cred_output_cred_handle r, res_import_cred_options r))
    (fun '(f0, f1, f2) => Mk_res_import_cred f0 f1 f2)
    (xdr_gssx_status
     ⊗ xdr_pointer xdr_gssx_cred
     ⊗ xdr_array MAXCOUNT sizeof_gssx_option xdr_gssx_option).

Definition xdr_gssx_arg_store_cred : codec gssx_arg_store_cred :=
  xdr_struct (fun r => (arg_store_cred_call_ctx r, arg_store_cred_input_cred_handle r, arg_store_cred_cred_usage r, arg_store_cred_desired_mech r, arg_store_cred_overwrite_cred r, arg_store_cred_default_cred r, arg_store_cred_options r))
    (fun '(f0, f1, f2, f3, f4, f5, f6) => Mk_arg_store_cred f0 f1 f2 f3 f4 f5 f6)
    (xdr_gssx_call_ctx
     ⊗ xdr_gssx_cred
     ⊗ xdr_gssx_cred_usage
     ⊗ xdr_gssx_OID
     ⊗ xdr_bool
     ⊗ xdr_bool
     ⊗ xdr_array MAXCOUNT sizeof_gssx_option xdr_gssx_option).

Definition xdr_gssx_res_store_cred : codec gssx_res_store_cred :=
  xdr_struct (fun r => (res_store_cred_status r, res_store_cred_elements_stored r, res_store_cred_cred_usage_stored r, res_store_cred_options r))
    (fun '(f0, f1, f2, f3) => Mk_res_store_cred f0 f1 f2 f3)
    (xdr_gssx_status
     ⊗ xdr_gssx_OID_set
     ⊗ xdr_gssx_cred_usage
     ⊗ xdr_array MAXCOUNT sizeof_gssx_option xdr_gssx_option).

Definition xdr_gssx_arg_init_sec_context : codec gssx_arg_init_sec_context :=
  xdr_struct (fun r => (arg_init_sec_context_call_ctx r, arg_init_sec_context_context_handle r, arg_init_sec_context_cred_handle r, arg_init_sec_context_target_name r, arg_init_sec_context_mech_type r, arg_init_sec_context_req_flags r, arg_init_sec_context_time_req r, arg_init_sec_context_input_cb r, arg_init_sec_context_input_token r, arg_init_sec_context_options r))
    (fun '(f0, f1, f2, f3, f4, f5, f6, f7, f8, f9) => Mk_arg_init_sec_context f0 f1 f2 f3 f4 f5 f6 f7 f8 f9)
    (xdr_gssx_call_ctx
     ⊗ xdr_pointer xdr_gssx_ctx
     ⊗ xdr_pointer xdr_gssx_cred
     ⊗ xdr_pointer xdr_gssx_name
     ⊗ xdr_gssx_OID
     ⊗ xdr_gssx_uint64
     ⊗ xdr_gssx_time
     ⊗ xdr_pointer xdr_gssx_cb
     ⊗ xdr_pointer xdr_gssx_buffer
     ⊗ xdr_array MAXCOUNT sizeof_gssx_option xdr_gssx_option).

Definition xdr_gssx_res_init_sec_context : codec gssx_res_init_sec_context :=
  xdr_struct (fun r => (res_init_sec_context_status r, res_init_sec_context_context_handle r, res_init_sec_context_output_token r, res_init_sec_context_options r))
    (fun '(f0, f1, f2, f3) => Mk_res_init_sec_context f0 f1 f2 f3)
    (xdr_gssx_status
     ⊗ xdr_pointer xdr_gssx_ctx
     ⊗ xdr_pointer xdr_gssx_buffer
     ⊗ xdr_array MAXCOUNT sizeof_gssx_option xdr_gssx_option).

Definition xdr_gssx_arg_accept_sec_context : codec gssx_arg_accept_sec_context :=
  xdr_struct (fun r => (arg_accept_sec_context_call_ctx r, arg_accept_sec_context_context_handle r, arg_accept_sec_context_cred_handle r, arg_accept_sec_context_input_token r, arg_accept_sec_context_input_cb r, arg_accept_sec_context_ret_deleg_cred r, arg_accept_sec_context_options r))
    (fun '(f0, f1, f2, f3, f4, f5, f6) => Mk_arg_accept_sec_context f0 f1 f2 f3 f4 f5 f6)
    (xdr_gssx_call_ctx
     ⊗ xdr_pointer xdr_gssx_ctx
     ⊗ xdr_pointer xdr_gssx_cred
     ⊗ xdr_gssx_buffer
     ⊗ xdr_pointer xdr_gssx_cb
     ⊗ xdr_bool
     ⊗ xdr_array MAXCOUNT sizeof_gssx_option xdr_gssx_option).

Definition xdr_gssx_res_accept_sec_context : codec gssx_res_accept_sec_context :=
  xdr_struct (fun r => (res_accept_sec_context_status r, res_accept_sec_context_context_handle r, res_accept_sec_context_output_token r, res_accept_sec_context_delegated_cred_handle r, res_accept_sec_context_options r))
    (fun '(f0, f1, f2, f3, f4) => Mk_res_accept_sec_context f0 f1 f2 f3 f4)
    (xdr_gssx_status
     ⊗ xdr_pointer xdr_gssx_ctx
     ⊗ xdr_pointer xdr_gssx_buffer
     ⊗ xdr_pointer xdr_gssx_cred
     ⊗ xdr_array MAXCOUNT sizeof_gssx_option xdr_gssx_option).

Definition xdr_gssx_arg_get_mic : codec gssx_arg_get_mic :=
  xdr_struct (fun r => (arg_get_mic_call_ctx r, arg_get_mic_context_handle r, arg_get_mic_qop_req r, arg_get_mic_message_buffer r))
    (fun '(f0, f1, f2, f3) => Mk_arg_get_mic f0 f1 f2 f3)
    (xdr_gssx_call_ctx
     ⊗ xdr_gssx_ctx
     ⊗ xdr_gssx_qop
     ⊗ xdr_gssx_buffer).

Definition xdr_gssx_res_get_mic : codec gssx_res_get_mic :=
  xdr_struct (fun r => (res_get_mic_status r, res_get_mic_context_handle r, res_get_mic_token_buffer r, res_get_mic_qop_state r))
    (fun '(f0, f1, f2, f3) => Mk_res_get_mic f0 f1 f2 f3)
    (xdr_gssx_status
     ⊗ xdr_pointer xdr_gssx_ctx
     ⊗ xdr_gssx_buffer
     ⊗ xdr_pointer xdr_gssx_qop).

Definition xdr_gssx_arg_verify_mic : codec gssx_arg_verify_mic :=
  xdr_struct (fun r => (arg_verify_mic_call_ctx r, arg_verify_mic_context_handle r, arg_verify_mic_message_buffer r, arg_verify_mic_token_buffer r))
    (fun '(f0, f1, f2, f3) => Mk_arg_verify_mic f0 f1 f2 f3)
    (xdr_gssx_call_ctx
     ⊗ xdr_gssx_ctx
     ⊗ xdr_gssx_buffer
     ⊗ xdr_gssx_buffer).

Definition xdr_gssx_res_verify_mic : codec gssx_res_verify_mic :=
  xdr_struct (fun r => (res_verify_mic_status r, res_verify_mic_context_handle r, res_verify_mic_qop_state r))
    (fun '(f0, f1, f2) => Mk_res_verify_mic f0 f1 f2)
    (xdr_gssx_status
     ⊗ xdr_pointer xdr_gssx_ctx
     ⊗ xdr_pointer xdr_gssx_qop).

Definition xdr_gssx_arg_wrap : codec gssx_arg_wrap :=
  xdr_struct (fun r => (arg_wrap_call_ctx r, arg_wrap_context_handle r, arg_wrap_conf_req r, arg_wrap_message_buffer r, arg_wrap_qop_state r))
    (fun '(f0, f1, f2, f3, f4) => Mk_arg_wrap f0 f1 f2 f3 f4)
    (xdr_gssx_call_ctx
     ⊗ xdr_gssx_ctx
     ⊗ xdr_bool
     ⊗ xdr_array MAXCOUNT sizeof_gssx_buffer xdr_gssx_buffer
     ⊗ xdr_gssx_qop).

Definition xdr_gssx_res_wrap : codec gssx_res_wrap :=
  xdr_struct (fun r => (res_wrap_status r, res_wrap_context_handle r, res_wrap_token_buffer r, res_wrap_conf_state r, res_wrap_qop_state r))
    (fun '(f0, f1, f2, f3, f4) => Mk_res_wrap f0 f1 f2 f3 f4)
    (xdr_gssx_status
     ⊗ xdr_pointer xdr_gssx_ctx
     ⊗ xdr_array MAXCOUNT sizeof_gssx_buffer xdr_gssx_buffer
     ⊗ xdr_pointer xdr_bool
     ⊗ xdr_pointer xdr_gssx_qop).

Definition xdr_gssx_arg_unwrap : codec gssx_arg_unwrap :=
  xdr_struct (fun r => (arg_unwrap_call_ctx r, arg_unwrap_context_handle r, arg_unwrap_token_buffer r, arg_unwrap_qop_state r))
    (fun '(f0, f1, f2, f3) => Mk_arg_unwrap f0 f1 f2 f3)
    (xdr_gssx_call_ctx
     ⊗ xdr_gssx_ctx
     ⊗ xdr_array MAXCOUNT sizeof_gssx_buffer xdr_gssx_buffer
     ⊗ xdr_gssx_qop).

Definition xdr_gssx_res_unwrap : codec gssx_res_unwrap :=
  xdr_struct (fun r => (res_unwrap_status r, res_unwrap_context_handle r, res_unwrap_message_buffer r, res_unwrap_conf_state r, res_unwrap_qop_state r))
    (fun '(f0, f1, f2, f3, f4) => Mk_res_unwrap f0 f1 f2 f3 f4)
    (xdr_gssx_status
     ⊗ xdr_pointer xdr_gssx_ctx
     ⊗ xdr_array MAXCOUNT sizeof_gssx_buffer xdr_gssx_buffer
     ⊗ xdr_pointer xdr_bool
     ⊗ xdr_pointer xdr_gssx_qop).

Definition xdr_gssx_arg_wrap_size_limit : codec gssx_arg_wrap_size_limit :=
  xdr_struct (fun r => (arg_wrap_size_limit_call_ctx r, arg_wrap_size_limit_context_handle r, arg_wrap_size_limit_conf_req r, arg_wrap_size_limit_qop_state r, arg_wrap_size_limit_req_output_size r))
    (fun '(f0, f1, f2, f3, f4) => Mk_arg_wrap_size_limit f0 f1 f2 f3 f4)
    (xdr_gssx_call_ctx
     ⊗ xdr_gssx_ctx
     ⊗ xdr_bool
     ⊗ xdr_gssx_qop
     ⊗ xdr_gssx_uint64).

Definition xdr_gssx_res_wrap_size_limit : codec gssx_res_wrap_size_limit :=
  xdr_struct (fun r => (res_wrap_size_limit_status r, res_wrap_size_limit_max_input_size r))
    (fun '(f0, f1) => Mk_res_wrap_size_limit f0 f1)
    (xdr_gssx_status
     ⊗ xdr_gssx_uint64).

(** ** Every routine is correct *)
Context {LAWS : XdrLaws XL}.

Lemma codec_ok_octet_string : codec_ok xdr_octet_string.
Proof. apply codec_ok_bytes. Qed.
Lemma codec_ok_OID_set : codec_ok xdr_gssx_OID_set.
Proof. apply xdr_array_law; [reflexivity|]. apply codec_ok_bytes. Qed.
Hint Resolve codec_ok_octet_string codec_ok_OID_set : xdr.
Hint Extern 1 (codec_ok xdr_utf8string) => apply codec_ok_octet_string : xdr.
Hint Extern 1 (codec_ok xdr_gssx_buffer) => apply codec_ok_octet_string : xdr.
Hint Extern 1 (codec_ok xdr_gssx_OID) => apply codec_ok_octet_string : xdr.
Hint Extern 1 (codec_ok xdr_gssx_uint64) => apply codec_ok_uint64 : xdr.
Hint Extern 1 (codec_ok xdr_gssx_qop) => apply codec_ok_uint64 : xdr.
Hint Extern 1 (codec_ok xdr_gssx_time) => apply codec_ok_uint64 : xdr.
Hint Extern 1 (codec_ok xdr_gssx_cred_usage) => apply codec_ok_enum : xdr.

Lemma codec_ok_option : codec_ok xdr_gssx_option.
Proof. solve_codec. Qed.
Hint Resolve codec_ok_option : xdr.
Lemma codec_ok_mech_attr : codec_ok xdr_gssx_mech_attr.
Proof. solve_codec. Qed.
Hint Resolve codec_ok_mech_attr : xdr.
Lemma codec_ok_mech_info : codec_ok xdr_gssx_mech_info.
Proof. solve_codec. Qed.
Hint Resolve codec_ok_mech_info : xdr.
Lemma codec_ok_name_attr : codec_ok xdr_gssx_name_attr.
Proof. solve_codec. Qed.
Hint Resolve codec_ok_name_attr : xdr.
Lemma codec_ok_status : codec_ok xdr_gssx_status.
Proof. solve_codec. Qed.
Hint Resolve codec_ok_status : xdr.
Lemma codec_ok_call_ctx : codec_ok xdr_gssx_call_ctx.
Proof. solve_codec. Qed.
Hint Resolve codec_ok_call_ctx : xdr.
Lemma codec_ok_name : codec_ok xdr_gssx_name.
Proof. solve_codec. Qed.
Hint Resolve codec_ok_name : xdr.
Lemma codec_ok_cred_element : codec_ok xdr_gssx_cred_element.
Proof. solve_codec. Qed.
Hint Resolve codec_ok_cred_element : xdr.
Lemma codec_ok_cred : codec_ok xdr_gssx_cred.
Proof. solve_codec. Qed.
Hint Resolve codec_ok_cred : xdr.
Lemma codec_ok_ctx : codec_ok xdr_gssx_ctx.
Proof. solve_codec. Qed.
Hint Resolve codec_ok_ctx : xdr.
Lemma codec_ok_handle : codec_ok xdr_gssx_handle.
Proof. solve_codec. Qed.
Hint Resolve codec_ok_handle : xdr.
Lemma codec_ok_cb : codec_ok xdr_gssx_cb.
Proof. solve_codec. Qed.
Hint Resolve codec_ok_cb : xdr.
Lemma codec_ok_arg_release_handle : codec_ok xdr_gssx_arg_release_handle.
Proof. solve_codec. Qed.
Hint Resolve codec_ok_arg_release_handle : xdr.
Lemma codec_ok_res_release_handle : codec_ok xdr_gssx_res_release_handle.
Proof. solve_codec. Qed.
Hint Resolve codec_ok_res_release_handle : xdr.
Lemma codec_ok_arg_indicate_mechs : codec_ok xdr_gssx_arg_indicate_mechs.
Proof. solve_codec. Qed.
Hint Resolve codec_ok_arg_indicate_mechs : xdr.
Lemma codec_ok_res_indicate_mechs : codec_ok xdr_gssx_res_indicate_mechs.
Proof. solve_codec. Qed.
Hint Resolve codec_ok_res_indicate_mechs : xdr.
Lemma codec_ok_arg_import_and_canon_name : codec_ok xdr_gssx_arg_import_and_canon_name.
Proof. solve_codec. Qed.
Hint Resolve codec_ok_arg_import_and_canon_name : xdr.
Lemma codec_ok_res_import_and_canon_name : codec_ok xdr_gssx_res_import_and_canon_name.
Proof. solve_codec. Qed.
Hint Resolve codec_ok_res_import_and_canon_name : xdr.
Lemma codec_ok_arg_get_call_context : codec_ok xdr_gssx_arg_get_call_context.
Proof. solve_codec. Qed.
Hint Resolve codec_ok_arg_get_call_context : xdr.
Lemma codec_ok_res_get_call_context : codec_ok xdr_gssx_res_get_call_context.
Proof. solve_codec. Qed.
Hint Resolve codec_ok_res_get_call_context : xdr.
Lemma codec_ok_arg_acquire_cred : codec_ok xdr_gssx_arg_acquire_cred.
Proof. solve_codec. Qed.
Hint Resolve codec_ok_arg_acquire_cred : xdr.
Lemma codec_ok_res_acquire_cred : codec_ok xdr_gssx_res_acquire_cred.
Proof. solve_codec. Qed.
Hint Resolve codec_ok_res_acquire_cred : xdr.
Lemma codec_ok_arg_export_cred : codec_ok xdr_gssx_arg_export_cred.
Proof. solve_codec. Qed.
Hint Resolve codec_ok_arg_export_cred : xdr.
Lemma codec_ok_res_export_cred : codec_ok xdr_gssx_res_export_cred.
Proof. solve_codec. Qed.
Hint Resolve codec_ok_res_export_cred : xdr.
Lemma codec_ok_arg_import_cred : codec_ok xdr_gssx_arg_import_cred.
Proof. solve_codec. Qed.
Hint Resolve codec_ok_arg_import_cred : xdr.
Lemma codec_ok_res_import_cred : codec_ok xdr_gssx_res_import_cred.
Proof. solve_codec. Qed.
Hint Resolve codec_ok_res_import_cred : xdr.
Lemma codec_ok_arg_store_cred : codec_ok xdr_gssx_arg_store_cred.
Proof. solve_codec. Qed.
Hint Resolve codec_ok_arg_store_cred : xdr.
Lemma codec_ok_res_store_cred : codec_ok xdr_gssx_res_store_cred.
Proof. solve_codec. Qed.
Hint Resolve codec_ok_res_store_cred : xdr.
Lemma codec_ok_arg_init_sec_context : codec_ok xdr_gssx_arg_init_sec_context.
Proof. solve_codec. Qed.
Hint Resolve codec_ok_arg_init_sec_context : xdr.
Lemma codec_ok_res_init_sec_context : codec_ok xdr_gssx_res_init_sec_context.
Proof. solve_codec. Qed.
Hint Resolve codec_ok_res_init_sec_context : xdr.
Lemma codec_ok_arg_accept_sec_context : codec_ok xdr_gssx_arg_accept_sec_context.
Proof. solve_codec. Qed.
Hint Resolve codec_ok_arg_accept_sec_context : xdr.
Lemma codec_ok_res_accept_sec_context : codec_ok xdr_gssx_res_accept_sec_context.
Proof. solve_codec. Qed.
Hint Resolve codec_ok_res_accept_sec_context : xdr.
Lemma codec_ok_arg_get_mic : codec_ok xdr_gssx_arg_get_mic.
Proof. solve_codec. Qed.
Hint Resolve codec_ok_arg_get_mic : xdr.
Lemma codec_ok_res_get_mic : codec_ok xdr_gssx_res_get_mic.
Proof. solve_codec. Qed.
Hint Resolve codec_ok_res_get_mic : xdr.
Lemma codec_ok_arg_verify_mic : codec_ok xdr_gssx_arg_verify_mic.
Proof. solve_codec. Qed.
Hint Resolve codec_ok_arg_verify_mic : xdr.
Lemma codec_ok_res_verify_mic : codec_ok xdr_gssx_res_verify_mic.
Proof. solve_codec. Qed.
Hint Resolve codec_ok_res_verify_mic : xdr.
Lemma codec_ok_arg_wrap : codec_ok xdr_gssx_arg_wrap.
Proof. solve_codec. Qed.
Hint Resolve codec_ok_arg_wrap : xdr.
Lemma codec_ok_res_wrap : codec_ok xdr_gssx_res_wrap.
Proof. solve_codec. Qed.
Hint Resolve codec_ok_res_wrap : xdr.
Lemma codec_ok_arg_unwrap : codec_ok xdr_gssx_arg_unwrap.
Proof. solve_codec. Qed.
Hint Resolve codec_ok_arg_unwrap : xdr.
Lemma codec_ok_res_unwrap : codec_ok xdr_gssx_res_unwrap.
Proof. solve_codec. Qed.
Hint Resolve codec_ok_res_unwrap : xdr.
Lemma codec_ok_arg_wrap_size_limit : codec_ok xdr_gssx_arg_wrap_size_limit.
Proof. solve_codec. Qed.
Hint Resolve codec_ok_arg_wrap_size_limit : xdr.
Lemma codec_ok_res_wrap_size_limit : codec_ok xdr_gssx_res_wrap_size_limit.
Proof. solve_codec. Qed.
Hint Resolve codec_ok_res_wrap_size_limit : xdr.
End routines.
