(* ===== verification/RpcProcess.v ===== *)
(** * Dispatching a call

    src/gp_rpc_process.c: decode the call header and the argument, run the
    procedure, encode the reply.  The procedures themselves (gp_rpc_*.c) are the
    operations of the class [RpcHandlers]: the dispatcher only needs that they
    fill a result its XDR routine can hold. *)

From S2P Require Import Prelude Xdr RpcXdr GssxXdr.

(** max out at 1MB (gp_common.h) *)
Definition MAX_RPC_SIZE := 1024 * 1024.

(** rpcgen/gss_proxy.h *)
Definition GSSPROXY := 400112.
Definition GSSPROXYVERS := 1.
Definition GSSX_INDICATE_MECHS := 1.
Definition GSSX_GET_CALL_CONTEXT := 2.
Definition GSSX_IMPORT_AND_CANON_NAME := 3.
Definition GSSX_EXPORT_CRED := 4.
Definition GSSX_IMPORT_CRED := 5.
Definition GSSX_ACQUIRE_CRED := 6.
Definition GSSX_STORE_CRED := 7.
Definition GSSX_INIT_SEC_CONTEXT := 8.
Definition GSSX_ACCEPT_SEC_CONTEXT := 9.
Definition GSSX_RELEASE_HANDLE := 10.
Definition GSSX_GET_MIC := 11.
Definition GSSX_VERIFY := 12.
Definition GSSX_WRAP := 13.
Definition GSSX_UNWRAP := 14.
Definition GSSX_WRAP_SIZE_LIMIT := 15.
Definition GSSX_PROC_MIN := 1.
Definition GSSX_PROC_MAX := 15.

(** ** The argument and result unions (gp_common.h) *)

Inductive gp_rpc_arg :=
| arg_void
| arg_indicate_mechs (a : gssx_arg_indicate_mechs)
| arg_get_call_context (a : gssx_arg_get_call_context)
| arg_import_and_canon_name (a : gssx_arg_import_and_canon_name)
| arg_export_cred (a : gssx_arg_export_cred)
| arg_import_cred (a : gssx_arg_import_cred)
| arg_acquire_cred (a : gssx_arg_acquire_cred)
| arg_store_cred (a : gssx_arg_store_cred)
| arg_init_sec_context (a : gssx_arg_init_sec_context)
| arg_accept_sec_context (a : gssx_arg_accept_sec_context)
| arg_release_handle (a : gssx_arg_release_handle)
| arg_get_mic (a : gssx_arg_get_mic)
| arg_verify_mic (a : gssx_arg_verify_mic)
| arg_wrap (a : gssx_arg_wrap)
| arg_unwrap (a : gssx_arg_unwrap)
| arg_wrap_size_limit (a : gssx_arg_wrap_size_limit).

Inductive gp_rpc_res :=
| res_void
| res_indicate_mechs (r : gssx_res_indicate_mechs)
| res_get_call_context (r : gssx_res_get_call_context)
| res_import_and_canon_name (r : gssx_res_import_and_canon_name)
| res_export_cred (r : gssx_res_export_cred)
| res_import_cred (r : gssx_res_import_cred)
| res_acquire_cred (r : gssx_res_acquire_cred)
| res_store_cred (r : gssx_res_store_cred)
| res_init_sec_context (r : gssx_res_init_sec_context)
| res_accept_sec_context (r : gssx_res_accept_sec_context)
| res_release_handle (r : gssx_res_release_handle)
| res_get_mic (r : gssx_res_get_mic)
| res_verify_mic (r : gssx_res_verify_mic)
| res_wrap (r : gssx_res_wrap)
| res_unwrap (r : gssx_res_unwrap)
| res_wrap_size_limit (r : gssx_res_wrap_size_limit).

(** the zeroed structures a procedure starts from *)
Definition zero_status : gssx_status := Mk_status 0 [] 0 [] [] [] [].
Definition zero_res_get_call_context := Mk_res_get_call_context zero_status [] [].
Definition zero_res_export_cred := Mk_res_export_cred zero_status 0 None [].
Definition zero_res_import_cred := Mk_res_import_cred zero_status None [].
Definition zero_res_store_cred := Mk_res_store_cred zero_status [] 0 [].

(** ** The procedures: what the dispatcher needs of them

    A procedure gets the state of the world (service, connection, GSSAPI library),
    its argument, and returns the int of the C function with the result it filled; [None]
    is a result that cannot be encoded, because a member of it has a length and no bytes. *)
Class RpcHandlers (W : Type) := {
  gp_indicate_mechs : W -> gssx_arg_indicate_mechs -> Z * option gssx_res_indicate_mechs * W;
  gp_import_and_canon_name : W -> gssx_arg_import_and_canon_name -> Z * option gssx_res_import_and_canon_name * W;
  gp_acquire_cred : W -> gssx_arg_acquire_cred -> Z * option gssx_res_acquire_cred * W;
  gp_init_sec_context : W -> gssx_arg_init_sec_context -> Z * option gssx_res_init_sec_context * W;
  gp_accept_sec_context : W -> gssx_arg_accept_sec_context -> Z * option gssx_res_accept_sec_context * W;
  gp_release_handle : W -> gssx_arg_release_handle -> Z * option gssx_res_release_handle * W;
  gp_get_mic : W -> gssx_arg_get_mic -> Z * option gssx_res_get_mic * W;
  gp_verify_mic : W -> gssx_arg_verify_mic -> Z * option gssx_res_verify_mic * W;
  gp_wrap : W -> gssx_arg_wrap -> Z * option gssx_res_wrap * W;
  gp_unwrap : W -> gssx_arg_unwrap -> Z * option gssx_res_unwrap * W;
  gp_wrap_size_limit : W -> gssx_arg_wrap_size_limit -> Z * option gssx_res_wrap_size_limit * W;
}.

Section dispatch.
Context {XL : XdrLib} {W : Type} {HD : RpcHandlers W}.

(** GP_EXEC_UNUSED_FUNC: report success and leave the zeroed result alone *)
Definition gp_get_call_context (w : W) (_ : gssx_arg_get_call_context) : Z * option gssx_res_get_call_context * W := (0, Some zero_res_get_call_context, w).
Definition gp_export_cred (w : W) (_ : gssx_arg_export_cred) : Z * option gssx_res_export_cred * W := (0, Some zero_res_export_cred, w).
Definition gp_import_cred (w : W) (_ : gssx_arg_import_cred) : Z * option gssx_res_import_cred * W := (0, Some zero_res_import_cred, w).
Definition gp_store_cred (w : W) (_ : gssx_arg_store_cred) : Z * option gssx_res_store_cred * W := (0, Some zero_res_store_cred, w).

Definition gp_exec_fn := W -> gp_rpc_arg -> Z * option gp_rpc_res * W.

Record gp_rpc_fn_set := FnSet {
  fs_proc : Z;
  proc_name : string;
  arg_fn : codec gp_rpc_arg;
  res_fn : codec gp_rpc_res;
  exec_fn : option gp_exec_fn;
}.

Definition xdr_arg_void : codec gp_rpc_arg :=
  xdr_view (fun a => match a with arg_void => Some tt | _ => None end)
    (fun _ => arg_void) xdr_void.
Definition xdr_res_void : codec gp_rpc_res :=
  xdr_view (fun r => match r with res_void => Some tt | _ => None end)
    (fun _ => res_void) xdr_void.

(** A union read through the member of one procedure.  A procedure is only ever
    called on the member its own argument routine filled. *)
Definition member_arg {A} (out : gp_rpc_arg -> option A) (into : A -> gp_rpc_arg)
  (c : codec A) : codec gp_rpc_arg := xdr_view out into c.
Definition member_res {A} (out : gp_rpc_res -> option A) (into : A -> gp_rpc_res)
  (c : codec A) : codec gp_rpc_res := xdr_view out into c.
Definition on_member {A R} (out : gp_rpc_arg -> option A) (into : R -> gp_rpc_res)
    (f : W -> A -> Z * option R * W) : gp_exec_fn :=
  fun w a => match out a with
             | Some a => let '(ret, r, w) := f w a in (ret, into <$> r, w)
             | None => (0, Some res_void, w)
             end.

Definition as_indicate_mechs (a : gp_rpc_arg) := match a with arg_indicate_mechs a => Some a | _ => None end.
Definition as_get_call_context (a : gp_rpc_arg) := match a with arg_get_call_context a => Some a | _ => None end.
Definition as_import_and_canon_name (a : gp_rpc_arg) := match a with arg_import_and_canon_name a => Some a | _ => None end.
Definition as_export_cred (a : gp_rpc_arg) := match a with arg_export_cred a => Some a | _ => None end.
Definition as_import_cred (a : gp_rpc_arg) := match a with arg_import_cred a => Some a | _ => None end.
Definition as_acquire_cred (a : gp_rpc_arg) := match a with arg_acquire_cred a => Some a | _ => None end.
Definition as_store_cred (a : gp_rpc_arg) := match a with arg_store_cred a => Some a | _ => None end.
Definition as_init_sec_context (a : gp_rpc_arg) := match a with arg_init_sec_context a => Some a | _ => None end.
Definition as_accept_sec_context (a : gp_rpc_arg) := match a with arg_accept_sec_context a => Some a | _ => None end.
Definition as_release_handle (a : gp_rpc_arg) := match a with arg_release_handle a => Some a | _ => None end.
Definition as_get_mic (a : gp_rpc_arg) := match a with arg_get_mic a => Some a | _ => None end.
Definition as_verify_mic (a : gp_rpc_arg) := match a with arg_verify_mic a => Some a | _ => None end.
Definition as_wrap (a : gp_rpc_arg) := match a with arg_wrap a => Some a | _ => None end.
Definition as_unwrap (a : gp_rpc_arg) := match a with arg_unwrap a => Some a | _ => None end.
Definition as_wrap_size_limit (a : gp_rpc_arg) := match a with arg_wrap_size_limit a => Some a | _ => None end.

Definition set_indicate_mechs : gp_rpc_fn_set :=
  FnSet GSSX_INDICATE_MECHS "GSSX_INDICATE_MECHS"
    (member_arg as_indicate_mechs arg_indicate_mechs xdr_gssx_arg_indicate_mechs)
    (member_res (fun r => match r with res_indicate_mechs r => Some r | _ => None end)
       res_indicate_mechs xdr_gssx_res_indicate_mechs)
    (Some (on_member as_indicate_mechs res_indicate_mechs gp_indicate_mechs)).
Definition set_get_call_context : gp_rpc_fn_set :=
  FnSet GSSX_GET_CALL_CONTEXT "GSSX_GET_CALL_CONTEXT"
    (member_arg as_get_call_context arg_get_call_context xdr_gssx_arg_get_call_context)
    (member_res (fun r => match r with res_get_call_context r => Some r | _ => None end)
       res_get_call_context xdr_gssx_res_get_call_context)
    (Some (on_member as_get_call_context res_get_call_context gp_get_call_context)).
Definition set_import_and_canon_name : gp_rpc_fn_set :=
  FnSet GSSX_IMPORT_AND_CANON_NAME "GSSX_IMPORT_AND_CANON_NAME"
    (member_arg as_import_and_canon_name arg_import_and_canon_name xdr_gssx_arg_import_and_canon_name)
    (member_res (fun r => match r with res_import_and_canon_name r => Some r | _ => None end)
       res_import_and_canon_name xdr_gssx_res_import_and_canon_name)
    (Some (on_member as_import_and_canon_name res_import_and_canon_name gp_import_and_canon_name)).
Definition set_export_cred : gp_rpc_fn_set :=
  FnSet GSSX_EXPORT_CRED "GSSX_EXPORT_CRED"
    (member_arg as_export_cred arg_export_cred xdr_gssx_arg_export_cred)
    (member_res (fun r => match r with res_export_cred r => Some r | _ => None end)
       res_export_cred xdr_gssx_res_export_cred)
    (Some (on_member as_export_cred res_export_cred gp_export_cred)).
Definition set_import_cred : gp_rpc_fn_set :=
  FnSet GSSX_IMPORT_CRED "GSSX_IMPORT_CRED"
    (member_arg as_import_cred arg_import_cred xdr_gssx_arg_import_cred)
    (member_res (fun r => match r with res_import_cred r => Some r | _ => None end)
       res_import_cred xdr_gssx_res_import_cred)
    (Some (on_member as_import_cred res_import_cred gp_import_cred)).
Definition set_acquire_cred : gp_rpc_fn_set :=
  FnSet GSSX_ACQUIRE_CRED "GSSX_ACQUIRE_CRED"
    (member_arg as_acquire_cred arg_acquire_cred xdr_gssx_arg_acquire_cred)
    (member_res (fun r => match r with res_acquire_cred r => Some r | _ => None end)
       res_acquire_cred xdr_gssx_res_acquire_cred)
    (Some (on_member as_acquire_cred res_acquire_cred gp_acquire_cred)).
Definition set_store_cred : gp_rpc_fn_set :=
  FnSet GSSX_STORE_CRED "GSSX_STORE_CRED"
    (member_arg as_store_cred arg_store_cred xdr_gssx_arg_store_cred)
    (member_res (fun r => match r with res_store_cred r => Some r | _ => None end)
       res_store_cred xdr_gssx_res_store_cred)
    (Some (on_member as_store_cred res_store_cred gp_store_cred)).
Definition set_init_sec_context : gp_rpc_fn_set :=
  FnSet GSSX_INIT_SEC_CONTEXT "GSSX_INIT_SEC_CONTEXT"
    (member_arg as_init_sec_context arg_init_sec_context xdr_gssx_arg_init_sec_context)
    (member_res (fun r => match r with res_init_sec_context r => Some r | _ => None end)
       res_init_sec_context xdr_gssx_res_init_sec_context)
    (Some (on_member as_init_sec_context res_init_sec_context gp_init_sec_context)).
Definition set_accept_sec_context : gp_rpc_fn_set :=
  FnSet GSSX_ACCEPT_SEC_CONTEXT "GSSX_ACCEPT_SEC_CONTEXT"
    (member_arg as_accept_sec_context arg_accept_sec_context xdr_gssx_arg_accept_sec_context)
    (member_res (fun r => match r with res_accept_sec_context r => Some r | _ => None end)
       res_accept_sec_context xdr_gssx_res_accept_sec_context)
    (Some (on_member as_accept_sec_context res_accept_sec_context gp_accept_sec_context)).
Definition set_release_handle : gp_rpc_fn_set :=
  FnSet GSSX_RELEASE_HANDLE "GSSX_RELEASE_HANDLE"
    (member_arg as_release_handle arg_release_handle xdr_gssx_arg_release_handle)
    (member_res (fun r => match r with res_release_handle r => Some r | _ => None end)
       res_release_handle xdr_gssx_res_release_handle)
    (Some (on_member as_release_handle res_release_handle gp_release_handle)).
Definition set_get_mic : gp_rpc_fn_set :=
  FnSet GSSX_GET_MIC "GSSX_GET_MIC"
    (member_arg as_get_mic arg_get_mic xdr_gssx_arg_get_mic)
    (member_res (fun r => match r with res_get_mic r => Some r | _ => None end)
       res_get_mic xdr_gssx_res_get_mic)
    (Some (on_member as_get_mic res_get_mic gp_get_mic)).
Definition set_verify_mic : gp_rpc_fn_set :=
  FnSet GSSX_VERIFY "GSSX_VERIFY"
    (member_arg as_verify_mic arg_verify_mic xdr_gssx_arg_verify_mic)
    (member_res (fun r => match r with res_verify_mic r => Some r | _ => None end)
       res_verify_mic xdr_gssx_res_verify_mic)
    (Some (on_member as_verify_mic res_verify_mic gp_verify_mic)).
Definition set_wrap : gp_rpc_fn_set :=
  FnSet GSSX_WRAP "GSSX_WRAP"
    (member_arg as_wrap arg_wrap xdr_gssx_arg_wrap)
    (member_res (fun r => match r with res_wrap r => Some r | _ => None end)
       res_wrap xdr_gssx_res_wrap)
    (Some (on_member as_wrap res_wrap gp_wrap)).
Definition set_unwrap : gp_rpc_fn_set :=
  FnSet GSSX_UNWRAP "GSSX_UNWRAP"
    (member_arg as_unwrap arg_unwrap xdr_gssx_arg_unwrap)
    (member_res (fun r => match r with res_unwrap r => Some r | _ => None end)
       res_unwrap xdr_gssx_res_unwrap)
    (Some (on_member as_unwrap res_unwrap gp_unwrap)).
Definition set_wrap_size_limit : gp_rpc_fn_set :=
  FnSet GSSX_WRAP_SIZE_LIMIT "GSSX_WRAP_SIZE_LIMIT"
    (member_arg as_wrap_size_limit arg_wrap_size_limit xdr_gssx_arg_wrap_size_limit)
    (member_res (fun r => match r with res_wrap_size_limit r => Some r | _ => None end)
       res_wrap_size_limit xdr_gssx_res_wrap_size_limit)
    (Some (on_member as_wrap_size_limit res_wrap_size_limit gp_wrap_size_limit)).

Definition gp_xdr_set : list gp_rpc_fn_set :=
  [FnSet 0 "NULLPROC" xdr_arg_void xdr_res_void None;
   set_indicate_mechs;
   set_get_call_context;
   set_import_and_canon_name;
   set_export_cred;
   set_import_cred;
   set_acquire_cred;
   set_store_cred;
   set_init_sec_context;
   set_accept_sec_context;
   set_release_handle;
   set_get_mic;
   set_verify_mic;
   set_wrap;
   set_unwrap;
   set_wrap_size_limit].

(** ** Decoding the call *)

(** the out-parameters of the decoder *)
Record call_status := CallStatus {
  cs_xid : Z; cs_proc : Z; cs_acc : Z; cs_rej : Z }.

Definition gp_rpc_decode_call_header (i : bytes) (st : call_status)
  : Z * call_status * bytes :=
  match xdec xdr_gp_rpc_msg i with
  | None => (EFAULT, st, i)
  | Some (msg, i) =>
      let st := CallStatus (xid msg) (cs_proc st) (cs_acc st) (cs_rej st) in
      let acc a := CallStatus (cs_xid st) (cs_proc st) a (cs_rej st) in
      let rej r := CallStatus (cs_xid st) (cs_proc st) (cs_acc st) r in
      match header msg with
      | MsgReply _ => (EINVAL, acc GP_RPC_GARBAGE_ARGS, i)
      | MsgCall chdr =>
          if negb (rpcvers chdr =? 2) then (EACCES, rej GP_RPC_RPC_MISMATCH, i)
          else if negb (prog chdr =? GSSPROXY) then (EINVAL, acc GP_RPC_PROG_UNAVAIL, i)
          else if negb (vers chdr =? GSSPROXYVERS) then
            (EINVAL, acc GP_RPC_PROG_MISMATCH, i)
          else if (proc chdr <? GSSX_PROC_MIN) || (GSSX_PROC_MAX <? proc chdr) then
            (EINVAL, acc GP_RPC_PROC_UNAVAIL, i)
          else if negb (flavor (cred chdr) =? GP_RPC_AUTH_NONE) then
            (EACCES, rej GP_RPC_AUTH_ERROR, i)
          else (0, CallStatus (cs_xid st) (proc chdr) GP_RPC_SUCCESS (cs_rej st), i)
      end
  end.

(** [gp_xdr_set\[proc\]]: out of range there is no entry *)
Definition fn_set (p : Z) : option gp_rpc_fn_set := gp_xdr_set !! Z.to_nat p.

Definition gp_rpc_decode_call (i : bytes) (st : call_status)
  : Z * call_status * option gp_rpc_arg :=
  let '(ret, st, i) := gp_rpc_decode_call_header i st in
  if negb (ret =? 0) then (ret, st, None)
  else match fs ← fn_set (cs_proc st); xdec (arg_fn fs) i with
       | None => (EINVAL, CallStatus (cs_xid st) (cs_proc st) GP_RPC_GARBAGE_ARGS (cs_rej st),
                  None)
       | Some (a, _) => (0, st, Some a)
       end.

(** ** Encoding the reply *)

Definition no_auth : gp_rpc_opaque_auth := OpaqueAuth GP_RPC_AUTH_NONE [].

(** the message of each error class; [rej] is one of the two values of its enum *)
Definition reply_msg (x err acc rej : Z) : gp_rpc_msg :=
  let accepted s := MsgAccepted (AcceptedReply no_auth s) in
  RpcMsg x (MsgReply
    (if err =? EACCES then
       MsgDenied (if rej =? GP_RPC_RPC_MISMATCH then RejRpcMismatch (MismatchInfo 2 2)
                  else RejAuthError GP_RPC_AUTH_FAILED)
     else if err =? EINVAL then
       accepted (if acc =? GP_RPC_PROG_MISMATCH
                 then ReplyProgMismatch (MismatchInfo GSSPROXYVERS GSSPROXYVERS)
                 else if acc =? GP_RPC_SUCCESS then ReplySuccess else ReplyVoid acc)
     else if err =? 0 then accepted ReplySuccess
     else accepted (ReplyVoid GP_RPC_SYSTEM_ERR))).

Definition gp_rpc_encode_reply_header (s : xstream) (x err acc rej : Z) : Z * xstream :=
  if err =? EFAULT then (EFAULT, s)
  else match xenc xdr_gp_rpc_msg (reply_msg x err acc rej) (xdr_setpos s 0) with
       | None => (EFAULT, s)
       | Some s => (0, s)
       end.

(** When the result does not encode, the header is written again over whatever was
    written of it: the position goes back to 0 first. *)
Definition gp_rpc_encode_reply (s : xstream) (x p : Z) (res : gp_rpc_res) (err acc rej : Z)
  : Z * xstream :=
  let '(ret, s) := gp_rpc_encode_reply_header s x err acc rej in
  if negb (ret =? 0) || negb (err =? 0) then (ret, s)
  else match fs ← fn_set p; xenc (res_fn fs) res s with
       | Some s => (0, s)
       | None => gp_rpc_encode_reply_header s x EINVAL GP_RPC_SYSTEM_ERR GP_RPC_RPC_MISMATCH
       end.

Definition gp_rpc_procname (p : Z) : option string :=
  if GSSX_PROC_MAX <? p then None else proc_name <$> fn_set p.

(** [None]: the call through a null or missing [exec_fn] *)
Definition gp_rpc_execute (w : W) (p : Z) (a : gp_rpc_arg) : option (Z * option gp_rpc_res * W) :=
  fs ← fn_set p; f ← exec_fn fs; Some (f w a).

(** [mem]: whether malloc has memory for the copy *)
Definition gp_rpc_return_buffer (mem : bool) (s : xstream) : Z * bytes :=
  if mem then (0, xdr_buffer s) else (ENOMEM, []).

(** ** The whole call: the C function's int, the reply when it is 0, and the world
    after.  [None] is the null dereference of [gp_rpc_execute], or of the encoder in a
    result whose bytes are gone. *)
Definition gp_rpc_process_call (mem : bool) (w : W) (inbuf : bytes)
  : option (Z * bytes * W) :=
  let st := CallStatus 0 0 GP_RPC_SUCCESS GP_RPC_RPC_MISMATCH in
  let s := xdrmem_create MAX_RPC_SIZE in
  let '(ret, st, arg) := gp_rpc_decode_call inbuf st in
  '(ret, acc, res, w) ←
    match arg with
    | Some a =>
        '(ret, res, w) ← gp_rpc_execute w (cs_proc st) a;
        if negb (ret =? 0) then Some (EINVAL, GP_RPC_SYSTEM_ERR, res_void, w)
        else res ← res; Some (0, cs_acc st, res, w)
    | None => Some (ret, cs_acc st, res_void, w)
    end;
  let '(ret, s) :=
    gp_rpc_encode_reply s (cs_xid st) (cs_proc st) res ret acc (cs_rej st) in
  if ret =? 0 then
    let '(ret, out) := gp_rpc_return_buffer mem s in Some (ret, out, w)
  else Some (ret, [], w).
End dispatch.
