(* ===== verification/RpcTable.v ===== *)
(** * The procedure table

    Every entry of [gp_xdr_set] (src/gp_rpc_process.c) is at the index of its own
    procedure, has a function, and has correct XDR routines. *)

From S2P Require Import Prelude Xdr RpcXdr GssxXdr RpcProcess.

(** ** Results a procedure may return *)

(** Every result is a value of its C type: lengths and integers in range. *)
Class HandlersTyped {XL : XdrLib} (W : Type) {HD : RpcHandlers W} : Prop := {
  indicate_mechs_typed (w : W) a r : (gp_indicate_mechs w a).1.2 = Some r -> xdom xdr_gssx_res_indicate_mechs r;
  import_and_canon_name_typed (w : W) a r : (gp_import_and_canon_name w a).1.2 = Some r -> xdom xdr_gssx_res_import_and_canon_name r;
  acquire_cred_typed (w : W) a r : (gp_acquire_cred w a).1.2 = Some r -> xdom xdr_gssx_res_acquire_cred r;
  init_sec_context_typed (w : W) a r : (gp_init_sec_context w a).1.2 = Some r -> xdom xdr_gssx_res_init_sec_context r;
  accept_sec_context_typed (w : W) a r : (gp_accept_sec_context w a).1.2 = Some r -> xdom xdr_gssx_res_accept_sec_context r;
  release_handle_typed (w : W) a r : (gp_release_handle w a).1.2 = Some r -> xdom xdr_gssx_res_release_handle r;
  get_mic_typed (w : W) a r : (gp_get_mic w a).1.2 = Some r -> xdom xdr_gssx_res_get_mic r;
  verify_mic_typed (w : W) a r : (gp_verify_mic w a).1.2 = Some r -> xdom xdr_gssx_res_verify_mic r;
  wrap_typed (w : W) a r : (gp_wrap w a).1.2 = Some r -> xdom xdr_gssx_res_wrap r;
  unwrap_typed (w : W) a r : (gp_unwrap w a).1.2 = Some r -> xdom xdr_gssx_res_unwrap r;
  wrap_size_limit_typed (w : W) a r : (gp_wrap_size_limit w a).1.2 = Some r -> xdom xdr_gssx_res_wrap_size_limit r;
}.

Section correctness.
Context {XL : XdrLib} {LAWS : XdrLaws XL} {W : Type} {HD : RpcHandlers W}.
Context {TYPED : HandlersTyped W}.

Lemma member_arg_ok {A} out (into : A -> gp_rpc_arg) c :
  codec_ok c -> codec_ok (member_arg out into c).
Proof. apply codec_ok_view. Qed.
Lemma member_res_ok {A} out (into : A -> gp_rpc_res) c :
  codec_ok c -> codec_ok (member_res out into c).
Proof. apply codec_ok_view. Qed.

(** an entry of the table: its index, its function, its routines' correctness, and
    the type of what the function returns on a decoded argument *)
Definition entry_ok (p : Z) (fs : gp_rpc_fn_set) : Prop :=
  fs_proc fs = p /\ codec_ok (arg_fn fs) /\ codec_ok (res_fn fs) /\
  exists f, exec_fn fs = Some f /\
    forall (w : W) i a j, xdec (arg_fn fs) i = Some (a, j) ->
      forall r, (f w a).1.2 = Some r -> xdom (res_fn fs) r.

Lemma entry_intro {A R} p name oa (ia : A -> gp_rpc_arg) ca
    orr (ir : R -> gp_rpc_res) cr f :
  codec_ok ca -> codec_ok cr ->
  (forall a, oa (ia a) = Some a) -> (forall r, orr (ir r) = Some r) ->
  (forall w a r, (f w a).1.2 = Some r -> xdom cr r) ->
  entry_ok p (FnSet p name (member_arg oa ia ca) (member_res orr ir cr)
                (Some (on_member oa ir f))).
Proof.
  intros Ha Hr Hia Hir Hty. split_and!; simpl; [done| | |].
  - by apply member_arg_ok.
  - by apply member_res_ok.
  - eexists. split; [done|]. intros w i a j Hd r0. unfold member_arg in Hd.
    apply (xdec_view_inv oa) in Hd as (a' & _ & ->). unfold on_member. rewrite Hia.
    pose proof (Hty w a') as Hx. destruct (f w a') as [[ret [r|]] w']; simpl in *; [|done].
    intros [= <-]. rewrite Hir. split; [by apply Hx|done].
Qed.

Lemma zero_lists_dom {A} elsize (c : codec A) : xdom (xdr_array MAXCOUNT elsize c) [].
Proof. simpl. split_and!; [done| |]; unfold len, MAXCOUNT; simpl; lia. Qed.

Lemma empty_bytes_dom : xdom xdr_octet_string [].
Proof. split; [|split]; unfold len, MAXCOUNT; simpl; lia. Qed.

Lemma zero_quad_dom : xdom xdr_gssx_uint64 0.
Proof. apply uint64_dom. done. Qed.

Lemma zero_enum_dom : xdom xdr_gssx_cred_usage 0.
Proof. done. Qed.

Lemma none_dom {A} (c : codec A) : xdom (xdr_pointer c) None.
Proof. exact I. Qed.

Ltac zero_dom :=
  repeat first
    [ solve [ apply zero_quad_dom | apply empty_bytes_dom | apply zero_lists_dom
            | apply zero_enum_dom | apply none_dom | reflexivity ]
    | split ].

Lemma zero_status_dom : xdom xdr_gssx_status zero_status.
Proof.
  zero_dom.
Qed.

Lemma zero_res_get_call_context_dom :
  xdom xdr_gssx_res_get_call_context zero_res_get_call_context.
Proof. split; [|done]. split; [|apply zero_lists_dom]. split; [apply zero_status_dom|]. zero_dom. Qed.
Lemma zero_res_export_cred_dom : xdom xdr_gssx_res_export_cred zero_res_export_cred.
Proof.
  split; [|done]. split; [|apply zero_lists_dom]. split; [|apply none_dom].
  split; [apply zero_status_dom|]. zero_dom.
Qed.
Lemma zero_res_import_cred_dom : xdom xdr_gssx_res_import_cred zero_res_import_cred.
Proof.
  split; [|done]. split; [|apply zero_lists_dom]. split; [apply zero_status_dom|]. zero_dom.
Qed.
Lemma zero_res_store_cred_dom : xdom xdr_gssx_res_store_cred zero_res_store_cred.
Proof.
  split; [|done]. split; [|apply zero_lists_dom]. split; [|zero_dom].
  split; [apply zero_status_dom|]. zero_dom.
Qed.

Ltac result_typed :=
  lazymatch goal with
  | |- _ -> xdom xdr_gssx_res_indicate_mechs _ => by eapply indicate_mechs_typed
  | |- _ -> xdom xdr_gssx_res_import_and_canon_name _ => by eapply import_and_canon_name_typed
  | |- _ -> xdom xdr_gssx_res_acquire_cred _ => by eapply acquire_cred_typed
  | |- _ -> xdom xdr_gssx_res_init_sec_context _ => by eapply init_sec_context_typed
  | |- _ -> xdom xdr_gssx_res_accept_sec_context _ => by eapply accept_sec_context_typed
  | |- _ -> xdom xdr_gssx_res_release_handle _ => by eapply release_handle_typed
  | |- _ -> xdom xdr_gssx_res_get_mic _ => by eapply get_mic_typed
  | |- _ -> xdom xdr_gssx_res_verify_mic _ => by eapply verify_mic_typed
  | |- _ -> xdom xdr_gssx_res_wrap _ => by eapply wrap_typed
  | |- _ -> xdom xdr_gssx_res_unwrap _ => by eapply unwrap_typed
  | |- _ -> xdom xdr_gssx_res_wrap_size_limit _ => by eapply wrap_size_limit_typed
  | |- _ -> xdom xdr_gssx_res_get_call_context _ => by intros; simplify_eq/=; exact zero_res_get_call_context_dom
  | |- _ -> xdom xdr_gssx_res_export_cred _ => by intros; simplify_eq/=; exact zero_res_export_cred_dom
  | |- _ -> xdom xdr_gssx_res_import_cred _ => by intros; simplify_eq/=; exact zero_res_import_cred_dom
  | |- _ -> xdom xdr_gssx_res_store_cred _ => by intros; simplify_eq/=; exact zero_res_store_cred_dom
  end.

(** Every procedure of the protocol has its entry, at its own index. *)
Lemma entries p : GSSX_PROC_MIN <= p <= GSSX_PROC_MAX ->
  exists fs, fn_set p = Some fs /\ entry_ok p fs.
Proof.
  unfold GSSX_PROC_MIN, GSSX_PROC_MAX. intros Hp.
  assert (Hc : p ∈ [1;2;3;4;5;6;7;8;9;10;11;12;13;14;15]) by (set_unfold; lia).
  repeat (apply elem_of_cons in Hc as [->|Hc];
    [eexists; split; [reflexivity|apply entry_intro; [solve_codec|solve_codec|done|done|]];
     intros w a r Hres; revert Hres; result_typed|]).
  by apply elem_of_nil in Hc.
Qed.


(** C38. The argument and result of every procedure of the protocol survive the wire:
    whatever the encoder accepts is appended to the stream as bytes that decode, with
    anything after them, to the value encoded. *)
Theorem procedure_codecs_roundtrip p : GSSX_PROC_MIN <= p <= GSSX_PROC_MAX ->
  exists fs, fn_set p = Some fs /\ fs_proc fs = p /\
    (forall a s s', xdom (arg_fn fs) a -> xenc (arg_fn fs) a s = Some s' ->
       exists bs, xdr_buffer s' = xdr_buffer s ++ bs /\
         forall tl, xdec (arg_fn fs) (bs ++ tl) = Some (a, tl)) /\
    (forall r s s', xdom (res_fn fs) r -> xenc (res_fn fs) r s = Some s' ->
       exists bs, xdr_buffer s' = xdr_buffer s ++ bs /\
         forall tl, xdec (res_fn fs) (bs ++ tl) = Some (r, tl)).
Proof.
  intros Hp. destruct (entries p Hp) as (fs & Hfs & Hi & Ha & Hr & _).
  exists fs. split_and!; [done|done| |]; intros x s s' Hx He.
  - destruct (codec_ok_roundtrip _ _ _ _ Ha Hx He) as (bs & B & _ & D). eauto.
  - destruct (codec_ok_roundtrip _ _ _ _ Hr Hx He) as (bs & B & _ & D). eauto.
Qed.
End correctness.
