(* ===== verification/RpcReply.v ===== *)
(** * What a call's reply is

    The lemmas and theorems about src/gp_rpc_process.c (RpcProcess.v). *)

From S2P Require Import Prelude Xdr RpcXdr GssxXdr RpcProcess RpcTable.

Section correctness.
Context {XL : XdrLib} {LAWS : XdrLaws XL} {W : Type} {HD : RpcHandlers W}.
Context {TYPED : HandlersTyped W}.

(** ** What a reply is *)

(** [out] is the wire image of [m] followed by [body]. *)
Definition replies (out : bytes) (m : gp_rpc_msg) (body : bytes) : Prop :=
  exists hd, image_of xdr_gp_rpc_msg m hd /\ out = hd ++ body.

Lemma replies_decode out m body : replies out m body ->
  xdec xdr_gp_rpc_msg out = Some (m, body).
Proof. intros (hd & (Hd & _) & ->). apply Hd. Qed.

Lemma reply_msg_dom x err acc rej : in_u32 x -> in_s32 acc ->
  xdom xdr_gp_rpc_msg (reply_msg x err acc rej).
Proof.
  intros Hx Hacc. split; [|done]. split; [exact Hx|]. unfold reply_msg. simpl snd.
  assert (Hauth : xdom xdr_gp_rpc_opaque_auth no_auth).
  { split; [|done]. split; [done|]. split; done. }
  assert (Hacc' : forall u, xdom xdr_gp_rpc_reply_union u ->
            xdom xdr_gp_rpc_msg_union (MsgReply (MsgAccepted (AcceptedReply no_auth u)))).
  { intros u Hu. split; [done|]. split; [|done]. split; [done|]. split; [|done].
    split; [|done]. split; [exact Hauth|exact Hu]. }
  assert (Hrej' : forall r, xdom xdr_gp_rpc_rejected_reply r ->
            xdom xdr_gp_rpc_msg_union (MsgReply (MsgDenied r))).
  { intros r Hr. split; [done|]. split; [|done]. split; [done|]. split; [exact Hr|done]. }
  assert (Hvoid : forall a, in_s32 a -> a <> GP_RPC_SUCCESS -> a <> GP_RPC_PROG_MISMATCH ->
            xdom xdr_gp_rpc_reply_union (ReplyVoid a)).
  { intros a Ha H1 H2. split; [done|]. simpl.
    rewrite (proj2 (Z.eqb_neq _ _) H1), (proj2 (Z.eqb_neq _ _) H2). done. }
  repeat case_match; first [apply Hrej'|apply Hacc'];
    first [ apply Hvoid; [done|apply Z.eqb_neq; assumption|apply Z.eqb_neq; assumption]
          | apply Hvoid; done | repeat split; done ].
Qed.

Lemma reply_image x err acc rej : in_u32 x -> in_s32 acc ->
  exists bs, image_of xdr_gp_rpc_msg (reply_msg x err acc rej) bs /\ len bs <= 64.
Proof.
  intros Hx Hacc.
  destruct (codec_le_msg _ (reply_msg_dom x err acc rej Hx Hacc)) as (bs & Hi & Hl).
  exists bs. split; [done|]. etrans; [exact Hl|]. unfold rpc_msg_size, reply_msg. simpl.
  repeat case_match; simplify_eq/=; vm_compute; done.
Qed.

Lemma encode_header_spec s x err acc rej :
  err <> EFAULT -> in_u32 x -> in_s32 acc -> 64 <= xdr_size s ->
  exists hd s', gp_rpc_encode_reply_header s x err acc rej = (0, s') /\
    xdr_buffer s' = hd /\ xdr_size s' = xdr_size s /\ len hd <= 64 /\
    image_of xdr_gp_rpc_msg (reply_msg x err acc rej) hd.
Proof.
  intros He Hx Hacc Hs. destruct (reply_image x err acc rej Hx Hacc) as (hd & Hi & Hl).
  unfold gp_rpc_encode_reply_header. rewrite (proj2 (Z.eqb_neq _ _) He).
  destruct (xdr_setpos_0 s) as [Hb Hsz]. pose proof Hi as (_ & Hfit & _).
  destruct (Hfit (xdr_setpos s 0)) as (s' & E & B & S).
  { unfold room. rewrite Hb, Hsz, len_nil. lia. }
  exists hd, s'. rewrite E. rewrite B, Hb, S, Hsz. auto.
Qed.

(** an error reply: the header alone *)
Lemma encode_error s x p res err acc rej :
  err <> EFAULT -> err <> 0 -> in_u32 x -> in_s32 acc -> 64 <= xdr_size s ->
  exists s', gp_rpc_encode_reply s x p res err acc rej = (0, s') /\
    replies (xdr_buffer s') (reply_msg x err acc rej) [].
Proof.
  intros He H0 Hx Hacc Hs.
  destruct (encode_header_spec s x err acc rej He Hx Hacc Hs) as (hd & s' & E & B & _ & _ & Hi).
  exists s'. unfold gp_rpc_encode_reply. rewrite E. simpl.
  rewrite (proj2 (Z.eqb_neq _ _) H0). simpl. split; [done|]. exists hd.
  rewrite app_nil_r. auto.
Qed.

(** a result: the header and the result when both fit, else a system error *)
Lemma encode_result s x p fs res acc rej :
  fn_set p = Some fs -> codec_ok (res_fn fs) -> xdom (res_fn fs) res ->
  in_u32 x -> in_s32 acc -> 64 <= xdr_size s ->
  exists s', gp_rpc_encode_reply s x p res 0 acc rej = (0, s') /\
   exists hd body, image_of xdr_gp_rpc_msg (reply_msg x 0 acc rej) hd /\
     image_of (res_fn fs) res body /\
     if decide (len hd + len body <= xdr_size s)
     then xdr_buffer s' = hd ++ body
     else replies (xdr_buffer s')
            (reply_msg x EINVAL GP_RPC_SYSTEM_ERR GP_RPC_RPC_MISMATCH) [].
Proof.
  intros Hfs Hok Hdom Hx Hacc Hs.
  destruct (encode_header_spec s x 0 acc rej ltac:(done) Hx Hacc Hs)
    as (hd & s1 & E & B & S & Hl & Hi).
  destruct (Hok res Hdom) as (body & Hbody). pose proof Hbody as (_ & Hfit & Hno).
  unfold gp_rpc_encode_reply. rewrite E. simpl. rewrite Hfs. simpl.
  assert (Hroom : room s1 = xdr_size s - len hd) by (unfold room; rewrite B, S; lia).
  destruct (decide (len hd + len body <= xdr_size s)) as [Hle|Hgt].
  - destruct (Hfit s1 ltac:(lia)) as (s2 & E2 & B2 & _). rewrite E2. exists s2.
    split; [done|]. exists hd, body. rewrite decide_True by done. by rewrite B2, B.
  - rewrite Hno by lia.
    destruct (encode_header_spec s1 x EINVAL GP_RPC_SYSTEM_ERR GP_RPC_RPC_MISMATCH
      ltac:(done) Hx ltac:(done) ltac:(lia)) as (hd2 & s2 & E2 & B2 & _ & _ & Hi2).
    rewrite E2. exists s2. split; [done|]. exists hd, body.
    rewrite decide_False by done. split_and!; [done..|]. exists hd2.
    rewrite app_nil_r. auto.
Qed.

(** ** The decoder *)

(** the out-parameters [gp_rpc_process_call] starts from *)
Definition st0 := CallStatus 0 0 GP_RPC_SUCCESS GP_RPC_RPC_MISMATCH.

(** The headers the dispatcher accepts. *)
Definition acceptable (h : gp_rpc_call_header) : Prop :=
  rpcvers h = 2 /\ prog h = GSSPROXY /\ vers h = GSSPROXYVERS /\
  GSSX_PROC_MIN <= proc h <= GSSX_PROC_MAX /\ flavor (cred h) = GP_RPC_AUTH_NONE.

Lemma decode_header_accepts i m rest h :
  xdec xdr_gp_rpc_msg i = Some (m, rest) -> header m = MsgCall h -> acceptable h ->
  gp_rpc_decode_call_header i st0
  = (0, CallStatus (xid m) (proc h) GP_RPC_SUCCESS GP_RPC_RPC_MISMATCH, rest).
Proof.
  intros Hd Hh (H1 & H2 & H3 & [H4 H5] & H6). unfold gp_rpc_decode_call_header.
  rewrite Hd, Hh, H1, H2, H3, H6. simpl.
  by rewrite (proj2 (Z.ltb_ge _ _) H4), (proj2 (Z.ltb_ge _ _) H5).
Qed.

(** The decoder's outcomes: no message; a message refused with EINVAL or EACCES;
    an accepted one. *)
Lemma decode_header_cases i ret st rest :
  gp_rpc_decode_call_header i st0 = (ret, st, rest) ->
  (xdec xdr_gp_rpc_msg i = None /\ ret = EFAULT /\ st = st0) \/
  exists m, xdec xdr_gp_rpc_msg i = Some (m, rest) /\ cs_xid st = xid m /\ in_s32 (cs_acc st) /\
    ((ret = EINVAL \/ ret = EACCES) \/
     exists h, ret = 0 /\ header m = MsgCall h /\ acceptable h /\ cs_proc st = proc h).
Proof.
  unfold gp_rpc_decode_call_header.
  destruct (xdec xdr_gp_rpc_msg i) as [[m i']|] eqn:Hd; [|intros [= <- <- <-]; auto].
  intros H. right. exists m.
  destruct (header m) as [h|r] eqn:Hh; [|simplify_eq/=; split_and!; auto; done].
  unfold acceptable. repeat case_match; simplify_eq/=; split_and!; auto; try done.
  right. exists h. repeat match goal with
    | H : _ || _ = false |- _ => apply orb_false_iff in H as [? ?]
    | H : negb _ = false |- _ => apply negb_false_iff, Z.eqb_eq in H
    end. split_and!; auto; lia.
Qed.

Lemma decode_call_cases i ret st arg :
  gp_rpc_decode_call i st0 = (ret, st, arg) ->
  (xdec xdr_gp_rpc_msg i = None /\ ret = EFAULT /\ arg = None) \/
  exists m rest, xdec xdr_gp_rpc_msg i = Some (m, rest) /\ cs_xid st = xid m /\
    in_u32 (cs_xid st) /\ in_s32 (cs_acc st) /\
    (((ret = EINVAL \/ ret = EACCES) /\ arg = None) \/
     exists h fs a tl, ret = 0 /\ arg = Some a /\ header m = MsgCall h /\ acceptable h /\
       cs_proc st = proc h /\ fn_set (proc h) = Some fs /\ entry_ok (proc h) fs /\
       xdec (arg_fn fs) rest = Some (a, tl)).
Proof.
  unfold gp_rpc_decode_call.
  destruct (gp_rpc_decode_call_header i st0) as [[ret' st'] rest] eqn:E. simpl.
  apply decode_header_cases in E as [(Hd & -> & ->)|(m & Hd & Hx & Ha & Hc)].
  { simpl. intros [= <- <- <-]. auto. }
  assert (Hxr : in_u32 (cs_xid st')) by (rewrite Hx; by eapply msg_dec_xid).
  destruct Hc as [Hret|(h & -> & Hh & Hacc & Hp)].
  - assert (negb (ret' =? 0) = true) as -> by (by destruct Hret as [-> | ->]).
    intros [= <- <- <-]. right. exists m, rest. auto 10.
  - simpl. destruct (entries (proc h)) as (fs & Hfs & Hent); [apply Hacc|].
    rewrite Hp, Hfs. simpl. destruct (xdec (arg_fn fs) rest) as [[a tl]|] eqn:Ea;
      intros [= <- <- <-]; right; exists m, rest; simpl; split_and!; auto.
    + right. exists h, fs, a, tl. split_and!; auto.
    + done.
Qed.

Lemma create_size : xdr_size (xdrmem_create MAX_RPC_SIZE) = MAX_RPC_SIZE.
Proof. by apply xdrmem_create_spec. Qed.

(** A call that is refused runs nothing and gets the error reply. *)
Lemma process_refused w i ret st :
  gp_rpc_decode_call i st0 = (ret, st, None) -> ret <> EFAULT -> ret <> 0 ->
  exists out, gp_rpc_process_call true w i = Some (0, out, w) /\
    replies out (reply_msg (cs_xid st) ret (cs_acc st) (cs_rej st)) [].
Proof.
  intros Hd He H0. unfold gp_rpc_process_call. fold st0. rewrite Hd. simpl.
  destruct (decode_call_cases _ _ _ _ Hd) as [(_ & -> & _)|(m & rest & _ & _ & Hx & Ha & _)];
    [done|].
  destruct (encode_error (xdrmem_create MAX_RPC_SIZE) (cs_xid st) (cs_proc st) res_void
    ret (cs_acc st) (cs_rej st)) as (s' & E & Hr); [done|done|done|done|rewrite create_size; done|].
  rewrite E. simpl. eauto.
Qed.

(** The call reaches a procedure that succeeds with a result whose bytes are gone. *)
Definition ruined (w : W) (i : bytes) : Prop :=
  exists st a fs f w', gp_rpc_decode_call i st0 = (0, st, Some a) /\
    fn_set (cs_proc st) = Some fs /\ exec_fn fs = Some f /\ f w a = (0, None, w').

(** An accepted call runs its procedure once and gets its result, or a system error
    when the procedure fails or its result is too large. *)
Lemma process_accepted w i st a fs :
  gp_rpc_decode_call i st0 = (0, st, Some a) -> fn_set (cs_proc st) = Some fs ->
  exists f ret r w', exec_fn fs = Some f /\ f w a = (ret, r, w') /\
    ((ret = 0 /\ r = None /\ gp_rpc_process_call true w i = None) \/
     exists out, gp_rpc_process_call true w i = Some (0, out, w') /\
     (ret <> 0 /\ replies out (reply_msg (cs_xid st) EINVAL GP_RPC_SYSTEM_ERR (cs_rej st)) [] \/
      ret = 0 /\ exists r' hd body, r = Some r' /\
       image_of xdr_gp_rpc_msg (reply_msg (cs_xid st) 0 (cs_acc st) (cs_rej st)) hd /\
       image_of (res_fn fs) r' body /\
       if decide (len hd + len body <= MAX_RPC_SIZE) then out = hd ++ body
       else replies out (reply_msg (cs_xid st) EINVAL GP_RPC_SYSTEM_ERR GP_RPC_RPC_MISMATCH) [])).
Proof.
  intros Hd Hfs.
  destruct (decode_call_cases _ _ _ _ Hd)
    as [(_ & ? & _)|(m & rest & Hm & Hx & Hxr & Hacc & [[_ ?]|Hok])]; [done|done|].
  destruct Hok as (h & fs' & a' & tl & _ & Ha & Hh & Hac & Hp & Hfs' & Hent & Harg).
  simplify_eq. rewrite Hp, Hfs' in Hfs. simplify_eq.
  destruct Hent as (_ & _ & Hres & f & Hf & Hty).
  specialize (Hty w rest a' tl Harg). destruct (f w a') as [[ret r] w'] eqn:Ef.
  exists f, ret, r, w'. split; [done|]. split; [done|].
  unfold gp_rpc_process_call. fold st0. rewrite Hd. simpl.
  unfold gp_rpc_execute. rewrite Hp, Hfs'. simpl. rewrite Hf. simpl. rewrite Ef. simpl.
  pose proof create_size as Hsz. destruct (decide (ret = 0)) as [->|Hne].
  - simpl. destruct r as [r|]; [|left; done]. right. simpl.
    destruct (encode_result (xdrmem_create MAX_RPC_SIZE) (cs_xid st) (proc h) fs r
      (cs_acc st) (cs_rej st)) as (s' & E & hd & body & H1 & H2 & H3); auto.
    { by rewrite Hsz. }
    rewrite E. simpl. rewrite Hsz in H3. eexists. split; [done|]. right. split; [done|].
    exists r, hd, body. auto.
  - rewrite (proj2 (Z.eqb_neq _ _) Hne). simpl. right.
    destruct (encode_error (xdrmem_create MAX_RPC_SIZE) (cs_xid st) (proc h) res_void EINVAL
      GP_RPC_SYSTEM_ERR (cs_rej st)) as (s' & E & Hr); try done; [by rewrite Hsz|].
    rewrite E. simpl. eexists. split; [done|]. left. auto.
Qed.

Lemma ruined_faults w i : ruined w i -> gp_rpc_process_call true w i = None.
Proof.
  intros (st & a & fs & f & w' & Hd & Hfs & Hf & Hrun).
  destruct (process_accepted w i st a fs Hd Hfs)
    as (f' & ret & r & w2 & Hf' & Hrun' & [(_ & _ & Hp)|(out & _ & Hr)]); [done|].
  rewrite Hf in Hf'. injection Hf' as <-. rewrite Hrun in Hrun'. injection Hrun' as <- <- _.
  destruct Hr as [[? _]|(_ & ? & ? & ? & ? & _)]; done.
Qed.

Lemma process_none w i mem : xdec xdr_gp_rpc_msg i = None ->
  gp_rpc_process_call mem w i = Some (EFAULT, [], w).
Proof.
  intros Hd. unfold gp_rpc_process_call, gp_rpc_decode_call, gp_rpc_decode_call_header.
  by rewrite Hd.
Qed.

Lemma decode_call_accepts x h fs a hd args :
  acceptable h -> fn_set (proc h) = Some fs ->
  image_of xdr_gp_rpc_msg (RpcMsg x (MsgCall h)) hd -> image_of (arg_fn fs) a args ->
  gp_rpc_decode_call (hd ++ args) st0
  = (0, CallStatus x (proc h) GP_RPC_SUCCESS GP_RPC_RPC_MISMATCH, Some a).
Proof.
  intros Hac Hfs Hhd Hargs.
  pose proof (decode_header_accepts (hd ++ args) _ args h (proj1 Hhd args) eq_refl Hac) as Hh.
  unfold gp_rpc_decode_call. rewrite Hh. simpl. rewrite Hfs. simpl.
  pose proof (proj1 Hargs []) as Ha. rewrite app_nil_r in Ha. by rewrite Ha.
Qed.

Lemma process_replies w i m rest :
  xdec xdr_gp_rpc_msg i = Some (m, rest) -> ~ ruined w i ->
  exists out w' rh body, gp_rpc_process_call true w i = Some (0, out, w') /\
    xdec xdr_gp_rpc_msg out = Some (RpcMsg (xid m) (MsgReply rh), body).
Proof.
  intros Hm Hok. destruct (gp_rpc_decode_call i st0) as [[ret st] arg] eqn:Hd.
  destruct (decode_call_cases _ _ _ _ Hd)
    as [(? & _)|(m' & rest' & Hm' & Hx & Hxr & Hacc & Hc)]; [congruence|].
  rewrite Hm in Hm'. simplify_eq. rewrite <- Hx. destruct Hc as [[Hret ->]|Hc].
  - destruct (process_refused w i ret st Hd) as (out & Hp & Hr);
      [by destruct Hret as [-> | ->]..|].
    apply replies_decode in Hr. unfold reply_msg in Hr. eauto 10.
  - destruct Hc as (h & fs & a & tl & -> & -> & Hh & Hac & Hproc & Hfs & Hent & Ha).
    rewrite <- Hproc in Hfs.
    destruct (process_accepted w i st a fs Hd Hfs)
      as (f & ret & r & w' & Hf & Hrun & [(-> & -> & _)|(out & Hp & Hr)]).
    { destruct Hok. unfold ruined. eauto 10. }
    exists out, w'. destruct Hr as [[_ Hr]|(_ & r' & hd & body & _ & Hi & _ & Hr)].
    + apply replies_decode in Hr. unfold reply_msg in Hr. eauto 10.
    + case_decide; [|apply replies_decode in Hr; unfold reply_msg in Hr; eauto 10].
      subst out. pose proof (proj1 Hi body) as Hr. unfold reply_msg in Hr. eauto 10.
Qed.

(** ** The properties *)

(** C16. A request whose RPC header decodes always gets a reply, and the reply is a
    REPLY message with the request's transaction id; unless it ran a procedure that
    reported success with a result whose bytes are gone. *)
Theorem process_call_replies w i m rest :
  xdec xdr_gp_rpc_msg i = Some (m, rest) -> ~ ruined w i ->
  exists out w' rh body, gp_rpc_process_call true w i = Some (0, out, w') /\
    xdec xdr_gp_rpc_msg out = Some (RpcMsg (xid m) (MsgReply rh), body).
Proof. apply process_replies. Qed.

(** Whatever bytes arrive, the dispatcher never calls through a null or missing
    [exec_fn]: it faults only when it encodes a result whose bytes are gone; and it
    gives up without a reply exactly on bytes that hold no RPC message. *)
Theorem process_call_total w i :
  (gp_rpc_process_call true w i = None <-> ruined w i) /\
  ((exists out w', gp_rpc_process_call true w i = Some (EFAULT, out, w')) <->
   xdec xdr_gp_rpc_msg i = None).
Proof.
  destruct (gp_rpc_decode_call i st0) as [[ret st] arg] eqn:Hd.
  assert (Hdec : ruined w i -> exists a, arg = Some a).
  { intros (st' & a' & fs & f & w' & E & _). exists a'. congruence. }
  destruct (decode_call_cases _ _ _ _ Hd)
    as [(Hn & _ & ->)|(m' & rest' & Hm' & Hx & Hxr & Hacc & [[Hret ->]|Hc])].
  - rewrite (process_none w i true Hn). split; [|split; eauto]. split; [done|].
    intros Hr. by destruct (Hdec Hr).
  - destruct (process_refused w i ret st Hd) as (out & Hp & _);
      [by destruct Hret as [-> | ->]..|].
    rewrite Hp, Hm'. split; split; [done| |by intros (? & ? & ?)|done].
    intros Hr. by destruct (Hdec Hr).
  - destruct Hc as (h & fs & a & tl & -> & -> & Hh & Hac & Hproc & Hfs & Hent & Ha).
    rewrite <- Hproc in Hfs. rewrite Hm'.
    destruct (process_accepted w i st a fs Hd Hfs)
      as (f & ret & r & w' & Hf & Hrun & [(-> & -> & Hp)|(out & Hp & Hr)]); rewrite Hp.
    + split; [|split; [by intros (? & ? & ?)|done]]. split; [|done].
      intros _. unfold ruined. eauto 10.
    + split; [|split; [by intros (? & ? & ?)|done]]. split; [done|].
      intros (st' & a' & fs' & f' & w2 & Hd' & Hfs' & Hf' & Hrun').
      rewrite Hd in Hd'. injection Hd' as <- <-. rewrite Hfs in Hfs'. injection Hfs' as <-.
      rewrite Hf in Hf'. injection Hf' as <-. rewrite Hrun in Hrun'. injection Hrun' as -> -> _.
      destruct Hr as [[? _]|(_ & ? & ? & ? & ? & _)]; done.
Qed.

(** the reply RFC 5531 asks for when a header is refused *)
Definition denied x r := RpcMsg x (MsgReply (MsgDenied r)).
Definition accepted x u := RpcMsg x (MsgReply (MsgAccepted (AcceptedReply no_auth u))).

Lemma refused_header w i m rest ret st :
  xdec xdr_gp_rpc_msg i = Some (m, rest) ->
  gp_rpc_decode_call_header i st0 = (ret, st, rest) -> ret <> 0 -> cs_xid st = xid m ->
  exists out, gp_rpc_process_call true w i = Some (0, out, w) /\
    replies out (reply_msg (xid m) ret (cs_acc st) (cs_rej st)) [].
Proof.
  intros Hm Hh H0 Hx. rewrite <- Hx. apply process_refused; [|intros ->|done].
  - unfold gp_rpc_decode_call. rewrite Hh. by rewrite (proj2 (Z.eqb_neq _ _) H0).
  - destruct (decode_header_cases _ _ _ _ Hh) as [(? & _)|(? & _ & _ & _ & [[?|?]|(? & ? & _)])];
      [congruence|done..].
Qed.

(** C25. A message that is not an acceptable call runs no procedure (the world is
    unchanged) and is answered with the error RFC 5531 gives its first defect:
    RPC version, program, version, procedure, credential flavor, in this order. *)
Theorem process_call_rejects w i m rest :
  xdec xdr_gp_rpc_msg i = Some (m, rest) ->
  (forall h, header m = MsgCall h -> ~ acceptable h) ->
  exists out, gp_rpc_process_call true w i = Some (0, out, w) /\
    match header m with
    | MsgReply _ => replies out (accepted (xid m) (ReplyVoid GP_RPC_GARBAGE_ARGS)) []
    | MsgCall h =>
        if decide (rpcvers h <> 2) then
          replies out (denied (xid m) (RejRpcMismatch (MismatchInfo 2 2))) []
        else if decide (prog h <> GSSPROXY) then
          replies out (accepted (xid m) (ReplyVoid GP_RPC_PROG_UNAVAIL)) []
        else if decide (vers h <> GSSPROXYVERS) then
          replies out (accepted (xid m)
            (ReplyProgMismatch (MismatchInfo GSSPROXYVERS GSSPROXYVERS))) []
        else if decide (proc h < GSSX_PROC_MIN \/ GSSX_PROC_MAX < proc h) then
          replies out (accepted (xid m) (ReplyVoid GP_RPC_PROC_UNAVAIL)) []
        else replies out (denied (xid m) (RejAuthError GP_RPC_AUTH_FAILED)) []
    end.
Proof.
  intros Hm Hbad.
  destruct (gp_rpc_decode_call_header i st0) as [[ret st] rest'] eqn:E.
  assert (H : ret <> 0 /\ rest' = rest /\ cs_xid st = xid m).
  { destruct (decode_header_cases _ _ _ _ E)
      as [(? & _)|(m' & Hm' & Hx & _ & [Hr|(h & _ & Hh & Ha & _)])]; [congruence| |].
    - rewrite Hm in Hm'. simplify_eq. split; [by destruct Hr as [-> | ->]|auto].
    - rewrite Hm in Hm'. simplify_eq. by destruct (Hbad h Hh). }
  destruct H as (H0 & -> & Hx).
  destruct (refused_header w i m rest ret st Hm E H0 Hx) as (out & Hp & Hr).
  exists out. split; [done|]. revert E. unfold gp_rpc_decode_call_header. rewrite Hm.
  destruct (header m) as [h|r]; [|intros [= <- <-]; exact Hr].
  repeat case_decide; intros E;
    repeat (case_match; simplify_eq/=; try exact Hr; try lia).
Qed.

Lemma success_small x reply : in_u32 x -> image_of xdr_gp_rpc_msg (accepted x ReplySuccess) reply -> len reply <= 64.
Proof.
  intros Hx Hr. destruct (reply_image x 0 GP_RPC_SUCCESS GP_RPC_RPC_MISMATCH Hx ltac:(done)) as (bs & Hbs & Hl).
  by rewrite (image_unique _ _ _ _ Hr Hbs).
Qed.

(** memory for the copy of the reply is asked for last *)
Lemma process_no_memory w i : gp_rpc_process_call false w i =
  match gp_rpc_process_call true w i with Some (0, _, w') => Some (ENOMEM, [], w') | r => r end.
Proof.
  unfold gp_rpc_process_call. destruct (gp_rpc_decode_call i _) as [[ret st] arg].
  destruct (match arg with Some _ => _ | None => _ end) as [[[[r acc] res] w']|]; simpl; [|done].
  destruct (gp_rpc_encode_reply _ _ _ _ _ _ _) as [ret2 s2]. destruct (Z.eqb_spec ret2 0) as [->|Hne]; simpl; [done|].
  by destruct ret2.
Qed.

(** C17. What a client gets for a call: the wire image of a call header the dispatcher accepts,
    followed by the image of an argument of the called procedure.  When the procedure succeeds
    and its result fits in the reply buffer, a reply that decodes to a success and then to
    exactly the result the procedure returned; when it fails, or its result does not fit, a
    system error; nothing, with ENOMEM, when there is no memory for the copy of the reply.  A
    procedure that succeeds with a result whose bytes are gone is a fault. *)
Theorem rpc_call_roundtrip mem w x h fs a hd args f :
  in_u32 x -> acceptable h -> fn_set (proc h) = Some fs -> exec_fn fs = Some f ->
  image_of xdr_gp_rpc_msg (RpcMsg x (MsgCall h)) hd -> image_of (arg_fn fs) a args ->
  let '(ret, r, w') := f w a in
  let answered out := gp_rpc_process_call mem w (hd ++ args) =
    Some (if mem then (0, out, w') else (ENOMEM, [], w')) in
  let refused out := xdec xdr_gp_rpc_msg out = Some (accepted x (ReplyVoid GP_RPC_SYSTEM_ERR), []) in
  if negb (ret =? 0) then exists out, answered out /\ refused out
  else match r with
  | None => gp_rpc_process_call mem w (hd ++ args) = None
  | Some res => exists out reply body, answered out /\
      image_of xdr_gp_rpc_msg (accepted x ReplySuccess) reply /\ image_of (res_fn fs) res body /\
      if decide (len reply + len body <= MAX_RPC_SIZE)
      then xdec xdr_gp_rpc_msg out = Some (accepted x ReplySuccess, body) /\ xdec (res_fn fs) body = Some (res, [])
      else refused out
  end.
Proof.
  intros Hx Hac Hfs Hf Hhd Hargs.
  pose proof (decode_call_accepts x h fs a hd args Hac Hfs Hhd Hargs) as Hd.
  destruct (process_accepted w _ _ a fs Hd Hfs) as (f' & ret & r & w' & Hf' & Hrun & H).
  rewrite Hf in Hf'. injection Hf' as <-. rewrite Hrun. cbv zeta.
  assert (Hmem : forall out, gp_rpc_process_call true w (hd ++ args) = Some (0, out, w') ->
    gp_rpc_process_call mem w (hd ++ args) = Some (if mem then (0, out, w') else (ENOMEM, [], w'))).
  { intros out E. destruct mem; [done|]. by rewrite process_no_memory, E. }
  destruct H as [(-> & -> & Hp)|(out & Hp & [[Hne Hr]|(-> & res & reply & body & -> & Hi & Hb & Hsz)])].
  - simpl. destruct mem; [done|]. by rewrite process_no_memory, Hp.
  - rewrite (proj2 (Z.eqb_neq _ _) Hne). simpl. exists out. split; [by apply Hmem|]. by apply replies_decode in Hr.
  - simpl. exists out, reply, body. split; [by apply Hmem|]. split; [exact Hi|]. split; [exact Hb|].
    destruct (decide _); [|by apply replies_decode in Hsz]. subst out. split; [apply Hi|].
    pose proof (proj1 Hb []) as He. by rewrite app_nil_r in He.
Qed.

(** C34. A result too large for the reply buffer is answered with a system error, not
    with a truncated result. *)
Theorem process_call_oversize w x h fs a hd args f r w' body :
  in_u32 x -> acceptable h -> fn_set (proc h) = Some fs -> exec_fn fs = Some f ->
  image_of xdr_gp_rpc_msg (RpcMsg x (MsgCall h)) hd ->
  image_of (arg_fn fs) a args -> f w a = (0, Some r, w') ->
  image_of (res_fn fs) r body -> MAX_RPC_SIZE < len body ->
  exists out, gp_rpc_process_call true w (hd ++ args) = Some (0, out, w') /\
    xdec xdr_gp_rpc_msg out = Some (accepted x (ReplyVoid GP_RPC_SYSTEM_ERR), []).
Proof.
  intros Hx Hac Hfs Hf Hhd Hargs Hrun Hb Hbig.
  pose proof (decode_call_accepts x h fs a hd args Hac Hfs Hhd Hargs) as Hd.
  destruct (process_accepted w _ _ a fs Hd Hfs)
    as (f' & ret & r' & w2 & Hf' & Hrun' & [(_ & ? & _)|(out & Hp & [[Hne _]|Hres])]);
    simplify_eq; rewrite Hrun in Hrun'; simplify_eq.
  destruct Hres as (_ & r2 & hd2 & body2 & [= <-] & Hi & Hb2 & Hsz).
  rewrite <- (image_unique _ _ _ _ Hb Hb2) in Hsz. pose proof (len_nonneg hd2).
  rewrite decide_False in Hsz by lia.
  exists out. split; [done|]. by apply replies_decode in Hsz.
Qed.
End correctness.
