(* ===== verification/RpcExamples.v ===== *)
(** * Concrete calls

    The theorems of RpcReply.v applied: the RFC 4506 instance of the XDR library, and
    a server whose procedures count their calls and return an empty result. *)

From S2P Require Import Prelude Xdr Rfc4506 RpcXdr GssxXdr RpcProcess RpcTable RpcReply.

Definition w_res_indicate_mechs := Mk_res_indicate_mechs zero_status [] [] [] [].
Definition w_res_import_and_canon_name := Mk_res_import_and_canon_name zero_status None [].
Definition w_res_acquire_cred := Mk_res_acquire_cred zero_status None [].
Definition w_res_init_sec_context := Mk_res_init_sec_context zero_status None None [].
Definition w_res_accept_sec_context := Mk_res_accept_sec_context zero_status None None None [].
Definition w_res_release_handle := Mk_res_release_handle zero_status.
Definition w_res_get_mic := Mk_res_get_mic zero_status None [] None.
Definition w_res_verify_mic := Mk_res_verify_mic zero_status None None.
Definition w_res_wrap := Mk_res_wrap zero_status None [] None None.
Definition w_res_unwrap := Mk_res_unwrap zero_status None [] None None.
Definition w_res_wrap_size_limit := Mk_res_wrap_size_limit zero_status 77.

(** the world counts the procedures that ran *)
#[export] Instance counting_handlers : RpcHandlers Z := {|
  gp_indicate_mechs w _ := (0, Some w_res_indicate_mechs, w + 1);
  gp_import_and_canon_name w _ := (0, Some w_res_import_and_canon_name, w + 1);
  gp_acquire_cred w _ := (0, Some w_res_acquire_cred, w + 1);
  gp_init_sec_context w _ := (0, Some w_res_init_sec_context, w + 1);
  gp_accept_sec_context w _ := (0, Some w_res_accept_sec_context, w + 1);
  gp_release_handle w _ := (0, Some w_res_release_handle, w + 1);
  gp_get_mic w _ := (0, Some w_res_get_mic, w + 1);
  gp_verify_mic w _ := (0, Some w_res_verify_mic, w + 1);
  gp_wrap w _ := (0, Some w_res_wrap, w + 1);
  gp_unwrap w _ := (0, Some w_res_unwrap, w + 1);
  gp_wrap_size_limit w _ := (0, Some w_res_wrap_size_limit, w + 1);
|}.

Ltac typed_result :=
  repeat lazymatch goal with
  | |- xdom xdr_gssx_status _ => exact zero_status_dom
  | |- xdom xdr_gssx_uint64 _ => apply uint64_dom; done
  | |- xdom xdr_gssx_buffer _ => apply empty_bytes_dom
  | |- xdom xdr_utf8string _ => apply empty_bytes_dom
  | |- xdom xdr_octet_string _ => apply empty_bytes_dom
  | |- xdom (xdr_array _ _ _) _ => apply zero_lists_dom
  | |- xdom (xdr_pointer _) _ => apply none_dom
  | |- _ => first [split | exact I | reflexivity | solve [vm_compute; done]]
  end.

#[export] Instance counting_typed : HandlersTyped Z.
Proof. split; intros w a r [= <-]; typed_result. Qed.

(** the image of a value, computed *)
Definition w_image {A} (c : codec (XL := Rfc4506) A) (a : A) : bytes :=
  match xenc c a (xdrmem_create 4096) with Some s => xdr_buffer s | None => [] end.

Lemma w_image_ok {A} (c : codec (XL := Rfc4506) A) a :
  codec_ok c -> xdom c a -> is_Some (xenc c a (xdrmem_create 4096)) ->
  image_of c a (w_image c a).
Proof.
  intros Hok Ha [s Hs]. unfold w_image. rewrite Hs. by apply (image_eval c a 4096).
Qed.

Definition w_header (p : Z) : gp_rpc_call_header :=
  CallHeader 2 GSSPROXY GSSPROXYVERS p no_auth no_auth.
Definition w_ctx : gssx_call_ctx := Mk_call_ctx [] [] [].
Definition w_arg : gp_rpc_arg := arg_indicate_mechs (Mk_arg_indicate_mechs w_ctx).
Definition w_call (h : gp_rpc_call_header) : bytes :=
  w_image xdr_gp_rpc_msg (RpcMsg 7 (MsgCall h)).

Lemma w_header_acceptable : acceptable (w_header GSSX_INDICATE_MECHS).
Proof. done. Qed.

Lemma w_call_image : image_of xdr_gp_rpc_msg (RpcMsg 7 (MsgCall (w_header 1))) (w_call (w_header 1)).
Proof.
  apply w_image_ok; [apply codec_ok_msg|typed_result|vm_compute; eauto].
Qed.

Lemma w_arg_image : image_of (arg_fn set_indicate_mechs) w_arg
  (w_image (arg_fn set_indicate_mechs) w_arg).
Proof.
  apply w_image_ok; [apply member_arg_ok; solve_codec|typed_result|vm_compute; eauto].
Qed.

(** ** The theorems at these calls *)

Definition w_request (h : gp_rpc_call_header) : bytes :=
  w_call h ++ w_image (arg_fn set_indicate_mechs) w_arg.

Lemma w_request_decodes : xdec xdr_gp_rpc_msg (w_request (w_header 1)) =
  Some (RpcMsg 7 (MsgCall (w_header 1)), w_image (arg_fn set_indicate_mechs) w_arg).
Proof. apply w_call_image. Qed.

Lemma w_request_not_ruined : ~ ruined 5 (w_request (w_header 1)).
Proof.
  intros (st & a & fs & f & w' & Hd & Hfs & Hf & Hrun). vm_compute in Hd.
  injection Hd as <- <-. injection Hfs as <-. injection Hf as <-. discriminate Hrun.
Qed.

Lemma process_call_replies_witness : exists out w' rh body,
  gp_rpc_process_call true 5 (w_request (w_header 1)) = Some (0, out, w') /\
  xdec xdr_gp_rpc_msg out = Some (RpcMsg 7 (MsgReply rh), body).
Proof. exact (process_call_replies 5 _ _ _ w_request_decodes w_request_not_ruined). Defined.

Lemma process_call_total_witness :
  (gp_rpc_process_call true 5 [] = None <-> ruined 5 []) /\
  ((exists out w', gp_rpc_process_call true 5 [] = Some (EFAULT, out, w')) <->
   xdec xdr_gp_rpc_msg [] = None).
Proof. exact (process_call_total 5 []). Defined.

(** a call of program version 2: version mismatch, 1 to 1 *)
Definition w_bad_header : gp_rpc_call_header := CallHeader 2 GSSPROXY 2 1 no_auth no_auth.

Lemma process_call_rejects_witness : exists out,
  gp_rpc_process_call true 5 (w_call w_bad_header) = Some (0, out, 5) /\
  replies out (accepted 7 (ReplyProgMismatch (MismatchInfo 1 1))) [].
Proof.
  apply (process_call_rejects 5 (w_call w_bad_header) (RpcMsg 7 (MsgCall w_bad_header)) []).
  - by vm_compute.
  - intros h [= <-] (_ & _ & H & _). discriminate H.
Defined.

Definition w_res : gp_rpc_res := res_indicate_mechs w_res_indicate_mechs.

Lemma w_res_image : image_of (res_fn set_indicate_mechs) w_res
  (w_image (res_fn set_indicate_mechs) w_res).
Proof.
  apply w_image_ok; [apply member_res_ok; solve_codec|typed_result|vm_compute; eauto].
Qed.

Lemma rpc_call_roundtrip_witness : exists out body,
  gp_rpc_process_call true 5 (w_request (w_header 1)) = Some (0, out, 6) /\
  xdec xdr_gp_rpc_msg out = Some (accepted 7 ReplySuccess, body) /\
  xdec (res_fn set_indicate_mechs) body = Some (w_res, []).
Proof.
  destruct (rpc_call_roundtrip true 5 7 (w_header 1) set_indicate_mechs w_arg _ _
    (on_member as_indicate_mechs res_indicate_mechs gp_indicate_mechs)
    ltac:(done) w_header_acceptable eq_refl eq_refl w_call_image w_arg_image)
    as (out & reply & body & Hp & Hr & Hb & H).
  exists out, body. split; [exact Hp|].
  pose proof (success_small (XL := Rfc4506) 7 reply ltac:(split; vm_compute; congruence) Hr) as Hl.
  rewrite (image_unique _ _ _ _ Hb w_res_image) in H.
  rewrite decide_True in H; [|etrans; [apply Z.add_le_mono_r, Hl|]; by vm_compute].
  rewrite (image_unique _ _ _ _ Hb w_res_image). exact H.
Defined.

(** ** A result over the size limit: a MIC of one megabyte and one byte *)

Module Big.
Definition token : bytes := replicate (Z.to_nat (MAX_RPC_SIZE + 1)) Byte.x00.
Definition result : gssx_res_get_mic := Mk_res_get_mic zero_status None token None.

Lemma len_token : len token = MAX_RPC_SIZE + 1.
Proof. unfold len, token. rewrite length_replicate. unfold MAX_RPC_SIZE. lia. Qed.

Lemma token_dom : xdom xdr_gssx_buffer token.
Proof.
  pose proof len_token as H. unfold MAX_RPC_SIZE in H.
  split; [|split]; rewrite H; unfold MAXCOUNT; lia.
Qed.

Lemma result_dom : xdom xdr_gssx_res_get_mic result.
Proof.
  split; [|done]. split; [|apply none_dom]. split; [|exact token_dom].
  split; [exact zero_status_dom|apply none_dom].
Qed.

#[local] Instance handlers : RpcHandlers Z := {|
  gp_indicate_mechs w _ := (0, Some w_res_indicate_mechs, w + 1);
  gp_import_and_canon_name w _ := (0, Some w_res_import_and_canon_name, w + 1);
  gp_acquire_cred w _ := (0, Some w_res_acquire_cred, w + 1);
  gp_init_sec_context w _ := (0, Some w_res_init_sec_context, w + 1);
  gp_accept_sec_context w _ := (0, Some w_res_accept_sec_context, w + 1);
  gp_release_handle w _ := (0, Some w_res_release_handle, w + 1);
  gp_get_mic w _ := (0, Some result, w + 1);
  gp_verify_mic w _ := (0, Some w_res_verify_mic, w + 1);
  gp_wrap w _ := (0, Some w_res_wrap, w + 1);
  gp_unwrap w _ := (0, Some w_res_unwrap, w + 1);
  gp_wrap_size_limit w _ := (0, Some w_res_wrap_size_limit, w + 1);
|}.

#[local] Instance typed : HandlersTyped Z.
Proof.
  split; intros w a r [= <-]; [typed_result..| |typed_result|typed_result|typed_result|typed_result].
  exact result_dom.
Qed.

(** the image of the result holds the token *)
Lemma body_big body : image_of (res_fn set_get_mic) (res_get_mic result) body ->
  MAX_RPC_SIZE < len body.
Proof.
  intros Hb.
  destruct (codec_ok_status zero_status zero_status_dom) as (x1 & H1).
  destruct (xdr_pointer_law _ xdr_gssx_ctx codec_ok_ctx None I) as (x2 & H2).
  destruct (xdr_pointer_law _ xdr_gssx_qop codec_ok_uint64 None I) as (x4 & H4).
  pose proof (r_bytes_image MAXCOUNT token token_dom) as H3.
  pose proof (image_seq _ _ _ _ _ _ (image_seq _ _ _ _ _ _ (image_seq _ _ _ _ _ _ H1 H2) H3) H4)
    as H.
  assert (Hr : image_of (res_fn set_get_mic) (res_get_mic result)
                 (((x1 ++ x2) ++ r_bytes_img token) ++ x4)).
  { eapply image_view; [reflexivity|reflexivity|].
    eapply image_view; [reflexivity|reflexivity|]. exact H. }
  rewrite (image_unique _ _ _ _ Hb Hr). unfold r_bytes_img. rewrite !len_app, len_token.
  pose proof (len_nonneg x1). pose proof (len_nonneg x2). pose proof (len_nonneg x4).
  pose proof (len_nonneg (be_bytes 4 (MAX_RPC_SIZE + 1))).
  pose proof (len_nonneg (padding (MAX_RPC_SIZE + 1))). lia.
Qed.

Definition zero_name : gssx_name := Mk_name [] [] [] [] [] [].
Definition zero_ctx : gssx_ctx :=
  Mk_ctx [] [] false [] zero_name zero_name 0 0 false false [].
Definition arg : gp_rpc_arg := arg_get_mic (Mk_arg_get_mic w_ctx zero_ctx 0 []).

Lemma call_image :
  image_of xdr_gp_rpc_msg (RpcMsg 7 (MsgCall (w_header GSSX_GET_MIC))) (w_call (w_header 11)).
Proof. apply w_image_ok; [apply codec_ok_msg|typed_result|vm_compute; eauto]. Qed.

Lemma arg_image : image_of (arg_fn set_get_mic) arg (w_image (arg_fn set_get_mic) arg).
Proof.
  apply w_image_ok; [apply member_arg_ok; solve_codec|typed_result|vm_compute; eauto].
Qed.

Lemma process_call_oversize_witness : exists body out,
  image_of (res_fn set_get_mic) (res_get_mic result) body /\ MAX_RPC_SIZE < len body /\
  gp_rpc_process_call true 5
    (w_call (w_header 11) ++ w_image (arg_fn set_get_mic) arg) = Some (0, out, 6) /\
  xdec xdr_gp_rpc_msg out = Some (accepted 7 (ReplyVoid GP_RPC_SYSTEM_ERR), []).
Proof.
  assert (Hok : codec_ok (res_fn set_get_mic)) by (apply member_res_ok; solve_codec).
  destruct (Hok (res_get_mic result)) as (body & Hb); [split; [exact result_dom|done]|].
  destruct (process_call_oversize 5 7 (w_header GSSX_GET_MIC) set_get_mic arg
    (w_call (w_header 11)) (w_image (arg_fn set_get_mic) arg)
    (on_member as_get_mic res_get_mic gp_get_mic) (res_get_mic result) 6 body)
    as (out & Hp & Hd);
    [done|done|reflexivity|reflexivity|exact call_image|exact arg_image|reflexivity
    |exact Hb|by apply body_big|].
  exists body, out. split; [exact Hb|]. split; [by apply body_big|]. split; [exact Hp|exact Hd].
Defined.
End Big.

Lemma procedure_codecs_roundtrip_witness : exists fs,
  fn_set (W := Z) GSSX_WRAP = Some fs /\ fs_proc fs = GSSX_WRAP.
Proof.
  destruct (procedure_codecs_roundtrip (XL := Rfc4506) (W := Z) GSSX_WRAP)
    as (fs & Hfs & Hp & _); [split; discriminate|]. exists fs. split; [exact Hfs|exact Hp].
Defined.
