(* ===== verification/Socket.v ===== *)
(** * Connections: framing on a stream socket

    src/gp_socket.c.  A connection is read until one whole framed request is in,
    handed to the workers, written back, and read again.  Each callback of the event
    loop is a function from the state of the connection and the answers the kernel
    and the allocator give to the state after it and the bytes it moved. *)

From S2P Require Import Prelude RpcProcess.

(** [1 << 31] is an int: as a size_t it has its upper 33 bits set *)
Definition FRAGMENT_BIT : Z := - 2 ^ 31.

(** ** State *)

(** The bytes a buffer has received so far, or has to send; [None] is a null [data]. *)
Record gp_buffer := Buffer { b_data : option bytes; b_size : Z; b_pos : Z }.

Inductive conn_state :=
| Reading (b : gp_buffer)      (* a read event is scheduled *)
| Querying (query : bytes)     (* the workers own the connection *)
| Writing (b : gp_buffer)      (* a write event is scheduled *)
| Closed.                      (* gp_conn_free was called *)

(** what read(2) answers *)
Inductive read_res := ReadErr (errno : Z) | ReadOk (b : bytes).
(** what writev(2) answers *)
Inductive write_res := WriteErr (errno : Z) | WriteOk (n : Z).

(** everything a read callback asks the system for, in the order it asks *)
Record read_env := ReadEnv {
  re_header : read_res;       (* read(fd, &size, 4) *)
  re_malloc : bool;           (* malloc(size) *)
  re_data : read_res;         (* read(fd, data + pos, size - pos) *)
  re_query : Z;               (* gp_query_new *)
  re_event : bool;            (* verto_add_io *)
}.

Definition retry (errno : Z) : bool := (errno =? EAGAIN) || (errno =? EINTR).

(** ** Scheduling *)

Definition gp_socket_schedule_read (event : bool) (b : gp_buffer) : conn_state :=
  if event then Reading b else Closed.

Definition gp_setup_reader (mem event : bool) : conn_state :=
  if mem then gp_socket_schedule_read event (Buffer None 0 0) else Closed.

Definition gp_socket_schedule_write (event : bool) (b : gp_buffer) : conn_state :=
  if event then Writing b else Closed.

Definition gp_socket_send_data (mem event : bool) (buffer : bytes) (buflen : Z) : conn_state :=
  if mem then gp_socket_schedule_write event (Buffer (Some buffer) buflen 0) else Closed.

(** ** Reading *)

(** The first part: read the length and allocate.  [inl]: an error number to end with;
    [inr]: the buffer to read into.  With it, the bytes read so far. *)
Definition read_header (e : read_env) (b : gp_buffer) : (Z + gp_buffer) * Z :=
  match re_header e with
  | ReadErr n => (inl (if retry n then EAGAIN else EIO), 0)
  | ReadOk h =>
      if negb (len h =? 4) then (inl EIO, 0)
      else
        let size := be_val h in
        if Z.land size (u64 FRAGMENT_BIT) =? 0 then (inl EIO, 4)
        else
          let size := Z.land size (u64 (Z.lnot FRAGMENT_BIT)) in
          if MAX_RPC_SIZE <? size then (inl EIO, 4)
          else if re_malloc e then (inr (Buffer (Some []) size (b_pos b)), 4)
          else (inl ENOMEM, 4)
  end.

(** The callback up to the label [done]: the error number, the buffer, the bytes read,
    and the packet handed over. *)
Definition gp_socket_read_body (e : read_env) (b : gp_buffer)
  : Z * gp_buffer * Z * option bytes :=
  let '(first, total) :=
    match b_data b with None => read_header e b | Some _ => (inr b, 0) end in
  match first with
  | inl ret => (ret, b, total, None)
  | inr b1 =>
      match re_data e with
      | ReadErr n => ((if retry n then EAGAIN else EIO), b1, total, None)
      | ReadOk d =>
          let rn := len d in
          let total := total + rn in
          if rn =? 0 then
            ((match b_data b with Some _ => EIO | None => EAGAIN end), b1, total, None)
          else
            let pos := b_pos b1 + rn in
            let data := default [] (b_data b1) ++ d in
            let b2 := Buffer (Some data) (b_size b1) pos in
            if pos =? b_size b1 then
              if re_query e =? 0
              then (0, Buffer None (b_size b1) pos, total, Some data)
              else (re_query e, b2, total, None)
            else (EAGAIN, b2, total, None)
      end
  end.

(** The callback: the state after it, and the bytes accounted as read. *)
Definition gp_socket_read (e : read_env) (b : gp_buffer) : conn_state * Z :=
  let '(ret, b, total, packet) := gp_socket_read_body e b in
  (if ret =? EAGAIN then gp_socket_schedule_read (re_event e) b
   else if ret =? 0 then Querying (default [] packet)
   else Closed, total).

(** ** Writing *)

Record write_env := WriteEnv {
  we_writev : write_res;
  we_calloc : bool;           (* the buffer of the next read *)
  we_event : bool;            (* verto_add_io *)
}.

(** the packet header of the first write *)
Definition packet_header (size : Z) : bytes :=
  be_bytes 4 (u32 (Z.lor size (u64 FRAGMENT_BIT))).

(** the bytes the iovec points to *)
Definition write_iov (b : gp_buffer) : bytes :=
  (if b_pos b =? 0 then packet_header (b_size b) else []) ++
  drop (Z.to_nat (b_pos b)) (default [] (b_data b)).

(** The state after the callback, the bytes put on the wire, and the bytes accounted. *)
Definition gp_socket_write (e : write_env) (b : gp_buffer) : conn_state * bytes * Z :=
  match we_writev e with
  | WriteErr n =>
      ((if retry n then gp_socket_schedule_write (we_event e) b else Closed), [], 0)
  | WriteOk wn =>
      let sent := take (Z.to_nat wn) (write_iov b) in
      let first := b_pos b =? 0 in
      if first && (wn <? 4) then (Closed, sent, 0)
      else
        let pos := b_pos b + (if first then wn - 4 else wn) in
        let b' := Buffer (b_data b) (b_size b) pos in
        ((if pos <? b_size b then gp_socket_schedule_write (we_event e) b'
          else gp_setup_reader (we_calloc e) (we_event e)), sent, wn)
  end.

(** ** The header bits *)

Lemma bits_above n i : 0 <= n < 2 ^ 31 -> 31 <= i -> Z.testbit n i = false.
Proof.
  intros Hn Hi. destruct (decide (n = 0)) as [->|]; [apply Z.bits_0|].
  apply Z.bits_above_log2; [lia|]. apply Z.lt_le_trans with 31; [|lia].
  apply Z.log2_lt_pow2; lia.
Qed.

Lemma lor_bit31 n : 0 <= n < 2 ^ 31 -> Z.lor n (2 ^ 31) = 2 ^ 31 + n.
Proof.
  intros Hn. pose proof (Z.add_lor_land n (2 ^ 31)) as Hsum.
  replace (Z.land n (2 ^ 31)) with 0 in Hsum; [lia|].
  symmetry. apply Z.bits_inj'. intros j Hj. rewrite Z.land_spec, Z.bits_0.
  rewrite Z.pow2_bits_eqb by lia. destruct (Z.eqb_spec 31 j) as [<-|].
  - by rewrite bits_above.
  - apply andb_false_r.
Qed.

Lemma fragment_bits i : 0 <= i ->
  Z.testbit (u64 FRAGMENT_BIT) i = (31 <=? i) && (i <? 64).
Proof.
  intros Hi. change (u64 FRAGMENT_BIT) with (Z.shiftl (Z.ones 33) 31).
  rewrite Z.shiftl_spec by lia. destruct (Z.leb_spec 31 i).
  - rewrite Z.testbit_ones by lia. simpl.
    destruct (Z.ltb_spec i 64), (Z.leb_spec 0 (i - 31)), (Z.ltb_spec (i - 31) 33); lia.
  - by rewrite Z.testbit_neg_r by lia.
Qed.

(** or-ing the int and storing the size_t in a uint32_t sets bit 31 alone *)
Lemma fragment_set n : 0 <= n < 2 ^ 31 -> u32 (Z.lor n (u64 FRAGMENT_BIT)) = 2 ^ 31 + n.
Proof.
  intros Hn. rewrite <- lor_bit31 by done. unfold u32. rewrite <- Z.land_ones by lia.
  apply Z.bits_inj'. intros i Hi.
  rewrite Z.land_spec, !Z.lor_spec, fragment_bits, Z.testbit_ones, Z.pow2_bits_eqb by lia.
  destruct (Z.eqb_spec 31 i) as [<-|Hne]; [by rewrite bits_above|].
  destruct (Z.ltb_spec i 31).
  - rewrite (proj2 (Z.leb_gt 31 i)), (proj2 (Z.leb_le 0 i)), (proj2 (Z.ltb_lt i 32)) by lia.
    by rewrite andb_true_r.
  - rewrite bits_above by lia. rewrite (proj2 (Z.ltb_ge i 32)) by lia.
    by rewrite !andb_false_r.
Qed.

(** and the reader takes it off again *)
Lemma fragment_test n : 0 <= n < 2 ^ 31 -> Z.land (2 ^ 31 + n) (u64 FRAGMENT_BIT) = 2 ^ 31.
Proof.
  intros Hn. rewrite <- lor_bit31 by done. apply Z.bits_inj'. intros i Hi.
  rewrite Z.land_spec, Z.lor_spec, fragment_bits, Z.pow2_bits_eqb by lia.
  destruct (Z.eqb_spec 31 i) as [<-|Hne]; [by rewrite bits_above|].
  destruct (Z.leb_spec 31 i); [rewrite bits_above by lia|]; by rewrite ?andb_false_r.
Qed.

Lemma fragment_clear n : 0 <= n < 2 ^ 31 ->
  Z.land (2 ^ 31 + n) (u64 (Z.lnot FRAGMENT_BIT)) = n.
Proof.
  intros Hn. rewrite <- lor_bit31 by done. change (u64 (Z.lnot FRAGMENT_BIT)) with (Z.ones 31).
  rewrite Z.land_ones, lor_bit31 by lia. rewrite Z.add_mod, Z.mod_same, Z.add_0_l by lia.
  rewrite Z.mod_mod by lia. apply Z.mod_small. lia.
Qed.

(** The size field a reader keeps is below 2^31 whatever arrived. *)
Lemma fragment_clear_range n : 0 <= Z.land n (u64 (Z.lnot FRAGMENT_BIT)) < 2 ^ 31.
Proof.
  change (u64 (Z.lnot FRAGMENT_BIT)) with (Z.ones 31). rewrite Z.land_ones by lia.
  apply Z.mod_pos_bound. lia.
Qed.

(** ** Frames *)

Definition frame (p : bytes) : bytes := be_bytes 4 (2 ^ 31 + len p) ++ p.

Arguments frame : simpl never.

Lemma packet_header_frame p : len p < 2 ^ 31 -> packet_header (len p) ++ p = frame p.
Proof.
  intros Hp. unfold packet_header, frame. rewrite fragment_set; [done|].
  pose proof (len_nonneg p). lia.
Qed.

Lemma frame_header_val (p : bytes) : len p < 2 ^ 31 ->
  be_val (be_bytes 4 (2 ^ 31 + len p)) = 2 ^ 31 + len p.
Proof.
  intros Hp. pose proof (len_nonneg p). rewrite be_val_bytes, Z.mod_small; [done|].
  change (256 ^ Z.of_nat 4) with (2 ^ 32). lia.
Qed.

#[local] Opaque be_bytes.

(** ** A socket with bytes in flight

    What the kernel may answer, from the bytes the peer has sent: nothing yet, or at
    most [k] bytes. *)

Inductive answer := Again | Give (k : nat).

Definition kread (n : Z) (a : answer) (inp : bytes) : read_res * bytes :=
  match a with
  | Again => (ReadErr EAGAIN, inp)
  | Give k => let m := Nat.min k (Z.to_nat n) in (ReadOk (take m inp), drop m inp)
  end.

(** One read event: [a.1] answers the read of the header, if there is one, [a.2] the
    read of the data. *)
Definition pump (a : answer * answer) (b : gp_buffer) (inp : bytes) : conn_state * bytes :=
  let '(h, inp) :=
    match b_data b with None => kread 4 a.1 inp | Some _ => (ReadErr EAGAIN, inp) end in
  let env d := ReadEnv h true d 0 true in
  let first := match b_data b with
               | None => (read_header (env (ReadErr EAGAIN)) b).1
               | Some _ => inr b
               end in
  let '(d, inp) := match first with
                   | inl _ => (ReadErr EAGAIN, inp)
                   | inr b1 => kread (b_size b1 - b_pos b1) a.2 inp
                   end in
  ((gp_socket_read (env d) b).1, inp).

Fixpoint pump_all (evs : list (answer * answer)) (st : conn_state * bytes)
  : conn_state * bytes :=
  match evs with
  | [] => st
  | a :: evs =>
      match st with
      | (Reading b, inp) => pump_all evs (pump a b inp)
      | _ => st
      end
  end.

(** a read that answers has [n] bytes; a data read has one unless the peer has closed *)
Definition gives (n : nat) (a : answer) : Prop :=
  match a with Again => True | Give k => (n <= k)%nat end.
Definition open_peer (a : answer * answer) : Prop := gives 1 a.2.

(** the read of the header that is answered first has all 4 bytes of it *)
Fixpoint header_whole (evs : list (answer * answer)) : bool :=
  match evs with
  | [] => true
  | (Again, _) :: evs => header_whole evs
  | (Give k, _) :: _ => (4 <=? k)%nat
  end.

(** the header is not asked for any more *)
Definition past_header (st : conn_state) : Prop :=
  match st with Reading b => is_Some (b_data b) | _ => True end.

(** where the reader of [frame p ++ rest] can be *)
Inductive read_inv (p rest : bytes) : conn_state * bytes -> Prop :=
| inv_start : read_inv p rest (Reading (Buffer None 0 0), frame p ++ rest)
| inv_data d r : d ++ r = p -> r <> [] ->
    read_inv p rest (Reading (Buffer (Some d) (len p) (len d)), r ++ rest)
| inv_done : read_inv p rest (Querying p, rest).

Definition todo (p : bytes) (st : conn_state) : nat :=
  match st with
  | Reading (Buffer None _ _) => S (length p)
  | Reading (Buffer (Some d) _ _) => length p - length d
  | _ => 0
  end.

Lemma kread_data n k r rest : (1 <= k)%nat -> r <> [] -> n = len r ->
  exists d r', r = d ++ r' /\ d <> [] /\ kread n (Give k) (r ++ rest) = (ReadOk d, r' ++ rest).
Proof.
  intros Hk Hr ->. simpl. unfold len. rewrite Nat2Z.id.
  set (m := Nat.min k (length r)). exists (take m r), (drop m r).
  assert (Hm : (m <= length r)%nat) by (unfold m; lia).
  split; [by rewrite take_drop|]. split.
  - intros H0. apply (f_equal length) in H0. rewrite length_take in H0. simpl in H0.
    destruct r; [done|]. simpl in *. unfold m in *. lia.
  - rewrite take_app_le, drop_app_le by done. done.
Qed.

(** the data read of a buffer that has [d] of [p] *)
Lemma read_data_step p rest d r a h b0 :
  d ++ r = p -> r <> [] -> gives 1 a ->
  (b_data b0 = None -> d = []) ->
  let '(x, inp) := kread (len p - len d) a (r ++ rest) in
  let '(ret, b, _, packet) :=
    match x with
    | ReadErr n => ((if retry n then EAGAIN else EIO),
                    Buffer (Some d) (len p) (len d), 0, None)
    | ReadOk x =>
        if len x =? 0 then
          ((match b_data b0 with Some _ => EIO | None => EAGAIN end),
           Buffer (Some d) (len p) (len d), h + len x, None)
        else if len d + len x =? len p then
          (0, Buffer None (len p) (len d + len x), h + len x, Some (d ++ x))
        else (EAGAIN, Buffer (Some (d ++ x)) (len p) (len d + len x), h + len x, None)
    end in
  exists st, (if ret =? EAGAIN then Reading b
              else if ret =? 0 then Querying (default [] packet) else Closed) = st /\
    read_inv p rest (st, inp) /\ past_header st /\
    (todo p st <= length p - length d - match a with Again => 0 | Give _ => 1 end)%nat.
Proof.
  intros Hp Hr Ha Hb. destruct a as [|k]; simpl in Ha.
  - simpl. eexists. split; [done|]. split; [by apply inv_data|]. simpl. split; [done|lia].
  - destruct (kread_data (len p - len d) k r rest Ha Hr) as (x & r' & -> & Hx & Hk).
    { subst p. rewrite len_app. lia. }
    rewrite Hk. assert (Hlx : len x <> 0) by (destruct x; [done|rewrite len_cons;
      pose proof (len_nonneg x); lia]).
    rewrite (proj2 (Z.eqb_neq _ _) Hlx).
    assert (Hlen : len p = len d + len x + len r') by (subst p; rewrite !len_app; lia).
    destruct (Z.eqb_spec (len d + len x) (len p)) as [E|E]; simpl.
    + eexists. split; [done|]. assert (r' = []) as ->.
      { destruct r'; [done|]. rewrite len_cons in Hlen. pose proof (len_nonneg r'). lia. }
      rewrite app_nil_r in Hp. subst p. split; [apply inv_done|]. simpl. split; [done|lia].
    + eexists. split; [done|]. rewrite <- len_app. split.
      * apply inv_data; [by rewrite <- app_assoc|]. intros ->. rewrite len_nil in Hlen. lia.
      * simpl. split; [done|]. unfold len in *. rewrite length_app. lia.
Qed.

Definition both_give (a : answer * answer) : nat :=
  match a with (Give _, Give _) => 1 | _ => 0 end.

Lemma header_accepts (p h : bytes) d ev :
  len p <= MAX_RPC_SIZE -> h = be_bytes 4 (2 ^ 31 + len p) ->
  read_header (ReadEnv (ReadOk h) true d 0 ev) (Buffer None 0 0)
  = (inr (Buffer (Some []) (len p) 0), 4).
Proof.
  intros Hp ->. assert (Hp' : len p < 2 ^ 31) by (unfold MAX_RPC_SIZE in Hp; lia).
  pose proof (len_nonneg p). unfold read_header. cbn [re_header re_malloc b_pos].
  assert (Hl : len (be_bytes 4 (2 ^ 31 + len p)) = 4)
    by (unfold len at 1; by rewrite length_be_bytes).
  rewrite Hl. cbn [Z.eqb negb Pos.eqb]. rewrite frame_header_val by done.
  rewrite fragment_test, fragment_clear by lia.
  change (2 ^ 31 =? 0) with false. cbv iota.
  by rewrite (proj2 (Z.ltb_ge _ _) Hp).
Qed.

(** the callback that gets the whole header *)
Lemma pump_header p rest k a2 :
  0 < len p <= MAX_RPC_SIZE -> (4 <= k)%nat -> gives 1 a2 ->
  exists st inp, pump (Give k, a2) (Buffer None 0 0) (frame p ++ rest) = (st, inp) /\
    read_inv p rest (st, inp) /\ past_header st /\
    (todo p st <= length p - both_give (Give k, a2))%nat.
Proof.
  intros Hp Hk4 Ha2.
  assert (Hne : p <> []) by (intros ->; unfold len in Hp; simpl in Hp; lia).
  assert (Hk : kread 4 (Give k) (frame p ++ rest) = (ReadOk (be_bytes 4 (2 ^ 31 + len p)), p ++ rest)).
  { unfold kread. change (Z.to_nat 4) with 4%nat. rewrite Nat.min_r by done.
    unfold frame. rewrite <- app_assoc.
    rewrite take_app_length', drop_app_length' by (by rewrite length_be_bytes). done. }
  pose proof (read_data_step p rest [] p a2 4 (Buffer None 0 0) eq_refl Hne Ha2 ltac:(done)) as Hstep.
  unfold pump, gp_socket_read, gp_socket_read_body. cbn [b_data fst snd]. rewrite Hk.
  rewrite (header_accepts p _ _ _ (proj2 Hp) eq_refl). cbn [b_size b_pos fst].
  rewrite len_nil in Hstep.
  destruct (kread (len p - 0) a2 (p ++ rest)) as [x inp'].
  rewrite (header_accepts p _ _ _ (proj2 Hp) eq_refl).
  cbn [b_size b_pos b_data re_data re_query re_event default app Z.eqb] in *.
  destruct x as [n|x]; [|destruct (len x =? 0); [|destruct (0 + len x =? len p)]];
    destruct Hstep as (st & <- & Hi & Hpast & Ht); do 2 eexists; (split; [done|]);
    (split; [done|]); (split; [done|]); simpl in *; destruct a2; lia.
Qed.

(** one that reads data: the answer to a read of the header is not asked for *)
Lemma pump_data p rest b inp a : gives 1 a.2 -> is_Some (b_data b) -> read_inv p rest (Reading b, inp) ->
  exists st inp', pump a b inp = (st, inp') /\ read_inv p rest (st, inp') /\ past_header st /\
    (todo p st <= todo p (Reading b) - both_give a)%nat.
Proof.
  intros Ha2 Hb Hinv. inversion Hinv as [|d r Hd Hr|]; subst; [by destruct Hb|].
  pose proof (read_data_step (d ++ r) rest d r (a.2) 0
    (Buffer (Some d) (len (d ++ r)) (len d)) eq_refl Hr Ha2 ltac:(done)) as Hstep.
  unfold pump, gp_socket_read, gp_socket_read_body. cbn [b_data fst snd b_size b_pos].
  destruct (kread (len (d ++ r) - len d) a.2 (r ++ rest)) as [x inp'].
  cbn [b_size b_pos b_data re_data re_query re_event default app Z.eqb] in *.
  destruct x as [n|x]; [|destruct (len x =? 0); [|destruct (len d + len x =? _)]];
    destruct Hstep as (st & <- & Hi & Hpast & Ht); do 2 eexists; (split; [done|]);
    (split; [done|]); (split; [done|]); simpl in *; destruct a as [[] []]; simpl in *; lia.
Qed.

Lemma pump_all_data p rest evs st inp :
  Forall open_peer evs -> past_header st -> read_inv p rest (st, inp) ->
  exists st' inp', pump_all evs (st, inp) = (st', inp') /\ read_inv p rest (st', inp') /\
    (todo p st' <= todo p st - sum_list (both_give <$> evs))%nat.
Proof.
  intros Hevs. revert st inp. induction Hevs as [|a evs Ha Hevs IH]; intros st inp Hpast Hi.
  - do 2 eexists. split; [done|]. split; [done|]. simpl. lia.
  - destruct st as [b|q|b|]; [|by exists (Querying q), inp; split_and!; simpl; [..|lia]|inversion Hi|inversion Hi].
    destruct (pump_data p rest b inp a Ha Hpast Hi) as (st1 & inp1 & E & Hi1 & Hp1 & Ht1).
    destruct (IH st1 inp1 Hp1 Hi1) as (st2 & inp2 & E2 & Hi2 & Ht2).
    exists st2, inp2. cbn [pump_all]. rewrite E. split; [done|]. split; [done|].
    rewrite fmap_cons. simpl in *. lia.
Qed.

(** a header that does not arrive whole ends the connection *)
Lemma pump_split_header k a2 inp : (k < 4)%nat ->
  exists inp', pump (Give k, a2) (Buffer None 0 0) inp = (Closed, inp').
Proof.
  intros Hk. unfold pump. cbn [b_data fst snd]. unfold kread at 1.
  assert (Hl : (len (take (Nat.min k (Z.to_nat 4)) inp) =? 4) = false).
  { apply Z.eqb_neq. unfold len. rewrite length_take. change (Z.to_nat 4) with 4%nat. lia. }
  unfold read_header. cbn [re_header]. rewrite Hl. simpl. eexists.
  unfold gp_socket_read, gp_socket_read_body, read_header. cbn [b_data re_header]. rewrite Hl. simpl. done.
Qed.

Lemma pump_all_start p rest evs :
  0 < len p <= MAX_RPC_SIZE -> Forall open_peer evs ->
  exists st inp, pump_all evs (Reading (Buffer None 0 0), frame p ++ rest) = (st, inp) /\
    if header_whole evs
    then read_inv p rest (st, inp) /\ (todo p st <= S (length p) - sum_list (both_give <$> evs))%nat
    else st = Closed.
Proof.
  intros Hp. induction 1 as [|[[|k] a2] evs Ha Hevs IH]; cbn [pump_all header_whole].
  - do 2 eexists. split; [done|]. split; [apply inv_start|]. simpl. lia.
  - assert (E : pump (Again, a2) (Buffer None 0 0) (frame p ++ rest) = (Reading (Buffer None 0 0), frame p ++ rest)) by done.
    rewrite E. exact IH.
  - destruct (Nat.leb_spec 4 k).
    + destruct (pump_header p rest k a2 Hp ltac:(done) Ha) as (st & inp & E & Hi & Hpast & Ht). rewrite E.
      destruct (pump_all_data p rest evs st inp Hevs Hpast Hi) as (st' & inp' & E' & Hi' & Ht').
      exists st', inp'. split; [done|]. split; [done|]. rewrite fmap_cons. simpl in *. destruct a2; simpl in *; lia.
    + destruct (pump_split_header k a2 (frame p ++ rest) ltac:(done)) as [inp E]. rewrite E.
      exists Closed, inp. by destruct evs.
Qed.

(** C32. Reading a framed request from a peer that does not close, with memory and events there
    for the connection.  When the 4 bytes of the length arrive whole, the rest may be split in
    any way: the connection is never dropped, what it holds is always the bytes of the request
    received so far, and after enough reads it hands over exactly the request, leaving what
    follows it.  When the length itself is split, the connection is closed. *)
Theorem reader_delivers p rest evs :
  0 < len p <= MAX_RPC_SIZE -> Forall open_peer evs ->
  exists st inp,
    pump_all evs (Reading (Buffer None 0 0), frame p ++ rest) = (st, inp) /\
    if header_whole evs
    then read_inv p rest (st, inp) /\
         ((length p < sum_list (both_give <$> evs))%nat -> st = Querying p /\ inp = rest)
    else st = Closed.
Proof.
  intros Hp Hevs. destruct (pump_all_start p rest evs Hp Hevs) as (st & inp & E & H).
  exists st, inp. split; [done|]. destruct (header_whole evs); [|done]. destruct H as [Hi Ht].
  split; [done|]. intros Hn. inversion Hi as [|d r Hd Hr|]; subst; [simpl in Ht; lia| |done].
  simpl in Ht. rewrite length_app in *. destruct r; [done|]. simpl in *. lia.
Qed.

(** a request in pieces, and one whose length is in pieces *)
Lemma reader_delivers_witness :
  (exists st inp, pump_all [(Give 9, Give 2); (Again, Again); (Give 1, Give 5); (Again, Give 1);
            (Give 4, Give 4); (Give 4, Give 4)]
    (Reading (Buffer None 0 0), frame [Byte.x01; Byte.x02; Byte.x03] ++ [Byte.xff])
    = (st, inp) /\ st = Querying [Byte.x01; Byte.x02; Byte.x03] /\ inp = [Byte.xff]) /\
  (pump_all [(Give 3, Give 9); (Give 1, Give 9)] (Reading (Buffer None 0 0), frame [Byte.x01] ++ [])).1 = Closed.
Proof.
  split.
  - destruct (reader_delivers [Byte.x01; Byte.x02; Byte.x03] [Byte.xff]
      [(Give 9, Give 2); (Again, Again); (Give 1, Give 5); (Again, Give 1);
       (Give 4, Give 4); (Give 4, Give 4)]) as (st & inp & E & Hi & Hn).
    + split; [done|]. unfold MAX_RPC_SIZE, len. simpl. lia.
    + repeat constructor; simpl; lia.
    + exists st, inp. split; [exact E|]. apply Hn. simpl. lia.
  - destruct (reader_delivers [Byte.x01] [] [(Give 3, Give 9); (Give 1, Give 9)]) as (st & inp & E & Hn).
    + split; [done|]. unfold MAX_RPC_SIZE, len. simpl. lia.
    + repeat constructor; simpl; lia.
    + rewrite E. exact Hn.
Defined.

(** ** Bounds, against any peer *)

(** read(2) returns at most what was asked for *)
Definition read_at_most (n : Z) (r : read_res) : Prop :=
  match r with ReadErr _ => True | ReadOk b => len b <= n end.

(** A buffer being filled: the position is what was received, within the size, and
    the size within the limit.  So [size - pos], an unsigned length, never wraps. *)
Definition buffer_ok (b : gp_buffer) : Prop :=
  match b_data b with
  | None => b_pos b = 0
  | Some d => b_pos b = len d /\ len d <= b_size b <= MAX_RPC_SIZE
  end.

(** the data read asks for what is missing of the size the header announced *)
Definition data_wanted (e : read_env) (b : gp_buffer) : Z :=
  match b_data b with
  | Some _ => b_size b - b_pos b
  | None => match (read_header e b).1 with inr b1 => b_size b1 - b_pos b1 | inl _ => 0 end
  end.

(** the buffer a read callback reads into, or the error it ends with before *)
Definition read_into (e : read_env) (b : gp_buffer) : Z + gp_buffer :=
  match b_data b with None => (read_header e b).1 | Some _ => inr b end.

Lemma read_into_ok e b : buffer_ok b ->
  match read_into e b with
  | inr b1 => buffer_ok b1 /\ is_Some (b_data b1) /\ data_wanted e b = b_size b1 - b_pos b1
  | inl ret => ret <> 0
  end.
Proof.
  unfold read_into, data_wanted, buffer_ok. intros Hb.
  destruct (b_data b) as [d|] eqn:Eb; [rewrite Eb; eauto|].
  unfold read_header. destruct (re_header e) as [n|h]; [by destruct (retry n)|].
  repeat (case_match; simplify_eq/=; try done).
  match goal with H : (MAX_RPC_SIZE <? _) = false |- _ => apply Z.ltb_ge in H end.
  split; [|eauto]. rewrite len_nil, Hb. split; [done|]. split; [|done].
  apply fragment_clear_range.
Qed.

(** the state after a data read into [b1] *)
Lemma read_data_ok e b b1 (total : Z) (d1 d : bytes) :
  buffer_ok b1 -> b_data b1 = Some d1 -> len d <= b_size b1 - b_pos b1 ->
  let '(ret, b', _, packet) :=
    if len d =? 0 then
      ((match b_data b with Some _ => EIO | None => EAGAIN end), b1, total, (None : option bytes))
    else
      let b2 := Buffer (Some (d1 ++ d)) (b_size b1) (b_pos b1 + len d) in
      if b_pos b1 + len d =? b_size b1 then
        if re_query e =? 0
        then (0, Buffer None (b_size b1) (b_pos b1 + len d), total, Some (d1 ++ d))
        else (re_query e, b2, total, None)
      else (EAGAIN, b2, total, None) in
  (ret = EAGAIN -> buffer_ok b') /\ (ret = 0 -> 0 < len (default [] packet) <= MAX_RPC_SIZE).
Proof.
  intros Hb Hd1 Hlen. unfold buffer_ok in *. rewrite Hd1 in Hb.
  pose proof (len_nonneg d1). pose proof (len_nonneg d).
  destruct (Z.eqb_spec (len d) 0).
  - rewrite Hd1. split; [done|]. by destruct (b_data b).
  - destruct (Z.eqb_spec (b_pos b1 + len d) (b_size b1)); [destruct (Z.eqb_spec (re_query e) 0)|];
      simpl; rewrite ?len_app; split; try done; intros; lia.
Qed.

(** Whatever the peer sends and the system answers, a connection's read buffer never
    holds more than announced, never more than MAX_RPC_SIZE, and its position is the
    number of bytes received; a request handed to the workers is not empty and within
    the limit. *)
Theorem reader_bounded e b :
  buffer_ok b -> read_at_most (data_wanted e b) (re_data e) ->
  match (gp_socket_read e b).1 with
  | Reading b' => buffer_ok b'
  | Querying q => 0 < len q <= MAX_RPC_SIZE
  | Writing _ => False
  | Closed => True
  end.
Proof.
  intros Hb Hd. pose proof (read_into_ok e b Hb) as Hinto.
  unfold gp_socket_read, gp_socket_read_body.
  destruct (match b_data b with None => _ | Some _ => _ end) as [first total] eqn:E.
  assert (read_into e b = first) as Hf.
  { unfold read_into. destruct (b_data b); [by simplify_eq|by rewrite E]. }
  rewrite Hf in Hinto. destruct first as [ret|b1].
  { unfold gp_socket_schedule_read. simpl. rewrite (proj2 (Z.eqb_neq _ _) Hinto).
    by destruct (ret =? EAGAIN), (re_event e). }
  destruct Hinto as (Hb1 & [d1 Hd1] & Hw). rewrite Hw in Hd.
  destruct (re_data e) as [n|d] eqn:Er; simpl in Hd.
  { unfold gp_socket_schedule_read. simpl. by destruct (retry n), (re_event e). }
  pose proof (read_data_ok e b b1 (total + len d) d1 d Hb1 Hd1 Hd) as Hok.
  rewrite Hd1. cbn [default]. cbv zeta in *.
  destruct (if len d =? 0 then _ else _) as [[[ret b'] t] packet]. destruct Hok as [Ha Hq].
  simpl. unfold gp_socket_schedule_read. destruct (Z.eqb_spec ret EAGAIN); simpl.
  - destruct (re_event e); [by apply Ha|done].
  - destruct (Z.eqb_spec ret 0); [by apply Hq|done].
Qed.

Lemma reader_bounded_witness :
  let e := ReadEnv (ReadOk (be_bytes 4 (2 ^ 31 + 2))) true (ReadOk [Byte.x07; Byte.x08]) 0 true in
  match (gp_socket_read e (Buffer None 0 0)).1 with
  | Reading b' => buffer_ok b'
  | Querying q => 0 < len q <= MAX_RPC_SIZE
  | Writing _ => False
  | Closed => True
  end.
Proof.
  intros e. apply (reader_bounded e (Buffer None 0 0)); [done|].
  vm_compute. discriminate.
Defined.

(** ** Writing a reply *)

(** One write event: the kernel takes at most [k] bytes of the iovec. *)
Definition drain (a : answer) (b : gp_buffer) : conn_state * bytes :=
  let r := match a with
           | Again => WriteErr EAGAIN
           | Give k => WriteOk (Z.of_nat (Nat.min k (length (write_iov b))))
           end in
  (gp_socket_write (WriteEnv r true true) b).1.

(** the events until the reply is written; with the bytes put on the wire *)
Fixpoint drain_all (evs : list answer) (st : conn_state) (out : bytes) : conn_state * bytes :=
  match evs with
  | [] => (st, out)
  | a :: evs =>
      match st with
      | Writing b => let '(st, x) := drain a b in drain_all evs st (out ++ x)
      | _ => (st, out)
      end
  end.

(** part of the frame of [p] is on the wire and the connection knows it, or all of it *)
Definition write_started (p : bytes) (st : conn_state) (out : bytes) : Prop :=
  (exists d r, d ++ r = p /\ d <> [] /\ r <> [] /\
     st = Writing (Buffer (Some p) (len p) (len d)) /\ out = packet_header (len p) ++ d) \/
  (st = Reading (Buffer None 0 0) /\ out = packet_header (len p) ++ p).

Lemma length_packet_header n : length (packet_header n) = 4%nat.
Proof. apply length_be_bytes. Qed.

(** how much the first write takes that takes anything *)
Fixpoint first_write (evs : list answer) : option nat :=
  match evs with
  | [] => None
  | Again :: evs => first_write evs
  | Give k :: _ => Some k
  end.

Lemma drain_first p k : (5 <= k)%nat ->
  let '(st, x) := drain (Give k) (Buffer (Some p) (len p) 0) in write_started p st x.
Proof.
  intros Hk. unfold drain, gp_socket_write.
  assert (Hiov : write_iov (Buffer (Some p) (len p) 0) = packet_header (len p) ++ p) by done.
  rewrite Hiov, length_app, length_packet_header. cbn [we_writev b_pos b_size b_data Z.eqb andb].
  set (m := Nat.min k (4 + length p)).
  assert (Hm : (m = 4 + (m - 4) /\ m - 4 <= length p)%nat) by lia.
  rewrite (proj2 (Z.ltb_ge _ _)) by lia. rewrite Nat2Z.id.
  assert (Htake : take m (packet_header (len p) ++ p) = packet_header (len p) ++ take (m - 4) p).
  { rewrite take_app. rewrite length_packet_header, (take_ge (packet_header _)); [done|].
    rewrite length_packet_header. lia. }
  rewrite Htake. assert (Hpos : 0 + (Z.of_nat m - 4) = len (take (m - 4) p)).
  { unfold len. rewrite length_take. lia. }
  rewrite Hpos. destruct (Z.ltb_spec (len (take (m - 4) p)) (len p)) as [Hlt|Hge].
  - left. exists (take (m - 4) p), (drop (m - 4) p).
    split_and!; [by rewrite take_drop| | |done|done].
    + intros H0. rewrite H0 in Hlt. apply (f_equal length) in H0.
      rewrite length_take in H0. unfold len in Hlt. simpl in *. lia.
    + intros H0. apply (f_equal length) in H0. rewrite length_drop in H0.
      unfold len in Hlt. rewrite length_take in Hlt. simpl in H0. lia.
  - right. split; [done|]. rewrite take_ge; [done|].
    unfold len in Hge. rewrite length_take in Hge. lia.
Qed.

Lemma drain_next p d r a : d ++ r = p -> d <> [] -> r <> [] ->
  let '(st, x) := drain a (Buffer (Some p) (len p) (len d)) in
  write_started p st (packet_header (len p) ++ d ++ x).
Proof.
  intros Hp Hd Hr. destruct a as [|k].
  { simpl. left. exists d, r. by rewrite app_nil_r. }
  assert (Hpos : (len d =? 0) = false).
  { apply Z.eqb_neq. destruct d; [done|]. rewrite len_cons. pose proof (len_nonneg d). lia. }
  assert (Hiov : write_iov (Buffer (Some p) (len p) (len d)) = r).
  { unfold write_iov. simpl. rewrite Hpos. simpl. unfold len. rewrite Nat2Z.id.
    subst p. apply drop_app_length. }
  unfold drain, gp_socket_write. rewrite Hiov. cbn [we_writev b_pos b_size b_data].
  rewrite Hpos. cbn [andb]. rewrite Nat2Z.id. set (m := Nat.min k (length r)).
  assert (Hm : (m <= length r)%nat) by lia.
  assert (E : len d + Z.of_nat m = len (d ++ take m r)).
  { rewrite len_app. unfold len at 3. rewrite length_take. lia. }
  rewrite E. destruct (Z.ltb_spec (len (d ++ take m r)) (len p)) as [Hlt|Hge].
  - left. exists (d ++ take m r), (drop m r).
    split_and!; [by rewrite <- app_assoc, take_drop| | |done|done].
    + by destruct d.
    + intros H0. apply (f_equal length) in H0. rewrite length_drop in H0. simpl in H0.
      subst p. rewrite !len_app in Hlt. unfold len in Hlt. rewrite length_take in Hlt. lia.
  - right. split; [done|]. rewrite take_ge; [by subst p|].
    subst p. rewrite !len_app in Hge. unfold len in Hge. rewrite length_take in Hge. lia.
Qed.

Lemma drain_all_started p evs st out : write_started p st out ->
  let '(st', out') := drain_all evs st out in write_started p st' out'.
Proof.
  revert st out. induction evs as [|a evs IH]; intros st out Hi; [done|].
  destruct Hi as [(d & r & Hp & Hd & Hr & -> & ->)|[-> ->]]; [|by right].
  cbn [drain_all]. pose proof (drain_next p d r a Hp Hd Hr) as H.
  destruct (drain a _) as [st x]. apply IH. by rewrite <- app_assoc.
Qed.

(** a first write that takes less than the length ends the connection *)
Lemma drain_short p k : (k < 4)%nat ->
  drain (Give k) (Buffer (Some p) (len p) 0) = (Closed, take k (packet_header (len p) ++ p)).
Proof.
  intros Hk. unfold drain, gp_socket_write.
  assert (Hiov : write_iov (Buffer (Some p) (len p) 0) = packet_header (len p) ++ p) by done.
  rewrite Hiov, length_app, length_packet_header. rewrite Nat.min_l by lia.
  cbn [we_writev b_pos Z.eqb andb]. by rewrite (proj2 (Z.ltb_lt (Z.of_nat k) 4)), Nat2Z.id by lia.
Qed.

(** what is on the wire when the first write takes [k] *)
Definition written (p : bytes) (first : option nat) (st : conn_state) (out : bytes) : Prop :=
  match first with
  | None => st = Writing (Buffer (Some p) (len p) 0) /\ out = []
  | Some k => if (k <? 4)%nat then st = Closed /\ out = take k (packet_header (len p) ++ p)
              else write_started p st out
  end.

Lemma drain_all_inv p evs : first_write evs <> Some 4%nat ->
  let '(st, out) := drain_all evs (Writing (Buffer (Some p) (len p) 0)) [] in
  written p (first_write evs) st out.
Proof.
  induction evs as [|[|k] evs IH]; intros Hf; [done|exact (IH Hf)|].
  cbn [drain_all first_write written] in *. destruct (Nat.ltb_spec k 4).
  - rewrite drain_short by done. by destruct evs.
  - assert (5 <= k)%nat as H5 by (destruct (decide (k = 4%nat)) as [->|]; [done|lia]).
    pose proof (drain_first p k H5) as H'. destruct (drain (Give k) _) as [st x].
    by apply drain_all_started.
Qed.



(** The exception: when the first write stops right after the 4 bytes of the length,
    the position is still 0 and the next write sends the length a second time, so the
    peer receives a stream that is not the frame of the reply. *)
Theorem writer_repeats_header p : 0 < len p -> len p < 2 ^ 31 ->
  exists out, drain_all [Give 4; Give (4 + length p)] (Writing (Buffer (Some p) (len p) 0)) []
    = (Reading (Buffer None 0 0), out) /\
  out = packet_header (len p) ++ frame p /\ out <> frame p.
Proof.
  intros H0 Hp. exists (packet_header (len p) ++ frame p).
  split; [|split; [done|]].
  - cbn [drain_all].
    assert (E1 : drain (Give 4) (Buffer (Some p) (len p) 0)
                 = (Writing (Buffer (Some p) (len p) 0), packet_header (len p))).
    { unfold drain, gp_socket_write.
      assert (Hiov : write_iov (Buffer (Some p) (len p) 0) = packet_header (len p) ++ p) by done.
      rewrite Hiov, length_app, length_packet_header. rewrite Nat.min_l by lia.
      cbn [we_writev b_pos b_size b_data Z.eqb andb]. simpl Z.ltb. cbv iota.
      change (Z.to_nat (Z.of_nat 4)) with 4%nat.
      rewrite take_app_length' by (by rewrite length_packet_header).
      change (0 + (Z.of_nat 4 - 4)) with 0. by rewrite (proj2 (Z.ltb_lt 0 (len p)) H0). }
    rewrite E1.
    assert (E2 : drain (Give (4 + length p)) (Buffer (Some p) (len p) 0)
                 = (Reading (Buffer None 0 0), packet_header (len p) ++ p)).
    { unfold drain, gp_socket_write.
      assert (Hiov : write_iov (Buffer (Some p) (len p) 0) = packet_header (len p) ++ p) by done.
      rewrite Hiov, length_app, length_packet_header. rewrite Nat.min_id.
      cbn [we_writev b_pos b_size b_data Z.eqb andb].
      rewrite (proj2 (Z.ltb_ge _ _)) by lia. rewrite Nat2Z.id.
      rewrite take_ge by (rewrite length_app, length_packet_header; lia).
      rewrite (proj2 (Z.ltb_ge _ (len p))); [done|]. unfold len. lia. }
    rewrite E2. by rewrite packet_header_frame.
  - intros E. apply (f_equal length) in E. rewrite length_app, length_packet_header in E. lia.
Qed.

Lemma writer_repeats_header_witness :
  exists out, drain_all [Give 4; Give 5] (Writing (Buffer (Some [Byte.x01]) 1 0)) []
    = (Reading (Buffer None 0 0), out) /\
  out = packet_header 1 ++ frame [Byte.x01] /\ out <> frame [Byte.x01].
Proof. apply (writer_repeats_header [Byte.x01]); unfold len; simpl; lia. Defined.
