(* ===== verification/Accept.v ===== *)
(** * Listening sockets and new connections

    The rest of src/gp_socket.c: the listening socket, the credentials of a peer, and
    the acceptance of a connection.  System calls are answered by the fields of an
    environment record; file descriptors closed and structures freed are part of the
    result, so that ownership can be stated. *)

From S2P Require Import Prelude RpcProcess Socket.

(** ** SELinux contexts *)

(** the parts the SELinux library gives of a context; a context may have no range *)
Record selinux_ctx := SelinuxCtx {
  ctx_user : string; ctx_role : string; ctx_type : string; ctx_range : option string }.

(** The pointer comparison at the head only settles equal pointers, which the field
    comparisons also accept. *)
Definition gp_selinux_ctx_equal (ctx1 ctx2 : option selinux_ctx) : bool :=
  match ctx1, ctx2 with
  | None, None => true
  | Some a, Some b =>
      if negb (String.eqb (ctx_user a) (ctx_user b)) then false
      else if negb (String.eqb (ctx_role a) (ctx_role b)) then false
      else if negb (String.eqb (ctx_type a) (ctx_type b)) then false
      else match ctx_range a, ctx_range b with
           | Some ra, Some rb => String.eqb ra rb
           | _, _ => true
           end
  | _, _ => false
  end.

(** ** Connections *)

Definition CRED_TYPE_NONE := 0x00.
Definition CRED_TYPE_UNIX := 0x01.
Definition CRED_TYPE_SELINUX := 0x02.

Record ucred := Ucred { uc_pid : Z; uc_uid : Z; uc_gid : Z }.

Record gp_conn := Conn {
  conn_socket : string;            (* sock_ctx->socket *)
  conn_sd : Z;                     (* us.sd, -1 for none *)
  conn_creds_type : Z;             (* creds.type *)
  conn_ucred : ucred;              (* creds.ucred *)
  conn_selinux : option selinux_ctx;
  conn_program : option string;
}.

Definition gp_conn_get_uid (c : gp_conn) : Z := uc_uid (conn_ucred c).
Definition gp_conn_get_socket (c : gp_conn) : string := conn_socket c.
Definition gp_conn_get_cid (c : gp_conn) : Z := conn_sd c.
Definition gp_conn_get_program (c : gp_conn) : option string := conn_program c.

Definition gp_conn_check_selinux (c : gp_conn) (ctx : option selinux_ctx) : bool :=
  match ctx with
  | None => true
  | Some _ =>
      if (Z.land (conn_creds_type c) CRED_TYPE_SELINUX =? 0) ||
         bool_decide (conn_selinux c = None)
      then false
      else gp_selinux_ctx_equal ctx (conn_selinux c)
  end.

(** what freeing a connection closes *)
Definition gp_conn_free (c : option gp_conn) : list Z :=
  match c with
  | None => []
  | Some c => if conn_sd c =? -1 then [] else [conn_sd c]
  end.

(** ** Descriptor flags *)

(** fcntl: what F_GET* returned, and what F_SET* made of the new flags (an errno) *)
Record fcntl_env := FcntlEnv { fc_get : Z; fc_set : Z -> option Z }.

Definition O_NONBLOCK := 2048.
Definition FD_CLOEXEC := 1.

Definition set_flags (e : fcntl_env) (flags : Z) : Z :=
  default 0 (fc_set e (Z.lor (fc_get e) flags)).
Definition set_status_flags := set_flags.
Definition set_fd_flags := set_flags.

(** ** The peer's credentials *)

Record peer_env := PeerEnv {
  pe_sockopt : Z + (ucred * Z);    (* SO_PEERCRED: errno, or value and its length *)
  pe_peercon : option selinux_ctx; (* SELINUX_getpeercon and context_new *)
  pe_has_con : bool;               (* getpeercon succeeded *)
}.

Definition sizeof_ucred := 12.

Definition get_peercred (e : peer_env) (c : gp_conn) : Z * gp_conn :=
  match pe_sockopt e with
  | inl errno => (errno, c)
  | inr (u, l) =>
      let c := Conn (conn_socket c) (conn_sd c) (conn_creds_type c) u
                    (conn_selinux c) (conn_program c) in
      if negb (l =? sizeof_ucred) then (EIO, c)
      else
        let ty := Z.lor (conn_creds_type c) CRED_TYPE_UNIX in
        if pe_has_con e then
          (0, Conn (conn_socket c) (conn_sd c) (Z.lor ty CRED_TYPE_SELINUX) u
                   (pe_peercon e) (conn_program c))
        else (0, Conn (conn_socket c) (conn_sd c) ty u (conn_selinux c) (conn_program c))
  end.

(** realpath(3) on the /proc link, its name printed into 20 bytes; the failures only
    choose what is logged *)
Definition get_program (realpath : string -> option string) (pid : Z) : option string :=
  realpath (String.substring 0 19
    (String.append "/proc/" (String.append (pretty (Z.to_N (u32 pid))) "/exe"))).

(** ** Accepting *)

Record accept_env := AcceptEnv {
  ae_calloc : bool;
  ae_accept : Z + Z;               (* accept(2): errno, or the descriptor *)
  ae_status : fcntl_env;
  ae_fd : fcntl_env;
  ae_peer : peer_env;
  ae_realpath : string -> option string;
  ae_buf : bool;                   (* calloc of the first read buffer *)
  ae_event : bool;                 (* verto_add_io *)
}.

(** what became of the connection *)
Record accepted_conn := Accepted {
  acc_conn : option (gp_conn * conn_state);   (* scheduled for reading, or not *)
  acc_closed : list Z;                        (* descriptors closed *)
  acc_freed : bool;                           (* its structure was freed, or never allocated *)
}.

Definition refuse (c : option gp_conn) : accepted_conn := Accepted None (gp_conn_free c) true.

Definition accept_sock_conn (e : accept_env) (socket : string) : accepted_conn :=
  if negb (ae_calloc e) then refuse None
  else
    let c := Conn socket (-1) CRED_TYPE_NONE (Ucred 0 0 0) None None in
    match ae_accept e with
    | inl errno =>
        (* the event loop retries; the structure is not freed *)
        if errno =? EINTR then Accepted None [] false else refuse (Some c)
    | inr fd =>
        let c := Conn socket fd CRED_TYPE_NONE (Ucred 0 0 0) None None in
        if negb (set_status_flags (ae_status e) O_NONBLOCK =? 0) then refuse (Some c)
        else if negb (set_fd_flags (ae_fd e) FD_CLOEXEC =? 0) then refuse (Some c)
        else
          let '(ret, c) := get_peercred (ae_peer e) c in
          if negb (ret =? 0) then refuse (Some c)
          else
            let c := Conn (conn_socket c) (conn_sd c) (conn_creds_type c) (conn_ucred c)
                       (conn_selinux c) (get_program (ae_realpath e) (uc_pid (conn_ucred c))) in
            match gp_setup_reader (ae_buf e) (ae_event e) with
            | Closed => refuse (Some c)
            | st => Accepted (Some (c, st)) [] false
            end
    end.

(** ** The listening socket *)

(** the system calls made, in order *)
Inductive sys :=
| Unlink (file : string) | Umask (mode : Z) | NewSocket | Bind (path : string)
| Listen (backlog : Z) | SetStatus (flags : Z) | SetFd (flags : Z) | CloseFd (fd : Z).

Record listen_env := ListenEnv {
  le_calloc : bool;
  le_umask : Z;                    (* the mask before *)
  le_socket : option Z;            (* None: -1 *)
  le_bind : bool;
  le_listen : bool;
  le_status : bool;
  le_fd : bool;
}.

Record gp_sock_ctx := SockCtx { sock_name : string; sock_fd : Z }.

(** sizeof(sun_path) - 1 *)
Definition SUN_PATH_MAX := 107%nat.

Definition init_unix_socket (e : listen_env) (file_name : string)
  : option gp_sock_ctx * list sys :=
  if negb (le_calloc e) then (None, [])
  else
    let path := String.substring 0 SUN_PATH_MAX file_name in
    let '(res, calls) :=
      match le_socket e with
      | None => (None, [NewSocket])
      | Some fd =>
          let fail calls := (None, NewSocket :: calls ++ [CloseFd fd]) in
          if negb (le_bind e) then fail [Bind path]
          else if negb (le_listen e) then fail [Bind path; Listen 10]
          else if negb (le_status e) then fail [Bind path; Listen 10; SetStatus O_NONBLOCK]
          else if negb (le_fd e) then
            fail [Bind path; Listen 10; SetStatus O_NONBLOCK; SetFd FD_CLOEXEC]
          else (Some (SockCtx file_name fd),
                [NewSocket; Bind path; Listen 10; SetStatus O_NONBLOCK; SetFd FD_CLOEXEC])
      end in
    (res, [Unlink file_name; Umask 73] ++ calls ++ [Umask (le_umask e)]).

(** sockets passed by systemd: [num_fds] of them, from descriptor 3 *)
Definition SD_LISTEN_FDS_START := 3.

Definition init_activation_socket (num_fds : Z) (mem : bool) (status fd : fcntl_env)
    (name : string) : Z * option gp_sock_ctx :=
  if 1 <? num_fds then (E2BIG, None)
  else if num_fds =? 1 then
    if negb mem then (ENOMEM, None)
    else
      let ret := set_status_flags status O_NONBLOCK in
      if negb (ret =? 0) then (ret, None)
      else
        let ret := set_fd_flags fd FD_CLOEXEC in
        if negb (ret =? 0) then (ret, None)
        else (0, Some (SockCtx name SD_LISTEN_FDS_START))
  else (0, None).

(** ** SELinux contexts compare by user, role, type, and range when both have one *)

Lemma selinux_equal_spec a b :
  gp_selinux_ctx_equal (Some a) (Some b) = true <->
  ctx_user a = ctx_user b /\ ctx_role a = ctx_role b /\ ctx_type a = ctx_type b /\
  (forall ra rb, ctx_range a = Some ra -> ctx_range b = Some rb -> ra = rb).
Proof.
  unfold gp_selinux_ctx_equal.
  destruct (String.eqb_spec (ctx_user a) (ctx_user b)); simpl; [|naive_solver].
  destruct (String.eqb_spec (ctx_role a) (ctx_role b)); simpl; [|naive_solver].
  destruct (String.eqb_spec (ctx_type a) (ctx_type b)); simpl; [|naive_solver].
  destruct (ctx_range a) as [ra|], (ctx_range b) as [rb|]; [|naive_solver..].
  destruct (String.eqb_spec ra rb); naive_solver.
Qed.

(** The SELinux restriction of a service: without one every connection passes; with
    one only a connection whose SELinux credentials were obtained and whose context
    has the same user, role and type, and the same range unless one has none. *)
Theorem check_selinux_spec c ctx :
  gp_conn_check_selinux c ctx = true <->
  match ctx with
  | None => True
  | Some a =>
      exists b, Z.land (conn_creds_type c) CRED_TYPE_SELINUX <> 0 /\ conn_selinux c = Some b /\
        ctx_user a = ctx_user b /\ ctx_role a = ctx_role b /\ ctx_type a = ctx_type b /\
        (forall ra rb, ctx_range a = Some ra -> ctx_range b = Some rb -> ra = rb)
  end.
Proof.
  unfold gp_conn_check_selinux. destruct ctx as [a|]; [|done].
  destruct (Z.eqb_spec (Z.land (conn_creds_type c) CRED_TYPE_SELINUX) 0) as [E|E]; cbn [orb].
  - split; [done|]. by intros (b & Hne & _).
  - destruct (conn_selinux c) as [b|].
    + rewrite bool_decide_eq_false_2 by done. rewrite selinux_equal_spec. naive_solver.
    + rewrite bool_decide_eq_true_2 by done. split; [done|]. by intros (? & _ & ? & _).
Qed.

(** ** Ownership of the accepted descriptor *)

(** fcntl(2) could set the flags *)
Definition flags_set (e : fcntl_env) (flags : Z) : bool := set_flags e flags =? 0.

(** all the system calls that a connection needs were answered well, the last with the
    credentials [u] of the peer *)
Definition all_well (e : accept_env) (u : ucred) : Prop :=
  flags_set (ae_status e) O_NONBLOCK = true /\ flags_set (ae_fd e) FD_CLOEXEC = true /\
  pe_sockopt (ae_peer e) = inr (u, sizeof_ucred).

(** what the kernel said of the peer, in the connection *)
Definition creds_reported (p : peer_env) (u : ucred) (c : gp_conn) : Prop :=
  conn_ucred c = u /\
  (conn_creds_type c, conn_selinux c) =
    if pe_has_con p then (Z.lor CRED_TYPE_UNIX CRED_TYPE_SELINUX, pe_peercon p) else (CRED_TYPE_UNIX, None).

Lemma peercred_ok e c ret c' :
  get_peercred e c = (ret, c') -> conn_creds_type c = CRED_TYPE_NONE ->
  conn_selinux c = None -> (forall errno, pe_sockopt e = inl errno -> errno <> 0) ->
  conn_sd c' = conn_sd c /\
  (ret = 0 <-> exists u, pe_sockopt e = inr (u, sizeof_ucred)) /\
  (ret = 0 -> forall u, pe_sockopt e = inr (u, sizeof_ucred) -> creds_reported e u c').
Proof.
  unfold get_peercred, creds_reported. intros H Ht Hs Herr. revert H.
  destruct (pe_sockopt e) as [errno|[u l]].
  - intros [= <- <-]. specialize (Herr _ eq_refl). naive_solver.
  - cbv zeta. destruct (Z.eqb_spec l sizeof_ucred) as [->|Hl]; cbv beta iota delta [negb].
    + rewrite Ht, Hs. destruct (pe_has_con e); intros [= <- <-]; simpl;
        (split; [done|]); (split; [naive_solver|]); intros _ u' [= <-]; done.
    + intros [= <- <-]. split; [done|]. split; [|done]. split; [done|]. intros [u' [= _ E]]. done.
Qed.


Definition w_accept_env : accept_env :=
  AcceptEnv true (inr 9) (FcntlEnv 2 (fun _ => None)) (FcntlEnv 0 (fun _ => None))
    (PeerEnv (inr (Ucred 42 1000 1000, 12)) None false) (fun _ => None) true true.

(** the credentials of the peer cannot be had *)
Definition w_accept_nobody : accept_env :=
  AcceptEnv true (inr 9) (FcntlEnv 2 (fun _ => None)) (FcntlEnv 0 (fun _ => None))
    (PeerEnv (inl 92) None false) (fun _ => None) true true.


(** When accept(2) is interrupted, the connection structure just allocated is neither
    kept nor freed. *)
Theorem accept_eintr_leaks e socket :
  ae_calloc e = true -> ae_accept e = inl EINTR ->
  acc_conn (accept_sock_conn e socket) = None /\
  acc_freed (accept_sock_conn e socket) = false.
Proof. intros Hm Ha. unfold accept_sock_conn. by rewrite Hm, Ha. Qed.

Lemma accept_eintr_leaks_witness :
  let e := AcceptEnv true (inl EINTR) (FcntlEnv 2 (fun _ => None)) (FcntlEnv 0 (fun _ => None))
    (PeerEnv (inl 0) None false) (fun _ => None) true true in
  acc_conn (accept_sock_conn e "s") = None /\ acc_freed (accept_sock_conn e "s") = false.
Proof. intros e. apply (accept_eintr_leaks e "s"); reflexivity. Defined.

(** ** The listening socket *)

Definition closed_fds (calls : list sys) : list Z :=
  omap (fun c => match c with CloseFd fd => Some fd | _ => None end) calls.

(** Creating the listening socket: on every path the process mask is set to 0111
    before the socket exists and restored last; the socket is closed exactly when the
    call fails; and a success is a bound, listening, non-blocking, close-on-exec socket. *)
Theorem init_unix_socket_balanced e name :
  le_calloc e = true ->
  exists res mid, init_unix_socket e name
    = (res, [Unlink name; Umask 73] ++ mid ++ [Umask (le_umask e)]) /\
    (forall m, Umask m ∉ mid) /\
    match res with
    | Some s => le_socket e = Some (sock_fd s) /\ sock_name s = name /\ closed_fds mid = [] /\
        mid = [NewSocket; Bind (String.substring 0 SUN_PATH_MAX name); Listen 10;
               SetStatus O_NONBLOCK; SetFd FD_CLOEXEC]
    | None => closed_fds mid = match le_socket e with Some fd => [fd] | None => [] end
    end.
Proof.
  intros Hm. unfold init_unix_socket. rewrite Hm. simpl.
  destruct (le_socket e) as [fd|] eqn:Es.
  - destruct (le_bind e); simpl; [destruct (le_listen e); simpl;
      [destruct (le_status e); simpl; [destruct (le_fd e); simpl|]|]|];
      match goal with |- context [(_, _ :: _ :: ?l) = _] => eexists _, (removelast l) end;
      (split; [reflexivity|]); (split; [intros m; cbn; set_solver|]); cbn; auto.
  - eexists _, [NewSocket]. split; [reflexivity|]. split; [intros m; set_solver|].
    cbn. auto.
Qed.

Lemma init_unix_socket_balanced_witness :
  exists res mid,
    init_unix_socket (ListenEnv true 18 (Some 5) true false true true) "/run/gssproxy.sock"
    = (res, [Unlink "/run/gssproxy.sock"; Umask 73] ++ mid ++ [Umask 18]) /\
    res = None /\ closed_fds mid = [5].
Proof.
  destruct (init_unix_socket_balanced (ListenEnv true 18 (Some 5) true false true true)
    "/run/gssproxy.sock" eq_refl) as (res & mid & E & _ & H).
  exists res, mid. split; [exact E|]. destruct res as [s|]; [discriminate E|].
  split; [reflexivity|exact H].
Defined.
