(* ===== verification/World.v ===== *)
(** * The world around the server

    Everything the server calls and does not define - the allocator, the GSSAPI and
    Kerberos libraries, the user database - acts on a state [W] the development never
    looks into.  A C function that calls any of it is a computation in the state monad
    [M W]; the libraries are the operations of the classes below.

    GSSAPI names, credentials and contexts are opaque handles, [None] for NULL, whose
    release is an operation of the world.  Buffers and OID sets are values: the memory
    behind them is not tracked. *)

From S2P Require Import Prelude.

(** ** The monad *)

Definition M (W A : Type) : Type := W -> A * W.

Definition mret {W A} (a : A) : M W A := fun w => (a, w).
Definition bind {W A B} (m : M W A) (k : A -> M W B) : M W B :=
  fun w => let '(a, w) := m w in k a w.

Notation "'let*' x ':=' m 'in' k" := (bind m (fun x => k))
  (at level 10, x binder, m at level 100, k at level 200).
Notation "'let*' ' p ':=' m 'in' k" := (bind m (fun x => match x with p => k end))
  (at level 10, p pattern, m at level 100, k at level 200, only parsing).

(** [wp m Q w]: the computation started in [w] ends in a result and a world that satisfy
    [Q].  Every computation ends. *)
Definition wp {W A} (m : M W A) (Q : A -> W -> Prop) (w : W) : Prop :=
  let '(a, w') := m w in Q a w'.

Lemma wp_ret {W A} (a : A) Q (w : W) : Q a w -> wp (mret a) Q w.
Proof. done. Qed.

Lemma wp_bind {W A B} (m : M W A) (k : A -> M W B) Q w :
  wp m (fun a => wp (k a) Q) w -> wp (bind m k) Q w.
Proof. unfold wp, bind. by destruct (m w). Qed.

Lemma wp_conseq {W A} (m : M W A) (Q Q' : A -> W -> Prop) w :
  wp m Q w -> (forall a w', Q a w' -> Q' a w') -> wp m Q' w.
Proof. unfold wp. destruct (m w); auto. Qed.

Lemma wp_any {W A} (m : M W A) (Q : A -> W -> Prop) w : (forall a w', Q a w') -> wp m Q w.
Proof. unfold wp. destruct (m w); auto. Qed.

Lemma wp_step {W A B} (m : M W A) (k : A -> M W B) Q w :
  (forall a w', m w = (a, w') -> wp (k a) Q w') -> wp (bind m k) Q w.
Proof. unfold wp, bind. destruct (m w) as [a w'] eqn:E. intros H. by apply (H a w'). Qed.

Lemma wp_run {W A} (m : M W A) (Q : A -> W -> Prop) w a w' :
  m w = (a, w') -> wp m Q w -> Q a w'.
Proof. unfold wp. by intros ->. Qed.

(** a computation that leaves some view of the world alone *)
Definition preserves {W A V} (view : W -> V) (m : M W A) : Prop :=
  forall w, view (m w).2 = view w.

Lemma preserves_ret {W A V} (view : W -> V) (a : A) : preserves view (mret a).
Proof. by intros w. Qed.

Lemma preserves_bind {W A B V} (view : W -> V) (m : M W A) (k : A -> M W B) :
  preserves view m -> (forall a, preserves view (k a)) -> preserves view (bind m k).
Proof.
  intros Hm Hk w. unfold bind. specialize (Hm w). destruct (m w) as [a w']; simpl in *.
  by rewrite Hk.
Qed.

Lemma preserves_match_pair {W A B C V} (view : W -> V) (p : A * B) (k : A -> B -> M W C) :
  (forall a b, preserves view (k a b)) -> preserves view (let '(a, b) := p in k a b).
Proof. destruct p; auto. Qed.

Lemma preserves_if {W A V} (view : W -> V) (b : bool) (m1 m2 : M W A) :
  preserves view m1 -> preserves view m2 -> preserves view (if b then m1 else m2).
Proof. by destruct b. Qed.

#[export] Hint Resolve preserves_ret : gp.

(** ** The allocator: malloc, calloc, realloc and strdup say whether they have memory *)

Class Alloc (W : Type) := malloc : M W bool.

(** ** GSSAPI constants (RFC 2744, gssapi.h) *)

Definition GSS_S_COMPLETE := 0.
Definition GSS_S_CONTINUE_NEEDED := 1.
Definition GSS_S_CALL_BAD_STRUCTURE := 3 * 2 ^ 24.
Definition GSS_S_CALL_INACCESSIBLE_READ := 1 * 2 ^ 24.
Definition GSS_S_CALL_INACCESSIBLE_WRITE := 2 * 2 ^ 24.
Definition GSS_S_BAD_MECH := 1 * 2 ^ 16.
Definition GSS_S_BAD_NAME := 2 * 2 ^ 16.
Definition GSS_S_BAD_STATUS := 5 * 2 ^ 16.
Definition GSS_S_NO_CONTEXT := 8 * 2 ^ 16.
Definition GSS_S_NO_CRED := 7 * 2 ^ 16.
Definition GSS_S_DEFECTIVE_CREDENTIAL := 10 * 2 ^ 16.
Definition GSS_S_CREDENTIALS_EXPIRED := 11 * 2 ^ 16.
Definition GSS_S_FAILURE := 13 * 2 ^ 16.
Definition GSS_S_CRED_UNAVAIL := GSS_S_FAILURE.
Definition GSS_S_UNAUTHORIZED := 15 * 2 ^ 16.
Definition GSS_S_UNAVAILABLE := 16 * 2 ^ 16.
Definition GSS_S_NAME_NOT_MN := 18 * 2 ^ 16.

Definition GSS_C_BOTH := 0.
Definition GSS_C_INITIATE := 1.
Definition GSS_C_ACCEPT := 2.
Definition GSS_C_GSS_CODE := 1.
Definition GSS_C_MECH_CODE := 2.
Definition GSS_C_DELEG_FLAG := 1.
Definition GSS_C_REPLAY_FLAG := 4.
Definition GSS_C_SEQUENCE_FLAG := 8.
Definition GSS_C_INDEFINITE := 2 ^ 32 - 1.

(** ** The GSSAPI library

    Operations return their major and minor status and their out-parameters. *)

Record cred_info (name : Type) := CredInfo {
  ci_name : option name; ci_lifetime : Z; ci_usage : Z; ci_mechs : list bytes }.
Arguments CredInfo {name}. Arguments ci_name {name}. Arguments ci_lifetime {name}.
Arguments ci_usage {name}. Arguments ci_mechs {name}.

Record cred_by_mech (name : Type) := CredByMech {
  cm_name : option name; cm_initiator : Z; cm_acceptor : Z; cm_usage : Z }.
Arguments CredByMech {name}. Arguments cm_name {name}. Arguments cm_initiator {name}.
Arguments cm_acceptor {name}. Arguments cm_usage {name}.

Record context_info (name : Type) := ContextInfo {
  xi_src : option name; xi_targ : option name; xi_lifetime : Z; xi_mech : option bytes;
  xi_flags : Z; xi_local : bool; xi_open : bool }.
Arguments ContextInfo {name}. Arguments xi_src {name}. Arguments xi_targ {name}.
Arguments xi_lifetime {name}. Arguments xi_mech {name}. Arguments xi_flags {name}.
Arguments xi_local {name}. Arguments xi_open {name}.

(** gss_krb5_lucid_context_v1_t; a key is its type and its bytes *)
Record lucid_key := LucidKey { lk_type : Z; lk_data : bytes }.
Record lucid_context := Lucid {
  lu_version : Z; lu_initiate : Z; lu_endtime : Z; lu_send_seq : Z; lu_protocol : Z;
  lu_rfc1964_key : lucid_key;
  lu_have_acceptor_subkey : Z; lu_cfx_key : lucid_key; lu_acceptor_subkey : lucid_key }.

(** gss_channel_bindings_struct *)
Record channel_bindings := Bindings {
  cbi_addrtype : Z; cbi_address : bytes; cba_addrtype : Z; cba_address : bytes;
  cb_data : bytes }.

(** an element of a gss_key_value_set; NULL values are [None] *)
Record kv_element := KV { kv_key : string; kv_value : option bytes }.

(** krb5_keyblock *)
Record keyblock := Keyblock { key_enctype : Z; key_contents : bytes }.

Class GssLib (W : Type) := {
  gss_name : Type;
  gss_cred : Type;
  gss_ctx : Type;

  gss_oid_equal : option bytes -> option bytes -> bool;
  gss_create_empty_oid_set : M W (Z * Z * list bytes);
  gss_add_oid_set_member : bytes -> list bytes -> M W (Z * Z * list bytes);
  gss_test_oid_set_member : bytes -> list bytes -> M W (Z * Z * bool);

  (* value, name type *)
  gss_import_name : option bytes -> option bytes -> M W (Z * Z * option gss_name);
  gss_display_name : option gss_name -> M W (Z * Z * (bytes * option bytes));
  gss_export_name : option gss_name -> M W (Z * Z * bytes);
  gss_export_name_composite : option gss_name -> M W (Z * Z * bytes);
  gss_canonicalize_name : option gss_name -> bytes -> M W (Z * Z * option gss_name);
  gss_compare_name : option gss_name -> option gss_name -> M W (Z * Z * bool);
  (* name, mechanism *)
  gss_localname : option gss_name -> option bytes -> M W (Z * Z * bytes);
  gss_release_name : option gss_name -> M W unit;

  (* status, type, mechanism, message context *)
  gss_display_status : Z -> Z -> option bytes -> Z -> M W (Z * Z * (Z * bytes));
  (* a bound on the messages of one status: RFC 2744 ends the sequence with a zero
     message context *)
  gss_max_messages : nat;

  (* the name is only asked for when the flag is set *)
  gss_inquire_cred : option gss_cred -> bool -> M W (Z * Z * cred_info gss_name);
  (* the name is only asked for when the flag is set *)
  gss_inquire_cred_by_mech : option gss_cred -> bytes -> bool -> M W (Z * Z * cred_by_mech gss_name);
  (* name, mechanisms, usage, credential store *)
  gss_acquire_cred_from : option gss_name -> list bytes -> Z -> list kv_element ->
    M W (Z * Z * (option gss_cred * list bytes));
  (* impersonator, name, mechanisms *)
  gss_acquire_cred_impersonate_name : option gss_cred -> option gss_name -> list bytes ->
    M W (Z * Z * (option gss_cred * list bytes));
  gss_release_cred : option gss_cred -> M W unit;
  gss_export_cred : option gss_cred -> M W (Z * Z * bytes);
  gss_import_cred : bytes -> M W (Z * Z * option gss_cred);
  gss_inquire_cred_by_oid : option gss_cred -> bytes -> M W (Z * Z * list bytes);
  (* credential, usage, store *)
  gss_store_cred_into : option gss_cred -> Z -> list kv_element -> M W (Z * Z);
  gss_krb5_set_allowable_enctypes : option gss_cred -> list Z -> M W (Z * Z);
  gss_set_cred_option : option gss_cred -> bytes -> bytes -> M W (Z * Z);

  (* credential, context, target, mechanism, flags, time, bindings, token; the context,
     the actual mechanism and the output token *)
  gss_init_sec_context : option gss_cred -> option gss_ctx -> option gss_name ->
    option bytes -> Z -> Z -> option channel_bindings -> bytes ->
    M W (Z * Z * (option gss_ctx * option bytes * bytes));
  (* context, credential, token, bindings, whether the source name and a delegated
     credential are wanted; the context, the source name, the mechanism, the output token,
     the flags and the delegated credential *)
  gss_accept_sec_context : option gss_ctx -> option gss_cred -> bytes ->
    option channel_bindings -> bool -> bool ->
    M W (Z * Z * (option gss_ctx * option gss_name * option bytes * bytes * Z * option gss_cred));
  gss_delete_sec_context : option gss_ctx -> M W unit;
  gss_inquire_context : option gss_ctx -> M W (Z * Z * context_info gss_name);
  (* a successful export consumes the context *)
  gss_export_sec_context : option gss_ctx -> M W (Z * Z * (option gss_ctx * bytes));
  gss_krb5_export_lucid_sec_context : option gss_ctx -> Z ->
    M W (Z * Z * (option gss_ctx * lucid_context));
  gss_import_sec_context : bytes -> M W (Z * Z * option gss_ctx);

  gss_get_mic : option gss_ctx -> Z -> bytes -> M W (Z * Z * bytes);
  gss_verify_mic : option gss_ctx -> bytes -> bytes -> M W (Z * Z * Z);
  (* context, confidentiality, qop, message *)
  gss_wrap : option gss_ctx -> Z -> Z -> bytes -> M W (Z * Z * (Z * bytes));
  gss_unwrap : option gss_ctx -> bytes -> M W (Z * Z * (bytes * Z * Z));
  gss_wrap_size_limit : option gss_ctx -> Z -> Z -> Z -> M W (Z * Z * Z);

  gss_indicate_mechs : M W (Z * Z * list bytes);
  gss_inquire_names_for_mech : bytes -> M W (Z * Z * list bytes);
  gss_inquire_attrs_for_mech : bytes -> M W (Z * Z * (list bytes * list bytes));
  gss_inquire_saslname_for_mech : bytes -> M W (Z * Z * (bytes * bytes * bytes));
  gss_display_mech_attr : bytes -> M W (Z * Z * (bytes * bytes * bytes));
}.

Record passwd := Passwd { pw_name : bytes; pw_uid : Z; pw_gid : Z }.

(** ** The user database *)
Class NssLib (W : Type) := {
  (* uid; the user name *)
  getpwuid : Z -> M W (option bytes);
  (* name, buffer size; the error and the entry *)
  getpwnam_r : bytes -> Z -> M W (Z * option passwd);
  (* user, group, room; whether the groups fit, their number, the groups *)
  getgrouplist : bytes -> Z -> Z -> M W (bool * Z * list Z);
}.

(** gss_mech_krb5 and gp_mech_krb5: 1.2.840.113554.1.2.2 *)
Definition gss_mech_krb5 : bytes :=
  map byte_of [42; 134; 72; 134; 247; 18; 1; 2; 2].
Definition gp_mech_krb5 : bytes := gss_mech_krb5.
