(* ===== verification/Toy.v ===== *)
(** * A small GSSAPI library

    A concrete world for the examples: handles are numbered, the numbers in use are kept,
    and an operation named among the faults of the world fails. *)

From S2P Require Import Prelude World.

Record toy := ToyWorld { toy_next : nat; toy_live : list nat; toy_faults : list string }.

Definition toy_world (faults : list string) : toy := ToyWorld 0 [] faults.

(** a fresh handle *)
Definition toy_new : M toy nat :=
  fun w => (toy_next w, ToyWorld (S (toy_next w)) (toy_next w :: toy_live w) (toy_faults w)).

Definition toy_free (i : nat) : M toy unit :=
  fun w => (tt, ToyWorld (toy_next w) (filter (fun j => j <> i) (toy_live w)) (toy_faults w)).

Definition toy_op {A} (name : string) (dflt : A) (m : M toy A) : M toy (Z * Z * A) :=
  fun w => if decide (name ∈ toy_faults w) then ((GSS_S_FAILURE, 99, dflt), w)
           else let '(a, w) := m w in ((GSS_S_COMPLETE, 0, a), w).

Definition toy_status (name : string) : M toy (Z * Z) :=
  let* '(maj, min, _) := toy_op name tt (mret tt) in mret (maj, min).

(** names carry their text, credentials the text of their name *)
Definition toy_handle : Type := nat * bytes.

Definition toy_mk (text : bytes) : M toy (option toy_handle) :=
  let* i := toy_new in mret (Some (i, text)).

Definition toy_release (h : option toy_handle) : M toy unit :=
  match h with None => mret tt | Some (i, _) => toy_free i end.

Definition toy_text (h : option toy_handle) : bytes := default [] (snd <$> h).

(** the name a credential store's "principal" stands for *)
Definition toy_default_name : bytes := String.list_byte_of_string "host".

Definition toy_gss : GssLib toy := {|
  gss_name := toy_handle;
  gss_cred := toy_handle;
  gss_ctx := toy_handle;
  gss_oid_equal := fun a b => match a, b with Some a, Some b => bool_decide (a = b) | _, _ => false end;
  gss_create_empty_oid_set := toy_op "create_empty_oid_set" [] (mret []);
  gss_add_oid_set_member := fun m s => toy_op "add_oid_set_member" []
    (mret (if decide (m ∈ s) then s else s ++ [m]));
  gss_test_oid_set_member := fun m s => toy_op "test_oid_set_member" false
    (mret (bool_decide (m ∈ s)));
  gss_import_name := fun b _ => toy_op "import_name" None (toy_mk (default [] b));
  gss_display_name := fun n => toy_op "display_name" ([], None) (mret (toy_text n, None));
  gss_export_name := fun n => toy_op "export_name" [] (mret (toy_text n));
  gss_export_name_composite := fun n => toy_op "export_name_composite" [] (mret (toy_text n));
  gss_canonicalize_name := fun n _ => toy_op "canonicalize_name" None (toy_mk (toy_text n));
  gss_compare_name := fun a b => toy_op "compare_name" false
    (mret (bool_decide (toy_text a = toy_text b)));
  gss_localname := fun n _ => toy_op "localname" [] (mret (toy_text n));
  gss_release_name := toy_release;
  gss_display_status := fun _ _ _ _ => toy_op "display_status" (0, []) (mret (0, []));
  gss_max_messages := 1%nat;
  gss_inquire_cred := fun c want => toy_op "inquire_cred" (CredInfo None 0 0 [])
    (let* n := if (want : bool) then toy_mk (toy_text c) else mret None in
     mret (CredInfo n 3600 GSS_C_BOTH [gss_mech_krb5]));
  gss_inquire_cred_by_mech := fun c _ want => toy_op "inquire_cred_by_mech" (CredByMech None 0 0 0)
    (let* n := if (want : bool) then toy_mk (toy_text c) else mret None in
     mret (CredByMech n 3600 3600 GSS_C_BOTH));
  gss_acquire_cred_from := fun n ms _ _ => toy_op "acquire_cred_from" (None, [])
    (let* c := toy_mk (match n with Some _ => toy_text n | None => toy_default_name end) in
     mret (c, ms));
  gss_acquire_cred_impersonate_name := fun _ n ms => toy_op "acquire_cred_impersonate_name" (None, [])
    (let* c := toy_mk (toy_text n) in mret (c, ms));
  gss_release_cred := toy_release;
  gss_export_cred := fun c => toy_op "export_cred" [] (mret (toy_text c));
  gss_import_cred := fun t => toy_op "import_cred" None (toy_mk t);
  gss_inquire_cred_by_oid := fun _ _ => toy_op "inquire_cred_by_oid" [] (mret []);
  gss_store_cred_into := fun _ _ _ => toy_status "store_cred_into";
  gss_krb5_set_allowable_enctypes := fun _ _ => toy_status "set_allowable_enctypes";
  gss_set_cred_option := fun _ _ _ => toy_status "set_cred_option";
  gss_init_sec_context := fun _ c t m _ _ _ _ => toy_op "init_sec_context" (c, m, [])
    (let* x := match c with Some _ => mret c | None => toy_mk (toy_text t) end in
     mret (x, m, toy_text t));
  gss_accept_sec_context := fun c _ tok _ src deleg => toy_op "accept_sec_context" (c, None, None, [], 0, None)
    (let* x := match c with Some _ => mret c | None => toy_mk tok end in
     let* n := if (src : bool) then toy_mk tok else mret None in
     let* d := if (deleg : bool) then toy_mk tok else mret None in
     mret (x, n, Some gss_mech_krb5, tok, GSS_C_DELEG_FLAG, d));
  gss_delete_sec_context := toy_release;
  gss_inquire_context := fun c => toy_op "inquire_context" (ContextInfo None None 0 None 0 false false)
    (let* s := toy_mk (toy_text c) in
     let* t := toy_mk (toy_text c) in
     mret (ContextInfo s t 3600 (Some gss_mech_krb5) 0 true true));
  gss_export_sec_context := fun c => toy_op "export_sec_context" (c, [])
    (let* _ := toy_release c in mret (None, toy_text c));
  gss_krb5_export_lucid_sec_context := fun c _ => toy_op "export_lucid"
    (c, Lucid 0 0 0 0 0 (LucidKey 0 []) 0 (LucidKey 0 []) (LucidKey 0 []))
    (let* _ := toy_release c in
     mret (None, Lucid 1 1 100 7 1 (LucidKey 0 []) 0 (LucidKey 18 (toy_text c)) (LucidKey 0 [])));
  gss_import_sec_context := fun t => toy_op "import_sec_context" None (toy_mk t);
  gss_get_mic := fun _ _ m => toy_op "get_mic" [] (mret m);
  gss_verify_mic := fun _ _ _ => toy_op "verify_mic" 0 (mret 0);
  gss_wrap := fun _ c _ m => toy_op "wrap" (0, []) (mret (c, m));
  gss_unwrap := fun _ m => toy_op "unwrap" ([], 0, 0) (mret (m, 1, 0));
  gss_wrap_size_limit := fun _ _ _ n => toy_op "wrap_size_limit" 0 (mret n);
  gss_indicate_mechs := toy_op "indicate_mechs" [] (mret [gss_mech_krb5]);
  gss_inquire_names_for_mech := fun _ => toy_op "inquire_names_for_mech" [] (mret []);
  gss_inquire_attrs_for_mech := fun _ => toy_op "inquire_attrs_for_mech" ([], []) (mret ([], []));
  gss_inquire_saslname_for_mech := fun _ => toy_op "inquire_saslname_for_mech" ([], [], [])
    (mret ([], [], []));
  gss_display_mech_attr := fun _ => toy_op "display_mech_attr" ([], [], []) (mret ([], [], []));
|}.
