(* ===== verification/Util.v ===== *)
(** * Utilities

    src/gp_util.c and the option macros of src/gp_common.h: the monotonic clock, string
    comparisons, the read and write loops, and the option arrays every message carries. *)

From S2P Require Import Prelude Xdr RpcXdr GssxXdr World.

(** ** The clock *)

Definition UINT64_MAX := 2 ^ 64 - 1.
Definition USEC_INFINITY := UINT64_MAX.
Definition NSEC_PER_USEC := 1000.
Definition USEC_PER_SEC := 1000000.

(** [ts] is what clock_gettime(CLOCK_MONOTONIC) gave: seconds and nanoseconds, or none. *)
Definition time_now_usec (ts : option (Z * Z)) : Z :=
  match ts with
  | None => USEC_INFINITY
  | Some (tv_sec, tv_nsec) =>
      if (tv_sec <? 0) || (tv_nsec <? 0) then USEC_INFINITY
      else if (UINT64_MAX - tv_nsec / NSEC_PER_USEC) / USEC_PER_SEC <? tv_sec
      then USEC_INFINITY
      else u64 (u64 (tv_sec * USEC_PER_SEC) + tv_nsec / NSEC_PER_USEC)
  end.

(** The clock never wraps: the result is the exact number of microseconds when it fits
    in 64 bits, and "infinity" otherwise. *)
Theorem time_now_usec_exact sec nsec :
  0 <= sec < 2 ^ 63 -> 0 <= nsec < 10 ^ 9 ->
  time_now_usec (Some (sec, nsec)) =
    Z.min (sec * 10 ^ 6 + nsec / 1000) (2 ^ 64 - 1).
Proof.
  intros Hs Hn. unfold time_now_usec, USEC_INFINITY, UINT64_MAX, NSEC_PER_USEC, USEC_PER_SEC.
  rewrite (proj2 (Z.ltb_ge sec 0)), (proj2 (Z.ltb_ge nsec 0)) by lia. cbn [orb].
  change (10 ^ 6) with 1000000.
  assert (Hm : 0 <= nsec / 1000 < 1000000) by (Z.div_mod_to_equations; lia).
  set (m := nsec / 1000) in *. clearbody m.
  destruct (Z.ltb_spec ((2 ^ 64 - 1 - m) / 1000000) sec) as [H|H].
  - rewrite Z.min_r; [done|]. Z.div_mod_to_equations. lia.
  - assert (sec * 1000000 + m <= 2 ^ 64 - 1) by (Z.div_mod_to_equations; lia).
    rewrite Z.min_l by lia. rewrite (u64_id (sec * 1000000)) by (unfold in_u64; lia).
    apply u64_id. unfold in_u64; lia.
Qed.

Lemma time_now_usec_exact_witness :
  time_now_usec (Some (1700000000, 123456789)) = Z.min (1700000000 * 10 ^ 6 + 123456) (2 ^ 64 - 1).
Proof. apply (time_now_usec_exact 1700000000 123456789); lia. Defined.

(** ** C strings *)

(** NULL is [None]; two NULLs are the same pointer *)
Definition gp_same (a b : option string) : bool :=
  match a, b with
  | None, None => true
  | Some a, Some b => String.eqb a b
  | _, _ => false
  end.

Lemma gp_same_spec a b : gp_same a b = true <-> a = b.
Proof.
  destruct a as [a|], b as [b|]; simpl; split; try done.
  - intros H%String.eqb_eq. congruence.
  - intros [= ->]. apply String.eqb_refl.
Qed.

(** tolower in the C locale *)
Definition tolower (c : Ascii.ascii) : Ascii.ascii :=
  let n := Ascii.nat_of_ascii c in
  if (65 <=? n)%nat && (n <=? 90)%nat then Ascii.ascii_of_nat (n + 32) else c.

Fixpoint lower (s : string) : string :=
  match s with
  | EmptyString => EmptyString
  | String c s => String (tolower c) (lower s)
  end.

Definition strcaseeq (a b : string) : bool := String.eqb (lower a) (lower b).

Definition gp_boolean_is_true (s : string) : bool :=
  if strcaseeq s "1" || strcaseeq s "on" || strcaseeq s "true" || strcaseeq s "yes"
  then true else false.

(** the bytes of a string literal, its terminating NUL included, as [sizeof] counts it *)
Definition cstr (s : string) : bytes := String.list_byte_of_string s ++ [Byte.x00].

(** [strncmp (n) a b == 0]; both buffers have at least [n] bytes *)
Fixpoint strncmp_eq (n : nat) (a b : bytes) : bool :=
  match n, a, b with
  | S n, x :: a, y :: b =>
      if negb (bool_decide (x = y)) then false
      else if bool_decide (x = Byte.x00) then true else strncmp_eq n a b
  | _, _, _ => true
  end.

Definition NoNul (s : bytes) : Prop := Byte.x00 ∉ s.

Lemma strncmp_eq_cstr s b :
  NoNul s -> length b = length (s ++ [Byte.x00]) ->
  strncmp_eq (length b) (s ++ [Byte.x00]) b = true <-> b = s ++ [Byte.x00].
Proof.
  unfold NoNul. revert b. induction s as [|x s IH]; intros b Hn Hl.
  - destruct b as [|y [|? ?]]; simpl in *; try done.
    repeat case_bool_decide; simpl; naive_solver.
  - destruct b as [|y b]; simpl in *; [done|].
    rewrite not_elem_of_cons in Hn. destruct Hn as [Hx Hn].
    case_bool_decide as E; simpl; [subst y|naive_solver].
    rewrite bool_decide_eq_false_2 by congruence. rewrite IH by (done || lia). naive_solver.
Qed.

(** ** Option arrays *)

Definition gpopt_string_match (buf val : bytes) (n : nat) : bool :=
  (n =? length buf)%nat && strncmp_eq (length buf) val buf.
Definition gp_option_name_match (opt : gssx_option) (val : bytes) (n : nat) : bool :=
  gpopt_string_match (option_option opt) val n.
Definition gp_option_value_match (opt : gssx_option) (val : bytes) (n : nat) : bool :=
  gpopt_string_match (option_value opt) val n.

Fixpoint gp_options_find (opts : list gssx_option) (name : bytes) (n : nat)
  : option gssx_option :=
  match opts with
  | [] => None
  | v :: opts => if gp_option_name_match v name n then Some v else gp_options_find opts name n
  end.

(** the macros are always used with a literal and its [sizeof] *)
Definition find_option (opts : list gssx_option) (name : string) : option gssx_option :=
  gp_options_find opts (cstr name) (length (cstr name)).
Definition value_is (opt : gssx_option) (val : string) : bool :=
  gp_option_value_match opt (cstr val) (length (cstr val)).

Lemma string_match_literal buf (s : string) :
  NoNul (String.list_byte_of_string s) ->
  gpopt_string_match buf (cstr s) (length (cstr s)) = true <-> buf = cstr s.
Proof.
  intros Hn. unfold gpopt_string_match, cstr in *. rewrite andb_true_iff, Nat.eqb_eq. split.
  - intros [Hl H]. by apply strncmp_eq_cstr.
  - intros ->. split; [done|]. by apply strncmp_eq_cstr.
Qed.

(** Looking an option up by name is [list_find] on the exact name, NUL included. *)
Lemma find_option_spec opts (name : string) :
  NoNul (String.list_byte_of_string name) ->
  find_option opts name
    = snd <$> list_find (fun o => option_option o = cstr name) opts.
Proof.
  intros Hn. unfold find_option. induction opts as [|o opts IH]; [done|]. simpl.
  unfold gp_option_name_match. destruct (gpopt_string_match _ _ _) eqn:E.
  - apply string_match_literal in E; [|done]. by rewrite decide_True by done.
  - rewrite decide_False.
    + rewrite IH. by destruct (list_find _ opts) as [[??]|].
    + intros H%string_match_literal; [|done]. congruence.
Qed.

Lemma options_find_app opts opts' name n :
  gp_options_find (opts ++ opts') name n
    = match gp_options_find opts name n with
      | Some o => Some o
      | None => gp_options_find opts' name n
      end.
Proof. induction opts as [|o opts IH]; simpl; [done|]. by destruct (gp_option_name_match _ _ _). Qed.

Lemma find_option_one o (name : string) :
  NoNul (String.list_byte_of_string name) ->
  find_option [o] name = if decide (option_option o = cstr name) then Some o else None.
Proof. intros Hn. rewrite find_option_spec by done. simpl. by destruct (decide _). Qed.

(** what a 32-bit length field lets the receiver see of a buffer *)
Definition truncate32 (b : bytes) : bytes := take (Z.to_nat (u32 (len b))) b.

Lemma truncate32_id b : len b < 2 ^ 32 -> truncate32 b = b.
Proof.
  intros H. unfold truncate32. rewrite u32_id by (unfold in_u32; pose proof (len_nonneg b); lia).
  apply take_ge. unfold len. lia.
Qed.

(** The array grows by one element, or nothing of it changes. *)
Definition gp_add_option {W} {AL : Alloc W} (options : list gssx_option) (name value : bytes)
  : M W (Z * list gssx_option) :=
  let* ok := malloc in
  if negb ok then mret (ENOMEM, options) else
  let* ok := if len value =? 0 then mret true else malloc in
  if negb ok then mret (ENOMEM, options) else
  let* ok := malloc in
  if negb ok then mret (ENOMEM, options) else
  mret (0, options ++ [Mk_option (truncate32 name) (truncate32 value)]).

(** an allocator that never fails *)
Definition always_mem {W} : Alloc W := mret true.

Lemma gp_add_option_cases {W} {AL : Alloc W} opts name value w :
  wp (gp_add_option opts name value) (fun r _ =>
    r = (ENOMEM, opts) \/
    r = (0, opts ++ [Mk_option (truncate32 name) (truncate32 value)])) w.
Proof.
  unfold gp_add_option. apply wp_bind, wp_any. intros [] ?; cbn [negb]; [|by left].
  apply wp_bind, wp_any. intros [] ?; cbn [negb]; [|by left].
  apply wp_bind, wp_any. intros [] ?; cbn [negb]; [by right|by left].
Qed.

(** Adding an option and looking one up: a failure leaves the array as it was; after a
    success every other name finds what it found before, and the added name finds the
    first option of that name, the added one when there was none. *)
Theorem add_option_find {W} {AL : Alloc W} opts (name other : string) value ret opts' (w w' : W) :
  NoNul (String.list_byte_of_string name) -> NoNul (String.list_byte_of_string other) ->
  len (cstr name) < 2 ^ 32 -> len value < 2 ^ 32 ->
  gp_add_option opts (cstr name) value w = ((ret, opts'), w') ->
  (ret <> 0 -> ret = ENOMEM /\ opts' = opts) /\
  (ret = 0 ->
     find_option opts' name
       = Some (default (Mk_option (cstr name) value) (find_option opts name)) /\
     (cstr other <> cstr name -> find_option opts' other = find_option opts other)).
Proof.
  intros Hn Ho Hln Hlv H.
  pose proof (wp_run _ _ _ _ _ H (gp_add_option_cases opts _ _ _)) as [E|E];
    injection E as -> ->; (split; [done|]).
  - done.
  - intros _.
    rewrite !truncate32_id by done. unfold find_option at 1 3. rewrite !options_find_app.
    fold (find_option opts name) (find_option opts other)
      (find_option [Mk_option (cstr name) value] name)
      (find_option [Mk_option (cstr name) value] other).
    rewrite !find_option_one by done. simpl. rewrite decide_True by done.
    split; [by destruct (find_option opts name)|]. intros Hne.
    rewrite decide_False by congruence. by destruct (find_option opts other).
Qed.

Lemma no_nul_dec (s : bytes) : bool_decide (Byte.x00 ∉ s) = true -> NoNul s.
Proof. by intros H%bool_decide_eq_true. Qed.

Lemma add_option_find_witness :
  let opts := [Mk_option (cstr "acquire_type") (cstr "impersonate_name")] in
  find_option (opts ++ [Mk_option (cstr "sync_creds") [Byte.x01]]) "sync_creds"
    = Some (Mk_option (cstr "sync_creds") [Byte.x01]).
Proof.
  intros opts.
  destruct (add_option_find (W := unit) (AL := always_mem) opts "sync_creds" "acquire_type" [Byte.x01] 0
    (opts ++ [Mk_option (cstr "sync_creds") [Byte.x01]]) tt tt) as [_ H];
    [apply no_nul_dec; vm_compute; reflexivity..|vm_compute; reflexivity|vm_compute; reflexivity
    |vm_compute; reflexivity|].
  destruct (H eq_refl) as [E _]. rewrite E. vm_compute. reflexivity.
Defined.

(** ** Read and write loops

    The kernel's answers are a script; a script that ends leaves the caller blocked
    ([None]).  An answer to a read carries at most the bytes asked for. *)

Inductive read_answer := RFail (errno : Z) | RData (b : bytes).
Inductive write_answer := WFail (errno : Z) | WTook (n : nat).

(** A [continue] of the C loop goes to its condition [count > len], like a full round. *)
Fixpoint gp_safe_read (script : list read_answer) (count : nat) (got : bytes)
  : option (Z + bytes) :=
  match script with
  | [] => None
  | a :: script =>
      let loop got :=
        if (length got <? count)%nat then gp_safe_read script count got else Some (inr got) in
      match a with
      | RFail e => if e =? EINTR then loop got else Some (inl e)
      | RData b =>
          let b := take (count - length got) b in
          if (length b =? 0)%nat then Some (inr got) else loop (got ++ b)
      end
  end.

(** the second component is what the descriptor received *)
Fixpoint gp_safe_write (script : list write_answer) (buf : bytes) (done : nat)
  : option (Z + nat) * bytes :=
  match script with
  | [] => (None, [])
  | a :: script =>
      let loop done :=
        if (done <? length buf)%nat then gp_safe_write script buf done
        else (Some (inr done), []) in
      match a with
      | WFail e => if e =? EINTR then loop done else (Some (inl e), [])
      | WTook n =>
          let n := Nat.min n (length buf - done) in
          if (n =? 0)%nat then (Some (inr done), [])
          else let '(r, out) := loop (done + n)%nat in
               (r, take n (drop done buf) ++ out)
      end
  end.

(** the bytes a script offers before its first end of file or error *)
Fixpoint offered (script : list read_answer) : bytes :=
  match script with
  | RFail e :: script => if e =? EINTR then offered script else []
  | RData [] :: _ | [] => []
  | RData b :: script => b ++ offered script
  end.

Lemma safe_read_prefix script count got :
  (length got < count)%nat -> (count - length got <= length (offered script))%nat ->
  gp_safe_read script count got
    = Some (inr (got ++ take (count - length got) (offered script))).
Proof.
  revert got. induction script as [|[e|b] script IH]; intros got Hg Ho; [simpl in *; lia|..];
    cbn [gp_safe_read].
  - simpl in *. destruct (Z.eqb_spec e EINTR); simpl in *; [|lia].
    rewrite (proj2 (Nat.ltb_lt _ _)) by lia. by apply IH.
  - assert (exists c, b = c /\ (0 < length c)%nat /\
      offered (RData b :: script) = c ++ offered script) as (c & -> & Hc & Eo).
    { destruct b as [|x b]; [simpl in *; lia|]. exists (x :: b). repeat split; simpl; lia. }
    rewrite Eo in *.
    rewrite length_take. destruct (Nat.eqb_spec (Nat.min (count - length got) (length c)) 0); [lia|].
    rewrite length_app, length_take. rewrite length_app in Ho.
    destruct (Nat.ltb_spec (length got + Nat.min (count - length got) (length c)) count) as [H|H].
    + rewrite (take_ge c) by lia. rewrite IH by (rewrite length_app; lia). rewrite length_app.
      rewrite take_app, (take_ge c) by lia. rewrite <- app_assoc. do 5 f_equal. lia.
    + rewrite take_app_le by lia. done.
Qed.

(** A read of [count] bytes from a descriptor that offers that many, in chunks of any
    size and interrupted any number of times, returns exactly the first [count]. *)
Theorem gp_safe_read_full script count :
  (0 < count <= length (offered script))%nat ->
  gp_safe_read script count [] = Some (inr (take count (offered script))).
Proof.
  intros H. rewrite safe_read_prefix; simpl; [|lia..]. by rewrite Nat.sub_0_r.
Qed.

Lemma gp_safe_read_full_witness :
  gp_safe_read [RFail EINTR; RData [Byte.x61]; RFail EINTR; RData [Byte.x62; Byte.x63]] 2 []
    = Some (inr [Byte.x61; Byte.x62]).
Proof.
  apply (gp_safe_read_full
    [RFail EINTR; RData [Byte.x61]; RFail EINTR; RData [Byte.x62; Byte.x63]] 2).
  vm_compute; lia.
Defined.

Lemma halted (r0 r : option (Z + nat)) (o0 out : bytes) : (r0, o0) = (r, out) -> r = r0 /\ out = o0.
Proof. by intros [= <- <-]. Qed.

Lemma safe_write_progress script buf n r out :
  gp_safe_write script buf n = (r, out) -> (n <= length buf)%nat ->
  (n + length out <= length buf)%nat /\ out = take (length out) (drop n buf) /\
  (forall m, r = Some (inr m) -> m = (n + length out)%nat) /\
  (forall e, r = Some (inl e) -> e <> EINTR).
Proof.
  revert n r out. induction script as [|[e|k] script IH]; intros n r out; cbn [gp_safe_write].
  - intros H ?. apply halted in H as [-> ->]. simpl. naive_solver lia.
  - destruct (Z.eqb_spec e EINTR).
    + destruct (n <? length buf)%nat; [apply IH|].
      intros H ?. apply halted in H as [-> ->]. simpl. naive_solver lia.
    + intros H ?. apply halted in H as [-> ->]. simpl. naive_solver lia.
  - destruct (Nat.eqb_spec (Nat.min k (length buf - n)) 0) as [E|E].
    { intros H ?. apply halted in H as [-> ->]. simpl. naive_solver lia. }
    set (j := Nat.min k (length buf - n)) in *.
    assert (Hj : (0 < j <= length buf - n)%nat) by lia. clearbody j. clear E.
    destruct (if (_ <? _)%nat then _ else _) as [r' out'] eqn:E. intros [= <- <-] Hn.
    assert (H : (n + j + length out' <= length buf)%nat /\ out' = take (length out') (drop (n + j) buf) /\
      (forall m, r' = Some (inr m) -> m = (n + j + length out')%nat) /\
      (forall e, r' = Some (inl e) -> e <> EINTR)).
    { destruct (n + j <? length buf)%nat; [apply (IH _ _ _ E); lia|].
      injection E as <- <-. simpl. naive_solver lia. }
    destruct H as (H1 & H2 & H3 & H4).
    rewrite length_app, length_take, length_drop, Nat.min_l by lia.
    split; [lia|]. split; [|split; [intros m ->; rewrite (H3 m eq_refl); lia|done]].
    rewrite <- take_take_drop, drop_drop. f_equal. exact H2.
Qed.

(** The write loop: the descriptor receives a prefix of the buffer, each byte once and
    in order; a return value is the number of bytes received; EINTR is never reported. *)
Theorem gp_safe_write_prefix script buf :
  let '(r, out) := gp_safe_write script buf 0 in
  out = take (length out) buf /\
  (forall m, r = Some (inr m) -> m = length out) /\
  (forall e, r = Some (inl e) -> e <> EINTR).
Proof.
  destruct (gp_safe_write script buf 0) as [r out] eqn:E.
  destruct (safe_write_progress _ _ _ _ _ E) as (_ & H1 & H2 & H3); [lia|].
  rewrite drop_0 in H1. by auto.
Qed.
