(* ===== verification/Dlist.v ===== *)
(** * Doubly linked lists

    The LIST_ADD and LIST_DEL macros of src/gp_common.h at the level of the pointers they
    write, and the proof that they implement the list operations the workers' model
    uses. *)

From S2P Require Import Prelude.

(** the [prev] and [next] members of an element; elements are named by their address *)
Record links := Links { prev : option nat; next : option nat }.
Abbreviation heap := (gmap nat links).

Definition set_prev (v : option nat) (x : nat) (h : heap) : heap :=
  alter (fun l => Links v (next l)) x h.
Definition set_next (v : option nat) (x : nat) (h : heap) : heap :=
  alter (fun l => Links (prev l) v) x h.
Definition get_prev (h : heap) (x : nat) : option nat := h !! x ≫= prev.
Definition get_next (h : heap) (x : nat) : option nat := h !! x ≫= next.

(** [if (p) p->member = v] *)
Definition when_ptr (p : option nat) (f : nat -> heap -> heap) (h : heap) : heap :=
  match p with Some x => f x h | None => h end.

Definition LIST_ADD (h : heap) (list : option nat) (elem : nat) : heap * option nat :=
  let h := set_prev None elem h in
  let h := set_next list elem h in
  let h := when_ptr list (set_prev (Some elem)) h in
  (h, Some elem).

Definition LIST_DEL (h : heap) (list : option nat) (elem : nat) : heap * option nat :=
  let h := when_ptr (get_next h elem) (set_prev (get_prev h elem)) h in
  let h := when_ptr (get_prev h elem) (set_next (get_next h elem)) h in
  let list := if decide (list = Some elem) then get_next h elem else list in
  let h := set_prev None elem h in
  let h := set_next None elem h in
  (h, list).

(** ** The list a head pointer stands for *)

Definition before {A} (xs : list A) (i : nat) : option A :=
  match i with O => None | S i => xs !! i end.

Definition is_dlist (h : heap) (head : option nat) (xs : list nat) : Prop :=
  NoDup xs /\ head = xs !! 0%nat /\
  forall i x, xs !! i = Some x -> h !! x = Some (Links (before xs i) (xs !! S i)).

(** elements outside [xs] keep their links *)
Definition frame (h h' : heap) (xs : list nat) : Prop :=
  forall y, y ∉ xs -> h' !! y = h !! y.

Lemma is_dlist_frame h h' head xs ys :
  is_dlist h head xs -> frame h h' ys -> (forall x, x ∈ xs -> x ∉ ys) -> is_dlist h' head xs.
Proof.
  intros (Hnd & Hh & Hl) Hf Hd. split_and!; [done..|].
  intros i x Hx. rewrite Hf by (eapply Hd, list_elem_of_lookup_2, Hx). by apply Hl.
Qed.

Lemma before_cons (x : nat) xs i : before (x :: xs) (S i) = (x :: xs) !! i.
Proof. done. Qed.

Ltac alters :=
  repeat (rewrite lookup_alter_ne by congruence || rewrite lookup_alter_eq); simpl.

Lemma when_ptr_ne p v x (h : heap) :
  p <> Some x -> when_ptr p (set_prev v) h !! x = h !! x /\
                 when_ptr p (set_next v) h !! x = h !! x.
Proof.
  intros Hp. destruct p as [y|]; simpl; [|done].
  unfold set_prev, set_next. rewrite !lookup_alter_ne by congruence. done.
Qed.

Lemma list_add_ok h head xs x :
  is_dlist h head xs -> x ∉ xs -> is_Some (h !! x) ->
  is_dlist (LIST_ADD h head x).1 (LIST_ADD h head x).2 (x :: xs) /\
  frame h (LIST_ADD h head x).1 (x :: xs).
Proof.
  intros (Hnd & Hh & Hl) Hx [l Hlx]. unfold LIST_ADD; simpl.
  set (h1 := set_next head x (set_prev None x h)).
  assert (Hx1 : h1 !! x = Some (Links None head)).
  { unfold h1, set_next, set_prev. rewrite !lookup_alter_eq, Hlx. done. }
  assert (Hne : forall y, y <> x -> h1 !! y = h !! y).
  { intros y Hy. unfold h1, set_next, set_prev. by rewrite !lookup_alter_ne. }
  clearbody h1.
  assert (Hhd : head <> Some x) by (subst head; intros ?%list_elem_of_lookup_2; done).
  split; [split_and!|].
  - by constructor.
  - done.
  - intros [|i] y; simpl.
    + intros [= <-]. rewrite (proj1 (when_ptr_ne _ _ _ _ Hhd)), Hx1. by rewrite Hh.
    + intros Hy. assert (y <> x) by (intros ->; by apply list_elem_of_lookup_2 in Hy).
      specialize (Hl _ _ Hy). destruct i as [|i]; simpl in *.
      * rewrite Hy in Hh. subst head. simpl. unfold set_prev.
        rewrite lookup_alter_eq, Hne, Hl by done. done.
      * assert (head <> Some y)
          by (subst head; intros E; by pose proof (NoDup_lookup _ _ _ _ Hnd E Hy)).
        rewrite (proj1 (when_ptr_ne head (Some x) y h1 ltac:(done))). by rewrite Hne.
  - intros y [Hy1 Hy2]%not_elem_of_cons.
    assert (head <> Some y) by (subst head; intros E%list_elem_of_lookup_2; done).
    rewrite (proj1 (when_ptr_ne head (Some x) y h1 ltac:(done))). by apply Hne.
Qed.

(** ** Removal *)

Lemma before_lookup (xs : list nat) i y :
  before xs i = Some y -> exists j, i = S j /\ xs !! j = Some y.
Proof. destruct i as [|j]; [done|]. by exists j. Qed.

(** the links of every element after a removal *)
Lemma list_del_lookup h head xs i x y :
  is_dlist h head xs -> xs !! i = Some x ->
  (LIST_DEL h head x).1 !! y =
    if decide (y = x) then Some (Links None None)
    else if decide (xs !! S i = Some y) then (fun l => Links (before xs i) (next l)) <$> h !! y
    else if decide (before xs i = Some y) then (fun l => Links (prev l) (xs !! S i)) <$> h !! y
    else h !! y.
Proof.
  intros (Hnd & Hh & Hl) Hi. unfold LIST_DEL; simpl.
  pose proof (Hl _ _ Hi) as Hx.
  assert (Hn : xs !! S i <> Some x) by (intros E; pose proof (NoDup_lookup _ _ _ _ Hnd Hi E); lia).
  assert (Hp : before xs i <> Some x).
  { intros (j & -> & E)%before_lookup. pose proof (NoDup_lookup _ _ _ _ Hnd Hi E). lia. }
  unfold get_next, get_prev. rewrite Hx; simpl.
  set (h1 := when_ptr (xs !! S i) (set_prev (before xs i)) h).
  assert (Hx1 : h1 !! x = h !! x) by apply (when_ptr_ne (xs !! S i) (before xs i) x h Hn).
  rewrite Hx1, Hx; simpl. unfold set_next at 1, set_prev at 1.
  destruct (decide (y = x)) as [->|Hy].
  - rewrite !lookup_alter_eq.
    rewrite (proj2 (when_ptr_ne (before xs i) (xs !! S i) x h1 Hp)), Hx1, Hx. done.
  - rewrite !lookup_alter_ne by done.
    destruct (decide (before xs i = Some y)) as [Eb|Eb].
    + rewrite Eb at 1. simpl. unfold set_next. rewrite lookup_alter_eq.
      rewrite decide_False; [f_equal|].
      * apply (when_ptr_ne (xs !! S i) (before xs i) y h). intros E.
        apply before_lookup in Eb as (j & -> & E').
        pose proof (NoDup_lookup _ _ _ _ Hnd E E'). lia.
      * intros E. apply before_lookup in Eb as (j & -> & E').
        pose proof (NoDup_lookup _ _ _ _ Hnd E E'). lia.
    + rewrite (proj2 (when_ptr_ne (before xs i) (xs !! S i) y h1 Eb)). unfold h1.
      destruct (decide (xs !! S i = Some y)) as [->|E].
      * simpl. apply lookup_alter_eq.
      * apply (when_ptr_ne (xs !! S i) (before xs i) y h E).
Qed.

Lemma delete_lookup (xs : list nat) i j :
  delete i xs !! j = if decide (j < i)%nat then xs !! j else xs !! S j.
Proof.
  destruct (decide _); [apply list_lookup_delete_lt|apply list_lookup_delete_ge]; lia.
Qed.

Lemma list_del_head h head xs i x :
  is_dlist h head xs -> xs !! i = Some x ->
  (LIST_DEL h head x).2 = if decide (head = Some x) then xs !! S i else head.
Proof.
  intros (Hnd & Hh & Hl) Hi. unfold LIST_DEL; cbn [snd].
  pose proof (Hl _ _ Hi) as Hx.
  assert (Hn : xs !! S i <> Some x) by (intros E; pose proof (NoDup_lookup _ _ _ _ Hnd Hi E); lia).
  assert (Hp : before xs i <> Some x).
  { intros (j & -> & E)%before_lookup. pose proof (NoDup_lookup _ _ _ _ Hnd Hi E). lia. }
  destruct (decide _); [|done]. unfold get_next, get_prev. rewrite Hx; cbn [mbind option_bind next prev].
  set (h1 := when_ptr (xs !! S i) (set_prev (before xs i)) h).
  assert (Hx1 : h1 !! x = h !! x) by apply (when_ptr_ne (xs !! S i) (before xs i) x h Hn).
  rewrite !Hx1, !Hx; cbn [mbind option_bind next prev].
  by rewrite (proj2 (when_ptr_ne (before xs i) (xs !! S i) x h1 Hp)), Hx1, Hx.
Qed.

Lemma before_delete (xs : list nat) i j :
  before (delete i xs) j = if decide (j <= i)%nat then before xs j else xs !! j.
Proof.
  destruct j as [|j]; cbn [before]; [by rewrite decide_True by lia|].
  rewrite delete_lookup. by repeat case_decide; try lia.
Qed.

(** the remaining elements are linked as their new neighbours require *)
Lemma del_links h head xs i x j y :
  is_dlist h head xs -> xs !! i = Some x -> delete i xs !! j = Some y ->
  (LIST_DEL h head x).1 !! y
    = Some (Links (before (delete i xs) j) (delete i xs !! S j)).
Proof.
  intros Hd Hi Hy. rewrite (list_del_lookup _ _ _ _ _ _ Hd Hi).
  destruct Hd as (Hnd & Hh & Hl). rewrite before_delete, !delete_lookup in *.
  assert (Hinj : forall a b z, xs !! a = Some z -> xs !! b = Some z -> a = b)
    by (intros; by eapply NoDup_lookup).
  destruct (decide (j < i)%nat) as [Hj|Hj].
  - rewrite (decide_True (P := (j <= i)%nat)) by lia.
    rewrite decide_False by (intros ->; specialize (Hinj _ _ _ Hi Hy); lia).
    rewrite decide_False by (intros E; specialize (Hinj _ _ _ E Hy); lia).
    rewrite (Hl _ _ Hy). destruct (decide (S j < i)%nat) as [Hs|Hs].
    + rewrite decide_False; [done|]. intros (k & -> & E)%before_lookup.
      specialize (Hinj _ _ _ E Hy). lia.
    + assert (i = S j) as -> by lia. simpl. by rewrite decide_True.
  - rewrite (decide_False (P := (S j < i)%nat)) by lia.
    rewrite decide_False by (intros ->; specialize (Hinj _ _ _ Hi Hy); lia).
    rewrite (Hl _ _ Hy). destruct (decide (j <= i)%nat).
    + assert (i = j) as -> by lia. by rewrite decide_True.
    + rewrite decide_False by (intros E; specialize (Hinj _ _ _ E Hy); lia).
      rewrite decide_False; [done|]. intros (k & -> & E)%before_lookup.
      specialize (Hinj _ _ _ E Hy). lia.
Qed.

Lemma list_del_ok h head xs i x :
  is_dlist h head xs -> xs !! i = Some x ->
  is_dlist (LIST_DEL h head x).1 (LIST_DEL h head x).2 (delete i xs) /\
  (LIST_DEL h head x).1 !! x = Some (Links None None) /\
  frame h (LIST_DEL h head x).1 xs.
Proof.
  intros Hd Hi. pose proof Hd as (Hnd & Hh & Hl). split_and!.
  - split_and!.
    + eapply sublist_NoDup; [done|apply sublist_delete].
    + rewrite (list_del_head _ _ _ _ _ Hd Hi), delete_lookup. destruct i as [|i].
      * by rewrite !decide_True by (lia || congruence).
      * rewrite (decide_True (P := (0 < S i)%nat)) by lia. rewrite decide_False; [done|].
        rewrite Hh. intros E. by pose proof (NoDup_lookup _ _ _ _ Hnd E Hi).
    + intros j y Hy. by apply (del_links _ _ _ _ _ _ _ Hd Hi).
  - by rewrite (list_del_lookup _ _ _ _ _ _ Hd Hi), decide_True.
  - intros y Hy. rewrite (list_del_lookup _ _ _ _ _ _ Hd Hi). rewrite !decide_False; [done|..].
    + intros (j & -> & E%list_elem_of_lookup_2)%before_lookup. done.
    + by intros E%list_elem_of_lookup_2.
    + intros ->. by apply list_elem_of_lookup_2 in Hi.
Qed.

(** ** The list operations the macros implement *)

Definition remove_elem (x : nat) (xs : list nat) : list nat :=
  match list_find (eq x) xs with
  | Some (i, _) => delete i xs
  | None => xs
  end.

Lemma remove_elem_at x xs : x ∈ xs -> exists i, xs !! i = Some x /\ remove_elem x xs = delete i xs.
Proof.
  intros Hx. unfold remove_elem.
  destruct (list_find_elem_of (eq x) xs x Hx eq_refl) as [[i y] E]. rewrite E.
  apply list_find_Some in E as (E & <- & _). by exists i.
Qed.

Lemma remove_elem_perm x xs : x ∈ xs -> x :: remove_elem x xs ≡ₚ xs.
Proof.
  intros (i & E & ->)%remove_elem_at. by rewrite <- (delete_Permutation xs i x).
Qed.

Lemma list_del_spec h head xs x :
  is_dlist h head xs -> x ∈ xs ->
  is_dlist (LIST_DEL h head x).1 (LIST_DEL h head x).2 (remove_elem x xs) /\
  (LIST_DEL h head x).1 !! x = Some (Links None None) /\
  frame h (LIST_DEL h head x).1 xs.
Proof. intros Hd (i & E & ->)%remove_elem_at. by apply list_del_ok. Qed.

(** Moving an element between two lists, as the dispatcher and the workers do. *)
Definition list_move (h : heap) (from to : option nat) (x : nat) : heap * option nat * option nat :=
  let '(h, from) := LIST_DEL h from x in
  let '(h, to) := LIST_ADD h to x in
  (h, from, to).

(** The pointer surgery of the list macros implements the lists: removing a thread of
    one well-linked list and adding it to the head of another leaves both well linked,
    with that thread moved, the order of the others kept, and no other link written. *)
Theorem list_move_refines h from to xs ys x h' from' to' :
  is_dlist h from xs -> is_dlist h to ys -> (forall z, z ∈ xs -> z ∉ ys) -> x ∈ xs ->
  list_move h from to x = (h', from', to') ->
  is_dlist h' from' (remove_elem x xs) /\ is_dlist h' to' (x :: ys) /\ frame h h' (xs ++ ys).
Proof.
  intros Hf Ht Hdis Hx. unfold list_move.
  destruct (list_del_spec _ _ _ _ Hf Hx) as (H1 & H2 & H3).
  destruct (LIST_DEL h from x) as [h1 f1]; cbn [fst snd] in *.
  assert (Ht1 : is_dlist h1 to ys) by (apply (is_dlist_frame h h1 to ys xs Ht H3); naive_solver).
  destruct (list_add_ok h1 to ys x) as (H4 & H5); [done|naive_solver|by eexists|]. 
  destruct (LIST_ADD h1 to x) as [h2 t2]; cbn [fst snd] in *. intros [= <- <- <-]. split; [|split; [exact H4|]].
  - pose proof (remove_elem_perm x xs Hx) as Hp. pose proof (proj1 Hf) as Hnd.
    rewrite <- Hp in Hnd. apply NoDup_cons in Hnd as [Hni _].
    apply (is_dlist_frame _ _ _ _ _ H1 H5). intros z Hz. rewrite not_elem_of_cons. split.
    + by intros ->.
    + apply Hdis. rewrite <- Hp. by apply list_elem_of_further.
  - intros z Hz. rewrite not_elem_of_app in Hz.
    rewrite H5; [apply H3|rewrite not_elem_of_cons]; naive_solver.
Qed.

(** threads 1 and 2 busy, 3 free *)
Definition w_heap : heap :=
  {[ 1%nat := Links None (Some 2%nat); 2%nat := Links (Some 1%nat) None; 3%nat := Links None None ]}.

Lemma w_busy : is_dlist w_heap (Some 1%nat) [1%nat; 2%nat].
Proof.
  split_and!; [|done|].
  - by repeat constructor; set_solver.
  - intros [|[|[|i]]] x; intros [= <-]; done.
Qed.

Lemma w_free : is_dlist w_heap (Some 3%nat) [3%nat].
Proof.
  split_and!; [|done|].
  - by repeat constructor; set_solver.
  - intros [|[|i]] x; intros [= <-]; done.
Qed.

Lemma list_move_refines_witness :
  let '(h', from', to') := list_move w_heap (Some 1%nat) (Some 3%nat) 2 in
  is_dlist h' from' [1%nat] /\ is_dlist h' to' [2%nat; 3%nat].
Proof.
  destruct (list_move w_heap (Some 1%nat) (Some 3%nat) 2) as [[h' from'] to'] eqn:E.
  destruct (list_move_refines w_heap (Some 1%nat) (Some 3%nat) [1%nat; 2%nat] [3%nat] 2%nat
    h' from' to' w_busy w_free) as (H1 & H2 & _); [set_solver|set_solver|exact E|].
  split; [exact H1|exact H2].
Defined.
