(* ===== verification/Service.v ===== *)
(** * Services

    The configuration of src/gp_proxy.h, the choice of the service of a connection and
    what a service allows its clients (the first part of src/gp_creds.c). *)

From S2P Require Import Prelude RpcXdr GssxXdr Socket Accept World Util.

(** ** Configuration *)

Record gp_cred_krb5 := CredKrb5 {
  k5_principal : option string;
  k5_store : list (string * string);   (* key, value *)
  k5_creds_handle : option keyblock;   (* the key its credential handles are encrypted with *)
}.

Record gp_service := Service {
  svc_name : string;
  svc_euid : Z;
  svc_any_uid : bool;
  svc_allow_proto_trans : bool;
  svc_allow_const_deleg : bool;
  svc_allow_cc_sync : bool;
  svc_trusted : bool;
  svc_kernel_nfsd : bool;
  svc_impersonate : bool;
  svc_socket : option string;
  svc_selinux_ctx : option selinux_ctx;
  svc_cred_usage : Z;
  svc_filter_flags : Z;
  svc_enforce_flags : Z;
  svc_min_lifetime : Z;
  svc_program : option string;
  svc_mechs : Z;
  svc_krb5 : gp_cred_krb5;
}.

Record gp_config := Config {
  cfg_config_file : option string;
  cfg_config_dir : option string;
  cfg_daemonize : bool;
  cfg_socket_name : option string;
  cfg_num_workers : Z;
  cfg_svcs : list gp_service;          (* num_svcs of them *)
  cfg_proxy_user : option string;
}.

(** the callback and its data are the name of the memory ccache to destroy *)
Record gp_call_ctx := CallCtx {
  cc_service : gp_service;
  cc_connection : gp_conn;
}.

Definition gp_service_get_creds_handle (svc : gp_service) : option keyblock :=
  k5_creds_handle (svc_krb5 svc).

(** ** Which service a connection gets *)

Definition svc_mismatch (cfg : gp_config) (conn : gp_conn) (svc : gp_service) : bool :=
  let program := gp_conn_get_program conn in
  let socket := Some (gp_conn_get_socket conn) in
  (negb (svc_any_uid svc) && negb (svc_euid svc =? uc_uid (conn_ucred conn))) ||
  negb (gp_conn_check_selinux conn (svc_selinux_ctx svc)) ||
  (match svc_program svc with
   | Some _ => negb (gp_same program (svc_program svc))
   | None => false
   end) ||
  (match svc_socket svc with
   | Some _ => negb (gp_same socket (svc_socket svc))
   | None => negb (gp_same socket (cfg_socket_name cfg))
   end).

Fixpoint match_svcs (cfg : gp_config) (conn : gp_conn) (svcs : list gp_service)
  : option gp_service :=
  match svcs with
  | [] => None
  | svc :: svcs => if svc_mismatch cfg conn svc then match_svcs cfg conn svcs else Some svc
  end.

Definition gp_creds_match_conn (cfg : gp_config) (conn : gp_conn) : option gp_service :=
  match_svcs cfg conn (cfg_svcs cfg).

(** what the configuration says of a service's clients *)
Definition admits (cfg : gp_config) (conn : gp_conn) (svc : gp_service) : Prop :=
  (svc_any_uid svc = true \/ uc_uid (conn_ucred conn) = svc_euid svc) /\
  gp_conn_check_selinux conn (svc_selinux_ctx svc) = true /\
  (forall p, svc_program svc = Some p -> conn_program conn = Some p) /\
  match svc_socket svc with
  | Some s => conn_socket conn = s
  | None => cfg_socket_name cfg = Some (conn_socket conn)
  end.

Lemma svc_mismatch_spec cfg conn svc :
  svc_mismatch cfg conn svc = false <-> admits cfg conn svc.
Proof.
  unfold svc_mismatch, admits, gp_conn_get_program, gp_conn_get_socket.
  rewrite !orb_false_iff, andb_false_iff, !negb_false_iff, Z.eqb_eq.
  assert (Hs : forall a b, negb (gp_same a b) = false <-> a = b)
    by (intros; by rewrite negb_false_iff, gp_same_spec).
  destruct (svc_program svc) as [p|], (svc_socket svc) as [s|];
    rewrite !Hs; naive_solver.
Qed.

(** C22. A connection is served by the first service, in configuration order, whose uid,
    SELinux context, program and socket conditions it meets, and by none when there is
    none. *)
Theorem match_conn_first cfg conn :
  match gp_creds_match_conn cfg conn with
  | Some svc => exists before after,
      cfg_svcs cfg = before ++ svc :: after /\ admits cfg conn svc /\
      Forall (fun s => ~ admits cfg conn s) before
  | None => Forall (fun s => ~ admits cfg conn s) (cfg_svcs cfg)
  end.
Proof.
  unfold gp_creds_match_conn. induction (cfg_svcs cfg) as [|svc svcs IH]; simpl; [done|].
  destruct (svc_mismatch cfg conn svc) eqn:E.
  - assert (~ admits cfg conn svc) by (rewrite <- svc_mismatch_spec; congruence).
    destruct (match_svcs cfg conn svcs) as [s|]; [|by constructor].
    destruct IH as (b & a & -> & H1 & H2). exists (svc :: b), a. split_and!; [done..|].
    by constructor.
  - apply svc_mismatch_spec in E. exists [], svcs. by split_and!.
Qed.

(** ** Mechanisms and flags *)

Definition GP_CRED_KRB5 := 0x01.

Definition supported_mechs_map : list (Z * bytes) := [(GP_CRED_KRB5, gp_mech_krb5)].

(** the loop ends at the entry whose id is 0, which the list leaves out *)
Definition gp_creds_allowed_mech {W} {GL : GssLib W} (gpcall : gp_call_ctx)
  (desired_mech : option bytes) : bool :=
  existsb (fun '(id, mech) =>
    negb (Z.land (svc_mechs (cc_service gpcall)) id =? 0) &&
    gss_oid_equal desired_mech (Some mech)) supported_mechs_map.

Fixpoint add_mechs {W} {GL : GssLib W} (l : list (Z * bytes)) (set : list bytes)
  : M W (Z * Z * list bytes) :=
  match l with
  | [] => mret (GSS_S_COMPLETE, 0, set)
  | (_, mech) :: l =>
      let* '(maj, min, set) := gss_add_oid_set_member mech set in
      if negb (maj =? 0) then mret (maj, min, []) else add_mechs l set
  end.

Definition gp_get_supported_mechs {W} {GL : GssLib W} : M W (Z * Z * list bytes) :=
  let* '(maj, min, set) := gss_create_empty_oid_set in
  if negb (maj =? 0) then mret (maj, min, set) else add_mechs supported_mechs_map set.

(** the flags of a request, 32 bits *)
Definition gp_filter_flags (gpcall : gp_call_ctx) (flags : Z) : Z :=
  let flags := Z.lor flags (svc_enforce_flags (cc_service gpcall)) in
  Z.land flags (Z.lxor (2 ^ 32 - 1) (svc_filter_flags (cc_service gpcall))).

(** The request flags after filtering: a flag reaches the library exactly when it is
    not filtered and was requested or is enforced; filtering wins over enforcing. *)
Theorem filter_flags_bits gpcall flags i :
  0 <= i < 32 ->
  Z.testbit (gp_filter_flags gpcall flags) i =
    negb (Z.testbit (svc_filter_flags (cc_service gpcall)) i) &&
    (Z.testbit flags i || Z.testbit (svc_enforce_flags (cc_service gpcall)) i).
Proof.
  intros Hi. unfold gp_filter_flags. rewrite Z.land_spec, Z.lor_spec, Z.lxor_spec.
  rewrite Z.sub_1_r, <- Z.ones_equiv, Z.ones_spec_low by lia.
  by rewrite xorb_true_l, andb_comm.
Qed.

Definition ACQ_NORMAL := 0.
Definition ACQ_IMPNAME := 1.

Definition try_impersonate (svc : gp_service) (cred_usage acquire_type : Z) : bool :=
  if (acquire_type =? ACQ_IMPNAME) && (svc_allow_proto_trans svc || svc_trusted svc) then true
  else svc_impersonate svc && ((cred_usage =? GSS_C_INITIATE) || (cred_usage =? GSS_C_BOTH)).

Definition gp_get_acquire_type (arg : gssx_arg_acquire_cred) : Z :=
  match find_option (arg_acquire_cred_options arg) "acquire_type" with
  | Some val => if value_is val "impersonate_name" then ACQ_IMPNAME else -1
  | None => ACQ_NORMAL
  end.

Definition w_service (name : string) (euid : Z) (sock : option string) : gp_service :=
  Service name euid false false false false false false false sock None GSS_C_BOTH 0 0 0 None
    GP_CRED_KRB5 (CredKrb5 None [] None).

Definition w_call_ctx (filter enforce : Z) : gp_call_ctx :=
  CallCtx (Service "http" 48 false false false false false false false None None GSS_C_BOTH
             filter enforce 0 None GP_CRED_KRB5 (CredKrb5 None [] None))
    (Conn "s" 5 CRED_TYPE_UNIX (Ucred 1 48 48) None None).

Lemma filter_flags_bits_witness :
  Z.testbit (gp_filter_flags (w_call_ctx 1 2) 5) 0 = false /\
  Z.testbit (gp_filter_flags (w_call_ctx 1 2) 5) 1 = true.
Proof.
  split; (rewrite (filter_flags_bits (w_call_ctx 1 2) 5) by lia; reflexivity).
Defined.
