(* ===== verification/Format.v ===== *)
(** * Formatted credential store values

    [get_formatted_string] of src/gp_creds.c, at the level of the buffer it edits: the
    replacement of %U and %u in the values of a credential store, and the escape %%. *)

From S2P Require Import Prelude RpcXdr GssxXdr World Util.

Definition percent : Byte.byte := Byte.x25.
Definition char_U : Byte.byte := Byte.x55.
Definition char_u : Byte.byte := Byte.x75.

(** printf's %d on a 32-bit int *)
Definition dec (z : Z) : bytes := String.list_byte_of_string (pretty (s32 z)).

(** ** C strings in a buffer: [mem] is a whole allocation; running off its end is [None] *)

Fixpoint c_string (mem : bytes) : option bytes :=
  match mem with
  | [] => None
  | b :: mem => if bool_decide (b = Byte.x00) then Some [] else (b ::.) <$> c_string mem
  end.

Inductive scan := NotFound | FoundAt (i : nat) | OffTheEnd.

(** [strchr] of the buffer from index [i] on; [mem] is what is left of it there *)
Fixpoint strchr (mem : bytes) (c : Byte.byte) (i : nat) : scan :=
  match mem with
  | [] => OffTheEnd
  | b :: mem =>
      if bool_decide (b = c) then FoundAt i
      else if bool_decide (b = Byte.x00) then NotFound else strchr mem c (S i)
  end.

(** [%.*s]: at most [n] bytes, and no further than the NUL *)
Fixpoint c_prefix (n : nat) (mem : bytes) : bytes :=
  match n, mem with
  | S n, b :: mem => if bool_decide (b = Byte.x00) then [] else b :: c_prefix n mem
  | _, _ => []
  end.

Inductive fmt_result :=
| FmtString (s : bytes)
| FmtNull          (* the function returns NULL *)
| FmtOverrun.      (* an access outside the buffer *)

(** asprintf ("%.*s<subst>%s", left - 2, str, p) and the move of [p] past the
    substitution; [left] is the index after the directive, [len] the tracked length *)
Definition fmt_subst (mem : bytes) (len : Z) (left : nat) (subst : bytes)
  : option (bytes * Z * Z) :=
  let right := len - Z.of_nat left in
  match c_string (drop left mem) with
  | None => None
  | Some rest =>
      let text := c_prefix (left - 2) mem ++ subst ++ rest in
      Some (text ++ [Byte.x00], Z.of_nat (length text), Z.of_nat (length text) - right)
  end.

(** memmove (p, p + 1, n) *)
Definition memmove_left (mem : bytes) (p n : nat) : option bytes :=
  if (p + 1 + n <=? length mem)%nat
  then Some (take p mem ++ take n (drop (p + 1) mem) ++ drop (p + n) mem)
  else None.

Section Format.
Context {W : Type} {AL : Alloc W} {NL : NssLib W}.

(** the name of a uid, in a fresh string *)
Definition uid_to_name (uid : Z) : M W (option bytes) :=
  let* r := getpwuid uid in
  match r with
  | None => mret None
  | Some name => let* ok := malloc in mret (if ok then Some name else None)
  end.

(** The loop.  [p] is where [strchr] starts, [user] the name when it was looked up. *)
Fixpoint fmt_loop (fuel : nat) (uid : Z) (user : option bytes) (mem : bytes) (len p : Z)
  : M W fmt_result :=
  match fuel with
  | O => mret FmtOverrun
  | S fuel =>
      if (p <? 0) || (Z.of_nat (length mem) <=? p) then mret FmtOverrun
      else match strchr (drop (Z.to_nat p) mem) percent (Z.to_nat p) with
      | OffTheEnd => mret FmtOverrun
      | NotFound => mret (match c_string mem with Some s => FmtString s | None => FmtOverrun end)
      | FoundAt i =>
          let substitute user subst :=
            match fmt_subst mem len (i + 2) subst with
            | None => mret FmtOverrun
            | Some (mem, len, p) =>
                let* ok := malloc in
                if negb ok then mret FmtNull else fmt_loop fuel uid user mem len p
            end in
          match mem !! S i with
          | None => mret FmtOverrun
          | Some c =>
              if bool_decide (c = percent) then
                match memmove_left mem (S i) i with
                | None => mret FmtOverrun
                | Some mem => fmt_loop fuel uid user mem (len - 1) (Z.of_nat (S i))
                end
              else if bool_decide (c = char_U) then substitute user (dec uid)
              else if bool_decide (c = char_u) then
                let* user := match user with
                             | Some _ => mret user
                             | None => uid_to_name uid
                             end in
                match user with
                | None => mret FmtNull
                | Some u => substitute user u
                end
              else mret FmtNull
          end
      end
  end.

(** Each turn goes past one percent sign of the original, so its length is enough fuel. *)
Definition get_formatted_string (orig : bytes) (target_uid : Z) : M W fmt_result :=
  let* ok := malloc in
  if negb ok then mret FmtNull
  else fmt_loop (S (length orig)) target_uid None (orig ++ [Byte.x00])
         (Z.of_nat (length orig)) 0.
End Format.

(** ** The reference: one pass over the format, the substituted text never rescanned

    [id] is the text of the uid, [name] the name of the user. *)

Fixpoint expand (id : bytes) (name : option bytes) (s : bytes) : option bytes :=
  match s with
  | [] => Some []
  | c :: s =>
      if bool_decide (c = percent) then
        match s with
        | d :: s =>
            if bool_decide (d = char_U) then (id ++.) <$> expand id name s
            else if bool_decide (d = char_u) then
              u ← name; (u ++.) <$> expand id name s
            else None
        | [] => None
        end
      else (c ::.) <$> expand id name s
  end.

(** no %% escape *)
Fixpoint no_escape (s : bytes) : bool :=
  match s with
  | c :: s =>
      (if bool_decide (c = percent)
       then match s with d :: _ => negb (bool_decide (d = percent)) | [] => true end
       else true) && no_escape s
  | [] => true
  end.

Lemma c_string_app s rest : NoNul s -> c_string (s ++ Byte.x00 :: rest) = Some s.
Proof.
  unfold NoNul. induction s as [|b s IH]; intros Hn; simpl; [done|].
  rewrite not_elem_of_cons in Hn. rewrite bool_decide_eq_false_2 by naive_solver.
  by rewrite IH by naive_solver.
Qed.

Lemma c_prefix_app s rest n : NoNul s -> n = length s -> c_prefix n (s ++ rest) = s.
Proof.
  unfold NoNul. intros Hn ->. induction s as [|b s IH]; simpl; [done|].
  rewrite not_elem_of_cons in Hn. rewrite bool_decide_eq_false_2 by naive_solver.
  by rewrite IH by naive_solver.
Qed.

(** a string splits at its first percent sign *)
Lemma percent_split s : NoNul s ->
  (percent ∉ s) \/ exists a b, s = a ++ percent :: b /\ percent ∉ a.
Proof.
  intros _. destruct (decide (percent ∈ s)) as [H|H]; [right|by left].
  induction s as [|c s IH]; [by apply elem_of_nil in H|].
  destruct (decide (c = percent)) as [->|Hc].
  - exists [], s. split; [done|]. apply not_elem_of_nil.
  - destruct IH as (a & b & -> & Ha); [set_solver|]. exists (c :: a), b.
    split; [done|]. set_solver.
Qed.

Lemma strchr_here a rest i :
  NoNul a -> percent ∉ a -> strchr (a ++ percent :: rest) percent i = FoundAt (i + length a).
Proof.
  unfold NoNul. revert i. induction a as [|b a IH]; intros i Hn Hp; simpl.
  - by rewrite Nat.add_0_r.
  - rewrite not_elem_of_cons in Hn, Hp.
    rewrite bool_decide_eq_false_2, bool_decide_eq_false_2 by naive_solver.
    rewrite IH by naive_solver. f_equal. lia.
Qed.

Lemma strchr_none a rest i :
  NoNul a -> percent ∉ a -> strchr (a ++ Byte.x00 :: rest) percent i = NotFound.
Proof.
  unfold NoNul. revert i. induction a as [|b a IH]; intros i Hn Hp; simpl; [done|].
  rewrite not_elem_of_cons in Hn, Hp.
  rewrite bool_decide_eq_false_2, bool_decide_eq_false_2 by naive_solver.
  by apply IH; naive_solver.
Qed.

Lemma expand_app id name a b :
  percent ∉ a -> expand id name (a ++ b) = (a ++.) <$> expand id name b.
Proof.
  induction a as [|c a IH]; intros Hp; simpl.
  - by destruct (expand id name b).
  - rewrite not_elem_of_cons in Hp. rewrite bool_decide_eq_false_2 by naive_solver.
    rewrite IH by naive_solver. by destruct (expand id name b).
Qed.

Lemma no_escape_app a b : percent ∉ a -> no_escape (a ++ b) = no_escape b.
Proof.
  induction a as [|c a IH]; intros Hp; simpl; [done|].
  rewrite not_elem_of_cons in Hp. rewrite bool_decide_eq_false_2 by naive_solver.
  by rewrite IH by naive_solver.
Qed.

(** ** Decimal numbers hold no NUL *)

Lemma digit_no_nul x : Ascii.byte_of_ascii (pretty_N_char x) <> Byte.x00.
Proof. unfold pretty_N_char. by repeat case_match. Qed.

Lemma lbs_cons c s :
  String.list_byte_of_string (String c s) = Ascii.byte_of_ascii c :: String.list_byte_of_string s.
Proof. done. Qed.

Lemma pretty_N_go_no_nul x s :
  NoNul (String.list_byte_of_string s) ->
  NoNul (String.list_byte_of_string (pretty_N_go x s)).
Proof.
  revert s. induction (N.lt_wf_0 x) as [x _ IH]; intros s Hs.
  destruct (decide (x = 0%N)) as [->|Hx].
  - by rewrite pretty_N_go_0.
  - rewrite pretty_N_go_step by lia. apply IH.
    + apply N.div_lt; lia.
    + unfold NoNul in *. rewrite lbs_cons, not_elem_of_cons. split; [|done].
      intros E. symmetry in E. by apply digit_no_nul in E.
Qed.

Lemma dec_no_nul z : NoNul (dec z).
Proof.
  assert (Hn : forall n : N, NoNul (String.list_byte_of_string (pretty n))).
  { intros n. unfold pretty, pretty_N. case_decide; [by vm_compute; set_solver|].
    apply pretty_N_go_no_nul. apply not_elem_of_nil. }
  unfold dec, pretty, pretty_Z. destruct (s32 z) as [|q|q]; [by vm_compute; set_solver|apply Hn|].
  change (NoNul (Byte.x2d :: String.list_byte_of_string (pretty (N.pos q)))).
  unfold NoNul. rewrite not_elem_of_cons. split; [done|apply Hn].
Qed.

(** ** The loop computes the reference *)

(** the result of the reference, as the function returns it *)
Definition fmt_of (r : option bytes) : fmt_result :=
  match r with Some s => FmtString s | None => FmtNull end.

Lemma no_nul_app a b : NoNul (a ++ b) <-> NoNul a /\ NoNul b.
Proof. unfold NoNul. by rewrite not_elem_of_app. Qed.

Lemma no_nul_cons c a : NoNul (c :: a) <-> c <> Byte.x00 /\ NoNul a.
Proof. unfold NoNul. rewrite not_elem_of_cons. naive_solver. Qed.

Lemma fmt_subst_ok pre a d b subst :
  NoNul pre -> NoNul a -> NoNul b ->
  let mem := pre ++ a ++ percent :: d :: b ++ [Byte.x00] in
  fmt_subst mem (Z.of_nat (length (pre ++ a ++ percent :: d :: b)))
    (length pre + length a + 2) subst
  = Some ((pre ++ a ++ subst) ++ b ++ [Byte.x00],
          Z.of_nat (length ((pre ++ a ++ subst) ++ b)),
          Z.of_nat (length (pre ++ a ++ subst))).
Proof.
  intros Hp Ha Hb mem. unfold fmt_subst.
  assert (drop (length pre + length a + 2) mem = b ++ [Byte.x00]) as ->.
  { unfold mem. rewrite !app_assoc, <- length_app.
    change (percent :: d :: b ++ [Byte.x00]) with ([percent; d] ++ b ++ [Byte.x00]).
    rewrite <- drop_drop, drop_app_length. done. }
  rewrite c_string_app by done.
  assert (c_prefix (length pre + length a + 2 - 2) mem = pre ++ a) as ->.
  { unfold mem. rewrite app_assoc. apply c_prefix_app; [by apply no_nul_app|].
    rewrite length_app. lia. }
  rewrite <- !app_assoc. do 3 f_equal. rewrite !length_app, !length_cons. lia.
Qed.

(** the number of a uid in decimal digits *)
Definition uid_text (uid : Z) : bytes := String.list_byte_of_string (pretty (Z.to_N uid)).

Lemma dec_uid_text uid : 0 <= uid < 2 ^ 31 -> dec uid = uid_text uid.
Proof.
  intros H. unfold dec, uid_text. assert (s32 uid = uid) as ->; [|by destruct uid; [..|lia]].
  rewrite <- (u32_id uid) at 1; [apply s32_u32|]; unfold in_s32, in_u32; lia.
Qed.

Section loop.
Context {W : Type} {AL : Alloc W} {NL : NssLib W}.
Context (uid : Z) (name : option bytes).

Definition result_ok (r : option bytes) (out : fmt_result) : Prop :=
  out = fmt_of r \/ (out = FmtNull /\ exists w : W, (malloc w).1 = false).

(** the user database gives the uid this name, a C string *)
Definition database_says : Prop :=
  (forall w : W, (getpwuid uid w).1 = name) /\ (forall u, name = Some u -> NoNul u).

Lemma uid_to_name_cases w : database_says ->
  wp (uid_to_name uid) (fun r _ => r = name \/ (r = None /\ exists w : W, (malloc w).1 = false)) w.
Proof.
  intros [Hdb _]. unfold uid_to_name. apply wp_bind. unfold wp at 1. specialize (Hdb w).
  destruct (getpwuid uid w) as [r w1]. simpl in Hdb. subst r.
  destruct name as [u|]; [|by left]. apply wp_bind. unfold wp at 1.
  destruct (malloc w1) as [[] w2] eqn:Em; [by left|]. right. split; [done|].
  exists w1. by rewrite Em.
Qed.

(** one substitution and the turns after it *)
Lemma fmt_step_ok fuel user pre a d b subst w :
  (forall pre w, NoNul pre -> wp (fmt_loop fuel uid user (pre ++ b ++ [Byte.x00])
      (Z.of_nat (length (pre ++ b))) (Z.of_nat (length pre)))
    (fun out _ => result_ok ((pre ++.) <$> expand (dec uid) name b) out) w) ->
  NoNul pre -> NoNul a -> NoNul b -> NoNul subst ->
  wp (match fmt_subst (pre ++ a ++ percent :: d :: b ++ [Byte.x00])
            (Z.of_nat (length (pre ++ a ++ percent :: d :: b)))
            (length pre + length a + 2) subst with
      | None => mret FmtOverrun
      | Some (mem, len, p) =>
          let* ok := malloc in
          if negb ok then mret FmtNull else fmt_loop fuel uid user mem len p
      end)
    (fun out _ => result_ok ((pre ++.) <$> ((a ++.) <$> ((subst ++.) <$> expand (dec uid) name b))) out) w.
Proof.
  intros IH Hpre Ha Hb Hs. rewrite fmt_subst_ok by done. apply wp_bind. unfold wp at 1.
  destruct (malloc w) as [[] w'] eqn:Em; cbn [negb].
  - eapply wp_conseq; [apply IH; by rewrite !no_nul_app|].
    intros out w2 H. destruct (expand (dec uid) name b); simpl in *; [|done].
    unfold result_ok, fmt_of in *. simpl in H. by rewrite <- !app_assoc in H.
  - apply wp_ret. right. split; [done|]. exists w. by rewrite Em.
Qed.

Lemma fmt_loop_ok fuel user pre s w :
  database_says -> (forall u, user = Some u -> name = Some u) ->
  NoNul pre -> NoNul s -> no_escape s = true -> (length s < fuel)%nat ->
  wp (fmt_loop fuel uid user (pre ++ s ++ [Byte.x00]) (Z.of_nat (length (pre ++ s)))
        (Z.of_nat (length pre)))
    (fun out _ => result_ok ((pre ++.) <$> expand (dec uid) name s) out) w.
Proof.
  intros Hdb. revert user pre s w.
  induction fuel as [|fuel IH]; intros user pre s w Huser Hpre Hs Hesc Hf; [lia|].
  cbn [fmt_loop].
  rewrite (proj2 (Z.ltb_ge _ 0)), (proj2 (Z.leb_gt _ _)) by (rewrite ?length_app, ?length_cons; simpl; lia).
  cbn [orb]. rewrite Nat2Z.id, drop_app_length.
  destruct (percent_split s Hs) as [Hp|(a & b & -> & Hp)].
  - rewrite strchr_none by done. rewrite app_assoc.
    rewrite c_string_app by (by apply no_nul_app).
    apply wp_ret. left. pose proof (expand_app (dec uid) name s [] Hp) as E. rewrite app_nil_r in E.
    rewrite E. simpl. by rewrite app_nil_r.
  - apply no_nul_app in Hs as [Ha [_ Hb]%no_nul_cons].
    rewrite <- app_assoc. cbn [app]. rewrite strchr_here by done.
    assert (Hl : (pre ++ a ++ percent :: b ++ [Byte.x00]) !! S (length pre + length a)
            = (b ++ [Byte.x00]) !! 0%nat).
    { rewrite app_assoc, lookup_app_r by (rewrite length_app; lia). rewrite length_app.
      replace (S _ - _)%nat with 1%nat by lia. done. }
    rewrite Hl. rewrite no_escape_app in Hesc by done. rewrite expand_app by done.
    simpl in Hesc. destruct b as [|d b]; [cbn; apply wp_ret; by left|].
    apply no_nul_cons in Hb as [_ Hb].
    apply andb_true_iff in Hesc as [Hd [_ Hesc]%andb_true_iff].
    rewrite length_app, !length_cons in Hf.
    simpl. case_bool_decide as E1; [by subst d|].
    case_bool_decide as E2.
    { apply fmt_step_ok; try done; [|apply dec_no_nul]. intros; apply IH; try done; lia. }
    case_bool_decide as E3; [|apply wp_ret; by left].
    apply wp_bind. eapply wp_conseq with (Q := fun r _ => r = name \/
      (r = None /\ exists w : W, (malloc w).1 = false)).
    { destruct user as [u|]; [apply wp_ret; left; symmetry; by apply Huser|by apply uid_to_name_cases]. }
    intros r w1 [->|[-> Hm]]; [|apply wp_ret; by right].
    assert (Hname : name = None \/ exists u, name = Some u) by (destruct name; eauto).
    destruct Hname as [E|[u E]]; [rewrite E; apply wp_ret; by left|].
    assert (Hb' : (u ← name; (u ++.) <$> expand (dec uid) name b) = (u ++.) <$> expand (dec uid) name b)
      by by rewrite E at 1.
    rewrite Hb'. rewrite E at 1.
    apply fmt_step_ok; try done; try by apply Hdb.
    intros; apply IH; try done; try congruence; lia.
Qed.

(** whatever the uid: its text is the one of %d *)
Lemma get_formatted_string_ok orig w : database_says -> NoNul orig -> no_escape orig = true ->
  wp (get_formatted_string orig uid) (fun out _ => result_ok (expand (dec uid) name orig) out) w.
Proof.
  intros Hdb Hn Hesc. unfold get_formatted_string. apply wp_bind. unfold wp at 1.
  destruct (malloc w) as [[] w'] eqn:Em; cbn [negb].
  - eapply wp_conseq; [apply (fmt_loop_ok (S (length orig)) None [] orig w'); try done;
      [apply not_elem_of_nil|lia]|].
    intros out w2 H. by destruct (expand (dec uid) name orig).
  - apply wp_ret. right. split; [done|]. exists w. by rewrite Em.
Qed.

(** C40. Formatting a credential store value without the escape %%, for a user whose uid is
    below 2^31: the result is the one-pass expansion of %U into the decimal digits of the uid and
    of %u into the user name - text that was substituted is never looked at again, so a user
    name cannot inject directives - and NULL when that is undefined.  The buffer is never
    overrun, and NULL means nothing else than that or memory exhaustion. *)
Theorem formatted_string_expands orig w :
  0 <= uid < 2 ^ 31 -> database_says -> NoNul orig -> no_escape orig = true ->
  let out := (get_formatted_string orig uid w).1 in
  match expand (uid_text uid) name orig with
  | Some s => out = FmtString s
  | None => out = FmtNull
  end \/ (out = FmtNull /\ exists w' : W, (malloc w').1 = false).
Proof.
  intros Hu Hdb Hn Hesc. pose proof (get_formatted_string_ok orig w Hdb Hn Hesc) as H.
  unfold wp in H. rewrite (dec_uid_text uid Hu) in H. destruct (get_formatted_string orig uid w).
  destruct H as [->|H]; [left|by right]. by destruct (expand _ _ _).
Qed.
End loop.

Definition bs (s : string) : bytes := String.list_byte_of_string s.

(** a database in which uid 1000 is called "a%Ub" *)
Definition odd_nss : NssLib unit := {|
  getpwuid := fun uid => mret (if uid =? 1000 then Some (bs "a%Ub") else None);
  getpwnam_r := fun _ _ => mret (0, None);
  getgrouplist := fun _ _ _ => mret (true, 0, []);
|}.

Lemma formatted_string_expands_witness :
  (get_formatted_string (AL := always_mem) (NL := odd_nss) (bs "FILE:/tmp/%U/krb5cc_%u") 1000 tt).1
  = FmtString (bs "FILE:/tmp/1000/krb5cc_a%Ub").
Proof.
  destruct (formatted_string_expands (AL := always_mem) (NL := odd_nss) 1000 (Some (bs "a%Ub"))
    (bs "FILE:/tmp/%U/krb5cc_%u") tt) as [H|[_ [[] H]]].
  - split; [vm_compute; congruence|reflexivity].
  - split; [done|]. intros u [= <-]. apply no_nul_dec. vm_compute. reflexivity.
  - apply no_nul_dec. vm_compute. reflexivity.
  - vm_compute. reflexivity.
  - refine (eq_trans H _). vm_compute. reflexivity.
  - discriminate H.
Defined.

(** a uid that is no int of 32 bits: %d makes a negative number of it *)
Example big_uid_negative :
  (get_formatted_string (AL := always_mem) (NL := odd_nss) (bs "krb5cc_%U") (2 ^ 32 - 2) tt).1 = FmtString (bs "krb5cc_-2").
Proof. vm_compute. reflexivity. Qed.

(** The escape does not work: "%%" alone is rejected as an invalid directive, a short
    value keeps a stray last byte, and a value with the escape in its second half makes
    the function write past its buffer. *)
Theorem formatted_string_escape_broken :
  let f s := (get_formatted_string (AL := always_mem) (NL := odd_nss) (bs s) 1000 tt).1 in
  f "%%" = FmtNull /\ f "ab%%cd" = FmtString (bs "ab%cdd") /\
  f "/var/cache/%%x" = FmtOverrun.
Proof. vm_compute. repeat split. Qed.
