(* ===== verification/Conv.v ===== *)
(** * Conversions between GSSAPI and protocol data

    src/gp_conv.c.  A buffer or OID is its bytes; an OID or buffer that may be NULL is an
    option.  The out-parameters of a conversion start zeroed, as its callers make them;
    a length stored in a 32-bit field is cut to 32 bits. *)

From S2P Require Import Prelude RpcXdr GssxXdr World Toy Util.

Definition empty_name : gssx_name := Mk_name [] [] [] [] [] [].
Definition empty_status : gssx_status := Mk_status 0 [] 0 [] [] [] [].

Section conv.
Context {W : Type} {AL : Alloc W}.

(** ** Buffers and OIDs *)

Definition gp_memdup (b : bytes) : M W (option bytes) :=
  let* ok := malloc in
  if negb ok then mret None else mret (Some b).

Definition gp_conv_octet_string (value : bytes) : M W (Z * bytes) :=
  if len value =? 0 then mret (0, []) else
  let* d := gp_memdup value in
  match d with
  | None => mret (ENOMEM, [])
  | Some d => mret (0, truncate32 d)
  end.

Definition gp_conv_octet_string_alloc (value : bytes) : M W (Z * option bytes) :=
  let* ok := malloc in
  if negb ok then mret (ENOMEM, None) else
  let* '(ret, o) := gp_conv_octet_string value in
  if negb (ret =? 0) then mret (ret, None) else mret (0, Some o).

Definition gp_conv_gssx_to_oid (i : option bytes) : bytes := default [] i.

Definition gp_conv_gssx_to_oid_alloc (i : option bytes) : M W (Z * option bytes) :=
  match i with
  | None => mret (0, None)
  | Some i =>
      if len i =? 0 then mret (0, None) else
      let* ok := malloc in
      if negb ok then mret (ENOMEM, None) else
      let* d := gp_memdup i in
      match d with
      | None => mret (ENOMEM, None)
      | Some d => mret (0, Some d)
      end
  end.

Definition gp_conv_oid_to_gssx (i : option bytes) : M W (Z * bytes) :=
  match i with
  | None => gp_conv_octet_string []
  | Some i => gp_conv_octet_string i
  end.

Definition gp_conv_oid_to_gssx_alloc (i : option bytes) : M W (Z * option bytes) :=
  match i with
  | None => mret (0, None)
  | Some i => gp_conv_octet_string_alloc i
  end.

Definition gp_conv_gssx_to_buffer (i : bytes) : bytes := i.

Definition gp_conv_gssx_to_buffer_alloc (i : bytes) : M W (Z * option bytes) :=
  if len i =? 0 then mret (0, None) else
  let* ok := malloc in
  if negb ok then mret (ENOMEM, None) else
  let* d := gp_memdup i in
  match d with
  | None => mret (ENOMEM, None)
  | Some d => mret (0, Some d)
  end.

Definition gp_copy_gssx_to_buffer (i : bytes) : M W (Z * bytes) :=
  if len i =? 0 then mret (0, []) else
  let* d := gp_memdup i in
  match d with
  | None => mret (ENOMEM, [])
  | Some d => mret (0, d)
  end.

(** the copy is NUL-terminated, its length does not count the NUL *)
Definition gp_copy_gssx_to_string_buffer (i : bytes) : M W (Z * (bytes * bytes)) :=
  if len i =? 0 then mret (0, ([], [])) else
  let* ok := malloc in
  if negb ok then mret (ENOMEM, ([], [])) else
  mret (0, (i, i ++ [Byte.x00])).

Definition gp_conv_buffer_to_gssx (i : bytes) : M W (Z * bytes) := gp_conv_octet_string i.
Definition gp_conv_buffer_to_gssx_alloc (i : bytes) : M W (Z * option bytes) :=
  gp_conv_octet_string_alloc i.

(** ** Channel bindings *)

Definition gp_conv_gssx_to_cb (i : gssx_cb) : channel_bindings :=
  Bindings (u32 (cb_initiator_addrtype i)) (gp_conv_gssx_to_buffer (cb_initiator_address i))
    (u32 (cb_acceptor_addrtype i)) (gp_conv_gssx_to_buffer (cb_acceptor_address i))
    (gp_conv_gssx_to_buffer (cb_application_data i)).

(** on failure the addresses converted so far are freed and cleared *)
Definition gp_conv_cb_to_gssx (i : channel_bindings) : M W (Z * option gssx_cb) :=
  let* '(ret, ia) := gp_conv_buffer_to_gssx (cbi_address i) in
  if negb (ret =? 0) then mret (ret, None) else
  let* '(ret, aa) := gp_conv_buffer_to_gssx (cba_address i) in
  if negb (ret =? 0) then mret (ret, None) else
  let* '(ret, ad) := gp_conv_buffer_to_gssx (cb_data i) in
  if negb (ret =? 0) then mret (ret, None) else
  mret (0, Some (Mk_cb (cbi_addrtype i) ia (cba_addrtype i) aa ad)).

Definition gp_conv_cb_to_gssx_alloc (i : channel_bindings) : M W (Z * option gssx_cb) :=
  let* ok := malloc in
  if negb ok then mret (ENOMEM, None) else
  let* '(ret, o) := gp_conv_cb_to_gssx i in
  if negb (ret =? 0) then mret (ENOMEM, None) else mret (0, o).

(** ** Credential usage *)

Definition gp_conv_cred_usage_to_gssx (i : Z) : Z :=
  if i =? GSS_C_BOTH then GSSX_C_BOTH
  else if i =? GSS_C_INITIATE then GSSX_C_INITIATE
  else if i =? GSS_C_ACCEPT then GSSX_C_ACCEPT
  else 0.

Definition gp_conv_gssx_to_cred_usage (i : Z) : Z :=
  if i =? GSSX_C_BOTH then GSS_C_BOTH
  else if i =? GSSX_C_INITIATE then GSS_C_INITIATE
  else if i =? GSSX_C_ACCEPT then GSS_C_ACCEPT
  else 0.

(** ** Copies of protocol data *)

Definition gp_copy_utf8string (i : bytes) : M W (Z * bytes) :=
  let* d := gp_memdup i in
  match d with
  | None => mret (ENOMEM, [])
  | Some d => mret (0, d)
  end.

(** an optional member is copied only when it is not empty *)
Definition copy_if_any (copy : bytes -> M W (Z * bytes)) (i : bytes) : M W (Z * bytes) :=
  if len i =? 0 then mret (0, []) else copy i.

Definition gp_copy_gssx_status_alloc (i : gssx_status) : M W (Z * option gssx_status) :=
  let* ok := malloc in
  if negb ok then mret (ENOMEM, None) else
  let* '(ret, mech) := copy_if_any gp_conv_octet_string (status_mech i) in
  if negb (ret =? 0) then mret (ret, None) else
  let* '(ret, majs) := copy_if_any gp_copy_utf8string (status_major_status_string i) in
  if negb (ret =? 0) then mret (ret, None) else
  let* '(ret, mins) := copy_if_any gp_copy_utf8string (status_minor_status_string i) in
  if negb (ret =? 0) then mret (ret, None) else
  let* '(ret, sctx) := copy_if_any gp_conv_octet_string (status_server_ctx i) in
  if negb (ret =? 0) then mret (ret, None) else
  mret (0, Some (Mk_status (status_major_status i) mech (status_minor_status i)
                   majs mins sctx [])).

Definition gp_copy_gssx_name (i : gssx_name) : M W (Z * gssx_name) :=
  let* '(ret, dn) := gp_conv_octet_string (name_display_name i) in
  if negb (ret =? 0) then mret (ret, empty_name) else
  let* '(ret, nt) := gp_conv_octet_string (name_name_type i) in
  if negb (ret =? 0) then mret (ret, empty_name) else
  let* '(ret, en) := gp_conv_octet_string (name_exported_name i) in
  if negb (ret =? 0) then mret (ret, empty_name) else
  let* '(ret, ec) := gp_conv_octet_string (name_exported_composite_name i) in
  if negb (ret =? 0) then mret (ret, empty_name) else
  mret (0, Mk_name dn nt en ec [] []).

Definition gp_copy_gssx_name_alloc (i : gssx_name) : M W (Z * option gssx_name) :=
  let* ok := malloc in
  if negb ok then mret (ENOMEM, None) else
  let* '(ret, o) := gp_copy_gssx_name i in
  if negb (ret =? 0) then mret (ret, None) else mret (0, Some o).

(** ** OID sets *)

Fixpoint memdup_all (l : list bytes) : M W (option (list bytes)) :=
  match l with
  | [] => mret (Some [])
  | b :: l =>
      let* d := gp_memdup b in
      match d with
      | None => mret None
      | Some d =>
          let* r := memdup_all l in
          match r with None => mret None | Some r => mret (Some (d :: r)) end
      end
  end.

Definition gp_conv_gssx_to_oid_set (i : list bytes) : M W (Z * option (list bytes)) :=
  if len i =? 0 then mret (0, None) else
  let* ok := malloc in
  if negb ok then mret (ENOMEM, None) else
  let* ok := malloc in
  if negb ok then mret (ENOMEM, None) else
  let* r := memdup_all i in
  match r with
  | None => mret (ENOMEM, None)
  | Some r => mret (0, Some r)
  end.

(** what the out-parameter holds afterwards; [Dangling freed] is a null or freed pointer with a
    non-zero count *)
Inductive oid_set_out := OidSet (l : list bytes) | Dangling (freed : bool).

Fixpoint conv_all (l : list bytes) : M W (option (list bytes)) :=
  match l with
  | [] => mret (Some [])
  | b :: l =>
      let* '(ret, d) := gp_conv_octet_string b in
      if negb (ret =? 0) then mret None else
      let* r := conv_all l in
      match r with None => mret None | Some r => mret (Some (d :: r)) end
  end.

Definition gp_conv_oid_set_to_gssx (i : list bytes) : M W (Z * oid_set_out) :=
  if len i =? 0 then mret (0, OidSet []) else
  let* ok := malloc in
  if negb ok then mret (ENOMEM, Dangling false) else
  let* r := conv_all i in
  match r with
  | None => mret (ENOMEM, Dangling true)
  | Some r => mret (0, OidSet r)
  end.
End conv.

(** ** Status codes and names *)

Section gss.
Context {W : Type} {AL : Alloc W} {GL : GssLib W}.

(** the C string in a buffer the library terminated *)
Fixpoint to_nul (b : bytes) : bytes :=
  match b with
  | [] => []
  | c :: b => if bool_decide (c = Byte.x00) then [] else c :: to_nul b
  end.

Definition comma_space : bytes := [Byte.x2c; Byte.x20].

(** The do-while loop over the messages of a status.  Running out of fuel is [-1]. *)
Fixpoint err_messages (fuel : nat) (status type : Z) (oid : option bytes) (msg_ctx : Z)
  (str : option bytes) : M W (Z * bytes) :=
  match fuel with
  | O => mret (-1, [])
  | S fuel =>
      let* '(maj, _, (msg_ctx, gssbuf)) := gss_display_status status type oid msg_ctx in
      if negb (maj =? GSS_S_COMPLETE) then mret (EINVAL, []) else
      let* ok := malloc in
      if negb ok then mret (ENOMEM, []) else
      let str := match str with
                 | Some s => s ++ comma_space ++ to_nul gssbuf
                 | None => to_nul gssbuf
                 end in
      if msg_ctx =? 0 then mret (0, str ++ [Byte.x00])
      else err_messages fuel status type oid msg_ctx (Some str)
  end.

Definition gp_conv_err_to_gssx_string (status type : Z) (oid : option bytes) : M W (Z * bytes) :=
  err_messages gss_max_messages status type oid 0 None.

(** what is already converted stays in the status when a later part fails *)
Definition gp_conv_status_to_gssx (ret_maj ret_min : Z) (mech : option bytes)
  (status : gssx_status) : M W (Z * gssx_status) :=
  let* '(ret, m) := match mech with
                    | Some _ => gp_conv_oid_to_gssx mech
                    | None => mret (0, status_mech status)
                    end in
  if negb (ret =? 0) then
    mret (ret, Mk_status ret_maj m (status_minor_status status)
                 (status_major_status_string status) (status_minor_status_string status)
                 (status_server_ctx status) (status_options status)) else
  let* '(ret, majs) := if negb (ret_maj =? 0)
                       then gp_conv_err_to_gssx_string ret_maj GSS_C_GSS_CODE mech
                       else mret (0, status_major_status_string status) in
  if negb (ret =? 0) then
    mret (ret, Mk_status ret_maj m ret_min (status_major_status_string status)
                 (status_minor_status_string status) (status_server_ctx status)
                 (status_options status)) else
  let* '(ret, mins) := if negb (ret_min =? 0)
                       then gp_conv_err_to_gssx_string ret_min GSS_C_MECH_CODE mech
                       else mret (0, status_minor_status_string status) in
  if negb (ret =? 0) then
    mret (ret, Mk_status ret_maj m ret_min majs (status_minor_status_string status)
                 (status_server_ctx status) (status_options status)) else
  mret (0, Mk_status ret_maj m ret_min majs mins (status_server_ctx status)
             (status_options status)).

(** the major status, the minor, and the name when it is complete *)
Definition gp_conv_name_to_gssx (i : option gss_name) : M W (Z * Z * gssx_name) :=
  let* '(maj, min, (display, type)) := gss_display_name i in
  if negb (maj =? 0) then mret (maj, min, empty_name) else
  let* '(ret, dn) := gp_conv_buffer_to_gssx display in
  if negb (ret =? 0) then mret (GSS_S_FAILURE, ret, empty_name) else
  let* '(ret, nt) := gp_conv_oid_to_gssx type in
  if negb (ret =? 0) then mret (GSS_S_FAILURE, ret, empty_name) else
  let* '(maj, min, exported) := gss_export_name i in
  if negb (maj =? 0) && negb (maj =? GSS_S_NAME_NOT_MN) then mret (maj, min, empty_name) else
  let* '(ret, en) := if maj =? 0 then gp_conv_buffer_to_gssx exported else mret (0, []) in
  if negb (ret =? 0) then mret (GSS_S_FAILURE, ret, empty_name) else
  let* '(maj, min, composite) := gss_export_name_composite i in
  if negb (maj =? 0) && negb (maj =? GSS_S_NAME_NOT_MN) && negb (maj =? GSS_S_UNAVAILABLE)
  then mret (maj, min, empty_name) else
  let* '(ret, ec) := if maj =? 0 then gp_conv_buffer_to_gssx composite else mret (0, []) in
  if negb (ret =? 0) then mret (GSS_S_FAILURE, ret, empty_name) else
  mret (GSS_S_COMPLETE, min, Mk_name dn nt en ec [] []).

(** a failed allocation is reported as the major status ENOMEM, the minor is not set *)
Definition gp_conv_name_to_gssx_alloc (min0 : Z) (i : option gss_name)
  : M W (Z * Z * option gssx_name) :=
  let* ok := malloc in
  if negb ok then mret (ENOMEM, min0, None) else
  let* '(maj, min, o) := gp_conv_name_to_gssx i in
  if negb (maj =? 0) then mret (maj, min, None) else mret (maj, min, Some o).

(** GSS_C_NT_EXPORT_NAME: 1.3.6.1.5.6.4 *)
Definition GSS_C_NT_EXPORT_NAME : bytes := map byte_of [43; 6; 1; 5; 6; 4].

Definition gp_conv_gssx_to_name (i : gssx_name) : M W (Z * Z * option gss_name) :=
  if negb (len (name_display_name i) =? 0) then
    let* '(ret, input) := gp_conv_gssx_to_buffer_alloc (name_display_name i) in
    if negb (ret =? 0) then mret (GSS_S_FAILURE, ret, None) else
    let* '(ret, type) := gp_conv_gssx_to_oid_alloc (Some (name_name_type i)) in
    if negb (ret =? 0) then mret (GSS_S_FAILURE, ret, None) else
    gss_import_name input type
  else gss_import_name (Some (gp_conv_gssx_to_buffer (name_exported_name i)))
         (Some GSS_C_NT_EXPORT_NAME).
End gss.

(** ** Properties *)

Section conv_laws.
Context {W : Type} {AL : Alloc W}.

Lemma octet_string_cases value w :
  wp (gp_conv_octet_string value) (fun r _ =>
    r = (0, truncate32 value) \/ r = (ENOMEM, [])) w.
Proof.
  unfold gp_conv_octet_string. destruct (Z.eqb_spec (len value) 0) as [E|].
  - apply wp_ret. left. by destruct value.
  - apply wp_bind. unfold gp_memdup. apply wp_bind, wp_any. intros [] ?; cbn [negb].
    + by left.
    + by right.
Qed.

Lemma memdup_cases b w : wp (gp_memdup b) (fun r _ => r = Some b \/ r = None) w.
Proof. unfold gp_memdup. apply wp_bind, wp_any. intros [] ?; cbn [negb]; [by left|by right]. Qed.

Lemma memdup_all_cases l w : wp (memdup_all l) (fun r _ => r = Some l \/ r = None) w.
Proof.
  revert w. induction l as [|b l IH]; intros w; cbn [memdup_all]; [by left|].
  apply wp_bind. eapply wp_conseq; [apply memdup_cases|]. intros r w1 [->| ->]; [|by right].
  apply wp_bind. eapply wp_conseq; [apply IH|]. intros r w2 [->| ->]; [by left|by right].
Qed.

Lemma conv_all_cases l w :
  wp (conv_all l) (fun r _ => r = Some (map truncate32 l) \/ r = None) w.
Proof.
  revert w. induction l as [|b l IH]; intros w; cbn [conv_all]; [by left|].
  apply wp_bind. eapply wp_conseq; [apply octet_string_cases|].
  intros r w1 [->| ->]; cbn [negb Z.eqb]; [|by right].
  apply wp_bind. eapply wp_conseq; [apply IH|]. intros r w2 [->| ->]; [by left|by right].
Qed.

Lemma map_truncate32 l : Forall (fun b => len b < 2 ^ 32) l -> map truncate32 l = l.
Proof. induction 1; simpl; [done|]. rewrite truncate32_id by done. congruence. Qed.

(** A set of OIDs a client sent survives the conversion to GSSAPI data and back: the
    same OIDs in the same order, or the report of memory exhaustion; the empty set is the
    null set. *)
Theorem oid_set_roundtrip (set : list bytes) w :
  Forall (fun b => len b < 2 ^ 32) set ->
  wp (let* '(ret, s) := gp_conv_gssx_to_oid_set set in
      match s with
      | Some s => gp_conv_oid_set_to_gssx s
      | None => mret (ret, OidSet [])
      end)
    (fun '(ret, out) _ => (ret = 0 -> out = OidSet set) /\ (ret <> 0 -> ret = ENOMEM)) w.
Proof.
  intros Hs. unfold gp_conv_gssx_to_oid_set, gp_conv_oid_set_to_gssx.
  destruct (Z.eqb_spec (len set) 0) as [E|E]; [destruct set; [|done]; by split|].
  apply wp_bind, wp_bind, wp_any. intros [] ?; cbn [negb]; [|apply wp_ret, wp_ret; by split].
  apply wp_bind, wp_any. intros [] ?; cbn [negb]; [|apply wp_ret, wp_ret; by split].
  apply wp_bind. eapply wp_conseq; [apply memdup_all_cases|].
  intros r w1 [->| ->]; [|apply wp_ret, wp_ret; by split]. apply wp_ret.
  rewrite (proj2 (Z.eqb_neq _ _) E).
  apply wp_bind, wp_any. intros [] ?; cbn [negb]; [|apply wp_ret; by split].
  apply wp_bind. eapply wp_conseq; [apply conv_all_cases|].
  intros r w2 [->| ->]; apply wp_ret; [|by split]. by rewrite map_truncate32.
Qed.
End conv_laws.

Lemma oid_set_roundtrip_witness :
  wp (W := unit)
     (let* '(ret, s) := gp_conv_gssx_to_oid_set (AL := always_mem) [gss_mech_krb5; [Byte.x2a]] in
      match s with
      | Some s => gp_conv_oid_set_to_gssx (AL := always_mem) s
      | None => mret (ret, OidSet [])
      end)
    (fun '(ret, out) _ => (ret = 0 -> out = OidSet [gss_mech_krb5; [Byte.x2a]]) /\
                          (ret <> 0 -> ret = ENOMEM)) tt.
Proof.
  apply (oid_set_roundtrip (AL := always_mem) [gss_mech_krb5; [Byte.x2a]] tt).
  repeat constructor.
Defined.

Section status_laws.
Context {W : Type} {AL : Alloc W} {GL : GssLib W}.

Lemma err_messages_cases fuel status type oid ctx str w :
  wp (err_messages fuel status type oid ctx str)
    (fun '(ret, s) _ => ret = 0 -> exists t, s = t ++ [Byte.x00]) w.
Proof.
  revert ctx str w. induction fuel as [|fuel IH]; intros ctx str w; cbn [err_messages];
    [by apply wp_ret|].
  apply wp_bind, wp_any. intros [[maj min] [ctx' buf]] w1.
  destruct (negb _); [by apply wp_ret|].
  apply wp_bind, wp_any. intros [] w2; cbn [negb]; [|by apply wp_ret].
  destruct (_ =? _); [|apply IH]. apply wp_ret. intros _. by eexists.
Qed.

Lemma err_string_cases status type oid w :
  wp (gp_conv_err_to_gssx_string status type oid)
    (fun '(ret, s) _ => ret = 0 -> s <> []) w.
Proof.
  eapply wp_conseq; [apply err_messages_cases|]. intros [ret s] w' H Hr.
  destruct (H Hr) as [t ->]. by destruct t.
Qed.

Lemma status_major maj min mech st w :
  wp (gp_conv_status_to_gssx maj min mech st)
    (fun '(_, st') _ => status_major_status st' = maj) w.
Proof.
  unfold gp_conv_status_to_gssx. apply wp_step. intros [ret m] w1 _.
  destruct (negb (ret =? 0)); [by apply wp_ret|].
  apply wp_step. intros [ret2 majs] w2 _. destruct (negb (ret2 =? 0)); [by apply wp_ret|].
  apply wp_step. intros [ret3 mins] w3 _. destruct (negb (ret3 =? 0)); by apply wp_ret.
Qed.

(** The status of a reply: the major status the procedure ended with is always the one
    sent, even when building the messages fails; when it does not fail, the minor status
    and the mechanism are sent too, and a message goes with each non-zero code and only
    with those. *)
Theorem status_faithful maj min mech w :
  wp (gp_conv_status_to_gssx maj min mech empty_status) (fun '(ret, st) _ =>
    status_major_status st = maj /\
    (ret = 0 -> status_minor_status st = min /\
       status_mech st = truncate32 (default [] mech) /\
       (status_major_status_string st = [] <-> maj = 0) /\
       (status_minor_status_string st = [] <-> min = 0))) w.
Proof.
  unfold gp_conv_status_to_gssx, empty_status. simpl.
  assert (Hm : wp (match mech with Some _ => gp_conv_oid_to_gssx mech | None => mret (0, []) end)
            (fun r _ => r = (0, truncate32 (default [] mech)) \/ r = (ENOMEM, [])) w).
  { destruct mech as [m|]; [apply octet_string_cases|by left]. }
  assert (Hs : forall c (t : Z) w', wp (if negb (c =? 0) then gp_conv_err_to_gssx_string c t mech
                              else mret (0, [])) (fun '(ret, s) _ => ret = 0 -> (s = [] <-> c = 0)) w').
  { intros c t w'. destruct (Z.eqb_spec c 0); cbn [negb]; [by apply wp_ret|].
    eapply wp_conseq; [apply err_string_cases|]. intros [ret s] ? H Hr. specialize (H Hr). by split. }
  apply wp_bind. eapply wp_conseq; [apply Hm|].
  intros r w1 [->| ->]; cbn [negb Z.eqb]; [|by apply wp_ret].
  apply wp_bind. eapply wp_conseq; [apply Hs|]. intros [ret majs] w2 H1.
  destruct (Z.eqb_spec ret 0) as [->|]; cbn [negb]; [|by apply wp_ret].
  apply wp_bind. eapply wp_conseq; [apply Hs|]. intros [ret mins] w3 H2.
  destruct (Z.eqb_spec ret 0) as [->|]; cbn [negb]; [|by apply wp_ret].
  specialize (H1 eq_refl). specialize (H2 eq_refl). by apply wp_ret.
Qed.

(** every sequence of messages of a status ends within [n] *)
Fixpoint messages_within (n : nat) (status type : Z) (oid : option bytes) (ctx : Z) : Prop :=
  match n with
  | O => False
  | S n => forall w, let '(maj, _, (ctx', _)) := (gss_display_status status type oid ctx w).1 in
      maj <> GSS_S_COMPLETE \/ ctx' = 0 \/ messages_within n status type oid ctx'
  end.

Lemma err_messages_terminate n status type oid ctx str w :
  messages_within n status type oid ctx ->
  wp (err_messages n status type oid ctx str)
    (fun '(ret, _) _ => ret = 0 \/ ret = ENOMEM \/ ret = EINVAL) w.
Proof.
  revert ctx str w. induction n as [|n IH]; intros ctx str w H; [done|].
  cbn [err_messages]. apply wp_bind. unfold wp at 1. specialize (H w).
  destruct (gss_display_status status type oid ctx w) as [[[maj min] [ctx' buf]] w1]. simpl in H.
  destruct (Z.eqb_spec maj GSS_S_COMPLETE); cbn [negb]; [|apply wp_ret; auto].
  apply wp_bind, wp_any. intros [] w2; cbn [negb]; [|apply wp_ret; auto].
  destruct (Z.eqb_spec ctx' 0); [apply wp_ret; auto|].
  apply IH. destruct H as [H|[H|H]]; done.
Qed.

(** The message loop ends by itself, not by its bound, when the library's messages do. *)
Theorem err_string_terminates status type oid w :
  messages_within gss_max_messages status type oid 0 ->
  wp (gp_conv_err_to_gssx_string status type oid)
    (fun '(ret, _) _ => ret = 0 \/ ret = ENOMEM \/ ret = EINVAL) w.
Proof. apply err_messages_terminate. Qed.
End status_laws.

Lemma err_string_terminates_witness :
  wp (gp_conv_err_to_gssx_string (AL := always_mem) (GL := toy_gss) 5 GSS_C_GSS_CODE None)
    (fun '(ret, _) _ => ret = 0 \/ ret = ENOMEM \/ ret = EINVAL) (toy_world []).
Proof.
  apply (err_string_terminates (AL := always_mem) (GL := toy_gss) 5 GSS_C_GSS_CODE None
    (toy_world [])).
  intros w. cbn. unfold toy_op. case_decide; cbn; [by left|right; by left].
Defined.
