(* ===== verification/Crypt.v ===== *)
(** * The encryption of credential handles

    The first part of src/gp_export.c: the key of a service and the padding scheme of the
    encrypted blobs.  The Kerberos library is the class [KrbLib]; that its ciphers invert
    and how they pad is [CipherLaws]. *)

From S2P Require Import Prelude RpcXdr GssxXdr World Util Conv.

Definition KRB5_KT_END := - 1765328202.
Definition KRB5_WRONG_ETYPE := - 1765328188.
Definition ENC_MIN_PAD_LEN := 8.
(** ENCTYPE_AES256_CTS_HMAC_SHA1_96 *)
Definition GP_CREDS_HANDLE_KEY_ENCTYPE := 18.

Class KrbLib (W : Type) := {
  krb5_keytab : Type;
  krb5_init_context : M W Z;
  krb5_kt_resolve : string -> M W (Z * option krb5_keytab);
  krb5_kt_default : M W (Z * option krb5_keytab);
  krb5_kt_have_content : option krb5_keytab -> M W Z;
  krb5_get_permitted_enctypes : M W (Z * list Z);
  krb5_kt_start_seq_get : option krb5_keytab -> M W (Z * Z);
  (* keytab, cursor; the key and the cursor after *)
  krb5_kt_next_entry : option krb5_keytab -> Z -> M W (Z * keyblock * Z);
  (* how many entries the keytabs of this system have, at most *)
  krb5_kt_entries_max : nat;
  krb5_copy_keyblock : keyblock -> M W (Z * option keyblock);
  krb5_init_keyblock : Z -> M W (Z * option keyblock);
  krb5_c_make_random_key : Z -> M W (Z * keyblock);
  (* type, length; the length of the ciphertext *)
  krb5_c_encrypt_length : Z -> Z -> Z * Z;
  (* key, plaintext, size of the output buffer *)
  krb5_c_encrypt : keyblock -> bytes -> Z -> M W (Z * bytes);
  krb5_c_decrypt : keyblock -> bytes -> Z * bytes;
}.

Section crypt.
Context {W : Type} {AL : Alloc W} {KL : KrbLib W}.

(** ** The key *)

(** the permitted type stops the search; a failed copy stops it with its error *)
Definition try_entry (permitted : list Z) (entry : keyblock) (key : option keyblock)
  : M W (Z * option keyblock) :=
  if existsb (fun e => e =? key_enctype entry) permitted then
    let* '(ret, k) := krb5_copy_keyblock entry in
    if ret =? 0 then mret (KRB5_KT_END, k) else mret (ret, key)
  else mret (0, key).

Fixpoint kt_loop (fuel : nat) (kt : option krb5_keytab) (permitted : list Z) (cursor : Z)
  (key : option keyblock) : M W (Z * option keyblock) :=
  match fuel with
  | O => mret (KRB5_KT_END, key)
  | S fuel =>
      let* '(ret, entry, cursor) := krb5_kt_next_entry kt cursor in
      let* '(ret, key) := if ret =? 0 then try_entry permitted entry key
                          else mret (ret, key) in
      if ret =? 0 then kt_loop fuel kt permitted cursor key else mret (ret, key)
  end.

(** the key the keytab gives, with the status; the minor status of a keytab with no
    permitted key is 0 *)
Definition gp_init_creds_with_keytab (keytab : option string) : M W (Z * Z * option keyblock) :=
  let* '(ret, ktid) := match keytab with
                       | Some name => krb5_kt_resolve name
                       | None => mret (-1, None)
                       end in
  let* '(ret, ktid) := if negb (ret =? 0) then krb5_kt_default else mret (ret, ktid) in
  let* ret := if ret =? 0 then krb5_kt_have_content ktid else mret ret in
  if negb (ret =? 0) then mret (GSS_S_CRED_UNAVAIL, u32 ret, None) else
  let* '(ret, permitted) := krb5_get_permitted_enctypes in
  if negb (ret =? 0) then mret (GSS_S_FAILURE, u32 ret, None) else
  let* '(ret, cursor) := krb5_kt_start_seq_get ktid in
  if negb (ret =? 0) then mret (GSS_S_FAILURE, u32 ret, None) else
  let* '(ret, key) := kt_loop (S krb5_kt_entries_max) ktid permitted cursor None in
  if (ret =? KRB5_KT_END) && bool_decide (key = None) then mret (GSS_S_CRED_UNAVAIL, 0, key)
  else if negb (ret =? KRB5_KT_END) then mret (GSS_S_CRED_UNAVAIL, u32 ret, key)
  else mret (GSS_S_COMPLETE, 0, key).

(** the handle is its key *)
Definition gp_init_creds_handle (keytab : option string) : M W (Z * Z * option keyblock) :=
  let* ok := malloc in
  if negb ok then mret (GSS_S_FAILURE, ENOMEM, None) else
  let* ret := krb5_init_context in
  if negb (ret =? 0) then mret (GSS_S_FAILURE, u32 ret, None) else
  let* '(maj, min, key) := gp_init_creds_with_keytab keytab in
  if negb (maj =? GSS_S_COMPLETE) then
    let* '(ret, key) := krb5_init_keyblock GP_CREDS_HANDLE_KEY_ENCTYPE in
    if negb (ret =? 0) then mret (GSS_S_FAILURE, u32 ret, None) else
    let* '(ret, key) := krb5_c_make_random_key
                          (match key with Some k => key_enctype k | None => 0 end) in
    if negb (ret =? 0) then mret (GSS_S_FAILURE, u32 ret, None)
    else mret (GSS_S_COMPLETE, 0, Some key)
  else mret (GSS_S_COMPLETE, 0, key).

(** ** Padding *)

(** the search for the block boundary: [n] turns are left of the 15, [i] is the counter *)
Fixpoint pad_loop (n : nat) (enctype len cipherlen i : Z) : Z + Z :=
  match n with
  | O => inr ENC_MIN_PAD_LEN
  | S n =>
      let '(ret, padcheck) := krb5_c_encrypt_length enctype (len + ENC_MIN_PAD_LEN + i + 1) in
      if negb (ret =? 0) then inl ret
      else if cipherlen <? padcheck then inr (ENC_MIN_PAD_LEN + i)
      else pad_loop n enctype len cipherlen (i + 1)
  end.

(** the padding and the ciphertext length, or an error.  After the loop the counter is at
    most 15, so the check that it is not larger never fails. *)
Definition gp_pad_length (enctype len : Z) : Z + Z * Z :=
  let '(ret, cipherlen) := krb5_c_encrypt_length enctype len in
  if negb (ret =? 0) then inl ret else
  let '(ret, padcheck) := krb5_c_encrypt_length enctype (len + 1) in
  if negb (ret =? 0) then inl ret else
  if padcheck =? cipherlen then
    let '(ret, cipherlen) := krb5_c_encrypt_length enctype (len + ENC_MIN_PAD_LEN) in
    if negb (ret =? 0) then inl ret else
    match pad_loop 15 enctype len cipherlen 0 with
    | inl ret => inl ret
    | inr pad => inr (pad, cipherlen)
    end
  else inr (0, cipherlen).

Definition gp_encrypt_buffer (key : keyblock) (buf : bytes) : M W (Z * bytes) :=
  if 2 ^ 32 - 1 <? len buf then mret (ENOMEM, []) else
  match gp_pad_length (key_enctype key) (len buf) with
  | inl ret => mret (ret, [])
  | inr (pad, cipherlen) =>
      let* ok := if pad =? 0 then mret true else malloc in
      if negb ok then mret (ENOMEM, []) else
      let data := truncate32 (buf ++ replicate (Z.to_nat pad) (byte_of pad)) in
      let* ok := malloc in
      if negb ok then mret (ENOMEM, []) else
      let* '(ret, cipher) := krb5_c_encrypt key data cipherlen in
      if negb (ret =? 0) then mret (EINVAL, []) else
      gp_conv_octet_string cipher
  end.

(** [data[i - j]] for j = pad-1 down to 0, stopping at the first byte that is not [pad];
    plain [char] is signed *)
Fixpoint depad_loop (data : bytes) (i pad : Z) (j : nat) : nat :=
  match j with
  | O => O
  | S j =>
      match data !! Z.to_nat (i - Z.of_nat j) with
      | Some c => if negb (pad =? char_val c) then j else depad_loop data i pad j
      | None => j
      end
  end.

(** [None] is the read of the byte before an empty plaintext *)
Definition gp_depad (data : bytes) : option bytes :=
  let i := len data - 1 in
  if i <? 0 then None else
  match data !! Z.to_nat i with
  | None => None
  | Some c =>
      let pad := byte_val c in
      if (ENC_MIN_PAD_LEN <=? pad) && (pad <? i) then
        if (depad_loop data i pad (Z.to_nat pad) =? 0)%nat
        then Some (take (Z.to_nat (len data - pad)) data)
        else Some data
      else Some data
  end.

Definition gp_decrypt_buffer (key : keyblock) (cipher : bytes) : Z * option bytes :=
  let '(ret, data) := krb5_c_decrypt key cipher in
  if negb (ret =? 0) then (ret, Some []) else (0, gp_depad data).
End crypt.

(** ** What the ciphers promise *)

(** how an encryption type pads: the ciphertext length [ct_len] grows with the plaintext,
    and decryption gives the plaintext back with some bytes after it that its block had
    room for *)
Class CipherLaws (W : Type) {KL : KrbLib W} := {
  ct_len : Z -> Z -> Z;
  ct_len_ok : forall et n, 0 <= n -> krb5_c_encrypt_length et n = (0, ct_len et n);
  ct_len_mono : forall et n m, 0 <= n <= m -> ct_len et n <= ct_len et m;
  encrypt_ok : forall key data size w ret c w', len data < 2 ^ 32 ->
    krb5_c_encrypt key data size w = ((ret, c), w') ->
    ret = 0 ->
    ct_len (key_enctype key) (len data) <= size /\
    len c = ct_len (key_enctype key) (len data) /\
    exists extra, krb5_c_decrypt key c = (0, data ++ extra) /\
      ct_len (key_enctype key) (len (data ++ extra)) = ct_len (key_enctype key) (len data);
}.

(** a plaintext that ends like a padded one *)
Definition looks_padded (d : bytes) : Prop :=
  exists p n, 8 <= n < 128 /\ 2 <= len p /\ d = p ++ replicate (Z.to_nat n) (byte_of n).

Lemma byte_val_small n : 0 <= n < 128 -> byte_val (byte_of n) = n /\ char_val (byte_of n) = n.
Proof.
  intros H. assert (E : byte_val (byte_of n) = n) by (rewrite byte_val_of; apply Z.mod_small; lia).
  split; [done|]. rewrite char_val_small; lia.
Qed.

Lemma char_val_eq c n : 8 <= n -> char_val c = n -> n < 128 /\ c = byte_of n.
Proof.
  intros Hn Hc. pose proof (byte_val_range c).
  destruct (decide (byte_val c < 128)).
  - rewrite char_val_small in Hc by done. split; [lia|]. by rewrite <- Hc, byte_of_val.
  - pose proof (char_val_large c). lia.
Qed.

(** the backward scan succeeds exactly on a run of [pad] bytes *)
Lemma depad_loop_run p n j :
  8 <= n < 128 -> Z.of_nat j <= n ->
  depad_loop (p ++ replicate (Z.to_nat n) (byte_of n)) (len p + n - 1) n j = O.
Proof.
  intros Hn. induction j as [|j IH]; intros Hj; [done|]. cbn [depad_loop].
  rewrite lookup_app_r by (unfold len; lia).
  rewrite (proj2 (lookup_replicate _ _ _ _)) by (unfold len; split; [done|lia]).
  rewrite (proj2 (byte_val_small n ltac:(lia))), Z.eqb_refl. apply IH. lia.
Qed.

Lemma depad_loop_zero data pad j :
  depad_loop data (len data - 1) pad j = O ->
  forall k, (0 < k < j)%nat -> (j <= length data)%nat ->
  exists c, data !! (length data - 1 - k)%nat = Some c /\ char_val c = pad.
Proof.
  induction j as [|j IH]; intros H k Hk Hj; [lia|]. cbn [depad_loop] in H.
  replace (Z.to_nat (len data - 1 - Z.of_nat j)) with (length data - 1 - j)%nat in H
    by (unfold len; lia).
  destruct (data !! (length data - 1 - j)%nat) as [c|] eqn:Ec; [|lia].
  destruct (Z.eqb_spec pad (char_val c)) as [E|E]; cbn [negb] in H; [|lia].
  destruct (decide (k = j)) as [->|Hne]; [by exists c|]. apply IH; [done|lia..].
Qed.

Lemma last_run (data : bytes) b n :
  (n <= length data)%nat ->
  (forall k, (k < n)%nat -> data !! (length data - 1 - k)%nat = Some b) ->
  data = take (length data - n) data ++ replicate n b.
Proof.
  intros Hn Hk. rewrite <- (take_drop (length data - n) data) at 1. f_equal.
  apply list_eq. intros i. rewrite lookup_drop.
  destruct (decide (i < n)%nat) as [Hi|Hi].
  - rewrite (proj2 (lookup_replicate _ _ _ _)) by done.
    specialize (Hk (n - 1 - i)%nat ltac:(lia)).
    by replace (length data - 1 - (n - 1 - i))%nat with (length data - n + i)%nat in Hk by lia.
  - rewrite !(proj2 (lookup_ge_None _ _)); [done|rewrite length_replicate; lia|lia].
Qed.

Lemma depad_padded p n :
  8 <= n < 128 -> 2 <= len p -> gp_depad (p ++ replicate (Z.to_nat n) (byte_of n)) = Some p.
Proof.
  intros Hn Hp. set (d := p ++ _).
  assert (Hl : len d = len p + n) by (unfold d, len; rewrite length_app, length_replicate; lia).
  unfold gp_depad. rewrite Hl, (proj2 (Z.ltb_ge _ 0)) by lia.
  assert (Hlast : d !! Z.to_nat (len p + n - 1) = Some (byte_of n)).
  { unfold d. rewrite lookup_app_r by (unfold len; lia). apply lookup_replicate.
    split; [done|unfold len; lia]. }
  rewrite Hlast, (proj1 (byte_val_small n ltac:(lia))).
  unfold ENC_MIN_PAD_LEN. rewrite (proj2 (Z.leb_le 8 n)), (proj2 (Z.ltb_lt n _)) by lia. cbn [andb].
  unfold d. rewrite depad_loop_run by lia. cbn [Nat.eqb]. f_equal.
  replace (Z.to_nat (len p + n - n)) with (length p) by (unfold len; lia).
  apply take_app_length.
Qed.

Lemma depad_plain d : d <> [] -> ~ looks_padded d -> gp_depad d = Some d.
Proof.
  intros Hne Hnp. unfold gp_depad.
  assert (0 < len d) by (destruct d; [done|unfold len; simpl; lia]).
  rewrite (proj2 (Z.ltb_ge _ 0)) by lia.
  destruct (d !! Z.to_nat (len d - 1)) as [c|] eqn:Ec;
    [|apply lookup_ge_None in Ec; unfold len in *; lia].
  unfold ENC_MIN_PAD_LEN.
  destruct (Z.leb_spec 8 (byte_val c)), (Z.ltb_spec (byte_val c) (len d - 1)); cbn [andb]; try done.
  destruct (Nat.eqb_spec (depad_loop d (len d - 1) (byte_val c) (Z.to_nat (byte_val c))) 0) as [E|]; [|done].
  exfalso. apply Hnp. set (n := byte_val c) in *.
  pose proof (depad_loop_zero _ _ _ E) as Hk.
  destruct (Hk 1%nat) as (c1 & _ & Hc1); [lia|unfold len in *; lia|].
  destruct (char_val_eq c1 n) as [Hn _]; [lia|done|].
  exists (take (length d - Z.to_nat n) d), n. split; [lia|]. split.
  { unfold len. rewrite length_take. unfold len in *. lia. }
  apply last_run; [unfold len in *; lia|]. intros k Hlt. destruct k as [|k].
  - rewrite Nat.sub_0_r. replace (Z.to_nat (len d - 1)) with (length d - 1)%nat in Ec
      by (unfold len; lia). rewrite Ec. f_equal. by rewrite <- (byte_of_val c).
  - destruct (Hk (S k)) as (c2 & E2 & Hc2); [lia|unfold len in *; lia|].
    rewrite E2. f_equal. by apply (char_val_eq c2 n).
Qed.

Section laws.
Context {W : Type} {AL : Alloc W} {KL : KrbLib W} {CL : CipherLaws W}.

(** the blocks of the type are of at most 15 bytes *)
Definition narrow_blocks (et : Z) : Prop :=
  forall n, 0 <= n -> exists k, 1 <= k <= 15 /\ ct_len et n < ct_len et (n + k).

Lemma pad_loop_ok n et l i :
  0 <= l -> 0 <= i ->
  ct_len et (l + 8 + i) = ct_len et (l + 8) ->
  (exists k, i < k <= i + Z.of_nat n /\ ct_len et (l + 8) < ct_len et (l + 8 + k)) ->
  exists p, pad_loop n et l (ct_len et (l + 8)) i = inr p /\
    8 + i <= p < 8 + i + Z.of_nat n /\ ct_len et (l + p) = ct_len et (l + 8) /\
    ct_len et (l + 8) < ct_len et (l + p + 1).
Proof.
  intros Hl. revert i. induction n as [|n IH]; intros i Hi Hsame (k & Hk & Hgt); [lia|].
  cbn [pad_loop]. unfold ENC_MIN_PAD_LEN. rewrite ct_len_ok by lia. cbn [negb Z.eqb].
  destruct (Z.ltb_spec (ct_len et (l + 8)) (ct_len et (l + 8 + i + 1))) as [H|H].
  - exists (8 + i). rewrite Z.add_assoc. split; [done|]. split; [lia|done].
  - pose proof (ct_len_mono et (l + 8) (l + 8 + i + 1) ltac:(lia)) as Hm.
    assert (k <> i + 1) by (intros ->; rewrite Z.add_assoc in Hgt; lia).
    destruct (IH (i + 1)) as (p & E & Hp1 & Hp2 & Hp3); [lia| |exists k; split; [lia|done]|].
    + rewrite Z.add_assoc. lia.
    + exists p. split; [done|]. split; [lia|done].
Qed.

Definition needs_padding (et n : Z) : bool := ct_len et (n + 1) =? ct_len et n.

Lemma pad_length_ok et l :
  narrow_blocks et -> 0 <= l ->
  exists p, gp_pad_length et l = inr (p, ct_len et (l + p)) /\
    (if needs_padding et l then 8 <= p <= 22 else p = 0) /\
    ct_len et (l + p) < ct_len et (l + p + 1).
Proof.
  intros Hb Hl. unfold gp_pad_length, needs_padding.
  rewrite !ct_len_ok by (unfold ENC_MIN_PAD_LEN; lia). cbn [negb Z.eqb].
  destruct (Z.eqb_spec (ct_len et (l + 1)) (ct_len et l)) as [E|E].
  - unfold ENC_MIN_PAD_LEN at 1.
    destruct (Hb (l + 8)) as (k & Hk & Hgt); [lia|].
    destruct (pad_loop_ok 15 et l 0) as (p & Ep & H1 & H2 & H3); [lia|lia| | |].
    { by rewrite Z.add_0_r. }
    { exists k. split; [lia|done]. }
    unfold ENC_MIN_PAD_LEN. rewrite Ep. exists p. rewrite H2. split; [done|]. split; [lia|done].
  - exists 0. rewrite Z.add_0_r. split; [done|]. split; [done|].
    pose proof (ct_len_mono et l (l + 1)). lia.
Qed.

(** what decryption adds to a plaintext that ends at a block boundary: nothing *)
Lemma boundary_exact et (data extra : bytes) :
  ct_len et (len data) < ct_len et (len data + 1) ->
  ct_len et (len (data ++ extra)) = ct_len et (len data) -> extra = [].
Proof.
  intros Hb He. destruct extra as [|x extra]; [done|]. rewrite len_app, len_cons in He.
  pose proof (len_nonneg data). pose proof (len_nonneg extra).
  pose proof (ct_len_mono et (len data + 1) (len data + (1 + len extra))). lia.
Qed.

(** what a successful encryption did *)
Lemma encrypt_inv key buf w cipher w' pad size :
  gp_pad_length (key_enctype key) (len buf) = inr (pad, size) ->
  gp_encrypt_buffer key buf w = ((0, cipher), w') ->
  exists c w2 w3,
    krb5_c_encrypt key (truncate32 (buf ++ replicate (Z.to_nat pad) (byte_of pad))) size w2
      = ((0, c), w3) /\ cipher = truncate32 c.
Proof.
  intros Ep Henc. unfold gp_encrypt_buffer in Henc. rewrite Ep in Henc.
  destruct (_ <? _); [by injection Henc|].
  eapply (wp_run _ (fun r _ => r = (0, cipher) -> _) _ _ _ Henc); [|reflexivity].
  apply wp_bind, wp_any. intros [] ?; cbn [negb]; [|apply wp_ret; by intros [=]].
  apply wp_bind, wp_any. intros [] w2; cbn [negb]; [|apply wp_ret; by intros [=]].
  apply wp_bind. unfold wp at 1.
  destruct (krb5_c_encrypt _ _ size w2) as [[ret c] w3] eqn:Ec.
  destruct (Z.eqb_spec ret 0) as [->|]; cbn [negb]; [|apply wp_ret; by intros [=]].
  eapply wp_conseq; [apply octet_string_cases|]. intros r w4 [->| ->] [= <-].
  by exists c, w2, w3.
Qed.

(** what a key must be, and a token, for the server's padding to be taken off again *)
Definition fits (key : keyblock) (buf : bytes) : Prop :=
  narrow_blocks (key_enctype key) /\
  len buf + 22 < 2 ^ 32 /\ ct_len (key_enctype key) (len buf + 22) < 2 ^ 32 /\
  if needs_padding (key_enctype key) (len buf) then 2 <= len buf
  else buf <> [] /\ ~ looks_padded buf.

Lemma decrypt_encrypted key buf w cipher w' : fits key buf ->
  gp_encrypt_buffer key buf w = ((0, cipher), w') ->
  gp_decrypt_buffer key cipher = (0, Some buf).
Proof.
  intros (Hb & Hl & Hc & Hbuf) Henc. pose proof (len_nonneg buf) as Hl0.
  destruct (pad_length_ok (key_enctype key) (len buf) Hb Hl0) as (p & Ep & Hp & Hbd).
  assert (Hp22 : 0 <= p <= 22) by (destruct (needs_padding _ _); lia).
  set (data := buf ++ replicate (Z.to_nat p) (byte_of p)) in *.
  assert (Hld : len data = len buf + p).
  { unfold data, len. rewrite length_app, length_replicate. lia. }
  destruct (encrypt_inv _ _ _ _ _ _ _ Ep Henc) as (c & w2 & w3 & Ec & ->).
  fold data in Ec. rewrite truncate32_id in Ec by lia.
  destruct (encrypt_ok key data _ w2 0 c w3 ltac:(lia) Ec eq_refl) as (_ & Hlc & extra & Hd & He).
  rewrite <- Hld in Hbd. apply boundary_exact in He; [|done]. subst extra. rewrite app_nil_r in Hd.
  pose proof (ct_len_mono (key_enctype key) (len data) (len buf + 22) ltac:(lia)).
  rewrite truncate32_id by lia. unfold gp_decrypt_buffer. rewrite Hd. cbn [negb Z.eqb]. f_equal.
  unfold data. destruct (needs_padding _ _).
  - apply depad_padded; [lia|done].
  - subst p. cbn [Z.to_nat replicate]. rewrite app_nil_r. by apply depad_plain; apply Hbuf.
Qed.
(** Credential blobs round trip: what the server encrypted under a key whose cipher pads
    to blocks of at most 15 bytes it decrypts to the very token, padding removed.  A token
    the cipher would pad must have two bytes or more; one it does not pad must not be empty
    nor end like a padded one. *)
Theorem encrypt_decrypt_roundtrip key buf w cipher w' : fits key buf ->
  gp_encrypt_buffer key buf w = ((0, cipher), w') ->
  gp_decrypt_buffer key cipher = (0, Some buf).
Proof. apply decrypt_encrypted. Qed.
End laws.

(** ** A concrete cipher: a 4-byte header and zero padding to blocks of [et] bytes *)

Definition block (et : Z) : Z := Z.max 1 et.
Definition rounded (et n : Z) : Z := (n + block et - 1) / block et * block et.

Definition toy_encrypt (key : keyblock) (data : bytes) : bytes :=
  replicate 4 Byte.x00 ++ data ++
  replicate (Z.to_nat (rounded (key_enctype key) (len data) - len data)) Byte.x00.

Definition toy_krb {W} : KrbLib W := {|
  krb5_keytab := unit;
  krb5_init_context := mret 0;
  krb5_kt_resolve := fun _ => mret (KRB5_KT_END, None);
  krb5_kt_default := mret (KRB5_KT_END, None);
  krb5_kt_have_content := fun _ => mret 0;
  krb5_get_permitted_enctypes := mret (0, []);
  krb5_kt_start_seq_get := fun _ => mret (0, 0);
  krb5_kt_next_entry := fun _ c => mret (KRB5_KT_END, Keyblock 0 [], c);
  krb5_kt_entries_max := 0%nat;
  krb5_copy_keyblock := fun k => mret (0, Some k);
  krb5_init_keyblock := fun et => mret (0, Some (Keyblock et []));
  krb5_c_make_random_key := fun et => mret (0, Keyblock et []);
  krb5_c_encrypt_length := fun et n => (0, 4 + rounded et n);
  krb5_c_encrypt := fun key data size =>
    mret (if 4 + rounded (key_enctype key) (len data) <=? size
          then (0, toy_encrypt key data) else (KRB5_KT_END, []));
  krb5_c_decrypt := fun _ c => (0, drop 4 c);
|}.

Lemma rounded_spec et n : 0 <= n ->
  n <= rounded et n < n + block et /\ exists q, rounded et n = q * block et.
Proof.
  intros Hn. unfold rounded. assert (0 < block et) by (unfold block; lia).
  split; [|by eexists]. set (m := block et) in *. clearbody m.
  pose proof (Z.div_mod (n + m - 1) m ltac:(lia)). pose proof (Z.mod_pos_bound (n + m - 1) m ltac:(lia)).
  nia.
Qed.

Lemma rounded_mono et n m : 0 <= n <= m -> rounded et n <= rounded et m.
Proof.
  intros H. unfold rounded. apply Z.mul_le_mono_nonneg_r; [unfold block; lia|].
  apply Z.div_le_mono; unfold block; lia.
Qed.

Lemma rounded_idem et n : 0 <= n -> rounded et (rounded et n) = rounded et n.
Proof.
  intros Hn. destruct (rounded_spec et n Hn) as [_ [q ->]]. unfold rounded.
  assert (0 < block et) by (unfold block; lia).
  rewrite <- Z.add_sub_assoc, Z.div_add_l, (Z.div_small (block et - 1)) by lia. lia.
Qed.

Definition toy_laws {W} : @CipherLaws W toy_krb.
Proof.
  refine (Build_CipherLaws W toy_krb (fun et n => 4 + rounded et n) _ _ _).
  - done.
  - intros et n m H. cbv beta. apply Zplus_le_compat_l, rounded_mono, H.
  - intros key data size w ret c w' Hl H ->. cbn in H.
    destruct (Z.leb_spec (4 + rounded (key_enctype key) (len data)) size) as [Hs|]; [|discriminate H].
    injection H as <- <-.
    destruct (rounded_spec (key_enctype key) (len data) (len_nonneg _)) as [H1 _].
    assert (Hlen : forall x : bytes, x = data ++ replicate
      (Z.to_nat (rounded (key_enctype key) (len data) - len data)) Byte.x00 ->
      len x = rounded (key_enctype key) (len data)).
    { intros x ->. unfold len in *. rewrite length_app, length_replicate. lia. }
    split; [done|]. split.
    + rewrite !len_cons, (Hlen _ eq_refl). cbn. lia.
    + eexists. split; [reflexivity|]. rewrite (Hlen _ eq_refl).
      by rewrite rounded_idem by apply len_nonneg.
Defined.

Definition w_key (et : Z) : keyblock := Keyblock et [].
Definition w_token : bytes := map byte_of [1; 2; 3; 4; 5].

Lemma w_narrow {W} : narrow_blocks (CL := toy_laws (W := W)) 8.
Proof.
  intros n Hn. exists 8. split; [lia|].
  destruct (rounded_spec 8 n Hn) as [H1 [q Hq]].
  destruct (rounded_spec 8 (n + 8)) as [H2 [r Hr]]; [lia|].
  change (4 + rounded 8 n < 4 + rounded 8 (n + 8)). change (block 8) with 8 in *. lia.
Qed.

Lemma encrypt_decrypt_roundtrip_witness :
  exists cipher,
    gp_encrypt_buffer (AL := always_mem) (KL := toy_krb) (w_key 8) w_token tt = ((0, cipher), tt) /\
    gp_decrypt_buffer (KL := toy_krb (W := unit)) (w_key 8) cipher = (0, Some w_token).
Proof.
  eexists. split; [vm_compute; reflexivity|].
  apply (encrypt_decrypt_roundtrip (AL := always_mem) (CL := toy_laws) (w_key 8) w_token tt _ tt);
    [|vm_compute; reflexivity].
  split; [|split; [|split]].
  - exact w_narrow.
  - vm_compute. reflexivity.
  - vm_compute. reflexivity.
  - vm_compute. discriminate.
Defined.

(** The scheme does not cover the 16-byte blocks its comment claims: when the padded
    length starts a block the boundary is missed, the check meant to catch that never
    fires, and the token comes back with the cipher's own padding on it. *)
Theorem block16_roundtrip_broken :
  let token := replicate 9 Byte.x01 in
  exists cipher,
    gp_encrypt_buffer (AL := always_mem) (KL := toy_krb) (w_key 16) token tt = ((0, cipher), tt) /\
    gp_decrypt_buffer (KL := toy_krb (W := unit)) (w_key 16) cipher
      = (0, Some (token ++ replicate 8 Byte.x08 ++ replicate 15 Byte.x00)).
Proof. eexists. split; vm_compute; reflexivity. Qed.
