(* ===== verification/Export.v ===== *)
(** * Export and import of credentials and contexts

    The rest of src/gp_export.c: what leaves the server for a client to keep, and how it
    is taken back. *)

From S2P Require Import Prelude RpcXdr GssxXdr Accept World Util Service Conv Crypt.

Definition empty_element : gssx_cred_element := Mk_cred_element empty_name [] 0 0 0 [].
Definition empty_cred : gssx_cred := Mk_cred empty_name [] [] false.
Definition empty_ctx : gssx_ctx :=
  Mk_ctx [] [] false [] empty_name empty_name 0 0 false false [].

(** ** Credentials *)

Section creds.
Context {W : Type} {AL : Alloc W} {KL : KrbLib W} {GL : GssLib W}.

(** The loop over the mechanisms of a credential.  [done] are the elements written so far
    and [room] the zeroed elements after them; a mechanism the library refuses gives its
    room up.  The elements stay in the result when the loop fails. *)
Fixpoint export_elements (i : option gss_cred) (mechs : list bytes)
  (done : list gssx_cred_element) (room : nat) : M W (Z * Z * list gssx_cred_element) :=
  match mechs with
  | [] => mret (0, 0, done ++ replicate room empty_element)
  | mech :: mechs =>
      let* '(maj, min, info) := gss_inquire_cred_by_mech i mech true in
      if negb (maj =? 0) then export_elements i mechs done (room - 1) else
      let fail maj min el := mret (maj, min, done ++ [el] ++ replicate (room - 1) empty_element) in
      let* '(maj, min, mn) := gp_conv_name_to_gssx (cm_name info) in
      let* _ := gss_release_name (cm_name info) in
      if negb (maj =? 0) then fail maj min empty_element else
      let* '(ret, m) := gp_conv_oid_to_gssx (Some mech) in
      if negb (ret =? 0) then fail GSS_S_FAILURE ret (Mk_cred_element mn [] 0 0 0 []) else
      let el := Mk_cred_element mn m (gp_conv_cred_usage_to_gssx (cm_usage info))
                  (cm_initiator info) (cm_acceptor info) [] in
      export_elements i mechs (done ++ [el]) (room - 1)
  end.

(** the statuses, what is left of the caller's credential and the exported one, which may
    be incomplete after a failure *)
Definition gp_export_gssx_cred (gpcall : gp_call_ctx) (i : option gss_cred)
  : M W (Z * Z * option gss_cred * gssx_cred) :=
  let* '(maj, min, info) := gss_inquire_cred i true in
  if negb (maj =? 0) then mret (maj, min, i, empty_cred) else
  let* '(maj, min, dn) := gp_conv_name_to_gssx (ci_name info) in
  let* _ := gss_release_name (ci_name info) in
  if negb (maj =? 0) then mret (maj, min, i, empty_cred) else
  let* ok := malloc in
  if negb ok then mret (GSS_S_FAILURE, ENOMEM, i, Mk_cred dn [] [] false) else
  let* '(maj, min, els) := export_elements i (ci_mechs info) [] (length (ci_mechs info)) in
  let out ref := Mk_cred dn els ref false in
  if negb (maj =? 0) then mret (maj, min, i, out []) else
  match gp_service_get_creds_handle (cc_service gpcall) with
  | None => mret (GSS_S_FAILURE, EINVAL, i, out [])
  | Some key =>
      let* '(maj, min, token) := gss_export_cred i in
      if negb (maj =? 0) then mret (maj, min, i, out []) else
      let* '(ret, ref) := gp_encrypt_buffer key token in
      if negb (ret =? 0) then mret (GSS_S_FAILURE, u32 ret, i, out []) else
      let* _ := gss_release_cred i in
      mret (GSS_S_COMPLETE, 0, None, out ref)
  end.

(** krb5_enctype values of an option, 4 bytes each, little-endian *)
Fixpoint enctypes (n : nat) (b : bytes) : list Z :=
  match n with
  | O => []
  | S n => s32 (le_val (take 4 b)) :: enctypes n (drop 4 b)
  end.

(** the options of one element: the first list of enctypes ends the scan *)
Fixpoint scan_options (opts : list gssx_option) (st : list Z * bool) : list Z * bool :=
  match opts with
  | [] => st
  | op :: opts =>
      if gp_option_name_match op (cstr "krb5_set_allowed_enctype_values")
           (length (cstr "krb5_set_allowed_enctype_values"))
      then (enctypes (Z.to_nat (len (option_value op) / 4)) (option_value op), st.2)
      else if gp_option_name_match op (cstr "krb5_set_no_ci_flags")
                (length (cstr "krb5_set_no_ci_flags"))
      then scan_options opts (st.1, true)
      else scan_options opts st
  end.

(** GSS_KRB5_CRED_NO_CI_FLAGS_X: 1.2.752.43.13.29 *)
Definition GSS_KRB5_CRED_NO_CI_FLAGS_X : bytes := map byte_of [42; 133; 112; 43; 13; 29].

Definition gp_set_cred_options (cred : gssx_cred) (gss_cred : option gss_cred) : M W unit :=
  let '(ktypes, no_ci_flags) :=
    foldl (fun st ce => scan_options (cred_element_options ce) st) ([], false)
      (cred_elements cred) in
  let* _ := if len ktypes =? 0 then mret (0, 0)
            else gss_krb5_set_allowable_enctypes gss_cred ktypes in
  let* _ := if no_ci_flags then gss_set_cred_option gss_cred GSS_KRB5_CRED_NO_CI_FLAGS_X []
            else mret (0, 0) in
  mret tt.

(** A handle that does not decrypt is treated as no credential, with success.  The
    plaintext the padding code reads before is left as it is. *)
Definition gp_import_gssx_cred (gpcall : gp_call_ctx) (cred : gssx_cred)
  : M W (Z * Z * option gss_cred) :=
  match gp_service_get_creds_handle (cc_service gpcall) with
  | None => mret (GSS_S_FAILURE, EINVAL, None)
  | Some key =>
      let* ok := malloc in
      if negb ok then mret (GSS_S_FAILURE, ENOMEM, None) else
      let '(ret, token) := gp_decrypt_buffer key (cred_cred_handle_reference cred) in
      if negb (ret =? 0) then mret (GSS_S_COMPLETE, 0, None) else
      let* '(maj, min, out) := gss_import_cred (default [] token) in
      if negb (maj =? 0) then mret (maj, min, out) else
      let* _ := gp_set_cred_options cred out in
      mret (maj, min, out)
  end.
End creds.

(** ** Contexts *)

Definition EXP_CTX_PARTIAL := -1.
Definition EXP_CTX_DEFAULT := 0.
Definition EXP_CTX_LINUX_LUCID_V1 := 1.

Definition gp_get_exported_context_type (ctx : gssx_call_ctx) : Z :=
  match find_option (call_ctx_options ctx) "exported_context_type" with
  | Some val => if value_is val "linux_lucid_v1" then EXP_CTX_LINUX_LUCID_V1 else EXP_CTX_PARTIAL
  | None => EXP_CTX_DEFAULT
  end.

Definition gp_get_continue_needed_type : Z := EXP_CTX_PARTIAL.

Definition KRB5_CTX_FLAG_INITIATOR := 1.
Definition KRB5_CTX_FLAG_CFX := 2.
Definition KRB5_CTX_FLAG_ACCEPTOR_SUBKEY := 4.

Definition lucid_flags (l : lucid_context) : Z :=
  let flags := if lu_initiate l =? 0 then 0 else KRB5_CTX_FLAG_INITIATOR in
  let flags := if lu_protocol l =? 1 then Z.lor flags KRB5_CTX_FLAG_CFX else flags in
  if (lu_protocol l =? 1) && (lu_have_acceptor_subkey l =? 1)
  then Z.lor flags KRB5_CTX_FLAG_ACCEPTOR_SUBKEY else flags.

Definition lucid_key_of (l : lucid_context) : lucid_key :=
  if lu_protocol l =? 0 then lu_rfc1964_key l
  else if lu_have_acceptor_subkey l =? 1 then lu_acceptor_subkey l
  else lu_cfx_key l.

(** integers in the byte order of the host, little-endian *)
Definition gp_format_linux_lucid_v1 {W} {AL : Alloc W} (l : lucid_context) : M W (Z * Z * bytes) :=
  if negb (lu_version l =? 1) || (negb (lu_protocol l =? 0) && negb (lu_protocol l =? 1))
  then mret (GSS_S_FAILURE, ENOTSUP, []) else
  let* ok := malloc in
  if negb ok then mret (GSS_S_FAILURE, ENOMEM, []) else
  mret (GSS_S_COMPLETE, 0,
    le_bytes 4 (lucid_flags l) ++ le_bytes 4 (lu_endtime l) ++ le_bytes 8 (lu_send_seq l) ++
    le_bytes 4 (lk_type (lucid_key_of l)) ++ lk_data (lucid_key_of l)).

(** what a failed export leaves: the mechanism and the names were freed and their pointers
    cleared, their lengths not *)
Inductive ctx_out := Whole (c : gssx_ctx) | Freed (c : gssx_ctx).

Definition without_composite (n : gssx_name) : gssx_name :=
  Mk_name (name_display_name n) (name_name_type n) (name_exported_name n) []
    (name_name_attributes n) (name_extensions n).

Section contexts.
Context {W : Type} {AL : Alloc W} {GL : GssLib W}.

(** a name of the context, when there is one *)
Definition conv_ctx_name (n : option gss_name) : M W (Z * Z * gssx_name) :=
  match n with
  | None => mret (0, 0, empty_name)
  | Some _ => gp_conv_name_to_gssx n
  end.

Definition with_token (o : gssx_ctx) (token : bytes) : gssx_ctx :=
  Mk_ctx token (ctx_state o) (ctx_needs_release o) (ctx_mech o) (ctx_src_name o)
    (ctx_targ_name o) (ctx_lifetime o) (ctx_ctx_flags o) (ctx_locally_initiated o)
    (ctx_open o) (ctx_options o).

(** [export:] of the C function, for the context as converted so far *)
Definition export_token (type : Z) (mech : option bytes) (i : option gss_ctx) (o : gssx_ctx)
  : M W (Z * Z * option gss_ctx * ctx_out) :=
  let fail maj min i o := mret (maj, min, i, Freed o) in
  let default_export i o :=
    let* '(maj, min, (i, token)) := gss_export_sec_context i in
    if negb (maj =? 0) then fail maj min i o else
    let* '(ret, token) := gp_conv_buffer_to_gssx token in
    if negb (ret =? 0) then fail GSS_S_FAILURE ret i o else
    mret (maj, min, i, Whole (with_token o token)) in
  if type =? EXP_CTX_PARTIAL then
    let* '(ret, m) := gp_conv_oid_to_gssx mech in
    let out l op := Mk_ctx (ctx_exported_context_token o) (ctx_state o) (ctx_needs_release o)
               m (ctx_src_name o) (ctx_targ_name o) (ctx_lifetime o) (ctx_ctx_flags o)
               l op (ctx_options o) in
    if negb (ret =? 0)
    then fail GSS_S_FAILURE ret i (out (ctx_locally_initiated o) (ctx_open o)) else
    default_export i (out true false)
  else if type =? EXP_CTX_DEFAULT then default_export i o
  else if type =? EXP_CTX_LINUX_LUCID_V1 then
    let* '(maj, min, (i, lucid)) := gss_krb5_export_lucid_sec_context i 1 in
    if negb (maj =? 0) then fail maj min i o else
    let* '(maj, min, token) := gp_format_linux_lucid_v1 lucid in
    if negb (maj =? 0) then fail maj min i o else
    mret (maj, min, i, Whole (Mk_ctx token (ctx_state o) (ctx_needs_release o) (ctx_mech o)
      (without_composite (ctx_src_name o)) (without_composite (ctx_targ_name o))
      (ctx_lifetime o) (ctx_ctx_flags o) (ctx_locally_initiated o) (ctx_open o) (ctx_options o)))
  else fail GSS_S_FAILURE EINVAL i o.

Definition gp_export_ctx_id_to_gssx (type : Z) (mech : option bytes) (i : option gss_ctx)
  : M W (Z * Z * option gss_ctx * ctx_out) :=
  let* '(maj, min, info) := gss_inquire_context i in
  if negb (maj =? 0) then
    if type =? EXP_CTX_PARTIAL then export_token type mech i empty_ctx
    else mret (maj, min, i, Freed empty_ctx)
  else
  let release (m : M W (Z * Z * option gss_ctx * ctx_out)) :=
    let* r := m in
    let* _ := gss_release_name (xi_src info) in
    let* _ := gss_release_name (xi_targ info) in
    mret r in
  release (
    let o m src targ lt fl loc op :=
      Mk_ctx [] [] false m src targ lt fl loc op [] in
    let* '(ret, m) := gp_conv_oid_to_gssx (xi_mech info) in
    if negb (ret =? 0)
    then mret (GSS_S_FAILURE, ret, i, Freed (o m empty_name empty_name 0 0 false false)) else
    let* '(maj, min, src) := conv_ctx_name (xi_src info) in
    if negb (maj =? 0)
    then mret (maj, min, i, Freed (o m empty_name empty_name 0 0 false false)) else
    let* '(maj, min, targ) := conv_ctx_name (xi_targ info) in
    if negb (maj =? 0)
    then mret (maj, min, i, Freed (o m src empty_name 0 0 false false)) else
    export_token type mech i
      (o m src targ (xi_lifetime info) (xi_flags info) (xi_local info) (xi_open info))).

Definition gp_import_gssx_to_ctx_id (type : Z) (i : gssx_ctx) : M W (Z * Z * option gss_ctx) :=
  if negb (type =? EXP_CTX_DEFAULT) then mret (GSS_S_FAILURE, EINVAL, None)
  else gss_import_sec_context (gp_conv_gssx_to_buffer (ctx_exported_context_token i)).
End contexts.
