(* ===== verification/ExportProps.v ===== *)
(** * What leaves the server comes back

    Properties of Export.v: the handle of a credential, and the layout of a context exported
    for the kernel. *)

From S2P Require Import Prelude RpcXdr GssxXdr Accept World Toy Util Service Format Conv Crypt Export.

Section creds.
Context {W : Type} {AL : Alloc W} {KL : KrbLib W} {GL : GssLib W} {CL : CipherLaws W}.

(** what the server does with a token it got back *)
Definition import_token (cred : gssx_cred) (token : bytes) : M W (Z * Z * option gss_cred) :=
  let* ok := malloc in
  if negb ok then mret (GSS_S_FAILURE, ENOMEM, None) else
  let* '(maj, min, out) := gss_import_cred token in
  if negb (maj =? 0) then mret (maj, min, out) else
  let* _ := gp_set_cred_options cred out in
  mret (maj, min, out).

Lemma import_decrypted gpcall cred key token w :
  gp_service_get_creds_handle (cc_service gpcall) = Some key ->
  gp_decrypt_buffer key (cred_cred_handle_reference cred) = (0, Some token) ->
  gp_import_gssx_cred gpcall cred w = import_token cred token w.
Proof.
  intros Hk Hd. unfold gp_import_gssx_cred, import_token. rewrite Hk, Hd. done.
Qed.

(** C28. The credential handle a client holds is the credential, for a service key and tokens the
    padding scheme covers: importing an exported handle under the same key gives the library
    the very token it exported.  What is covered ([fits]): an enctype whose cipher texts are
    not padded to blocks of more than 15 bytes, a token whose cipher text is shorter than four
    gigabytes and, where it is padded, of at least 2 bytes, where it is not, not empty and not
    ending like a padding. *)
Theorem cred_handle_roundtrip gpcall i key w :
  gp_service_get_creds_handle (cc_service gpcall) = Some key ->
  (forall w1 maj min token w2, gss_export_cred i w1 = ((maj, min, token), w2) ->
     maj = 0 -> fits key token) ->
  wp (gp_export_gssx_cred gpcall i) (fun '(maj, _, remaining, cred) _ => maj = GSS_S_COMPLETE ->
    remaining = None /\
    exists min token w1 w2, gss_export_cred i w1 = ((0, min, token), w2) /\
      forall w3, gp_import_gssx_cred gpcall cred w3 = import_token cred token w3) w.
Proof.
  intros Hk Hfit. unfold gp_export_gssx_cred. rewrite Hk.
  apply wp_step; intros [[maj min] info] w1 _. destruct (Z.eqb_spec maj 0); [|by apply wp_ret].
  apply wp_step; intros [[maj2 min2] dn] w2 _. apply wp_step; intros [] w3 _.
  destruct (Z.eqb_spec maj2 0); [|by apply wp_ret].
  apply wp_step; intros [] w4 _; [|by apply wp_ret].
  apply wp_step; intros [[maj3 min3] els] w5 _. destruct (Z.eqb_spec maj3 0); [|by apply wp_ret].
  apply wp_step; intros [[maj4 min4] token] w6 Hexp. destruct (Z.eqb_spec maj4 0); [|by apply wp_ret].
  apply wp_step; intros [ret ref] w7 Henc. destruct (Z.eqb_spec ret 0) as [->|]; [|by apply wp_ret].
  apply wp_step; intros [] w8 _. apply wp_ret. intros _. split; [done|]. subst maj4.
  exists min4, token, w5, w6. split; [exact Hexp|]. intros w9. apply import_decrypted with key; [done|].
  eapply decrypt_encrypted; [by eapply Hfit|exact Henc].
Qed.
End creds.

(** ** The kernel's context *)

Lemma take_app_exact {A} n (x y : list A) : length x = n -> take n (x ++ y) = x.
Proof. intros <-. apply take_app_length. Qed.
Lemma drop_app_exact {A} n (x y : list A) : length x = n -> drop n (x ++ y) = y.
Proof. intros <-. apply drop_app_length. Qed.

(** an integer of [n] bytes, in host order, at an offset *)
Definition int_at (n off : nat) (b : bytes) : Z := le_val (take n (drop off b)).

Lemma int_at_0 n z tl : int_at n 0 (le_bytes n z ++ tl) = z mod 256 ^ Z.of_nat n.
Proof.
  unfold int_at. rewrite drop_0, take_app_exact by apply length_le_bytes. apply le_val_bytes.
Qed.
Lemma int_at_skip n off m z tl :
  int_at n (m + off) (le_bytes m z ++ tl) = int_at n off tl.
Proof.
  unfold int_at. rewrite <- drop_drop, drop_app_exact by apply length_le_bytes. done.
Qed.

Lemma lucid_flags_bits l : lu_protocol l = 0 \/ lu_protocol l = 1 ->
  0 <= lucid_flags l < 8 /\
  Z.testbit (lucid_flags l) 0 = negb (lu_initiate l =? 0) /\
  Z.testbit (lucid_flags l) 1 = (lu_protocol l =? 1) /\
  Z.testbit (lucid_flags l) 2 = (lu_protocol l =? 1) && (lu_have_acceptor_subkey l =? 1).
Proof.
  intros Hp. unfold lucid_flags. destruct (lu_initiate l =? 0), (lu_have_acceptor_subkey l =? 1);
    destruct Hp as [-> | ->]; split_and!; (reflexivity || discriminate).
Qed.

(** A context exported for the kernel is laid out as the kernel reads it: the flags -
    initiator, CFX, acceptor subkey -, the end time, the sequence number and the key type,
    each at its offset and width, and then the key of the protocol in use; only contexts of
    version 1 with a known protocol are exported. *)
Theorem lucid_layout {W} {AL : Alloc W} l w :
  wp (gp_format_linux_lucid_v1 l) (fun '(maj, _, token) _ => maj = GSS_S_COMPLETE ->
    lu_version l = 1 /\ (lu_protocol l = 0 \/ lu_protocol l = 1) /\
    (let flags := int_at 4 0 token in
     Z.testbit flags 0 = negb (lu_initiate l =? 0) /\
     Z.testbit flags 1 = (lu_protocol l =? 1) /\
     Z.testbit flags 2 = (lu_protocol l =? 1) && (lu_have_acceptor_subkey l =? 1)) /\
    int_at 4 4 token = u32 (lu_endtime l) /\
    int_at 8 8 token = lu_send_seq l mod 2 ^ 64 /\
    let key := if lu_protocol l =? 0 then lu_rfc1964_key l
               else if lu_have_acceptor_subkey l =? 1 then lu_acceptor_subkey l
               else lu_cfx_key l in
    int_at 4 16 token = u32 (lk_type key) /\ drop 20 token = lk_data key) w.
Proof.
  unfold gp_format_linux_lucid_v1.
  destruct (Z.eqb_spec (lu_version l) 1) as [Hv|]; [|by apply wp_ret].
  destruct (negb (lu_protocol l =? 0) && negb (lu_protocol l =? 1)) eqn:Hp; [by apply wp_ret|].
  cbn [negb orb]. apply wp_step; intros [] w1 _; [|by apply wp_ret]. apply wp_ret. intros _.
  assert (Hpr : lu_protocol l = 0 \/ lu_protocol l = 1).
  { apply andb_false_iff in Hp as [H|H]; apply negb_false_iff, Z.eqb_eq in H; auto. }
  split; [done|]. split; [done|]. destruct (lucid_flags_bits l Hpr) as (Hr & H0 & H1 & H2).
  rewrite int_at_0, Z.mod_small by (change (256 ^ Z.of_nat 4) with (2 ^ 32); lia).
  split; [done|].
  rewrite (int_at_skip 4 0 4), int_at_0, (int_at_skip 8 4 4), (int_at_skip 8 0 4), int_at_0.
  split; [done|]. split; [done|]. fold (lucid_key_of l).
  rewrite (int_at_skip 4 12 4), (int_at_skip 4 8 4), (int_at_skip 4 0 8), int_at_0.
  split; [done|]. rewrite !app_assoc. apply drop_app_exact.
  rewrite !length_app, !length_le_bytes. done.
Qed.

(** ** A credential of the small library *)

#[local] Existing Instance always_mem.
#[local] Existing Instance toy_gss.
#[local] Existing Instance toy_krb.
#[local] Existing Instance toy_laws.

Definition w_keyed_ctx : gp_call_ctx :=
  CallCtx (Service "http" 48 false false false false false false false None None GSS_C_BOTH
             0 0 0 None GP_CRED_KRB5 (CredKrb5 None [] (Some (w_key 8))))
    (Conn "s" 5 CRED_TYPE_UNIX (Ucred 1 48 48) None None).

Definition w_user : option (gss_cred (GssLib := toy_gss)) := Some (1%nat, bs "user").

Lemma w_user_fits : fits (W := toy) (w_key 8) (bs "user").
Proof.
  split; [exact w_narrow|]. split; [reflexivity|]. split; [vm_compute; reflexivity|].
  vm_compute. discriminate.
Qed.

Lemma cred_handle_roundtrip_witness :
  wp (gp_export_gssx_cred w_keyed_ctx w_user) (fun '(maj, _, remaining, cred) _ =>
    maj = GSS_S_COMPLETE ->
    remaining = None /\
    exists min token w1 w2, gss_export_cred w_user w1 = ((0, min, token), w2) /\
      forall w3, gp_import_gssx_cred w_keyed_ctx cred w3 = import_token cred token w3)
    (toy_world []).
Proof.
  apply (cred_handle_roundtrip w_keyed_ctx w_user (w_key 8) (toy_world [])); [reflexivity|].
  intros w1 maj min token w2. cbn. unfold toy_op. case_decide.
  - intros [= <- _ _ _] Hmaj. discriminate Hmaj.
  - intros [= <- _ <- _] _. exact w_user_fits.
Defined.

(** the export succeeds, and the handle is not empty *)
Example export_answers : exists min cred w,
  gp_export_gssx_cred w_keyed_ctx w_user (toy_world []) = ((GSS_S_COMPLETE, min, None, cred), w) /\
  cred_cred_handle_reference cred <> [].
Proof. do 3 eexists. split; [vm_compute; reflexivity|discriminate]. Qed.
