(* ===== verification/LinuxCreds.v ===== *)
(** * Unix credentials for the kernel

    The end of src/gp_export.c: the uid, gid and groups of a client, looked up with
    buffers that grow until they fit or reach their maximum. *)

From S2P Require Import Prelude RpcXdr GssxXdr World Toy Util.

Definition EXP_CREDS_NO_CREDS := 0.
Definition EXP_CREDS_LINUX_V1 := 1.

Definition gp_get_export_creds_type (ctx : gssx_call_ctx) : Z :=
  match find_option (call_ctx_options ctx) "exported_creds_type" with
  | Some val => if value_is val "linux_creds_v1" then EXP_CREDS_LINUX_V1 else -1
  | None => EXP_CREDS_NO_CREDS
  end.

Definition NGROUPS_MAX := 65536.
Definition CREDS_BUF_MAX := NGROUPS_MAX * 4.
Definition CREDS_HDR := 12.

(** an array of 32-bit words in host order *)
Definition words (l : list Z) : bytes := mjoin (map (le_bytes 4) l).

Section linux.
Context {W : Type} {AL : Alloc W} {GL : GssLib W} {NL : NssLib W}.

Definition gp_export_creds_enoent : M W (Z * Z * bytes) :=
  let* ok := malloc in
  if negb ok then mret (GSS_S_FAILURE, ENOMEM, []) else
  mret (GSS_S_COMPLETE, 0, words [-1; -1; 0]).

(** The lookup of the user.  [ret] is the answer of the turn before.  [inl] is an error of
    this code; [None] says that interruptions used the fuel up. *)
Fixpoint pw_loop (fuel : nat) (name : bytes) (len ret : Z)
  : M W (option (Z + Z * option passwd)) :=
  match fuel with
  | O => mret None
  | S fuel =>
      if (ret =? ERANGE) && (len =? CREDS_BUF_MAX) then mret (Some (inl ENOSPC)) else
      let len := if ret =? ERANGE then Z.min (len * 2) CREDS_BUF_MAX else len in
      let* ok := if ret =? ERANGE then malloc else mret true in
      if negb ok then mret (Some (inl ENOMEM)) else
      let* '(ret, res) := getpwnam_r name len in
      if (ret =? EINTR) || (ret =? ERANGE) then pw_loop fuel name len ret
      else mret (Some (inr (ret, res)))
  end.

(** The lookup of the groups.  [count] and [num] are the room and the answer of the turn
    before. *)
Fixpoint gr_loop (fuel : nat) (name : bytes) (gid count num : Z) : M W (option (Z + list Z)) :=
  match fuel with
  | O => mret None
  | S fuel =>
      if NGROUPS_MAX <=? count then mret (Some (inl ENOSPC)) else
      let count := count * 2 in
      let count := if count <? num then num else count in
      let count := if NGROUPS_MAX <? count then NGROUPS_MAX else count in
      let* ok := malloc in
      if negb ok then mret (Some (inl ENOMEM)) else
      let* '(fits, num, groups) := getgrouplist name gid count in
      if fits then mret (Some (inr groups)) else gr_loop fuel name gid count num
  end.

(** [fuel] bounds the turns of the user lookup.  The group lookup takes at most nine. *)
Definition gp_export_creds_linux (fuel : nat) (name : option gss_name) (mech : option bytes)
  : M W (option (Z * Z * bytes)) :=
  let done maj min := mret (Some (maj, min, [])) in
  let enoent := let* r := gp_export_creds_enoent in mret (Some r) in
  let* '(maj, min, localname) := gss_localname name mech in
  if negb (maj =? 0) then if min =? ENOENT then enoent else done maj min else
  let* ok := malloc in
  if negb ok then done GSS_S_FAILURE ENOMEM else
  let* r := pw_loop fuel localname 1024 0 in
  match r with
  | None => mret None
  | Some (inl err) => done GSS_S_FAILURE err
  | Some (inr (ret, res)) =>
      if ((ret =? 0) && bool_decide (res = None)) || (ret =? ENOENT) || (ret =? ESRCH) then enoent
      else if negb (ret =? 0) then done GSS_S_FAILURE ret
      else match res with
      | None => enoent
      | Some pwd =>
          let* r := gr_loop 9 (pw_name pwd) (pw_gid pwd) 256 0 in
          match r with
          | None => mret None
          | Some (inl err) => done GSS_S_FAILURE err
          | Some (inr groups) =>
              mret (Some (GSS_S_COMPLETE, 0,
                words (pw_uid pwd :: pw_gid pwd :: len groups :: groups)))
          end
      end
  end.

(** the options of the reply, with the credentials added when the client asked for them *)
Definition gp_export_creds_to_gssx_options (fuel : nat) (type : Z) (src_name : option gss_name)
  (mech_type : option bytes) (opts : list gssx_option)
  : M W (option (Z * Z * list gssx_option)) :=
  if type =? EXP_CREDS_NO_CREDS then mret (Some (GSS_S_COMPLETE, 0, opts))
  else if type =? EXP_CREDS_LINUX_V1 then
    let* r := gp_export_creds_linux fuel src_name mech_type in
    match r with
    | None => mret None
    | Some (maj, min, buf) =>
        if negb (maj =? 0)
        then mret (Some (if min =? ENOENT then (GSS_S_COMPLETE, 0, opts) else (maj, min, opts))) else
        let* ok := malloc in
        if negb ok then mret (Some (GSS_S_FAILURE, ENOMEM, opts)) else
        let* ok := malloc in
        if negb ok then mret (Some (GSS_S_FAILURE, ENOMEM, opts)) else
        mret (Some (GSS_S_COMPLETE, 0, opts ++ [Mk_option (cstr "linux_creds_v1") buf]))
    end
  else mret (Some (GSS_S_FAILURE, EINVAL, opts)).
End linux.

(** ** The layout of the words *)

Definition word (i : nat) (b : bytes) : Z := le_val (take 4 (drop (4 * i) b)).

Lemma words_cons z l : words (z :: l) = le_bytes 4 z ++ words l.
Proof. done. Qed.

Lemma len_words l : len (words l) = 4 * len l.
Proof.
  induction l as [|z l IH]; [done|]. rewrite words_cons, len_app, len_cons, IH.
  unfold len at 1. rewrite length_le_bytes. lia.
Qed.

Lemma word_words l i z : l !! i = Some z -> word i (words l) = u32 z.
Proof.
  revert i. induction l as [|y l IH]; intros [|i]; [done..| |].
  - intros [= ->]. unfold word. rewrite words_cons, Nat.mul_0_r, drop_0.
    rewrite take_app_length' by (symmetry; apply length_le_bytes). rewrite le_val_bytes. done.
  - intros H. rewrite <- (IH i H). unfold word. rewrite words_cons.
    replace (4 * S i)%nat with (4 + 4 * i)%nat by lia.
    by rewrite <- drop_drop, drop_app_length' by (symmetry; apply length_le_bytes).
Qed.

(** ** Termination *)

Section linux_laws.
Context {W : Type} {AL : Alloc W} {GL : GssLib W} {NL : NssLib W}.

Lemma gr_loop_terminates n name gid count num w :
  0 < count -> NGROUPS_MAX <= count * 2 ^ Z.of_nat n ->
  wp (gr_loop (S n) name gid count num) (fun r _ => r <> None) w.
Proof.
  revert count num w. induction n as [|n IH]; intros count num w Hc Hb; cbn [gr_loop].
  - rewrite (proj2 (Z.leb_le _ _)) by lia. by apply wp_ret.
  - destruct (Z.leb_spec NGROUPS_MAX count); [by apply wp_ret|].
    rewrite Nat2Z.inj_succ, Z.pow_succ_r in Hb by lia.
    set (c1 := if count * 2 <? num then num else count * 2).
    assert (Hc1 : count * 2 <= c1) by (unfold c1; destruct (Z.ltb_spec (count * 2) num); lia).
    set (c2 := if NGROUPS_MAX <? c1 then NGROUPS_MAX else c1).
    assert (Hc2 : 0 < c2 /\ NGROUPS_MAX <= c2 * 2 ^ Z.of_nat n).
    { assert (0 < 2 ^ Z.of_nat n) by lia. unfold c2, NGROUPS_MAX in *.
      destruct (Z.ltb_spec 65536 c1); nia. }
    apply wp_bind, wp_any. intros [] ?; cbn [negb]; [|by apply wp_ret].
    apply wp_bind, wp_any. intros [[[] n'] gs] w'0; [by apply wp_ret|].
    by apply (IH c2 n' w'0 (proj1 Hc2) (proj2 Hc2)).
Qed.

(** the database is not interrupted *)
Definition uninterrupted : Prop :=
  forall name n w, (getpwnam_r name n w).1.1 <> EINTR.

Lemma pw_loop_terminates n name size ret w :
  uninterrupted -> 0 < size <= CREDS_BUF_MAX -> CREDS_BUF_MAX <= size * 2 ^ Z.of_nat n ->
  ret = ERANGE -> wp (pw_loop (S n) name size ret) (fun r _ => r <> None) w.
Proof.
  intros Hu. revert size ret w. induction n as [|n IH]; intros size ret w Hs Hb Hr;
    cbn [pw_loop]; subst ret; rewrite Z.eqb_refl; cbn [andb].
  - rewrite (proj2 (Z.eqb_eq _ _)) by lia. by apply wp_ret.
  - destruct (Z.eqb_spec size CREDS_BUF_MAX); [by apply wp_ret|].
    rewrite Nat2Z.inj_succ, Z.pow_succ_r in Hb by lia.
    apply wp_bind, wp_any. intros [] w1; cbn [negb]; [|by apply wp_ret].
    apply wp_bind. unfold wp at 1. specialize (Hu name (Z.min (size * 2) CREDS_BUF_MAX) w1).
    destruct (getpwnam_r _ _ w1) as [[ret res] w2]. simpl in Hu.
    cbv beta iota. rewrite (proj2 (Z.eqb_neq ret EINTR) Hu). cbn [orb].
    destruct (Z.eqb_spec ret ERANGE); [|by apply wp_ret].
    assert (0 < 2 ^ Z.of_nat n) by lia.
    subst ret. apply (IH (Z.min (size * 2) CREDS_BUF_MAX) ERANGE w2); [| |done];
      unfold CREDS_BUF_MAX, NGROUPS_MAX in *; [lia|nia].
Qed.

Lemma pw_loop_starts n name w :
  uninterrupted -> wp (pw_loop (S (S (S (S (S (S (S (S (S (S n)))))))))) name 1024 0)
    (fun r _ => r <> None) w.
Proof.
  intros Hu. cbn [pw_loop]. rewrite (proj2 (Z.eqb_neq 0 ERANGE)) by done. cbn [andb].
  apply wp_bind, wp_ret. cbn [negb]. apply wp_bind. unfold wp at 1. pose proof (Hu name 1024 w) as Hne.
  destruct (getpwnam_r _ _ w) as [[ret res] w2]. simpl in Hne.
  cbv beta iota. rewrite (proj2 (Z.eqb_neq ret EINTR) Hne). cbn [orb].
  destruct (Z.eqb_spec ret ERANGE); [|by apply wp_ret].
  subst ret. apply (pw_loop_terminates (S (S (S (S (S (S (S (S n)))))))) name 1024 ERANGE w2);
    [done| | |done]; unfold CREDS_BUF_MAX, NGROUPS_MAX; [lia|].
  rewrite !Nat2Z.inj_succ, !Z.pow_succ_r by lia. nia.
Qed.

(** The lookups of a client's Unix credentials terminate: with a user database that is
    not interrupted ten turns of the buffer loop are enough, and nine turns of the group
    loop always are. *)
Theorem linux_creds_terminate n name mech w :
  uninterrupted -> wp (gp_export_creds_linux (10 + n) name mech) (fun r _ => r <> None) w.
Proof.
  intros Hu. unfold gp_export_creds_linux, gp_export_creds_enoent.
  assert (He : forall w', wp (let* ok := malloc in
      if negb ok then mret (GSS_S_FAILURE, ENOMEM, []) else
      mret (GSS_S_COMPLETE, 0, words [-1; -1; 0])) (fun r w2 => wp (mret (Some r)) (fun r _ => r <> None) w2) w')
    by (intros w'; by apply wp_any).
  apply wp_bind, wp_any. intros [[maj min] local] w1.
  destruct (negb (maj =? 0)); [destruct (min =? ENOENT); [apply wp_bind, He|by apply wp_ret]|].
  apply wp_bind, wp_any. intros [] w2; cbn [negb]; [|by apply wp_ret].
  apply wp_bind. eapply wp_conseq; [by apply (pw_loop_starts n)|].
  intros [[err|[ret res]]|] w3 H; [by apply wp_ret| |done].
  destruct (_ || _); [apply wp_bind, He|]. destruct (negb _); [by apply wp_ret|].
  destruct res as [pwd|]; [|apply wp_bind, He].
  apply wp_bind. eapply wp_conseq;
    [apply (gr_loop_terminates 8); unfold NGROUPS_MAX; [lia|simpl; lia]|].
  intros [[err|gs]|] w4 H'; by try apply wp_ret.
Qed.

(** ** What is exported *)

(** the groups fit exactly when they are no more than the room, and all are given *)
Definition groups_counted : Prop := forall name gid room w,
  let '(fits, num, groups) := (getgrouplist name gid room w).1 in
  fits = true -> len groups <= room.

Lemma gr_loop_bound fuel name gid count num w :
  groups_counted -> wp (gr_loop fuel name gid count num)
    (fun r _ => forall gs, r = Some (inr gs) -> len gs <= NGROUPS_MAX) w.
Proof.
  intros Hg. revert count num w. induction fuel as [|fuel IH]; intros count num w; cbn [gr_loop];
    [by apply wp_ret|].
  destruct (_ <=? _); [by apply wp_ret|].
  set (c := if _ <? _ then NGROUPS_MAX else _).
  assert (c <= NGROUPS_MAX) by (unfold c; case_match eqn:E; [|apply Z.ltb_ge in E]; lia).
  apply wp_bind, wp_any. intros [] w1; cbn [negb]; [|by apply wp_ret].
  apply wp_bind. unfold wp at 1. specialize (Hg name gid c w1).
  destruct (getgrouplist name gid c w1) as [[[[] n'] gs] w2]; simpl in Hg.
  - apply wp_ret. intros ? [= <-]. specialize (Hg eq_refl). lia.
  - apply IH.
Qed.

(** The exported Unix credentials: on success the buffer is the twelve bytes of "no such
    user", or the uid, the gid, the number of groups and the groups as host-order words,
    with a bounded length. *)
Theorem linux_creds_layout fuel name mech w :
  groups_counted ->
  wp (gp_export_creds_linux fuel name mech) (fun r _ => forall min buf,
    r = Some (GSS_S_COMPLETE, min, buf) ->
    buf = replicate 8 Byte.xff ++ replicate 4 Byte.x00 \/
    exists uid gid groups,
      word 0 buf = u32 uid /\ word 1 buf = u32 gid /\ word 2 buf = len groups /\
      (forall i g, groups !! i = Some g -> word (3 + i) buf = u32 g) /\
      len buf = CREDS_HDR + 4 * len groups /\ len groups <= NGROUPS_MAX) w.
Proof.
  intros Hg. unfold gp_export_creds_linux, gp_export_creds_enoent.
  set (Q := fun (r : option (Z * Z * bytes)) (_ : W) => _).
  assert (He : forall w', wp (let* ok := malloc in
      if negb ok then mret (GSS_S_FAILURE, ENOMEM, []) else
      mret (GSS_S_COMPLETE, 0, words [-1; -1; 0])) (fun r w2 => wp (mret (Some r)) Q w2) w').
  { intros w'. apply wp_bind, wp_any. intros [] ?; cbn [negb]; apply wp_ret, wp_ret;
      intros min buf [=]. subst buf. by left. }
  assert (Hd : forall maj min w', maj <> 0 -> wp (mret (Some (maj, min, []))) Q w').
  { intros maj min w' Hm. apply wp_ret. intros min' buf [= -> _ _]. done. }
  apply wp_bind, wp_any. intros [[maj min] local] w1.
  destruct (Z.eqb_spec maj 0) as [|Hm]; cbn [negb];
    [|destruct (min =? ENOENT); [apply wp_bind, He|by apply Hd]].
  apply wp_bind, wp_any. intros [] w2; cbn [negb]; [|by apply Hd].
  apply wp_bind, wp_any. intros [[err|[ret res]]|] w3; [by apply Hd| |by apply wp_ret].
  destruct (_ || _); [apply wp_bind, He|]. destruct (negb _); [by apply Hd|].
  destruct res as [pwd|]; [|apply wp_bind, He].
  apply wp_bind. eapply wp_conseq; [by apply gr_loop_bound|].
  intros [[err|gs]|] w4 H; [by apply Hd| |by apply wp_ret].
  specialize (H gs eq_refl). apply wp_ret. intros min' buf [= _ <-]. right.
  exists (pw_uid pwd), (pw_gid pwd), gs. split_and!.
  - by apply word_words.
  - by apply word_words.
  - rewrite (word_words _ 2 (len gs)) by done. apply u32_id. unfold in_u32, NGROUPS_MAX in *.
    pose proof (len_nonneg gs). lia.
  - intros i g Hi. by apply word_words.
  - rewrite len_words, !len_cons. unfold CREDS_HDR. lia.
  - done.
Qed.
End linux_laws.

(** ** Examples: a user in 600 groups whose entry takes 3000 bytes *)

Definition toy_nss : NssLib toy := {|
  getpwuid := fun uid => mret (if uid =? 1000 then Some (String.list_byte_of_string "joe") else None);
  getpwnam_r := fun name size => mret
    (if size <? 3000 then (ERANGE, None)
     else (0, if bool_decide (name = String.list_byte_of_string "joe")
              then Some (Passwd name 1000 100) else None));
  getgrouplist := fun _ gid room => mret
    (if room <? 600 then (false, 600, []) else (true, 600, replicate 600 gid));
|}.

Definition joe : option (gss_name (GssLib := toy_gss)) :=
  Some (0%nat, String.list_byte_of_string "joe").

Lemma linux_creds_terminate_witness :
  (gp_export_creds_linux (AL := always_mem) (GL := toy_gss) (NL := toy_nss) 10 joe None
     (toy_world [])).1 <> None.
Proof.
  apply (linux_creds_terminate (AL := always_mem) (GL := toy_gss) (NL := toy_nss) 0 joe None
    (toy_world [])).
  intros name n w. unfold toy_nss, getpwnam_r. cbn. destruct (n <? 3000); discriminate.
Defined.

Lemma linux_creds_layout_witness :
  exists buf,
    gp_export_creds_linux (AL := always_mem) (GL := toy_gss) (NL := toy_nss) 10 joe None (toy_world [])
      = (Some (GSS_S_COMPLETE, 0, buf), toy_world []) /\
    exists uid gid groups, word 0 buf = u32 uid /\ word 1 buf = u32 gid /\ word 2 buf = len groups /\
      (forall i g, groups !! i = Some g -> word (3 + i) buf = u32 g) /\
      len buf = CREDS_HDR + 4 * len groups /\ len groups <= NGROUPS_MAX.
Proof.
  eexists. split; [vm_compute; reflexivity|].
  destruct (linux_creds_layout (AL := always_mem) (GL := toy_gss) (NL := toy_nss) 10 joe None
    (toy_world [])) with (min := 0) (buf :=
      words (1000 :: 100 :: 600 :: replicate 600 100)) as [H|H].
  - intros name gid room w. unfold toy_nss, getgrouplist. cbn -[Z.ltb Z.leb replicate].
    destruct (Z.ltb_spec room 600); [discriminate|]. intros _.
    change (len (replicate 600 gid)) with (Z.of_nat (length (replicate 600 gid))).
    rewrite length_replicate. lia.
  - vm_compute. reflexivity.
  - vm_compute in H. discriminate H.
  - exact H.
Defined.
