(* ===== verification/Creds.v ===== *)
(** * Credentials

    src/gp_creds.c: the environment a credential is acquired in, the acquisition and
    impersonation of krb5 credentials, the check of impersonated credentials, and the
    synchronisation of ticket caches with clients. *)

From S2P Require Import Prelude Xdr RpcXdr GssxXdr Accept World Util Service Format Conv Crypt Export.

Definition KRB5_CC_END := - 1765328242.
Definition KRB5_CC_NOTFOUND := - 1765328243.

(** the krb5 ticket caches and the thread id *)
Class CcLib (W : Type) := {
  krb5_ccache : Type;
  cc_init_context : M W Z;
  krb5_cc_resolve : bytes -> M W (Z * option krb5_ccache);
  (* the "proxy_impersonator" configuration of a cache *)
  krb5_cc_get_config : option krb5_ccache -> string -> M W (Z * bytes);
  krb5_cc_start_seq_get : option krb5_ccache -> M W (Z * Z);
  (* the error and the cursor after *)
  krb5_cc_next_cred : option krb5_ccache -> Z -> M W (Z * Z);
  krb5_cc_end_seq_get : option krb5_ccache -> Z -> M W Z;
  krb5_cc_destroy : option krb5_ccache -> M W unit;
  (* a cache holds at most this many credentials *)
  cc_entries_max : nat;
  gettid : M W Z;
  (* asprintf of a prefix and the address of a local variable *)
  asprintf_address : string -> M W (option bytes);
}.

(** names, out of gssapi.h: 1.2.840.113554.1.2.1.{1,2,3} and 1.2.840.113554.1.2.2.1 *)
Definition GSS_C_NT_USER_NAME : bytes := map byte_of [42; 134; 72; 134; 247; 18; 1; 2; 1; 1].
Definition GSS_C_NT_MACHINE_UID_NAME : bytes := map byte_of [42; 134; 72; 134; 247; 18; 1; 2; 1; 2].
Definition GSS_C_NT_STRING_UID_NAME : bytes := map byte_of [42; 134; 72; 134; 247; 18; 1; 2; 1; 3].
Definition GSS_KRB5_NT_PRINCIPAL_NAME : bytes := map byte_of [42; 134; 72; 134; 247; 18; 1; 2; 2; 1].
Definition GSS_KRB5_GET_CRED_IMPERSONATOR : bytes :=
  map byte_of [42; 134; 72; 134; 247; 18; 1; 2; 2; 5; 14].

(** atol: white space, a sign and digits, up to the first other byte *)
Definition digit (b : Byte.byte) : option Z :=
  let v := byte_val b in if (48 <=? v) && (v <=? 57) then Some (v - 48) else None.
Fixpoint atol_digits (s : bytes) (acc : Z) : Z :=
  match s with
  | [] => acc
  | b :: s => match digit b with Some d => atol_digits s (10 * acc + d) | None => acc end
  end.
Fixpoint skip_space (s : bytes) : bytes :=
  match s with
  | b :: s' => let v := byte_val b in
      if (v =? 32) || ((9 <=? v) && (v <=? 13)) then skip_space s' else s
  | [] => []
  end.
Definition atol (s : bytes) : Z :=
  match skip_space s with
  | b :: s' => if byte_val b =? 45 then - atol_digits s' 0
               else if byte_val b =? 43 then atol_digits s' 0 else atol_digits (b :: s') 0
  | [] => 0
  end.

Section creds.
Context {W : Type} {AL : Alloc W} {KL : KrbLib W} {GL : GssLib W} {NL : NssLib W} {CC : CcLib W}.

(** ** The environment of an acquisition *)

(** The name of the ccache to destroy after the call is the second result. *)
Definition ensure_segregated_ccache (cc_num : Z) (cs : list kv_element)
  : M W (Z * option bytes * list kv_element) :=
  if negb (cc_num =? -1) then mret (0, None, cs) else
  let* ok := malloc in
  if negb ok then mret (ENOMEM, None, cs) else
  let* tid := gettid in
  let* ok := malloc in
  if negb ok then mret (ENOMEM, None, cs) else
  let buf := bs "MEMORY:internal_" ++ dec tid in
  let* ok := malloc in
  if negb ok then mret (ENOMEM, Some buf, cs) else
  mret (0, Some buf, cs ++ [KV "ccache" (Some buf)]).

(** what the environment is computed to be *)
Record cred_env := CredEnv {
  ce_ret : Z;                          (* 0, an errno or -1 *)
  ce_name : option gss_name;           (* requested_name *)
  ce_usage : Z;                        (* cred_usage *)
  ce_store : list kv_element;          (* cs *)
  ce_callback : option bytes;          (* destroy_callback_data *)
}.

(** the indices of the keys the server treats specially, -1 when absent *)
Record store_nums := Nums { n_ck : Z; n_k : Z; n_cc : Z }.

Definition note_key (key : string) (count : Z) (n : store_nums) : store_nums :=
  if String.eqb key "client_keytab" then Nums count (n_k n) (n_cc n)
  else if String.eqb key "keytab" then Nums (n_ck n) count (n_cc n)
  else if String.eqb key "ccache" then Nums (n_ck n) (n_k n) count
  else n.

(** the copy of the configured store, with its values formatted *)
Fixpoint copy_store (target_uid : Z) (elements : list (string * string)) (cs : list kv_element)
  (n : store_nums) : M W (Z * list kv_element * store_nums) :=
  match elements with
  | [] => mret (0, cs, n)
  | (key, value) :: elements =>
      let n := note_key key (len cs) n in
      let* ok := malloc in
      if negb ok then mret (ENOMEM, [], n) else
      let* v := get_formatted_string (bs value) target_uid in
      match v with
      | FmtString v => copy_store target_uid elements (cs ++ [KV key (Some v)]) n
      | _ => mret (ENOMEM, [], n)
      end
  end.

Definition kv_set_value (v : option bytes) (e : kv_element) : kv_element := KV (kv_key e) v.

(** the service's own keytab, as the keytab to initiate with *)
Definition service_keytab (cs : list kv_element) (n : store_nums)
  : M W (Z * list kv_element * bool) :=
  if n_k n =? -1 then mret (if n_ck n =? -1 then EINVAL else 0, cs, false) else
  let keytab := cs !! Z.to_nat (n_k n) ≫= kv_value in
  if n_ck n =? -1 then
    let* ok := malloc in
    if negb ok then mret (ENOMEM, cs, false) else
    let* ok := malloc in
    if negb ok then mret (ENOMEM, cs, false) else
    mret (0, cs ++ [KV "client_keytab" keytab], true)
  else
    let* ok := malloc in
    if negb ok then mret (ENOMEM, cs, false) else
    mret (0, alter (kv_set_value keytab) (Z.to_nat (n_ck n)) cs, true).

(** whose credentials, by the name that was asked for: the target uid, whether a user was
    requested, whether the service's keytab is to be used, and the name *)
Definition env_target (svc : gp_service) (uid : Z) (desired_name : option gssx_name)
  : M W (Z * (Z * bool * bool * option gss_name)) :=
  match desired_name with
  | Some dn =>
      let name_type := Some (gp_conv_gssx_to_oid (Some (name_name_type dn))) in
      if svc_trusted svc && (svc_euid svc =? uid) &&
         (gss_oid_equal name_type (Some GSS_C_NT_STRING_UID_NAME) ||
          gss_oid_equal name_type (Some GSS_C_NT_MACHINE_UID_NAME))
      then mret (0, (u32 (atol (name_display_name dn)), true, false, None))
      else
        let user := negb (svc_euid svc =? uid) in
        let* '(maj, min, name) := gp_conv_gssx_to_name dn in
        if negb (maj =? 0) then mret (maj, (uid, user, negb user, None))
        else mret (0, (uid, user, negb user, name))
  | None =>
      if svc_trusted svc && (svc_euid svc =? uid) then mret (0, (uid, false, true, None))
      else mret (0, (uid, negb (svc_euid svc =? uid), false, None))
  end.

Definition gp_get_cred_environment (gpcall : gp_call_ctx) (desired_name : option gssx_name)
  (cred_usage : Z) : M W cred_env :=
  let svc := cc_service gpcall in
  let uid := gp_conn_get_uid (cc_connection gpcall) in
  let fail ret name usage := mret (CredEnv ret name usage [] None) in
  (* filter based on cred_usage *)
  if negb (svc_cred_usage svc =? GSS_C_BOTH) && negb (cred_usage =? GSS_C_BOTH) &&
     negb (svc_cred_usage svc =? cred_usage)
  then fail EACCES None cred_usage else
  let usage := if svc_cred_usage svc =? GSS_C_BOTH then cred_usage
               else if cred_usage =? GSS_C_BOTH then svc_cred_usage svc else cred_usage in
  let* '(err, (target_uid, user_requested, use_service_keytab, name)) :=
    env_target svc uid desired_name in
  if negb (err =? 0) then fail (-1) name usage else
  (* impersonation case (only for initiation) *)
  let impersonating := user_requested && try_impersonate svc usage ACQ_NORMAL in
  let* '(err, use_service_keytab, name) :=
    if impersonating then
      let* str := uid_to_name target_uid in
      match str with
      | None => mret (ENOENT, true, name)
      | Some str =>
          let* '(maj, _, name) := gss_import_name (Some str) (Some GSS_C_NT_USER_NAME) in
          mret (if maj =? 0 then 0 else ENOMEM, true, name)
      end
    else mret (0, use_service_keytab, name) in
  if negb (err =? 0) then fail err name usage else
  let* '(err, name) :=
    match use_service_keytab, name, k5_principal (svc_krb5 svc) with
    | true, None, Some principal =>
        let* '(maj, _, name) := gss_import_name (Some (cstr principal)) (Some GSS_KRB5_NT_PRINCIPAL_NAME) in
        mret (if maj =? 0 then 0 else -1, name)
    | _, _, _ => mret (0, name)
    end in
  if negb (err =? 0) then fail err name usage else
  if (len (k5_store (svc_krb5 svc)) =? 0) then fail 0 name usage else
  (* room for the store and two more elements *)
  let* ok := malloc in
  if negb ok then fail ENOMEM name usage else
  let* '(ret, cs, n) := copy_store target_uid (k5_store (svc_krb5 svc)) [] (Nums (-1) (-1) (-1)) in
  if negb (ret =? 0) then fail ret name usage else
  let* '(ret, cs, continue) := if use_service_keytab then service_keytab cs n
                               else mret (0, cs, true) in
  if negb (ret =? 0) then fail ret name usage else
  if negb continue then mret (CredEnv 0 name usage cs None) else
  let* '(ret, callback, cs) := ensure_segregated_ccache (n_cc n) cs in
  if negb (ret =? 0) then mret (CredEnv ret name usage [] callback)
  else mret (CredEnv 0 name usage cs callback).

(** ** Is a credential good for a request? *)

Definition usage_fits (cred_usage usage : Z) : bool :=
  if cred_usage =? GSS_C_ACCEPT then negb (usage =? GSS_C_INITIATE)
  else if cred_usage =? GSS_C_INITIATE then negb (usage =? GSS_C_ACCEPT)
  else if cred_usage =? GSS_C_BOTH then usage =? GSS_C_BOTH
  else true.

Definition gp_check_cred (svc : gp_service) (in_cred : option gss_cred)
  (desired_name : option gssx_name) (cred_usage : Z) : M W (Z * Z) :=
  let* '(maj, min, info) := gss_inquire_cred in_cred (bool_decide (is_Some desired_name)) in
  let done maj min req := 
    let* _ := gss_release_name (ci_name info) in
    let* _ := gss_release_name req in
    mret (maj, min) in
  if negb (maj =? 0) then done maj min None else
  if negb (existsb (fun m => gss_oid_equal (Some m) (Some gss_mech_krb5)) (ci_mechs info))
  then done GSS_S_CRED_UNAVAIL min None else
  let* '(maj, min, req) :=
    match desired_name with
    | None => mret (0, min, None)
    | Some dn =>
        let* '(maj, min, req) := gp_conv_gssx_to_name dn in
        if negb (maj =? 0) then mret (maj, min, req) else
        let* '(maj, min, equal) := gss_compare_name req (ci_name info) in
        if negb (maj =? 0) then mret (maj, min, req)
        else mret (if equal then 0 else GSS_S_CRED_UNAVAIL, min, req)
    end in
  if negb (maj =? 0) then done maj min req else
  if negb (usage_fits cred_usage (ci_usage info)) then done GSS_S_NO_CRED min req else
  if ci_lifetime info =? 0 then done GSS_S_CREDENTIALS_EXPIRED min req else
  if negb (svc_min_lifetime svc =? 0) && (ci_lifetime info <? svc_min_lifetime svc)
  then done GSS_S_CREDENTIALS_EXPIRED min req
  else done GSS_S_COMPLETE min req.

(** ** Acquisition *)

(** the handles the function holds; all but the output are released at its end *)
Record ak_locals := Locals {
  l_out : option gss_cred; l_imp : option gss_cred; l_user : option gss_cred;
  l_target : option gss_name; l_compare : option gss_name; l_req : option gss_name;
  l_ictx : option gss_ctx; l_actx : option gss_ctx }.

Record ak_result := AkResult {
  ak_maj : Z; ak_min : Z; ak_out : option gss_cred; ak_mechs : list bytes;
  ak_callback : option bytes }.

Definition ak_done (maj min : Z) (l : ak_locals) (actual : list bytes) (callback : option bytes)
  : M W ak_result :=
  let* out := if negb (maj =? 0) then let* _ := gss_release_cred (l_out l) in mret None
              else mret (l_out l) in
  let* _ := gss_release_name (l_compare l) in
  let* _ := gss_release_cred (l_imp l) in
  let* _ := gss_release_cred (l_user l) in
  let* _ := gss_release_name (l_target l) in
  let* _ := gss_delete_sec_context (l_ictx l) in
  let* _ := gss_delete_sec_context (l_actx l) in
  let* _ := gss_release_name (l_req l) in
  mret (AkResult maj min out (if negb (maj =? 0) then [] else actual) callback).

(** the credential the service impersonates with: the error, the handles, whether it is
    the requested client's own credential already, and the mechanisms *)
Definition impersonator (svc : gp_service) (store : list kv_element) (usage : Z)
  (req : option gss_name) : M W (Z * Z * ak_locals * bool * list bytes) :=
  let l imp user compare := Locals None imp user None compare req None None in
  (* the imported principal is not released *)
  let* '(maj, min, host) :=
    match k5_principal (svc_krb5 svc) with
    | Some p => gss_import_name (Some (cstr p)) (Some GSS_KRB5_NT_PRINCIPAL_NAME)
    | None => mret (0, 0, None)
    end in
  if negb (maj =? 0) then mret (maj, min, l None None None, false, []) else
  let* '(maj, min, (imp, _)) := gss_acquire_cred_from host [gp_mech_krb5] GSS_C_BOTH store in
  if negb (maj =? 0) then mret (maj, min, l imp None None, false, []) else
  match req with
  | None => mret (0, min, l imp None None, false, [])
  | Some _ =>
      let* '(maj, min, info) := gss_inquire_cred imp true in
      if negb (maj =? 0) then mret (maj, min, l imp None (ci_name info), false, []) else
      let* '(maj, min, equal) := gss_compare_name (ci_name info) req in
      if negb (maj =? 0) then mret (maj, min, l imp None (ci_name info), false, []) else
      if negb equal then mret (0, min, l imp None (ci_name info), false, []) else
      let* '(maj, min, (user, actual)) := gss_acquire_cred_from req [gp_mech_krb5] usage store in
      if maj =? GSS_S_COMPLETE
      then mret (0, min, Locals user imp None None (ci_name info) req None None, true, actual)
      else mret (0, min, l imp user (ci_name info), false, actual)
  end.

(** s4u2self, and for a normal acquisition a context from the user to the service itself,
    whose delegated credential is the result; [input] is the impersonator *)
Definition impersonate (acquire_type : Z) (input : option gss_cred) (l : ak_locals)
  (callback : option bytes) : M W ak_result :=
  let* '(maj, min, info) := gss_inquire_cred input true in
  let l := Locals (l_out l) (l_imp l) (l_user l) (ci_name info) (l_compare l) (l_req l) None None in
  if negb (maj =? 0) then ak_done maj min l [] callback else
  let* '(maj, min, (user, actual)) :=
    gss_acquire_cred_impersonate_name input (l_req l) [gp_mech_krb5] in
  let l := Locals (l_out l) (l_imp l) user (l_target l) (l_compare l) (l_req l) None None in
  if negb (maj =? 0) then ak_done maj min l actual callback else
  if acquire_type =? ACQ_IMPNAME then
    ak_done maj min (Locals user (l_imp l) None (l_target l) (l_compare l) (l_req l) None None)
      actual callback
  else
  let* '(maj, min, (ictx, _, token)) :=
    gss_init_sec_context user None (l_target l) (Some gp_mech_krb5)
      (Z.lor GSS_C_REPLAY_FLAG GSS_C_SEQUENCE_FLAG) GSS_C_INDEFINITE None [] in
  let l := Locals (l_out l) (l_imp l) user (l_target l) (l_compare l) (l_req l) ictx None in
  if negb (maj =? 0) then ak_done maj min l actual callback else
  let* '(maj, min, (actx, _, _, _, _, deleg)) :=
    gss_accept_sec_context None input token None false true in
  let l := Locals deleg (l_imp l) user (l_target l) (l_compare l) (l_req l) ictx actx in
  ak_done maj min l actual callback.

(** [None] for the arguments the server never asks for: the mechanisms and lifetimes *)
Definition gp_add_krb5_creds (gpcall : gp_call_ctx) (acquire_type : Z)
  (in_cred : option gss_cred) (desired_name : option gssx_name) (cred_usage : Z)
  : M W ak_result :=
  let svc := cc_service gpcall in
  (* just check if it is a valid krb5 cred *)
  let* '(go, maj, min) :=
    match in_cred with
    | Some _ =>
        if acquire_type =? ACQ_IMPNAME then mret (true, 0, 0) else
        let* '(maj, min) := gp_check_cred svc in_cred desired_name cred_usage in
        if maj =? GSS_S_COMPLETE then mret (false, GSS_S_COMPLETE, 0)
        else if (maj =? GSS_S_CREDENTIALS_EXPIRED) || (maj =? GSS_S_NO_CRED) ||
                (maj =? GSS_S_DEFECTIVE_CREDENTIAL) then mret (true, 0, 0)
        else mret (false, GSS_S_CRED_UNAVAIL, min)
    | None => mret (true, 0, 0)
    end in
  if negb go then mret (AkResult maj min None [] None) else
  let* '(maj, min, env) :=
    if acquire_type =? ACQ_NORMAL then
      let* env := gp_get_cred_environment gpcall desired_name cred_usage in
      mret (if ce_ret env =? 0 then 0 else GSS_S_CRED_UNAVAIL, u32 (ce_ret env), env)
    else match desired_name with
      | Some dn => let* '(maj, min, name) := gp_conv_gssx_to_name dn in
                   mret (maj, min, CredEnv 0 name cred_usage [] None)
      | None => mret (0, 0, CredEnv 0 None cred_usage [] None)
      end in
  let req := ce_name env in
  let none := Locals None None None None None req None None in
  if negb (maj =? 0) then ak_done maj min none [] (ce_callback env) else
  if negb (try_impersonate svc (ce_usage env) acquire_type) then
    let* '(maj, min, (out, actual)) :=
      gss_acquire_cred_from req [gp_mech_krb5] (ce_usage env) (ce_store env) in
    ak_done maj min (Locals out None None None None req None None) actual (ce_callback env)
  else if acquire_type =? ACQ_NORMAL then
    let* '(maj, min, l, found, actual) := impersonator svc (ce_store env) (ce_usage env) req in
    if negb (maj =? 0) || found then ak_done maj min l actual (ce_callback env)
    else impersonate acquire_type (l_imp l) l (ce_callback env)
  else if acquire_type =? ACQ_IMPNAME then impersonate acquire_type in_cred none (ce_callback env)
  else ak_done GSS_S_FAILURE EFAULT none [] (ce_callback env).

(** ** Who a credential impersonates *)

(** the memory cache a credential is stored into, with what the library answered; the
    cache is destroyed by the caller *)
Definition store_in_memcache (cred : option gss_cred) : M W (Z * Z * option krb5_ccache) :=
  let* err := cc_init_context in
  if negb (err =? 0) then mret (GSS_S_FAILURE, u32 err, None) else
  let* name := asprintf_address "MEMORY:cred_allowed_" in
  match name with
  | None => mret (GSS_S_FAILURE, ENOMEM, None)
  | Some memcache =>
      let* '(maj, min) := gss_store_cred_into cred GSS_C_INITIATE [KV "ccache" (Some memcache)] in
      if negb (maj =? GSS_S_COMPLETE) then mret (maj, min, None) else
      let* '(err, cc) := krb5_cc_resolve memcache in
      if negb (err =? 0) then mret (GSS_S_FAILURE, u32 err, None)
      else mret (GSS_S_COMPLETE, min, cc)
  end.

Definition get_impersonator_fallback (cred : option gss_cred) : M W (Z * Z * option bytes) :=
  let* '(maj, min, cc) := store_in_memcache cred in
  if negb (maj =? 0) then mret (maj, min, None) else
  let* '(err, config) := krb5_cc_get_config cc "proxy_impersonator" in
  let* r := if err =? 0 then
              let* ok := malloc in
              mret (if ok then (GSS_S_COMPLETE, 0, Some (to_nul config))
                    else (GSS_S_FAILURE, ENOMEM, None))
            else mret (GSS_S_FAILURE, u32 err, None) in
  let* _ := krb5_cc_destroy cc in
  mret r.

Definition get_impersonator_name (cred : option gss_cred) : M W (Z * Z * option bytes) :=
  let* '(maj, min, bufset) := gss_inquire_cred_by_oid cred GSS_KRB5_GET_CRED_IMPERSONATOR in
  if maj =? GSS_S_COMPLETE then
    match bufset with
    | [] => mret (GSS_S_COMPLETE, ENOENT, None)
    | b :: _ =>
        let* ok := malloc in
        mret (if ok then (maj, min, Some (to_nul b)) else (GSS_S_FAILURE, ENOMEM, None))
    end
  else if maj =? GSS_S_UNAVAILABLE then
    let* '(maj, min, imp) := get_impersonator_fallback cred in
    if (maj =? GSS_S_FAILURE) && (min =? u32 KRB5_CC_NOTFOUND)
    then mret (GSS_S_COMPLETE, ENOENT, imp) else mret (maj, min, imp)
  else mret (maj, min, None).

(** strncmp of a C string with a counted buffer, for equality; the buffer's bytes up to
    its length are those compared *)
Definition impersonator_matches (impersonator buf : bytes) : bool :=
  strncmp_eq (length buf) (impersonator ++ [Byte.x00]) buf && (length impersonator =? length buf)%nat.

(** the minor status of a failing library call is not reported: it is 0 *)
Definition check_impersonator_name (target_name : option gss_name) (impersonator : bytes)
  : M W (Z * Z) :=
  let* '(maj, _, canon) := gss_canonicalize_name target_name gp_mech_krb5 in
  if negb (maj =? GSS_S_COMPLETE) then mret (maj, 0) else
  let* '(maj, _, (buf, _)) := gss_display_name canon in
  let* _ := gss_release_name canon in
  if negb (maj =? GSS_S_COMPLETE) then mret (maj, 0) else
  mret (if impersonator_matches impersonator buf then GSS_S_COMPLETE else GSS_S_UNAUTHORIZED, 0).

(** [min0] is the caller's minor status, kept when there is no credential *)
Definition gp_cred_allowed (min0 : Z) (gpcall : gp_call_ctx) (cred : option gss_cred)
  (target_name : option gss_name) : M W (Z * Z) :=
  match cred with
  | None => mret (GSS_S_CRED_UNAVAIL, min0)
  | Some _ =>
      let svc := cc_service gpcall in
      if svc_trusted svc || svc_impersonate svc || svc_allow_const_deleg svc
      then mret (GSS_S_COMPLETE, 0) else
      let* '(maj, min, impersonator) := get_impersonator_name cred in
      if negb (maj =? 0) then mret (maj, min) else
      match impersonator with
      | Some imp => check_impersonator_name target_name imp
      | None => mret (maj, min)
      end
  end.

(** ** Tickets to synchronise *)

(** the do-while loop counts the answer that ends it too *)
Fixpoint count_loop (fuel : nat) (cc : option krb5_ccache) (cursor ccsum : Z)
  : M W (Z * Z * Z) :=
  match fuel with
  | O => mret (-1, cursor, ccsum)
  | S fuel =>
      let* '(err, cursor) := krb5_cc_next_cred cc cursor in
      if negb (err =? 0) && negb (err =? KRB5_CC_END) then mret (err, cursor, ccsum) else
      let ccsum := u32 (ccsum + 1) in
      if err =? 0 then count_loop fuel cc cursor ccsum else mret (0, cursor, ccsum)
  end.

Definition gp_count_tickets (cred : option gss_cred) (ccsum : Z) : M W (Z * Z * Z) :=
  let* '(maj, min, cc) := store_in_memcache cred in
  if negb (maj =? 0) then mret (maj, min, ccsum) else
  let* '(err, cursor) := krb5_cc_start_seq_get cc in
  let* r :=
    if negb (err =? 0) then mret (GSS_S_FAILURE, u32 err, ccsum) else
    let* '(err, cursor, ccsum) := count_loop (S cc_entries_max) cc cursor ccsum in
    if negb (err =? 0) then mret (GSS_S_FAILURE, u32 err, ccsum) else
    let* err := krb5_cc_end_seq_get cc cursor in
    mret (if err =? 0 then (maj, min, ccsum) else (GSS_S_FAILURE, u32 err, ccsum)) in
  let* _ := krb5_cc_destroy cc in
  mret r.

(** struct gp_cred_check_handle *)
Record gp_cred_check_handle := CheckHandle {
  gcch_ctx : gp_call_ctx; gcch_options : list gssx_option }.

Definition gp_check_sync_creds (h : gp_cred_check_handle) (cred : option gss_cred) : M W Z :=
  let svc := cc_service (gcch_ctx h) in
  if negb (svc_allow_cc_sync svc) then mret 0 else
  match find_option (gcch_options h) "sync_modified_creds" with
  | None => mret 0
  | Some opt =>
      if negb (value_is opt "default") then mret 0 else
      if existsb (fun '(key, _) => String.eqb key "ccache") (k5_store (svc_krb5 svc)) then mret 0 else
      let* '(maj, _, ccsum) := gp_count_tickets cred 0 in
      mret (if negb (maj =? 0) then 0 else ccsum)
  end.

Definition GPKRB_MAX_CRED_SIZE := 1024 * 512.

(** the statuses, what is left of the credential, and the options of the reply *)
Definition gp_export_sync_creds {XL : XdrLib} (gpcall : gp_call_ctx) (cred : option gss_cred)
  (options : list gssx_option) : M W (Z * Z * option gss_cred * list gssx_option) :=
  let* '(maj, min, cred, creds) := gp_export_gssx_cred gpcall cred in
  if negb (maj =? 0) then mret (maj, min, cred, options) else
  match xenc xdr_gssx_cred creds (xdrmem_create GPKRB_MAX_CRED_SIZE) with
  | None => mret (GSS_S_FAILURE, ENOSPC, cred, options)
  | Some s =>
      let* '(ret, options) := gp_add_option options (cstr "sync_creds") (xdr_buffer s) in
      mret (if negb (ret =? 0) then (GSS_S_FAILURE, ret, cred, options)
            else (GSS_S_COMPLETE, 0, cred, options))
  end.
End creds.
