(* ===== verification/CredsProps.v ===== *)
(** * Properties of the credential functions

    What the environment of an acquisition can be, which credentials pass the checks of
    Creds.v, and what the ticket count counts. *)

From S2P Require Import Prelude Xdr RpcXdr GssxXdr Accept World Toy Util Service Format Conv.
From S2P Require Import Crypt Export LinuxCreds Creds.

Section env.
Context {W : Type} {AL : Alloc W} {KL : KrbLib W} {GL : GssLib W} {NL : NssLib W} {CC : CcLib W}.

(** [out] is a configured value formatted for a uid *)
Definition formatted (uid : Z) (value : string) (out : bytes) : Prop :=
  exists w w', get_formatted_string (bs value) uid w = (FmtString out, w').

Definition copied (uid : Z) (store : list (string * string)) (key : string) (e : kv_element) : Prop :=
  exists v out, (key, v) ∈ store /\ formatted uid v out /\ kv_value e = Some out.

(** the elements a computed store may hold *)
Definition element_ok (uid : Z) (store : list (string * string)) (e : kv_element) : Prop :=
  copied uid store (kv_key e) e \/
  (kv_key e = "client_keytab"%string /\ copied uid store "keytab" e) \/
  (kv_key e = "ccache"%string /\ (forall v, ("ccache"%string, v) ∉ store) /\
   exists t, kv_value e = Some (bs "MEMORY:internal_" ++ dec t)).

(** the state of the copy: [done] is the part of the store behind *)
Record copy_inv (uid : Z) (done : list (string * string)) (cs : list kv_element) (n : store_nums)
  : Prop := {
  ci_elems : Forall2 (fun '(k, v) e => kv_key e = k /\ exists out, formatted uid v out /\ kv_value e = Some out)
               done cs;
  ci_k : n_k n = -1 /\ "keytab"%string ∉ done.*1 \/
         exists i v, n_k n = Z.of_nat i /\ done !! i = Some ("keytab"%string, v);
  ci_ck : n_ck n = -1 /\ "client_keytab"%string ∉ done.*1 \/
          exists i v, n_ck n = Z.of_nat i /\ done !! i = Some ("client_keytab"%string, v);
  ci_cc : n_cc n = -1 /\ "ccache"%string ∉ done.*1 \/
          exists i v, n_cc n = Z.of_nat i /\ done !! i = Some ("ccache"%string, v);
}.

Lemma num_step (num : Z) (name key : string) v (done : list (string * string)) :
  num = -1 /\ name ∉ done.*1 \/ (exists i v, num = Z.of_nat i /\ done !! i = Some (name, v)) ->
  key <> name ->
  num = -1 /\ name ∉ (done ++ [(key, v)]).*1 \/
  (exists i v', num = Z.of_nat i /\ (done ++ [(key, v)]) !! i = Some (name, v')).
Proof.
  intros [[-> H]|(i & v' & -> & H)] Hne.
  - left. split; [done|]. rewrite fmap_app, not_elem_of_app. split; [done|]. simpl.
    rewrite list_elem_of_singleton. congruence.
  - right. exists i, v'. split; [done|]. by apply lookup_app_l_Some.
Qed.

Lemma num_here (name : string) v (done : list (string * string)) :
  exists i v', Z.of_nat (length done) = Z.of_nat i /\
    (done ++ [(name, v)]) !! i = Some (name, v').
Proof. exists (length done), v. split; [done|]. by apply list_lookup_middle. Qed.

Lemma copy_inv_step uid done cs n k v out :
  copy_inv uid done cs n -> formatted uid v out ->
  copy_inv uid (done ++ [(k, v)]) (cs ++ [KV k (Some out)]) (note_key k (len cs) n).
Proof.
  intros [He Hk Hck Hcc] Hf.
  assert (Hl : len cs = Z.of_nat (length done)) by (unfold len; by rewrite (Forall2_length _ _ _ He)).
  unfold note_key. rewrite Hl.
  destruct (String.eqb_spec k "client_keytab") as [->|]; [|
    destruct (String.eqb_spec k "keytab") as [->|]; [|
    destruct (String.eqb_spec k "ccache") as [->|]]]; split; cbn [n_k n_ck n_cc];
    try (apply Forall2_app; [done|]; repeat constructor; eauto);
    try (apply num_step; [done|congruence]); right; apply num_here.
Qed.

Lemma copy_store_ok uid todo done cs n w :
  copy_inv uid done cs n ->
  wp (copy_store uid todo cs n) (fun '(ret, cs', n') _ =>
    (ret = 0 -> copy_inv uid (done ++ todo) cs' n') /\ (ret <> 0 -> ret = ENOMEM)) w.
Proof.
  revert done cs n w. induction todo as [|[k v] todo IH]; intros done cs n w Hinv; cbn [copy_store].
  - apply wp_ret. rewrite app_nil_r. by split.
  - apply wp_bind, wp_any. intros [] w1; cbn [negb]; [|apply wp_ret; by split].
    apply wp_bind. unfold wp at 1.
    destruct (get_formatted_string (bs v) uid w1) as [r w2] eqn:E.
    destruct r as [out| |]; [|apply wp_ret; by split..].
    rewrite (app_assoc done [(k, v)] todo : done ++ (k, v) :: todo = _).
    apply IH. apply copy_inv_step; [done|]. by exists w1, w2.
Qed.

Lemma copied_elements uid store cs n :
  copy_inv uid store cs n -> Forall (fun e => copied uid store (kv_key e) e) cs.
Proof.
  intros H. apply Forall_forall. intros e [i Hi]%list_elem_of_lookup.
  destruct (Forall2_lookup_r _ _ _ _ _ (ci_elems _ _ _ _ H) Hi) as ([k v] & Hs & <- & out & Hf & Hv).
  exists v, out. split; [by eapply list_elem_of_lookup_2|done].
Qed.

(** the store after the copy and the service's keytab *)
Record keytab_inv (uid : Z) (store : list (string * string)) (cs : list kv_element) : Prop := {
  ki_elems : Forall (element_ok uid store) cs;
  ki_len : len cs <= len store + 1;
  ki_cc : (exists v, ("ccache"%string, v) ∈ store) -> exists e, e ∈ cs /\ kv_key e = "ccache"%string;
}.

Lemma copy_has_ccache uid store cs n v :
  copy_inv uid store cs n -> ("ccache"%string, v) ∈ store -> exists e, e ∈ cs /\ kv_key e = "ccache"%string.
Proof.
  intros H [i Hi]%list_elem_of_lookup.
  destruct (Forall2_lookup_l _ _ _ _ _ (ci_elems _ _ _ _ H) Hi) as (e & He & Hk & _).
  exists e. split; [by eapply list_elem_of_lookup_2|done].
Qed.

Lemma copy_keytab_inv uid store cs n : copy_inv uid store cs n -> keytab_inv uid store cs.
Proof.
  intros H. split.
  - eapply Forall_impl; [by eapply copied_elements|]. intros e He. by left.
  - unfold len. rewrite (Forall2_length _ _ _ (ci_elems _ _ _ _ H)). lia.
  - intros [v Hv]. by eapply copy_has_ccache.
Qed.

Lemma service_keytab_ok uid store cs n w :
  copy_inv uid store cs n ->
  wp (service_keytab cs n) (fun '(ret, cs', go) _ => ret = 0 ->
    keytab_inv uid store cs' /\
    (go = false -> ("keytab"%string ∉ store.*1) /\ ("client_keytab"%string ∈ store.*1))) w.
Proof.
  intros H. unfold service_keytab.
  assert (Hck : n_ck n <> -1 -> exists i v, n_ck n = Z.of_nat i /\ store !! i = Some ("client_keytab"%string, v))
    by (intros; destruct (ci_ck _ _ _ _ H) as [[? _]|?]; [congruence|done]).
  destruct (Z.eqb_spec (n_k n) (-1)) as [Ek|Ek].
  - apply wp_ret. destruct (Z.eqb_spec (n_ck n) (-1)) as [|Eck]; [done|]. intros _.
    split; [by eapply copy_keytab_inv|]. intros _. split.
    + destruct (ci_k _ _ _ _ H) as [[_ ?]|(i & v & E & _)]; [done|lia].
    + destruct (Hck Eck) as (i & v & _ & Hi%list_elem_of_lookup_2).
      apply list_elem_of_fmap. by eexists (_, v).
  - destruct (ci_k _ _ _ _ H) as [[? _]|(i & v & E & Hi)]; [congruence|].
    rewrite E, Nat2Z.id. 
    destruct (Forall2_lookup_l _ _ _ _ _ (ci_elems _ _ _ _ H) Hi) as (e & He & Hek & out & Hf & Hv).
    rewrite He. cbn [mbind option_bind]. rewrite Hv.
    assert (Hc : forall e', kv_value e' = Some out -> copied uid store "keytab" e').
    { intros e' He'. exists v, out. split; [by eapply list_elem_of_lookup_2|done]. }
    pose proof (copy_keytab_inv _ _ _ _ H) as Hinv.
    assert (Hlen : length cs = length store) by (by rewrite (Forall2_length _ _ _ (ci_elems _ _ _ _ H))).
    destruct (Z.eqb_spec (n_ck n) (-1)) as [Eck|Eck].
    + apply wp_bind, wp_any. intros [] w1; cbn [negb]; [|by apply wp_ret].
      apply wp_bind, wp_any. intros [] w2; cbn [negb]; [|by apply wp_ret].
      apply wp_ret. intros _. split; [|done]. split.
      * apply Forall_app. split; [apply Hinv|]. apply Forall_singleton. right. left. by split; [|apply Hc].
      * unfold len in *. rewrite length_app. simpl. lia.
      * intros Hcc. destruct (ki_cc _ _ _ Hinv Hcc) as (e' & He' & ?). exists e'.
        split; [|done]. apply elem_of_app. by left.
    + apply wp_bind, wp_any. intros [] w1; cbn [negb]; [|by apply wp_ret].
      apply wp_ret. intros _. split; [|done].
      destruct (Hck Eck) as (j & v' & Ej & Hj). rewrite Ej, Nat2Z.id.
      destruct (Forall2_lookup_l _ _ _ _ _ (ci_elems _ _ _ _ H) Hj) as (e' & He' & Hek' & _).
      split.
      * apply Forall_alter; [apply Hinv|]. intros x Hx _. rewrite He' in Hx. injection Hx as <-.
        right. left. by split; [|apply Hc].
      * unfold len. rewrite length_alter. lia.
      * intros Hcc. destruct (ki_cc _ _ _ Hinv Hcc) as (x & [m Hm]%list_elem_of_lookup & Hx).
        assert (m <> j) by (intros ->; rewrite He' in Hm; injection Hm as <-; congruence).
        exists x. split; [|done]. apply list_elem_of_lookup_2 with m.
        by rewrite list_lookup_alter_ne.
Qed.

Lemma segregated_ok uid store cs n w :
  keytab_inv uid store cs -> (n_cc n = -1 /\ "ccache"%string ∉ store.*1 \/
    exists i v, n_cc n = Z.of_nat i /\ store !! i = Some ("ccache"%string, v)) ->
  wp (ensure_segregated_ccache (n_cc n) cs) (fun '(ret, cb, cs') _ => ret = 0 ->
    Forall (element_ok uid store) cs' /\ len cs' <= len store + 2 /\
    (exists e, e ∈ cs' /\ kv_key e = "ccache"%string)) w.
Proof.
  intros [He Hl Hc] Hcc. unfold ensure_segregated_ccache.
  destruct Hcc as [[-> Hn]|(i & v & -> & Hi)].
  - cbn [negb Z.eqb]. apply wp_bind, wp_any. intros [] w1; cbn [negb]; [|by apply wp_ret].
    apply wp_bind, wp_any. intros tid w2.
    apply wp_bind, wp_any. intros [] w3; cbn [negb]; [|by apply wp_ret].
    apply wp_bind, wp_any. intros [] w4; cbn [negb]; [|by apply wp_ret].
    apply wp_ret. intros _. split; [|split].
    + apply Forall_app. split; [done|]. apply Forall_singleton. right. right. split; [done|].
      split; [|by eexists]. intros v Hv. apply Hn. apply list_elem_of_fmap. by exists ("ccache"%string, v).
    + rewrite len_app. change (len [_]) with 1. lia.
    + eexists. split; [apply elem_of_app; right; by apply list_elem_of_singleton|done].
  - rewrite (proj2 (Z.eqb_neq (Z.of_nat i) (-1))) by lia. cbn [negb]. apply wp_ret. intros _.
    split; [done|]. split; [lia|]. apply Hc. exists v. by eapply list_elem_of_lookup_2.
Qed.

(** ** Whose credentials *)

(** a trusted service, called under its own uid, may name a user by uid *)
Definition may_choose_uid (svc : gp_service) (uid : Z) (dn : option gssx_name) : Prop :=
  svc_trusted svc = true /\ svc_euid svc = uid /\
  exists n, dn = Some n /\
    (gss_oid_equal (Some (name_name_type n)) (Some GSS_C_NT_STRING_UID_NAME) = true \/
     gss_oid_equal (Some (name_name_type n)) (Some GSS_C_NT_MACHINE_UID_NAME) = true).

Lemma env_target_ok svc uid dn w :
  wp (env_target svc uid dn) (fun '(_, (target, user, keytab, _)) _ =>
    (target <> uid -> may_choose_uid svc uid dn) /\
    (keytab = true -> target = uid /\ svc_euid svc = uid) /\
    (user = true -> keytab = false)) w.
Proof.
  unfold env_target. destruct dn as [n|].
  - destruct (svc_trusted svc) eqn:Et, (Z.eqb_spec (svc_euid svc) uid) as [Eu|Eu]; cbn [andb negb].
    1: destruct (_ || _) eqn:Eo.
    1: { apply wp_ret. split; [|by split]. intros _. apply orb_true_iff in Eo.
         split; [done|]. split; [done|]. by exists n. }
    all: apply wp_bind, wp_any; intros [[maj min] name] w1; destruct (negb _);
      apply wp_ret; (split; [done|]); by split.
  - destruct (svc_trusted svc && _) eqn:E; apply wp_ret.
    + apply andb_true_iff in E as [_ E%Z.eqb_eq]. split; [done|]. by split.
    + split; [done|]. by split.
Qed.

(** the bounds on a computed environment *)
Definition env_bounded (gpcall : gp_call_ctx) (dn : option gssx_name) (usage : Z)
  (env : cred_env) : Prop :=
  let svc := cc_service gpcall in
  let store := k5_store (svc_krb5 svc) in
  let uid := gp_conn_get_uid (cc_connection gpcall) in
  (svc_cred_usage svc <> GSS_C_BOTH -> ce_usage env = svc_cred_usage svc) /\
  (usage <> GSS_C_BOTH -> ce_usage env = usage) /\
  len (ce_store env) <= len store + 2 /\
  exists target, (target <> uid -> may_choose_uid svc uid dn) /\
    Forall (element_ok target store) (ce_store env).

(** The environment of an acquisition, when it is computed: the usage is the one asked
    for, narrowed to what the service allows; the store is the configured one - at most two
    elements longer, the room allocated for it - with every value formatted for one uid,
    plus at most a client_keytab that is the configured keytab and a private memory ccache;
    and that uid is the peer's own unless a trusted service called under its own uid named
    another. *)
Theorem cred_environment_bounded gpcall dn usage w :
  wp (gp_get_cred_environment gpcall dn usage)
    (fun env _ => ce_ret env = 0 -> env_bounded gpcall dn usage env) w.
Proof.
  unfold gp_get_cred_environment, env_bounded. set (svc := cc_service gpcall).
  set (uid := gp_conn_get_uid _). set (store := k5_store (svc_krb5 svc)).
  destruct (_ && _) eqn:Eu; [by apply wp_ret|].
  set (us := if svc_cred_usage svc =? GSS_C_BOTH then _ else _).
  assert (Hus : (svc_cred_usage svc <> GSS_C_BOTH -> us = svc_cred_usage svc) /\
                (usage <> GSS_C_BOTH -> us = usage)).
  { unfold us. rewrite !andb_false_iff, !negb_false_iff, !Z.eqb_eq in Eu.
    destruct (Z.eqb_spec (svc_cred_usage svc) GSS_C_BOTH), (Z.eqb_spec usage GSS_C_BOTH);
      split; intros; try congruence; destruct Eu as [[?|?]|?]; congruence. }
  clearbody us. pose proof (len_nonneg store).
  apply wp_bind. eapply wp_conseq; [apply env_target_ok|].
  intros [err [[[target user] keytab] name]] w1 (Ht & _ & _).
  destruct (Z.eqb_spec err 0); cbn [negb]; [|apply wp_ret; by intros [=]].
  apply wp_bind, wp_any. intros [[err2 keytab2] name2] w2.
  destruct (Z.eqb_spec err2 0); cbn [negb]; [|by apply wp_ret].
  apply wp_bind, wp_any. intros [err3 name3] w3.
  destruct (Z.eqb_spec err3 0); cbn [negb]; [|by apply wp_ret].
  destruct (len store =? 0).
  { apply wp_ret. intros Hr. destruct Hus. split_and!; [done..|cbn [ce_store]; rewrite len_nil; lia|].
    by exists target. }
  apply wp_bind, wp_any. intros [] w4; cbn [negb]; [|by apply wp_ret].
  apply wp_bind. eapply wp_conseq; [apply (copy_store_ok target store [] [] (Nums (-1) (-1) (-1)))|].
  { split; cbn; [constructor|left; split; [done|apply not_elem_of_nil]..]. }
  intros [[ret cs] n] w5 [Hc _].
  destruct (Z.eqb_spec ret 0) as [Er|Er]; cbn [negb]; [|by apply wp_ret].
  specialize (Hc Er). cbn [app] in Hc. apply wp_bind.
  eapply wp_conseq with (Q := fun '(ret, cs', go) _ => ret = 0 -> keytab_inv target store cs').
  { destruct keytab2.
    - eapply wp_conseq; [by apply service_keytab_ok|]. intros [[r c] g] w6 H6 Hr. by apply H6.
    - apply wp_ret. intros _. by eapply copy_keytab_inv. }
  intros [[ret6 cs6] go] w6 H6.
  destruct (Z.eqb_spec ret6 0) as [Er6|]; cbn [negb]; [|by apply wp_ret].
  specialize (H6 Er6). destruct go; cbn [negb].
  - apply wp_bind. eapply wp_conseq; [apply segregated_ok; [done|by eapply ci_cc]|].
    intros [[ret7 cb] cs7] w7 H7.
    destruct (Z.eqb_spec ret7 0) as [Er7|]; cbn [negb]; [|apply wp_ret; by intros [=]].
    destruct (H7 Er7) as (He & Hl & _). apply wp_ret. intros _. destruct Hus.
    split_and!; [done..|]. by exists target.
  - apply wp_ret. intros _. destruct Hus. pose proof (ki_len _ _ _ H6).
    split_and!; [done..|cbn [ce_store]; lia|]. exists target. split; [done|]. apply H6.
Qed.
End env.

(** ** Which credentials pass *)

Section checks.
Context {W : Type} {AL : Alloc W} {KL : KrbLib W} {GL : GssLib W} {NL : NssLib W} {CC : CcLib W}.

(** what a credential of a usage is good for *)
Definition can_initiate (usage : Z) : Prop := usage = GSS_C_INITIATE \/ usage = GSS_C_BOTH.
Definition can_accept (usage : Z) : Prop := usage = GSS_C_ACCEPT \/ usage = GSS_C_BOTH.
Definition covers (have want : Z) : Prop :=
  (can_initiate want -> can_initiate have) /\ (can_accept want -> can_accept have).

Lemma usage_fits_covers want have : have ∈ [GSS_C_BOTH; GSS_C_INITIATE; GSS_C_ACCEPT] ->
  usage_fits want have = true <-> covers have want.
Proof.
  unfold usage_fits, covers, can_initiate, can_accept. change GSS_C_BOTH with 0. change GSS_C_INITIATE with 1.
  change GSS_C_ACCEPT with 2. intros H.
  destruct (Z.eqb_spec want 2), (Z.eqb_spec want 1), (Z.eqb_spec want 0); set_unfold;
    destruct H as [->|[->|[->|[]]]]; simpl; naive_solver lia.
Qed.

(** it lasts, and as long as the service asks for *)
Definition lasts (svc : gp_service) (lifetime : Z) : Prop :=
  lifetime <> 0 /\ (svc_min_lifetime svc = 0 \/ svc_min_lifetime svc <= lifetime).

(** the library knows the name that is asked for, if one is, and says that it is the name of
    the credential *)
Definition is_named (dn : option gssx_name) (name : option gss_name) (w : W) : Prop :=
  forall d, dn = Some d -> exists min req w1 min' w2, gp_conv_gssx_to_name d w = ((0, min, req), w1) /\
    gss_compare_name req name w1 = ((0, min', true), w2).

Lemma check_done (name req : option gss_name) maj min (P : Z * Z -> W -> Prop) w : (forall w', P (maj, min) w') ->
  wp (let* _ := gss_release_name name in let* _ := gss_release_name req in mret (maj, min)) P w.
Proof. intros H. apply wp_bind, wp_any. intros _ w1. apply wp_bind, wp_any. intros _ w2. by apply wp_ret. Qed.

(** the comparison of the names *)
Lemma check_name_spec dn name min w :
  wp (match dn with
      | None => mret (0, min, None)
      | Some d =>
          let* '(maj, min, req) := gp_conv_gssx_to_name d in
          if negb (maj =? 0) then mret (maj, min, req) else
          let* '(maj, min, equal) := gss_compare_name req name in
          if negb (maj =? 0) then mret (maj, min, req)
          else mret (if equal then 0 else GSS_S_CRED_UNAVAIL, min, req)
      end) (fun '(maj, _, _) _ => maj = 0 <-> is_named dn name w) w.
Proof.
  unfold is_named. destruct dn as [d|]; [|by apply wp_ret].
  apply wp_step. intros [[maj1 min1] req] w1 Hconv. destruct (Z.eqb_spec maj1 0) as [->|Hne]; simpl negb; cbv iota.
  2: { apply wp_ret. split; [done|]. intros H. destruct (H d eq_refl) as (? & ? & ? & ? & ? & E & _). congruence. }
  apply wp_step. intros [[maj2 min2] equal] w2 Hcmp. destruct (Z.eqb_spec maj2 0) as [->|Hne]; simpl negb; cbv iota; apply wp_ret.
  - destruct equal; split; try done; [intros _ ? [= <-]; eauto 10|].
    intros H. destruct (H d eq_refl) as (? & ? & ? & ? & ? & E & E'). rewrite Hconv in E. injection E as <- <- <-. congruence.
  - split; [done|]. intros H. destruct (H d eq_refl) as (? & ? & ? & ? & ? & E & E'). rewrite Hconv in E. injection E as <- <- <-. congruence.
Qed.

(** C31. A credential is accepted as good for a request exactly when the library knows it, it is a
    krb5 credential, of the name asked for when one is, its usage covers the one requested,
    and it lasts, at least the minimum lifetime of the service.  For a krb5 credential of the
    right name, a usage that does not cover the request is reported as no credential, and else
    a lifetime that is too short as an expiry.  The usage the library reports is one of the
    three there are. *)
Theorem check_cred_sound svc cred dn usage w :
  (forall w, ci_usage (gss_inquire_cred cred (bool_decide (is_Some dn)) w).1.2 ∈ [GSS_C_BOTH; GSS_C_INITIATE; GSS_C_ACCEPT]) ->
  wp (gp_check_cred svc cred dn usage) (fun '(maj, _) _ =>
    exists imaj min info w1, gss_inquire_cred cred (bool_decide (is_Some dn)) w = ((imaj, min, info), w1) /\
    let known := imaj = 0 /\ (exists m, m ∈ ci_mechs info /\ gss_oid_equal (Some m) (Some gss_mech_krb5) = true) /\
                 is_named dn (ci_name info) w1 in
    (maj = GSS_S_COMPLETE <-> known /\ covers (ci_usage info) usage /\ lasts svc (ci_lifetime info)) /\
    (known -> ~ covers (ci_usage info) usage -> maj = GSS_S_NO_CRED) /\
    (known -> covers (ci_usage info) usage -> ~ lasts svc (ci_lifetime info) -> maj = GSS_S_CREDENTIALS_EXPIRED)) w.
Proof.
  intros Husage. specialize (Husage w). unfold gp_check_cred. apply wp_step.
  intros [[imaj imin] info] w1 Hinq. rewrite Hinq in Husage. simpl in Husage.
  pose proof (usage_fits_covers usage (ci_usage info) Husage) as Hfits.
  assert (Hmech : existsb (fun m => gss_oid_equal (Some m) (Some gss_mech_krb5)) (ci_mechs info) = true <->
    exists m, m ∈ ci_mechs info /\ gss_oid_equal (Some m) (Some gss_mech_krb5) = true).
  { rewrite existsb_exists. by setoid_rewrite list_elem_of_In. }
  destruct (Z.eqb_spec imaj 0) as [->|Hi]; simpl negb; cbv iota;
    [|apply check_done; intros w'; exists imaj, imin, info, w1; tauto].
  destruct (existsb _ _) eqn:Em; simpl negb; cbv iota;
    [|apply check_done; intros w'; exists 0, imin, info, w1; split; [done|]; rewrite <- Hmech; naive_solver].
  apply proj1 in Hmech. specialize (Hmech eq_refl).
  apply wp_bind. eapply wp_conseq; [apply check_name_spec|]. intros [[maj min] req] w2 Hname. cbv beta iota.
  destruct (Z.eqb_spec maj 0) as [->|Hm]; simpl negb; cbv iota;
    [|apply check_done; intros w'; exists 0, imin, info, w1; split; [done|]; naive_solver].
  apply proj1 in Hname. specialize (Hname eq_refl).
  destruct (usage_fits usage (ci_usage info)); simpl negb; cbv iota;
    [|apply check_done; intros w'; exists 0, imin, info, w1; split; [done|]; naive_solver].
  unfold lasts. destruct (Z.eqb_spec (ci_lifetime info) 0);
    [apply check_done; intros w'; exists 0, imin, info, w1; split; [done|]; naive_solver|].
  destruct (Z.eqb_spec (svc_min_lifetime svc) 0), (Z.ltb_spec (ci_lifetime info) (svc_min_lifetime svc)); cbn [negb andb];
    apply check_done; intros w'; exists 0, imin, info, w1; (split; [done|]); naive_solver lia.
Qed.

(** what is known of the impersonator of a credential, and of the canonical target *)
Lemma matches_spec imp buf :
  NoNul imp -> impersonator_matches imp buf = true -> buf = imp.
Proof.
  unfold impersonator_matches. intros Hn [Hs Hl%Nat.eqb_eq]%andb_true_iff.
  revert buf Hs Hl. unfold NoNul in Hn. induction imp as [|x imp IH]; intros [|y buf] Hs Hl; try done.
  simpl in Hs. rewrite not_elem_of_cons in Hn.
  destruct (decide (x = y)) as [->|Hne]; [|by rewrite bool_decide_eq_false_2 in Hs].
  rewrite bool_decide_eq_true_2 in Hs by done. cbn [negb] in Hs.
  rewrite bool_decide_eq_false_2 in Hs by naive_solver. f_equal. apply IH; [naive_solver|done|].
  simpl in Hl. lia.
Qed.

Lemma to_nul_no_nul b : NoNul (to_nul b).
Proof.
  unfold NoNul. induction b as [|c b IH]; simpl; [apply not_elem_of_nil|].
  case_bool_decide; [apply not_elem_of_nil|]. by apply not_elem_of_cons.
Qed.

(** the credential's impersonator is [imp], as the library tells in [w] *)
Definition impersonated_by (cred : option gss_cred) (imp : option bytes) (w w' : W) : Prop :=
  exists min, get_impersonator_name cred w = ((GSS_S_COMPLETE, min, imp), w').

(** the target's canonical krb5 name displays as [text], in [w] *)
Definition canonical_text (target : option gss_name) (text : bytes) (w : W) : Prop :=
  exists min canon w1 min' type w2,
    gss_canonicalize_name target gp_mech_krb5 w = ((GSS_S_COMPLETE, min, canon), w1) /\
    gss_display_name canon w1 = ((GSS_S_COMPLETE, min', (text, type)), w2).

Lemma impersonator_no_nul cred w maj min imp w' :
  get_impersonator_name cred w = ((maj, min, Some imp), w') -> NoNul imp.
Proof.
  intros H. eapply (wp_run _ (fun '(_, _, i) _ => forall imp, i = Some imp -> NoNul imp)
    _ _ _ H); [|done].
  assert (Hn : forall b imp, Some (to_nul b) = Some imp -> NoNul imp).
  { intros b i [= <-]. apply to_nul_no_nul. }
  unfold get_impersonator_name. apply wp_bind, wp_any. intros [[mj mn] set] w1.
  destruct (mj =? GSS_S_COMPLETE).
  - destruct set as [|b set]; [by apply wp_ret|]. apply wp_bind, wp_any. intros [] w2; apply wp_ret; [intros i; apply Hn|done].
  - destruct (mj =? GSS_S_UNAVAILABLE); [|by apply wp_ret].
    apply wp_bind. eapply wp_conseq with (Q := fun '(_, _, i) _ => forall imp, i = Some imp -> NoNul imp).
    + unfold get_impersonator_fallback. apply wp_bind, wp_any. intros [[mj' mn'] cc] w2.
      destruct (negb _); [by apply wp_ret|]. apply wp_bind, wp_any. intros [err cfg] w3.
      apply wp_bind. eapply wp_conseq with (Q := fun '(_, _, i) _ => forall imp, i = Some imp -> NoNul imp).
      * destruct (err =? 0); [|by apply wp_ret]. apply wp_bind, wp_any. intros [] w4; apply wp_ret; [intros i; apply Hn|done].
      * intros [[? ?] i] w4 Hi. apply wp_bind, wp_any. intros _ w5. by apply wp_ret.
    + intros [[mj' mn'] i] w2 Hi. destruct (_ && _); by apply wp_ret.
Qed.

(** C21. Impersonated credentials: a service that is neither trusted nor allowed to
    impersonate or delegate may use a credential only if nobody is impersonated with it or
    the target is the impersonator itself. *)
Theorem cred_allowed_sound min0 gpcall cred target w :
  let svc := cc_service gpcall in
  svc_trusted svc = false -> svc_impersonate svc = false -> svc_allow_const_deleg svc = false ->
  wp (gp_cred_allowed min0 gpcall cred target) (fun '(maj, _) _ =>
    maj = GSS_S_COMPLETE ->
    cred <> None /\
    exists imp w1, impersonated_by cred imp w w1 /\
      (forall i, imp = Some i -> canonical_text target i w1)) w.
Proof.
  intros svc Ht Hi Hd. unfold gp_cred_allowed. fold svc. rewrite Ht, Hi, Hd. cbn [orb].
  destruct cred as [c|]; [|by apply wp_ret].
  apply wp_bind. unfold wp at 1.
  destruct (get_impersonator_name (Some c) w) as [[[maj min] imp] w1] eqn:Eg.
  destruct (Z.eqb_spec maj 0) as [->|]; cbn [negb]; [|by apply wp_ret].
  assert (Himp : impersonated_by (Some c) imp w w1) by (by exists min).
  destruct imp as [i|]; [|apply wp_ret; intros _; split; [done|];
    exists None, w1; by split].
  pose proof (impersonator_no_nul _ _ _ _ _ _ Eg) as Hn.
  unfold check_impersonator_name. apply wp_bind. unfold wp at 1.
  destruct (gss_canonicalize_name target gp_mech_krb5 w1) as [[[cmaj cmin] canon] w2] eqn:Ec.
  destruct (Z.eqb_spec cmaj GSS_S_COMPLETE) as [->|]; cbn [negb]; [|by apply wp_ret].
  apply wp_bind. unfold wp at 1.
  destruct (gss_display_name canon w2) as [[[dmaj dmin] [buf type]] w3] eqn:Ed.
  apply wp_bind, wp_any. intros _ w4.
  destruct (Z.eqb_spec dmaj GSS_S_COMPLETE) as [->|]; cbn [negb]; [|by apply wp_ret].
  apply wp_ret. destruct (impersonator_matches i buf) eqn:Em; [|done]. intros _.
  apply matches_spec in Em; [|done]. subst buf.
  split; [done|]. exists (Some i), w1. split; [done|]. intros ? [= <-].
  by exists cmin, canon, w2, dmin, type, w3.
Qed.

(** ** The ticket count *)

(** a cache whose entries from [cursor] on are [n] in number, the end included *)
Fixpoint holds (cc : option krb5_ccache) (cursor : Z) (n : nat) : Prop :=
  match n with
  | O => forall w, exists c w', krb5_cc_next_cred cc cursor w = ((KRB5_CC_END, c), w')
  | S n => exists c, (forall w, exists w', krb5_cc_next_cred cc cursor w = ((0, c), w')) /\
                     holds cc c n
  end.

(** Counting the tickets of a cache of [n] gives [n + 1]: the answer that marks the end
    is counted as well.  The count still grows with each ticket, which is all its use, to
    notice new tickets, needs. *)
Theorem count_loop_counts_end n fuel cc cursor ccsum w :
  holds cc cursor n -> (n < fuel)%nat -> 0 <= ccsum -> ccsum + Z.of_nat n + 1 < 2 ^ 32 ->
  wp (count_loop fuel cc cursor ccsum)
    (fun '(err, _, sum) _ => err = 0 /\ sum = ccsum + Z.of_nat n + 1) w.
Proof.
  revert fuel cursor ccsum w. induction n as [|n IH]; intros [|fuel] cursor ccsum w Hh Hf H0 Hb;
    [lia| |lia|]; cbn [count_loop]; apply wp_bind; unfold wp at 1.
  - destruct (Hh w) as (c & w' & ->). cbn [negb Z.eqb andb]. apply wp_ret. split; [done|].
    rewrite u32_id by (unfold in_u32; lia). lia.
  - destruct Hh as (c & Hc & Hh). destruct (Hc w) as [w' ->]. cbn [negb Z.eqb andb].
    rewrite u32_id by (unfold in_u32; lia).
    eapply wp_conseq; [apply IH; [done|lia..]|]. intros [[err c'] sum] ? [-> ->].
    split; [done|]. lia.
Qed.

(** ** A denied impersonation *)

(** A request to impersonate that the service does not allow is not refused: credentials
    for the requested name are acquired from the empty store - the daemon's default
    keytabs and caches - with the usage the client asked for, whatever the configuration of
    the service says of its store and usage. *)
Theorem denied_impersonation_default_store gpcall in_cred dn usage w :
  let svc := cc_service gpcall in
  svc_allow_proto_trans svc = false -> svc_trusted svc = false -> svc_impersonate svc = false ->
  gp_add_krb5_creds gpcall ACQ_IMPNAME in_cred (Some dn) usage w =
    (let* '(maj, min, name) := gp_conv_gssx_to_name dn in
     let none := Locals None None None None None name None None in
     if negb (maj =? 0) then ak_done maj min none [] None else
     let* '(maj, min, (out, actual)) := gss_acquire_cred_from name [gp_mech_krb5] usage [] in
     ak_done maj min (Locals out None None None None name None None) actual None) w.
Proof.
  intros svc Hp Ht Hi. unfold gp_add_krb5_creds. fold svc.
  assert (Hty : try_impersonate svc usage ACQ_IMPNAME = false).
  { unfold try_impersonate. by rewrite Hp, Ht, Hi. }
  unfold bind, mret.
  destruct in_cred as [c|]; cbn;
    destruct (gp_conv_gssx_to_name dn w) as [[[maj min] name] w1]; cbn;
    (destruct (Z.eqb_spec maj 0); cbn; [|done]);
    rewrite Hty; cbn;
    by destruct (gss_acquire_cred_from name [gp_mech_krb5] usage [] w1) as [[[? ?] [? ?]] ?].
Qed.
End checks.

(** ** Examples *)

(** a cache is its number of tickets *)
Definition toy_cc : CcLib toy := {|
  krb5_ccache := Z;
  cc_init_context := mret 0;
  krb5_cc_resolve := fun _ => mret (0, Some 2);
  krb5_cc_get_config := fun _ _ => mret (KRB5_CC_NOTFOUND, []);
  krb5_cc_start_seq_get := fun _ => mret (0, 0);
  krb5_cc_next_cred := fun cc cursor =>
    mret (if cursor <? default 0 cc then (0, cursor + 1) else (KRB5_CC_END, cursor));
  krb5_cc_end_seq_get := fun _ _ => mret 0;
  krb5_cc_destroy := fun _ => mret tt;
  cc_entries_max := 10%nat;
  gettid := mret 77;
  asprintf_address := fun p => mret (Some (bs p ++ bs "0x7f"));
|}.

Lemma count_loop_counts_end_witness :
  count_loop (CC := toy_cc) 11 (Some 2) 0 0 (toy_world []) = ((0, 2, 3), toy_world []).
Proof.
  assert (H := count_loop_counts_end (CC := toy_cc) 2 11 (Some 2) 0 0 (toy_world [])).
  assert (Hh : holds (CC := toy_cc) (Some 2) 0 2).
  { exists 1. split; [by eexists|]. exists 2. split; [by eexists|]. intros w. by exists 2, w. }
  specialize (H Hh ltac:(lia) ltac:(lia) ltac:(lia)).
  vm_compute in H |- *. reflexivity.
Defined.

Definition w_svc_ctx (trusted : bool) (store : list (string * string)) : gp_call_ctx :=
  CallCtx (Service "http" 48 false false false false trusted false false None None GSS_C_BOTH
             0 0 0 None GP_CRED_KRB5 (CredKrb5 None store (Some (w_key 8))))
    (Conn "s" 5 CRED_TYPE_UNIX (Ucred 1 48 48) None None).

(** a credential of the library is good to initiate, and for its own name alone *)
Lemma check_cred_sound_witness :
  let check dn := (gp_check_cred (AL := always_mem) (GL := toy_gss) (cc_service (w_svc_ctx false []))
    (Some (1%nat, bs "user")) dn GSS_C_INITIATE (toy_world [])).1.1 in
  check None = GSS_S_COMPLETE /\ check (Some (Mk_name (bs "root") [] [] [] [] [])) <> GSS_S_COMPLETE.
Proof.
  intros check.
  assert (Hu : forall b w, ci_usage (gss_inquire_cred (GssLib := toy_gss) (Some (1%nat, bs "user")) b w).1.2
    ∈ [GSS_C_BOTH; GSS_C_INITIATE; GSS_C_ACCEPT]).
  { intros b w. cbn. unfold toy_op. case_decide; [by left|]. destruct b; by left. }
  split.
  - pose proof (check_cred_sound (AL := always_mem) (GL := toy_gss) (cc_service (w_svc_ctx false []))
      (Some (1%nat, bs "user")) None GSS_C_INITIATE (toy_world []) (Hu _)) as H.
    unfold wp in H. fold (check None). unfold check at 1. destruct (gp_check_cred _ _ _ _ _) as [[maj min] w'] eqn:E.
    destruct H as (imaj & imin & info & w1 & Hi & H & _). simpl. apply H. vm_compute in Hi. injection Hi as <- <- <- <-.
    split; [|split; [by split; intros _; right|by split; [|left]]].
    split; [done|]. split; [|done]. exists gss_mech_krb5. by split; [left|].
  - pose proof (check_cred_sound (AL := always_mem) (GL := toy_gss) (cc_service (w_svc_ctx false []))
      (Some (1%nat, bs "user")) (Some (Mk_name (bs "root") [] [] [] [] [])) GSS_C_INITIATE (toy_world []) (Hu _)) as H.
    unfold wp in H. unfold check at 1. destruct (gp_check_cred _ _ _ _ _) as [[maj min] w'] eqn:E.
    destruct H as (imaj & imin & info & w1 & Hi & H & _). simpl. intros Hm. apply H in Hm as [(_ & _ & Hn) _].
    vm_compute in Hi. injection Hi as <- <- <- <-.
    destruct (Hn _ eq_refl) as (? & ? & ? & ? & ? & Hc & Hcmp). vm_compute in Hc. injection Hc as <- <- <-.
    vm_compute in Hcmp. discriminate Hcmp.
Defined.

Lemma cred_allowed_sound_witness :
  let cred : option (gss_cred (GssLib := toy_gss)) := Some (1%nat, bs "user") in
  wp (gp_cred_allowed (AL := always_mem) (GL := toy_gss) (CC := toy_cc) 0 (w_svc_ctx false [])
        cred None) (fun '(maj, _) _ =>
    maj = GSS_S_COMPLETE ->
    cred <> None /\
    exists imp w1, impersonated_by (AL := always_mem) (CC := toy_cc) cred imp (toy_world []) w1 /\
      (forall i, imp = Some i -> canonical_text (GL := toy_gss) None i w1)) (toy_world []).
Proof.
  intros cred.
  apply (cred_allowed_sound (AL := always_mem) (CC := toy_cc) 0 (w_svc_ctx false []) cred None
    (toy_world [])); reflexivity.
Defined.

(** the reply to a client that asks the service to impersonate "root" *)
Lemma denied_impersonation_default_store_witness :
  let dn := Mk_name (bs "root") [] [] [] [] [] in
  let r := gp_add_krb5_creds (AL := always_mem) (GL := toy_gss) (NL := toy_nss) (CC := toy_cc)
      (w_svc_ctx false [("keytab", "/etc/http.keytab")]%string) ACQ_IMPNAME None (Some dn)
      GSS_C_INITIATE (toy_world []) in
  ak_maj r.1 = GSS_S_COMPLETE /\ toy_text (ak_out r.1) = bs "root".
Proof.
  intros dn. cbv zeta.
  rewrite (denied_impersonation_default_store (AL := always_mem) (GL := toy_gss) (NL := toy_nss)
    (CC := toy_cc) (w_svc_ctx false [("keytab", "/etc/http.keytab")]%string) None dn
    GSS_C_INITIATE (toy_world []) eq_refl eq_refl eq_refl).
  vm_compute. split; reflexivity.
Defined.
