(* ===== verification/Handlers.v ===== *)
(** * The procedures that need no credential

    src/gp_rpc_get_mic.c, gp_rpc_verify_mic.c, gp_rpc_wrap.c, gp_rpc_unwrap.c,
    gp_rpc_wrap_size_limit.c, gp_rpc_release_handle.c, gp_rpc_import_and_canon_name.c and
    gp_rpc_indicate_mechs.c.  A procedure returns the int of the C function and its result,
    [None] when a member of the result has a length and no bytes.  Releases of the
    library's own values succeed, with minor status 0. *)

From S2P Require Import Prelude RpcXdr GssxXdr World Util Service Conv Export.

(** a name or context whose lengths are all 0 can be encoded without its bytes *)
Definition name_is_empty (n : gssx_name) : bool :=
  (len (name_display_name n) =? 0) && (len (name_name_type n) =? 0) &&
  (len (name_exported_name n) =? 0) && (len (name_exported_composite_name n) =? 0).
Definition ctx_is_empty (c : gssx_ctx) : bool :=
  (len (ctx_mech c) =? 0) && name_is_empty (ctx_src_name c) && name_is_empty (ctx_targ_name c).

(** the context handle of a result: absent, whole, or freed by a failed export *)
Definition sent_ctx (c : option ctx_out) : option (option gssx_ctx) :=
  match c with
  | None => Some None
  | Some (Whole c) => Some (Some c)
  | Some (Freed c) => if ctx_is_empty c then Some (Some c) else None
  end.

Definition sent_set (s : oid_set_out) : option (list bytes) :=
  match s with OidSet l => Some l | Dangling _ => None end.

Section handlers.
Context {W : Type} {AL : Alloc W} {GL : GssLib W}.

(** [done:] of every procedure: the status, put into the result *)
Definition finish {R} (maj min : Z) (mech : option bytes) (res : gssx_status -> option R)
  : M W (Z * option R) :=
  let* '(ret, st) := gp_conv_status_to_gssx maj min mech empty_status in
  mret (ret, res st).

(** ** Message protection *)

Definition gp_get_mic (gma : gssx_arg_get_mic) : M W (Z * option gssx_res_get_mic) :=
  let done maj min ctx tok qop :=
    finish maj min None (fun st => ctx ← sent_ctx ctx; Some (Mk_res_get_mic st ctx tok qop)) in
  let exp_ctx_type := gp_get_exported_context_type (arg_get_mic_call_ctx gma) in
  if exp_ctx_type =? -1 then done GSS_S_FAILURE EINVAL None [] None else
  let* '(maj, min, context_handle) :=
    gp_import_gssx_to_ctx_id 0 (arg_get_mic_context_handle gma) in
  if negb (maj =? 0) then done maj min None [] None else
  let* '(maj, min, message_token) :=
    gss_get_mic context_handle (u32 (arg_get_mic_qop_req gma))
      (gp_conv_gssx_to_buffer (arg_get_mic_message_buffer gma)) in
  if negb (maj =? 0) then done maj min None [] None else
  let* ok := malloc in
  if negb ok then done GSS_S_FAILURE ENOMEM None [] None else
  let* '(maj, min, _, ctx) := gp_export_ctx_id_to_gssx exp_ctx_type None context_handle in
  if negb (maj =? 0) then done maj min (Some ctx) [] None else
  let* ok := malloc in
  if negb ok then done GSS_S_FAILURE ENOMEM (Some ctx) [] None else
  let qop := Some (arg_get_mic_qop_req gma) in
  let* '(ret, tok) := gp_conv_buffer_to_gssx message_token in
  if negb (ret =? 0) then done GSS_S_FAILURE ret (Some ctx) [] qop
  else done GSS_S_COMPLETE 0 (Some ctx) tok qop.

Definition gp_verify_mic (vma : gssx_arg_verify_mic) : M W (Z * option gssx_res_verify_mic) :=
  let done maj min ctx qop :=
    finish maj min None (fun st => ctx ← sent_ctx ctx; Some (Mk_res_verify_mic st ctx qop)) in
  let exp_ctx_type := gp_get_exported_context_type (arg_verify_mic_call_ctx vma) in
  if exp_ctx_type =? -1 then done GSS_S_FAILURE EINVAL None None else
  let* '(maj, min, context_handle) :=
    gp_import_gssx_to_ctx_id 0 (arg_verify_mic_context_handle vma) in
  if negb (maj =? 0) then done maj min None None else
  let* '(maj, min, qop_state) :=
    gss_verify_mic context_handle (gp_conv_gssx_to_buffer (arg_verify_mic_message_buffer vma))
      (gp_conv_gssx_to_buffer (arg_verify_mic_token_buffer vma)) in
  if negb (maj =? 0) then done maj min None None else
  let* ok := malloc in
  if negb ok then done GSS_S_FAILURE ENOMEM None None else
  let* '(maj, min, _, ctx) := gp_export_ctx_id_to_gssx exp_ctx_type None context_handle in
  if negb (maj =? 0) then done maj min (Some ctx) None else
  let* ok := malloc in
  if negb ok then done GSS_S_FAILURE ENOMEM (Some ctx) None
  else done GSS_S_COMPLETE 0 (Some ctx) (Some qop_state).

(** an absent message is the empty one *)
Definition first_buffer (l : list bytes) : bytes :=
  match l with [] => [] | b :: _ => gp_conv_gssx_to_buffer b end.

Definition gp_wrap (wa : gssx_arg_wrap) : M W (Z * option gssx_res_wrap) :=
  let done maj min ctx tok conf qop :=
    finish maj min None (fun st => ctx ← sent_ctx ctx; Some (Mk_res_wrap st ctx tok conf qop)) in
  let exp_ctx_type := gp_get_exported_context_type (arg_wrap_call_ctx wa) in
  if exp_ctx_type =? -1 then done GSS_S_FAILURE EINVAL None [] None None else
  let* '(maj, min, context_handle) :=
    gp_import_gssx_to_ctx_id 0 (arg_wrap_context_handle wa) in
  if negb (maj =? 0) then done maj min None [] None None else
  let* '(maj, min, (conf_state, output)) :=
    gss_wrap context_handle (Z.b2z (arg_wrap_conf_req wa)) (u32 (arg_wrap_qop_state wa))
      (first_buffer (arg_wrap_message_buffer wa)) in
  if negb (maj =? 0) then done maj min None [] None None else
  let* ok := malloc in
  if negb ok then done GSS_S_FAILURE ENOMEM None [] None None else
  let* '(maj, min, _, ctx) := gp_export_ctx_id_to_gssx exp_ctx_type None context_handle in
  if negb (maj =? 0) then done maj min (Some ctx) [] None None else
  let* ok := malloc in
  if negb ok then done GSS_S_FAILURE ENOMEM (Some ctx) [] None None else
  let qop := Some (arg_wrap_qop_state wa) in
  let* ok := malloc in
  if negb ok then done GSS_S_FAILURE ENOMEM (Some ctx) [] None qop else
  let conf := Some (negb (conf_state =? 0)) in
  let* ok := malloc in
  if negb ok then done GSS_S_FAILURE ENOMEM (Some ctx) [] conf qop else
  let* '(ret, tok) := gp_conv_buffer_to_gssx output in
  if negb (ret =? 0) then done GSS_S_FAILURE ret (Some ctx) [[]] conf qop
  else done GSS_S_COMPLETE 0 (Some ctx) [tok] conf qop.

(** the quality of protection of the reply is the one of the request *)
Definition gp_unwrap (uwa : gssx_arg_unwrap) : M W (Z * option gssx_res_unwrap) :=
  let done maj min ctx msg conf qop :=
    finish maj min None (fun st => ctx ← sent_ctx ctx; Some (Mk_res_unwrap st ctx msg conf qop)) in
  let exp_ctx_type := gp_get_exported_context_type (arg_unwrap_call_ctx uwa) in
  if exp_ctx_type =? -1 then done GSS_S_FAILURE EINVAL None [] None None else
  let* '(maj, min, context_handle) :=
    gp_import_gssx_to_ctx_id 0 (arg_unwrap_context_handle uwa) in
  if negb (maj =? 0) then done maj min None [] None None else
  let* '(maj, min, (output, conf_state, _)) :=
    gss_unwrap context_handle (first_buffer (arg_unwrap_token_buffer uwa)) in
  if negb (maj =? 0) then done maj min None [] None None else
  let* ok := malloc in
  if negb ok then done GSS_S_FAILURE ENOMEM None [] None None else
  let* '(maj, min, _, ctx) := gp_export_ctx_id_to_gssx exp_ctx_type None context_handle in
  if negb (maj =? 0) then done maj min (Some ctx) [] None None else
  let* ok := malloc in
  if negb ok then done GSS_S_FAILURE ENOMEM (Some ctx) [] None None else
  let qop := Some (arg_unwrap_qop_state uwa) in
  let* ok := malloc in
  if negb ok then done GSS_S_FAILURE ENOMEM (Some ctx) [] None qop else
  let conf := Some (negb (conf_state =? 0)) in
  let* ok := malloc in
  if negb ok then done GSS_S_FAILURE ENOMEM (Some ctx) [] conf qop else
  let* '(ret, msg) := gp_conv_buffer_to_gssx output in
  if negb (ret =? 0) then done GSS_S_FAILURE ret (Some ctx) [[]] conf qop
  else done GSS_S_COMPLETE 0 (Some ctx) [msg] conf qop.

Definition gp_wrap_size_limit (wsla : gssx_arg_wrap_size_limit)
  : M W (Z * option gssx_res_wrap_size_limit) :=
  let done maj min max :=
    finish maj min None (fun st => Some (Mk_res_wrap_size_limit st max)) in
  let exp_ctx_type := gp_get_exported_context_type (arg_wrap_size_limit_call_ctx wsla) in
  if exp_ctx_type =? -1 then done GSS_S_FAILURE EINVAL 0 else
  let* '(maj, min, context_handle) :=
    gp_import_gssx_to_ctx_id 0 (arg_wrap_size_limit_context_handle wsla) in
  if negb (maj =? 0) then done maj min 0 else
  let* '(maj, min, max_size) :=
    gss_wrap_size_limit context_handle (Z.b2z (arg_wrap_size_limit_conf_req wsla))
      (u32 (arg_wrap_size_limit_qop_state wsla))
      (u32 (arg_wrap_size_limit_req_output_size wsla)) in
  if negb (maj =? 0) then done maj min 0
  else done GSS_S_COMPLETE 0 max_size.

(** ** Handles and names *)

(** there is no server state behind a handle *)
Definition gp_release_handle (rha : gssx_arg_release_handle) : M W (Z * option gssx_res_release_handle) :=
  let t := handle_type (arg_release_handle_cred_handle rha) in
  let maj := if t =? GSSX_C_HANDLE_SEC_CTX then GSS_S_UNAVAILABLE
             else if t =? GSSX_C_HANDLE_CRED then GSS_S_UNAVAILABLE
             else GSS_S_CALL_BAD_STRUCTURE in
  finish maj 0 None (fun st => Some (Mk_res_release_handle st)).

Definition LOCALNAME_OPTION := "localname".

Definition gp_import_and_canon_name (icna : gssx_arg_import_and_canon_name)
  : M W (Z * option gssx_res_import_and_canon_name) :=
  let done maj min mech import output name opts :=
    let* r := finish maj min mech
                (fun st => Some (Mk_res_import_and_canon_name st name opts)) in
    let* _ := gss_release_name import in
    let* _ := gss_release_name output in
    mret r in
  let input := arg_import_and_canon_name_input_name icna in
  if (len (name_display_name input) =? 0) && (len (name_exported_name input) =? 0)
  then done GSS_S_FAILURE EINVAL None None None None [] else
  let* '(maj, min, import) := gp_conv_gssx_to_name input in
  if negb (maj =? 0) then done maj min None import None None [] else
  let* '(ret, mech) :=
    if negb (len (arg_import_and_canon_name_mech icna) =? 0)
    then gp_conv_gssx_to_oid_alloc (Some (arg_import_and_canon_name_mech icna))
    else mret (0, None) in
  if negb (ret =? 0) then done GSS_S_FAILURE ret None import None None [] else
  match find_option (arg_import_and_canon_name_options icna) LOCALNAME_OPTION with
  | Some _ =>
      let* '(maj, min, localname) := gss_localname import mech in
      if negb (maj =? 0) then done maj min mech import None None [] else
      let* '(ret, opts) := gp_add_option [] (cstr LOCALNAME_OPTION) localname in
      done (if negb (ret =? 0) then GSS_S_FAILURE else maj) ret mech import None None opts
  | None =>
      match mech with
      | Some m =>
          let* '(maj, min, output) := gss_canonicalize_name import m in
          if negb (maj =? 0) then done maj min mech import output None [] else
          let* '(maj, min, name) := gp_conv_name_to_gssx_alloc min output in
          done maj min mech import output name []
      | None =>
          let* '(maj, min, name) := gp_conv_name_to_gssx_alloc min import in
          done maj min mech import None name []
      end
  end.

(** ** Mechanisms *)

Definition empty_mech_info : gssx_mech_info := Mk_mech_info [] [] [] [] [] [] [] [] [] [].
Definition empty_mech_attr : gssx_mech_attr := Mk_mech_attr [] [] [] [] [].

(** the attributes that are not in the set yet are added to it *)
Fixpoint note_attrs (attrs attr_set : list bytes) (min : Z) : M W (Z * Z * list bytes) :=
  match attrs with
  | [] => mret (GSS_S_COMPLETE, min, attr_set)
  | a :: attrs =>
      let* '(maj, min, present) := gss_test_oid_set_member a attr_set in
      if negb (maj =? 0) then mret (maj, min, attr_set) else
      if (present : bool) then note_attrs attrs attr_set min else
      let* '(maj, min, attr_set) := gss_add_oid_set_member a attr_set in
      if negb (maj =? 0) then mret (maj, min, attr_set) else note_attrs attrs attr_set min
  end.

(** What one turn of the loop over the mechanisms does: fills the entry, skips the
    mechanism, or ends the procedure with the entry as filled so far.  [None] is an entry
    with a length and no bytes. *)
Inductive mech_turn :=
| MechDone (mi : gssx_mech_info) (attr_set : list bytes)
| MechSkip (maj min : Z) (mi : gssx_mech_info)
| MechFail (maj min : Z) (mi : option gssx_mech_info).

(** [stale]: a skipped mechanism left the length of its OID in the entry *)
Definition conv_mech (mech : bytes) (stale : bool) (attr_set : list bytes) : M W mech_turn :=
  let fail maj min mi := mret (MechFail maj min mi) in
  let* '(ret, m) := gp_conv_oid_to_gssx (Some mech) in
  if negb (ret =? 0)
  then fail GSS_S_FAILURE ret (if stale then None else Some empty_mech_info) else
  let mi nt ma ka sasl name desc := Mk_mech_info m nt ma ka [] [] sasl name desc [] in
  let part set k := s ← sent_set set; Some (k s) in
  let* '(maj, min, name_types) := gss_inquire_names_for_mech mech in
  if negb (maj =? 0) then mret (MechSkip maj min (mi [] [] [] [] [] [])) else
  let* '(ret, set) := gp_conv_oid_set_to_gssx name_types in
  if negb (ret =? 0)
  then fail GSS_S_FAILURE ret (part set (fun nt => mi nt [] [] [] [] [])) else
  let nt := default [] (sent_set set) in
  let* '(maj, min, (mech_attrs, known)) := gss_inquire_attrs_for_mech mech in
  if negb (maj =? 0) then fail maj min (Some (mi nt [] [] [] [] [])) else
  let* '(ret, set) := gp_conv_oid_set_to_gssx mech_attrs in
  if negb (ret =? 0)
  then fail GSS_S_FAILURE ret (part set (fun ma => mi nt ma [] [] [] [])) else
  let ma := default [] (sent_set set) in
  let* '(maj, min, attr_set) := note_attrs mech_attrs attr_set min in
  if negb (maj =? 0) then fail maj min (Some (mi nt ma [] [] [] [])) else
  let* '(ret, set) := gp_conv_oid_set_to_gssx known in
  if negb (ret =? 0)
  then fail GSS_S_FAILURE ret (part set (fun ka => mi nt ma ka [] [] [])) else
  let ka := default [] (sent_set set) in
  let* '(maj, min, attr_set) := note_attrs known attr_set min in
  if negb (maj =? 0) then fail maj min (Some (mi nt ma ka [] [] [])) else
  let* '(maj, min, (sasl_mech_name, mech_name, mech_desc)) := gss_inquire_saslname_for_mech mech in
  if negb (maj =? 0) then fail maj min (Some (mi nt ma ka [] [] [])) else
  let* '(ret, sasl) := gp_conv_buffer_to_gssx sasl_mech_name in
  if negb (ret =? 0) then fail GSS_S_FAILURE ret (Some (mi nt ma ka [] [] [])) else
  let* '(ret, name) := gp_conv_buffer_to_gssx mech_name in
  if negb (ret =? 0) then fail GSS_S_FAILURE ret (Some (mi nt ma ka sasl [] [])) else
  let* '(ret, desc) := gp_conv_buffer_to_gssx mech_desc in
  if negb (ret =? 0) then fail GSS_S_FAILURE ret (Some (mi nt ma ka sasl name [])) else
  mret (MechDone (mi nt ma ka sasl name desc) attr_set).

(** The loop: whether it ran to its end, the statuses, the entries and the attributes.
    [room] counts the entries left; a skipped mechanism gives its entry up, and the status
    of the last mechanism stays when it was skipped. *)
Fixpoint mechs_loop (mechs : list bytes) (done : list gssx_mech_info) (room : nat)
  (stale : bool) (attr_set : list bytes) (maj min : Z)
  : M W (bool * Z * Z * option (list gssx_mech_info) * list bytes) :=
  match mechs with
  | [] => mret (true, maj, min, Some (done ++ replicate room empty_mech_info), attr_set)
  | mech :: mechs =>
      let* t := conv_mech mech stale attr_set in
      match t with
      | MechDone mi attr_set =>
          mechs_loop mechs (done ++ [mi]) (room - 1) false attr_set 0 0
      | MechSkip maj min mi =>
          mechs_loop mechs done (room - 1) (negb (len (mech_info_mech mi) =? 0)) attr_set maj min
      | MechFail maj min mi =>
          mret (false, maj, min,
                mi ← mi; Some (done ++ [mi] ++ replicate (room - 1) empty_mech_info), attr_set)
      end
  end.

Fixpoint attrs_loop (attrs : list bytes) (done : list gssx_mech_attr) (maj min : Z)
  : M W (Z * Z * list gssx_mech_attr) :=
  match attrs with
  | [] => mret (maj, min, done)
  | a :: attrs =>
      let fail maj min ma :=
        mret (maj, min, done ++ [ma] ++ replicate (length attrs) empty_mech_attr) in
      let* '(ret, attr) := gp_conv_oid_to_gssx (Some a) in
      if negb (ret =? 0) then fail GSS_S_FAILURE ret empty_mech_attr else
      let* '(maj, min, (name, short_desc, long_desc)) := gss_display_mech_attr a in
      if negb (maj =? 0) then fail maj min (Mk_mech_attr attr [] [] [] []) else
      let* '(ret, n) := gp_conv_buffer_to_gssx name in
      if negb (ret =? 0) then fail GSS_S_FAILURE ret (Mk_mech_attr attr [] [] [] []) else
      let* '(ret, sd) := gp_conv_buffer_to_gssx short_desc in
      if negb (ret =? 0) then fail GSS_S_FAILURE ret (Mk_mech_attr attr n [] [] []) else
      let* '(ret, ld) := gp_conv_buffer_to_gssx long_desc in
      if negb (ret =? 0) then fail GSS_S_FAILURE ret (Mk_mech_attr attr n sd [] []) else
      attrs_loop attrs (done ++ [Mk_mech_attr attr n sd ld []]) 0 0
  end.

Definition gp_indicate_mechs (_ : gssx_arg_indicate_mechs) : M W (Z * option gssx_res_indicate_mechs) :=
  let done maj min mechs attrs :=
    finish maj min None (fun st => mechs ← mechs;
      Some (Mk_res_indicate_mechs st mechs attrs [] [])) in
  let* '(maj, min, mech_set) := gss_indicate_mechs in
  if negb (maj =? 0) then done maj min (Some []) [] else
  let* '(maj, min, attr_set) := gss_create_empty_oid_set in
  if negb (maj =? 0) then done maj min (Some []) [] else
  let* ok := malloc in
  if negb ok then done GSS_S_FAILURE ENOMEM (Some []) [] else
  let* '(go, maj, min, mechs, attr_set) :=
    mechs_loop mech_set [] (length mech_set) false attr_set maj min in
  if negb go then done maj min mechs [] else
  let* ok := malloc in
  if negb ok then done GSS_S_FAILURE ENOMEM mechs [] else
  let* '(maj, min, attrs) := attrs_loop attr_set [] maj min in
  done maj min mechs attrs.
End handlers.
