(* ===== verification/CredHandlers.v ===== *)
(** * The procedures that use credentials, and the table's procedures

    src/gp_rpc_acquire_cred.c, gp_rpc_init_sec_context.c and gp_rpc_accept_sec_context.c,
    and the instance of [RpcHandlers] the dispatcher calls.  A procedure also returns the
    callback it leaves in the call context: the memory cache to destroy after the call. *)

From S2P Require Import Prelude Xdr RpcXdr GssxXdr RpcProcess World Util Service Conv Crypt Export.
From S2P Require Import LinuxCreds Creds Handlers.

Section handlers.
Context {XL : XdrLib} {W : Type} {AL : Alloc W} {KL : KrbLib W} {GL : GssLib W}
  {NL : NssLib W} {CC : CcLib W}.

(** ** Acquiring credentials *)

(** the mechanisms of the request the service allows; the last one looked at *)
Fixpoint allowed_mechs (gpcall : gp_call_ctx) (desired : list bytes) (use : list bytes)
  (min : Z) (last : option bytes) : M W (Z * Z * list bytes * option bytes) :=
  match desired with
  | [] => mret (GSS_S_COMPLETE, min, use, last)
  | m :: desired =>
      if negb (gp_creds_allowed_mech gpcall (Some m))
      then allowed_mechs gpcall desired use min (Some m) else
      let* '(maj, min, use) := gss_add_oid_set_member m use in
      if negb (maj =? 0) then mret (maj, min, use, Some m)
      else allowed_mechs gpcall desired use min (Some m)
  end.

(** the credentials of the procedure: [in_cred], [out_cred], and the callback *)
Record aq_creds := AqCreds {
  aq_in : option gss_cred; aq_out : option gss_cred; aq_callback : option bytes }.

(** The loop over the mechanisms.  [add]: add_out_cred points to in_cred, not to out_cred *)
Fixpoint acquire_mechs (gpcall : gp_call_ctx) (acquire_type : Z) (add : bool)
  (desired_name : option gssx_name) (cred_usage : Z) (mechs : list bytes)
  (min : Z) (last : option bytes) (c : aq_creds) : M W (Z * Z * option bytes * aq_creds) :=
  match mechs with
  | [] => mret (GSS_S_COMPLETE, min, last, c)
  | m :: mechs =>
      if negb (gss_oid_equal (Some m) (Some gss_mech_krb5))
      then mret (GSS_S_BAD_MECH, min, Some m, c) else
      let* r := gp_add_krb5_creds gpcall acquire_type (aq_in c) desired_name cred_usage in
      let callback := match ak_callback r with Some b => Some b | None => aq_callback c end in
      let c := if add then AqCreds (ak_out r) (aq_out c) callback
               else AqCreds (aq_in c) (ak_out r) callback in
      if negb (ak_maj r =? 0) then mret (ak_maj r, ak_min r, Some m, c)
      else acquire_mechs gpcall acquire_type add desired_name cred_usage mechs
             (ak_min r) (Some m) c
  end.

Definition gp_acquire_cred (gpcall : gp_call_ctx) (aca : gssx_arg_acquire_cred)
  : M W (Z * option gssx_res_acquire_cred * option bytes) :=
  (* [same]: out_cred is in_cred *)
  let done maj min mech handle c (same : bool) :=
    let* '(ret, r) := finish maj min mech
                        (fun st => Some (Mk_res_acquire_cred st handle [])) in
    let* _ := if same then mret tt else gss_release_cred (aq_in c) in
    let* _ := gss_release_cred (if same then aq_in c else aq_out c) in
    mret (ret, r, aq_callback c) in
  let c := AqCreds None None None in
  let* '(maj, min, in_cred, acquire_type) :=
    match arg_acquire_cred_input_cred_handle aca with
    | None => mret (0, 0, None, ACQ_NORMAL)
    | Some h =>
        let* '(maj, min, in_cred) := gp_import_gssx_cred gpcall h in
        if negb (maj =? 0) then mret (maj, min, in_cred, ACQ_NORMAL) else
        let acquire_type := gp_get_acquire_type aca in
        mret (if acquire_type =? -1 then (GSS_S_FAILURE, EINVAL, in_cred, ACQ_NORMAL)
              else (0, min, in_cred, acquire_type))
    end in
  let c := AqCreds in_cred None None in
  if negb (maj =? 0) then done maj min None None c false else
  let add := arg_acquire_cred_add_cred_to_input_handle aca in
  let* '(ret, desired_mechs) := gp_conv_gssx_to_oid_set (arg_acquire_cred_desired_mechs aca) in
  if negb (ret =? 0) then done GSS_S_FAILURE ret None None c false else
  let* '(maj, min, use_mechs, last) :=
    match desired_mechs with
    | Some desired =>
        let* '(maj, min, use) := gss_create_empty_oid_set in
        if negb (maj =? 0) then mret (maj, min, use, None) else
        let* '(maj, min, use, last) := allowed_mechs gpcall desired use min None in
        if negb (maj =? 0) then mret (maj, min, use, last) else
        mret (if len use =? 0 then (GSS_S_NO_CRED, 0, use, None) else (0, min, use, last))
    | None =>
        let* '(maj, min, use) := gp_get_supported_mechs in mret (maj, min, use, None)
    end in
  if negb (maj =? 0) then done maj min last None c false else
  let cred_usage := gp_conv_gssx_to_cred_usage (arg_acquire_cred_cred_usage aca) in
  let* '(maj, min, last, c) :=
    acquire_mechs gpcall acquire_type add (arg_acquire_cred_desired_name aca) cred_usage
      use_mechs min last c in
  if negb (maj =? 0) then done maj min last None c false else
  match aq_out c with
  | None =>
      match aq_in c with
      | None => done GSS_S_NO_CRED 0 last None c false
      | Some _ => done maj min last (arg_acquire_cred_input_cred_handle aca) c true
      end
  | Some _ =>
      let* ok := malloc in
      if negb ok then done GSS_S_FAILURE ENOMEM last None c false else
      let* '(maj, min, out, handle) := gp_export_gssx_cred gpcall (aq_out c) in
      done maj min last (Some handle) (AqCreds (aq_in c) out (aq_callback c)) false
  end.

(** ** Initiating a context *)

Record isc_locals := Isc {
  is_ctx : option gss_ctx; is_cred : option gss_cred; is_target : option gss_name;
  is_mech : option bytes; is_callback : option bytes }.

(** A request without a target name is the null dereference of gp_conv_gssx_to_name. *)
Definition gp_init_sec_context (gpcall : gp_call_ctx) (isca : gssx_arg_init_sec_context)
  : M W (Z * option gssx_res_init_sec_context * option bytes) :=
  let done maj min init ctx tok opts l :=
    let '(maj, min) := if maj =? GSS_S_COMPLETE then init else (maj, min) in
    let* '(ret, r) := finish maj min (is_mech l) (fun st => ctx ← sent_ctx ctx;
      Some (Mk_res_init_sec_context st ctx tok opts)) in
    let* _ := gss_delete_sec_context (is_ctx l) in
    let* _ := gss_release_name (is_target l) in
    let* _ := gss_release_cred (is_cred l) in
    mret (ret, r, is_callback l) in
  let fail maj min l := done maj min (0, 0) None None [] l in
  let gcch := CheckHandle gpcall (arg_init_sec_context_options isca) in
  let exp_ctx_type := gp_get_exported_context_type (arg_init_sec_context_call_ctx isca) in
  if exp_ctx_type =? -1 then fail GSS_S_FAILURE EINVAL (Isc None None None None None) else
  let* '(maj, min, ctx) :=
    match arg_init_sec_context_context_handle isca with
    | Some h => gp_import_gssx_to_ctx_id 0 h
    | None => mret (0, 0, None)
    end in
  if negb (maj =? 0) then fail maj min (Isc ctx None None None None) else
  let* '(maj, min, ich, gccn_before) :=
    match arg_init_sec_context_cred_handle isca with
    | Some h =>
        let* '(maj, min, ich) := gp_import_gssx_cred gpcall h in
        if negb (maj =? 0) then mret (maj, min, ich, 0) else
        let* n := gp_check_sync_creds gcch ich in mret (0, min, ich, n)
    | None => mret (0, 0, None, 0)
    end in
  if negb (maj =? 0) then fail maj min (Isc ctx ich None None None) else
  match arg_init_sec_context_target_name isca with
  | None => mret (0, None, None)
  | Some tn =>
  let* '(maj, min, target) := gp_conv_gssx_to_name tn in
  if negb (maj =? 0) then fail maj min (Isc ctx ich target None None) else
  let* '(ret, mech) := gp_conv_gssx_to_oid_alloc (Some (arg_init_sec_context_mech_type isca)) in
  if negb (ret =? 0) then fail GSS_S_FAILURE ret (Isc ctx ich target mech None) else
  let time_req := u32 (arg_init_sec_context_time_req isca) in
  let pcbs := gp_conv_gssx_to_cb <$> arg_init_sec_context_input_cb isca in
  let ibuf := gp_conv_gssx_to_buffer (default [] (arg_init_sec_context_input_token isca)) in
  let* '(maj, min, ich, callback) :=
    match ich with
    | Some _ => mret (0, min, ich, None)
    | None =>
        if gss_oid_equal mech (Some gss_mech_krb5) then
          let* r := gp_add_krb5_creds gpcall ACQ_NORMAL None None GSS_C_INITIATE in
          mret (ak_maj r, ak_min r, ak_out r, ak_callback r)
        else mret (GSS_S_NO_CRED, 0, None, None)
    end in
  let l ctx ich := Isc ctx ich target mech callback in
  if negb (maj =? 0) then fail maj min (l ctx ich) else
  let* '(maj, min) := gp_cred_allowed min gpcall ich target in
  if negb (maj =? 0) then fail maj min (l ctx ich) else
  let req_flags := gp_filter_flags gpcall (u32 (arg_init_sec_context_req_flags isca)) in
  let* '(maj, min, (ctx, _, obuf)) :=
    gss_init_sec_context ich ctx target mech req_flags time_req pcbs ibuf in
  if negb (maj =? GSS_S_COMPLETE) && negb (maj =? GSS_S_CONTINUE_NEEDED)
  then fail maj min (l ctx ich) else
  let init := (maj, min) in
  let exp_ctx_type := if maj =? GSS_S_CONTINUE_NEEDED
                      then gp_get_continue_needed_type else exp_ctx_type in
  let* ok := malloc in
  if negb ok then done GSS_S_FAILURE ENOMEM init None None [] (l ctx ich) else
  let* '(maj, min, ctx, out) := gp_export_ctx_id_to_gssx exp_ctx_type mech ctx in
  if negb (maj =? 0) then done maj min init (Some out) None [] (l ctx ich) else
  let* '(ret, tok) :=
    if len obuf =? 0 then mret (0, None) else
    let* ok := malloc in
    if negb ok then mret (ENOMEM, None) else
    let* '(ret, t) := gp_conv_buffer_to_gssx obuf in mret (ret, Some t) in
  if negb (ret =? 0) then done GSS_S_FAILURE ret init (Some out) tok [] (l ctx ich) else
  let* gccn_after := gp_check_sync_creds gcch ich in
  let* '(ich, opts) :=
    if gccn_before =? gccn_after then mret (ich, []) else
    let* '(_, _, ich, opts) := gp_export_sync_creds gpcall ich [] in mret (ich, opts) in
  done GSS_S_COMPLETE min init (Some out) tok opts (l ctx ich)
  end.

(** ** Accepting a context *)

Record asc_locals := Asc {
  as_ctx : option gss_ctx; as_cred : option gss_cred; as_src : option gss_name;
  as_oid : option bytes; as_deleg : option gss_cred; as_callback : option bytes }.

(** The context handle of the request is not looked at.  [None] as the procedure's result
    also stands for a lookup of the client's groups that used up [fuel]. *)
Definition gp_accept_sec_context (fuel : nat) (gpcall : gp_call_ctx)
  (asca : gssx_arg_accept_sec_context)
  : M W (Z * option gssx_res_accept_sec_context * option bytes) :=
  let done maj min acpt ctx tok deleg opts l :=
    let '(maj, min) := if maj =? GSS_S_COMPLETE then acpt else (maj, min) in
    let* '(ret, r) := finish maj min (as_oid l) (fun st => ctx ← sent_ctx ctx;
      Some (Mk_res_accept_sec_context st ctx tok deleg opts)) in
    let* _ := gss_release_name (as_src l) in
    let* _ := gss_release_cred (as_deleg l) in
    let* _ := gss_release_cred (as_cred l) in
    let* _ := gss_delete_sec_context (as_ctx l) in
    mret (ret, r, as_callback l) in
  let fail maj min l := done maj min (0, 0) None None None [] l in
  let only ach cb := Asc None ach None None None cb in
  let gcch := CheckHandle gpcall (arg_accept_sec_context_options asca) in
  let exp_ctx_type := gp_get_exported_context_type (arg_accept_sec_context_call_ctx asca) in
  if exp_ctx_type =? -1 then fail GSS_S_FAILURE EINVAL (only None None) else
  let exp_creds_type := gp_get_export_creds_type (arg_accept_sec_context_call_ctx asca) in
  if exp_creds_type =? -1 then fail GSS_S_FAILURE EINVAL (only None None) else
  let* '(maj, min, ach, gccn_before) :=
    match arg_accept_sec_context_cred_handle asca with
    | Some h =>
        let* '(maj, min, ach) := gp_import_gssx_cred gpcall h in
        if negb (maj =? 0) then mret (maj, min, ach, 0) else
        let* n := gp_check_sync_creds gcch ach in mret (0, min, ach, n)
    | None => mret (0, 0, None, 0)
    end in
  if negb (maj =? 0) then fail maj min (only ach None) else
  let* '(maj, min, ach, callback) :=
    match ach with
    | Some _ => mret (0, min, ach, None)
    | None =>
        let* r := gp_add_krb5_creds gpcall ACQ_NORMAL None None GSS_C_ACCEPT in
        mret (ak_maj r, ak_min r, ak_out r, ak_callback r)
    end in
  if negb (maj =? 0) then fail maj min (only ach callback) else
  let ibuf := gp_conv_gssx_to_buffer (arg_accept_sec_context_input_token asca) in
  let pcbs := gp_conv_gssx_to_cb <$> arg_accept_sec_context_input_cb asca in
  let want_deleg := arg_accept_sec_context_ret_deleg_cred asca in
  let* '(maj, min, (ctx, src_name, oid, obuf, ret_flags, dch)) :=
    gss_accept_sec_context None ach ibuf pcbs true want_deleg in
  let dch := if want_deleg then dch else None in
  let l ctx dch ach := Asc ctx ach src_name oid dch callback in
  if negb (maj =? GSS_S_COMPLETE) && negb (maj =? GSS_S_CONTINUE_NEEDED)
  then fail maj min (l ctx dch ach) else
  let acpt := (maj, min) in
  let exp_ctx_type := if maj =? GSS_S_CONTINUE_NEEDED
                      then gp_get_continue_needed_type else exp_ctx_type in
  let* ok := malloc in
  if negb ok then done GSS_S_FAILURE ENOMEM acpt None None None [] (l ctx dch ach) else
  let* '(maj, min, ctx, out) := gp_export_ctx_id_to_gssx exp_ctx_type oid ctx in
  if negb (maj =? 0) then done maj min acpt (Some out) None None [] (l ctx dch ach) else
  let* ok := malloc in
  if negb ok then done GSS_S_FAILURE ENOMEM acpt (Some out) None None [] (l ctx dch ach) else
  let* '(ret, tok) := gp_conv_buffer_to_gssx obuf in
  if negb (ret =? 0)
  then done GSS_S_FAILURE ret acpt (Some out) (Some []) None [] (l ctx dch ach) else
  let* '(maj, min, dch, deleg) :=
    if negb (Z.land ret_flags GSS_C_DELEG_FLAG =? 0) && want_deleg && bool_decide (is_Some dch) then
      let* ok := malloc in
      if negb ok then mret (GSS_S_FAILURE, ENOMEM, dch, None) else
      let* '(maj, min, dch, handle) := gp_export_gssx_cred gpcall dch in
      mret (maj, min, dch, Some handle)
    else mret (0, 0, dch, None) in
  if negb (maj =? 0) then done maj min acpt (Some out) (Some tok) deleg [] (l ctx dch ach) else
  let* r := gp_export_creds_to_gssx_options fuel exp_creds_type src_name oid [] in
  match r with
  | None => mret (0, None, callback)
  | Some (maj, min, opts) =>
  if negb (maj =? 0) then done maj min acpt (Some out) (Some tok) deleg opts (l ctx dch ach) else
  let* gccn_after := gp_check_sync_creds gcch ach in
  let* '(ach, opts) :=
    if gccn_before =? gccn_after then mret (ach, opts) else
    let* '(_, _, ach, opts) := gp_export_sync_creds gpcall ach opts in mret (ach, opts) in
  done GSS_S_COMPLETE min acpt (Some out) (Some tok) deleg opts (l ctx dch ach)
  end.
End handlers.

(** ** The procedures of the table *)

(** what a call works in: the world and the call context, with its callback *)
Record call_world (W : Type) := CallWorld {
  cw_call : gp_call_ctx; cw_callback : option bytes; cw_world : W }.
Arguments CallWorld {W}. Arguments cw_call {W}. Arguments cw_callback {W}. Arguments cw_world {W}.

Definition with_world {W R} (f : M W (Z * option R)) (c : call_world W)
  : Z * option R * call_world W :=
  let '(r, w) := f (cw_world c) in (r, CallWorld (cw_call c) (cw_callback c) w).

(** a new callback takes the place of the one before *)
Definition with_call {W R} (f : gp_call_ctx -> M W (Z * option R * option bytes))
  (c : call_world W) : Z * option R * call_world W :=
  let '(r, cb, w) := f (cw_call c) (cw_world c) in
  (r, CallWorld (cw_call c) (match cb with Some b => Some b | None => cw_callback c end) w).

Definition server_handlers {XL : XdrLib} {W} {AL : Alloc W} {KL : KrbLib W} {GL : GssLib W}
    {NL : NssLib W} {CC : CcLib W} (fuel : nat) : RpcHandlers (call_world W) := {|
  RpcProcess.gp_indicate_mechs c a := with_world (Handlers.gp_indicate_mechs a) c;
  RpcProcess.gp_import_and_canon_name c a := with_world (Handlers.gp_import_and_canon_name a) c;
  RpcProcess.gp_acquire_cred c a := with_call (fun call => gp_acquire_cred call a) c;
  RpcProcess.gp_init_sec_context c a := with_call (fun call => gp_init_sec_context call a) c;
  RpcProcess.gp_accept_sec_context c a :=
    with_call (fun call => gp_accept_sec_context fuel call a) c;
  RpcProcess.gp_release_handle c a := with_world (Handlers.gp_release_handle a) c;
  RpcProcess.gp_get_mic c a := with_world (Handlers.gp_get_mic a) c;
  RpcProcess.gp_verify_mic c a := with_world (Handlers.gp_verify_mic a) c;
  RpcProcess.gp_wrap c a := with_world (Handlers.gp_wrap a) c;
  RpcProcess.gp_unwrap c a := with_world (Handlers.gp_unwrap a) c;
  RpcProcess.gp_wrap_size_limit c a := with_world (Handlers.gp_wrap_size_limit a) c;
|}.
