(* ===== verification/HandlerProps.v ===== *)
(** * What the procedures promise

    Properties of Handlers.v and CredHandlers.v: complete replies, what a client must be
    allowed before a context leaves the server, what an acquired credential is, and the
    requests that stop the server. *)

From S2P Require Import Prelude Xdr Rfc4506 RpcXdr GssxXdr RpcProcess RpcTable RpcReply.
From S2P Require Import RpcExamples World Toy Util Service Conv Crypt Export LinuxCreds Creds CredsProps Handlers CredHandlers Format.

Lemma finish_wp {W} {AL : Alloc W} {GL : GssLib W} {R} maj min mech
    (res : gssx_status -> option R) (Q : Z * option R -> W -> Prop) w :
  (forall ret st w', status_major_status st = maj -> Q (ret, res st) w') ->
  wp (finish maj min mech res) Q w.
Proof.
  intros H. unfold finish. apply wp_bind.
  eapply wp_conseq; [apply status_major|]. intros [ret st] w' Hst. by apply wp_ret, H.
Qed.

(** Walking through a procedure: each call with its outcome, each test with its answer. *)
Ltac unpair := repeat match goal with p : (_ * _)%type |- _ => destruct p end.
Ltac walk1 :=
  lazymatch goal with
  | |- wp (mret _) _ _ => apply wp_ret
  | |- wp (finish _ _ _ _) _ _ =>
      let Hs := fresh "Hst" in apply finish_wp; intros ? ? ? Hs
  | |- wp (bind (finish _ _ _ _) _) _ _ =>
      let Hs := fresh "Hst" in apply wp_bind, finish_wp; intros ? ? ? Hs
  | |- wp (bind _ _) _ _ =>
      let H := fresh "Hrun" in apply wp_step; intros ? ? H; unpair
  | |- wp (if negb (?x =? 0) then _ else _) _ _ =>
      let H := fresh "Hne" in destruct (Z.eqb_spec x 0) as [H|H]; cbn [negb]
  | |- wp (if negb ?b then _ else _) _ _ => destruct b; cbn [negb]
  | |- wp (match (if ?b then _ else _) with _ => _ end) _ _ =>
      let H := fresh "Hb" in destruct b eqn:H
  | |- wp (if ?b then _ else _) _ _ => let H := fresh "Hb" in destruct b eqn:H
  | |- wp (match ?o with _ => _ end) _ _ => let H := fresh "Hm" in destruct o eqn:H
  end.
Ltac walk := repeat (walk1; cbn beta iota zeta).

(** ** Message protection *)

Section protection.
Context {W : Type} {AL : Alloc W} {GL : GssLib W}.

(** an export that succeeds leaves a whole context *)
Definition whole (c : ctx_out) : Prop := match c with Whole _ => True | Freed _ => False end.

Lemma sent_whole c c' : sent_ctx (Some c) = Some c' -> is_Some c'.
Proof. destruct c as [c|c]; simpl; [intros [= <-]; eauto|]. case_match; [intros [= <-]; eauto|done]. Qed.

Lemma conv_buffer_ok i w b w' :
  gp_conv_buffer_to_gssx i w = ((0, b), w') -> b = truncate32 i.
Proof.
  intros H. assert (Hc := octet_string_cases i w). apply (wp_run _ _ _ _ _ H) in Hc.
  by destruct Hc as [Hc|Hc]; injection Hc.
Qed.

(** an outcome that does not say complete, or whose result has lost its bytes *)
Ltac incomplete :=
  intros ? Hres Hc; exfalso; revert Hres Hc; unfold sent_ctx; repeat case_match; intros;
  simplify_eq/=;
  match goal with H : status_major_status _ = _, Hc : status_major_status _ = GSS_S_COMPLETE |- _ =>
    rewrite H in Hc; first [discriminate Hc | contradiction] end.

Ltac converted :=
  match goal with H : gp_conv_buffer_to_gssx _ _ = _ |- _ => apply conv_buffer_ok in H as -> end.

(** A reply to GSSX_GET_MIC that says complete has the context, the quality of
    protection of the request, and the token the library made for the message of the
    request. *)
Theorem get_mic_complete gma w :
  wp (gp_get_mic gma) (fun '(_, res) _ => forall gmr, res = Some gmr ->
    status_major_status (res_get_mic_status gmr) = GSS_S_COMPLETE ->
    is_Some (res_get_mic_context_handle gmr) /\
    res_get_mic_qop_state gmr = Some (arg_get_mic_qop_req gma) /\
    exists h min tok w1 w2,
      gss_get_mic h (u32 (arg_get_mic_qop_req gma)) (arg_get_mic_message_buffer gma) w1
        = ((0, min, tok), w2) /\
      res_get_mic_token_buffer gmr = truncate32 tok) w.
Proof.
  unfold gp_get_mic. cbn beta iota zeta. walk; try incomplete.
  intros gmr Hres _. destruct (sent_ctx _) as [ctx|] eqn:Hctx; [|done]. simplify_eq/=.
  split; [by eapply sent_whole|]. split; [done|].
  converted. eauto 10.
Qed.

(** A reply to GSSX_WRAP that says complete has the context, the quality of protection
    of the request, and the token the library made for the message of the request - the
    empty one when the request has none - with the confidentiality it was made with. *)
Theorem wrap_complete wa w :
  wp (gp_wrap wa) (fun '(_, res) _ => forall wr, res = Some wr ->
    status_major_status (res_wrap_status wr) = GSS_S_COMPLETE ->
    is_Some (res_wrap_context_handle wr) /\
    res_wrap_qop_state wr = Some (arg_wrap_qop_state wa) /\
    exists h min conf tok w1 w2,
      gss_wrap h (Z.b2z (arg_wrap_conf_req wa)) (u32 (arg_wrap_qop_state wa))
        (default [] (head (arg_wrap_message_buffer wa))) w1 = ((0, min, (conf, tok)), w2) /\
      res_wrap_token_buffer wr = [truncate32 tok] /\
      res_wrap_conf_state wr = Some (negb (conf =? 0))) w.
Proof.
  unfold gp_wrap. cbn beta iota zeta. walk; try incomplete.
  intros wr Hres _. destruct (sent_ctx _) as [ctx|] eqn:Hctx; [|done]. simplify_eq/=.
  split; [by eapply sent_whole|]. split; [done|]. converted.
  unfold first_buffer in *. destruct (arg_wrap_message_buffer wa); eauto 10.
Qed.

(** A reply to GSSX_UNWRAP that says complete has the context, the message the library
    took out of the token of the request and its confidentiality; the quality of protection
    is the one the request claims, not the one the library found. *)
Theorem unwrap_complete uwa w :
  wp (gp_unwrap uwa) (fun '(_, res) _ => forall uwr, res = Some uwr ->
    status_major_status (res_unwrap_status uwr) = GSS_S_COMPLETE ->
    is_Some (res_unwrap_context_handle uwr) /\
    res_unwrap_qop_state uwr = Some (arg_unwrap_qop_state uwa) /\
    exists h min msg conf qop w1 w2,
      gss_unwrap h (default [] (head (arg_unwrap_token_buffer uwa))) w1
        = ((0, min, (msg, conf, qop)), w2) /\
      res_unwrap_message_buffer uwr = [truncate32 msg] /\
      res_unwrap_conf_state uwr = Some (negb (conf =? 0))) w.
Proof.
  unfold gp_unwrap. cbn beta iota zeta. walk; try incomplete.
  intros uwr Hres _. destruct (sent_ctx _) as [ctx|] eqn:Hctx; [|done]. simplify_eq/=.
  split; [by eapply sent_whole|]. split; [done|]. converted.
  unfold first_buffer in *. destruct (arg_unwrap_token_buffer uwa); eauto 12.
Qed.
End protection.

(** ** Contexts *)

Section contexts.
Context {XL : XdrLib} {W : Type} {AL : Alloc W} {KL : KrbLib W} {GL : GssLib W}
  {NL : NssLib W} {CC : CcLib W}.

(** an outcome before the library took the step *)
Ltac refused :=
  intros ? Hres Hc; exfalso; injection Hres as <-; revert Hc; cbn;
  intros [[? Hc]|[[? Hc]|[Hc|Hc]]];
    [discriminate Hc|discriminate Hc|first [by apply Hc|by destruct Hc]|];
  revert Hc; match goal with H : status_major_status _ = _ |- _ => rewrite H end; intros Hc;
  repeat match goal with H : (_ =? _) = true |- _ => apply Z.eqb_eq in H
                       | H : (_ =? _) = false |- _ => apply Z.eqb_neq in H end;
  first [contradiction|discriminate Hc|match goal with H : _ = _ |- _ => discriminate H end].

Lemma step_taken maj : negb (maj =? GSS_S_COMPLETE) && negb (maj =? GSS_S_CONTINUE_NEEDED) = false ->
  maj = GSS_S_COMPLETE \/ maj = GSS_S_CONTINUE_NEEDED.
Proof.
  intros H. apply andb_false_iff in H as [H|H]; apply negb_false_iff, Z.eqb_eq in H; auto.
Qed.

(** an outcome after the library took the step *)
Ltac taken :=
  intros ? Hres _;
  match goal with Ha : gp_cred_allowed _ _ _ _ _ = (?m, _, _), Hz : ?m = 0 |- _ => rewrite Hz in Ha end;
  match goal with
  | Ha : gp_cred_allowed _ _ _ _ _ = _, Hi : gss_init_sec_context _ _ _ _ _ _ _ _ _ = _,
    Ht : negb _ && negb _ = false |- _ =>
      apply step_taken in Ht; do 12 eexists; split; [exact Ha|]; split; [exact Hi|];
      split; [exact Ht|]; clear Ht
  end;
  match type of Hres with (sent_ctx ?x ≫= _) = _ => destruct (sent_ctx x); [|discriminate Hres] end;
  injection Hres as <-; cbn;
  match goal with H : status_major_status _ = _ |- _ => rewrite H end;
  repeat match goal with H : (_ =? _) = true |- _ => apply Z.eqb_eq in H
                       | H : (_ =? _) = false |- _ => apply Z.eqb_neq in H end;
  first [done|intros; contradiction].

(** C20. Nothing of a context leaves the server - no handle, no token, no synchronised
    credential, no complete status - unless the credential was found good for the target and
    the library was then asked, with that credential, that target and the filtered flags,
    and took the step; and the status sent for a step that was taken is the library's. *)
Theorem init_sec_context_gated gpcall isca w :
  wp (gp_init_sec_context gpcall isca) (fun '(_, res, _) _ => forall iscr, res = Some iscr ->
    is_Some (res_init_sec_context_context_handle iscr) \/
    is_Some (res_init_sec_context_output_token iscr) \/
    res_init_sec_context_options iscr <> [] \/
    status_major_status (res_init_sec_context_status iscr) = GSS_S_COMPLETE ->
    exists cred target ctx mech min0 min1 w1 w2 maj min out w3,
      gp_cred_allowed min0 gpcall cred target w1 = ((GSS_S_COMPLETE, min1), w2) /\
      gss_init_sec_context cred ctx target mech
        (gp_filter_flags gpcall (u32 (arg_init_sec_context_req_flags isca)))
        (u32 (arg_init_sec_context_time_req isca))
        (gp_conv_gssx_to_cb <$> arg_init_sec_context_input_cb isca)
        (default [] (arg_init_sec_context_input_token isca)) w2 = ((maj, min, out), w3) /\
      (maj = GSS_S_COMPLETE \/ maj = GSS_S_CONTINUE_NEEDED) /\
      (status_major_status (res_init_sec_context_status iscr) = GSS_S_COMPLETE ->
       maj = GSS_S_COMPLETE)) w.
Proof.
  unfold gp_init_sec_context. cbn beta iota zeta. walk; try refused.
  all: first [by intros ? [=]|taken].
Qed.
(** ** What the acceptor sends *)

(** the credential of the acceptor: the one of the request, or else one of the service *)
Definition acceptor_cred (gpcall : gp_call_ctx) (h : option gssx_cred) (ach : option gss_cred) : Prop :=
  (exists h' min w w', h = Some h' /\ gp_import_gssx_cred gpcall h' w = ((0, min, ach), w') /\ is_Some ach) \/
  (exists r w w', gp_add_krb5_creds gpcall ACQ_NORMAL None None GSS_C_ACCEPT w = (r, w') /\
     ak_maj r = 0 /\ ach = ak_out r).

(** [c] is what is sent of the context the library has made *)
Definition exported_context (type : Z) (oid : option bytes) (ctx : option gss_ctx) (c : gssx_ctx) : Prop :=
  exists w maj min left out w', gp_export_ctx_id_to_gssx type oid ctx w = ((maj, min, left, out), w') /\
    sent_ctx (Some out) = Some (Some c).

(** [d] is the handle of the credential that was delegated *)
Definition exported_cred (gpcall : gp_call_ctx) (dch : option gss_cred) (d : gssx_cred) : Prop :=
  exists w maj min left w', gp_export_gssx_cred gpcall dch w = ((maj, min, left, d), w').

(** the two steps in which the acceptor gets its credential *)
Lemma acceptor_cred_found gpcall h gcch maj0 min0 ach0 n w0 w1 maj min ach cb w2 :
  match h with
  | Some h =>
      let* '(maj, min, ach) := gp_import_gssx_cred gpcall h in
      if negb (maj =? 0) then mret (maj, min, ach, 0) else
      let* n := gp_check_sync_creds gcch ach in mret (0, min, ach, n)
  | None => mret (0, 0, None, 0)
  end w0 = ((maj0, min0, ach0, n), w1) -> maj0 = 0 ->
  match ach0 with
  | Some _ => mret (0, min0, ach0, None)
  | None =>
      let* r := gp_add_krb5_creds gpcall ACQ_NORMAL None None GSS_C_ACCEPT in
      mret (ak_maj r, ak_min r, ak_out r, ak_callback r)
  end w1 = ((maj, min, ach, cb), w2) -> maj = 0 -> acceptor_cred gpcall h ach.
Proof.
  intros H0 -> H1 ->. destruct ach0 as [c|].
  - injection H1 as <- <- <- <-. left. destruct h as [h'|]; [|discriminate H0]. unfold bind in H0.
    destruct (gp_import_gssx_cred gpcall h' w0) as [[[m mi] a] w] eqn:E.
    destruct (Z.eqb_spec m 0) as [->|Hm]; cbn [negb] in H0; [|by injection H0].
    destruct (gp_check_sync_creds gcch a w) as [k w'] eqn:E'. injection H0 as <- -> _ _.
    exists h', mi, w0, w. by split_and!.
  - right. unfold bind in H1. destruct (gp_add_krb5_creds _ _ _ _ _ w1) as [r w] eqn:E.
    injection H1 as Hm _ <- _ _. by exists r, w1, w.
Qed.

(** the delegated credential of a reply is there only when it was asked for and given *)
Lemma delegated_only gpcall (want : bool) flags (dch : option gss_cred) w maj min dch' deleg w' :
  let held := if want then dch else None in
  (if negb (Z.land flags GSS_C_DELEG_FLAG =? 0) && want && bool_decide (is_Some held) then
     let* ok := malloc in
     if negb ok then mret (GSS_S_FAILURE, ENOMEM, held, None) else
     let* '(maj, min, dch, handle) := gp_export_gssx_cred gpcall held in
     mret (maj, min, dch, Some handle)
   else mret (0, 0, held, None)) w = ((maj, min, dch', deleg), w') ->
  forall d, deleg = Some d -> want = true /\ Z.testbit flags 0 = true /\ exported_cred gpcall dch d.
Proof.
  intros held. destruct (negb _ && want && _) eqn:E; [|by intros [= _ _ _ <- _] ? ?].
  apply andb_true_iff in E as [[E ->]%andb_true_iff _]. subst held. intros Hrun d ->. split; [done|]. split.
  - apply negb_true_iff, Z.eqb_neq in E. destruct (Z.testbit flags 0) eqn:Hb; [done|].
    destruct E. change GSS_C_DELEG_FLAG with (Z.ones 1). rewrite Z.land_ones by lia.
    rewrite Z.pow_1_r, <- Z.bit0_mod, Hb. done.
  - unfold bind in Hrun. destruct (malloc w) as [[] w1]; [|discriminate Hrun]. cbn [negb] in Hrun.
    destruct (gp_export_gssx_cred gpcall dch w1) as [[[[m mi] l] h] w2] eqn:Ex.
    injection Hrun as <- <- <- <- <-. exists w1, m, mi, l, w2. exact Ex.
Qed.

(** what a reply may hold of a step with these outcomes *)
Record accept_reply (gpcall : gp_call_ctx) (asca : gssx_arg_accept_sec_context) (maj : Z)
    (ctx : option gss_ctx) (oid : option bytes) (obuf : bytes) (flags : Z) (dch : option gss_cred)
    (r : gssx_res_accept_sec_context) : Prop := AcceptReply {
  ar_status : status_major_status (res_accept_sec_context_status r) = GSS_S_COMPLETE -> maj = GSS_S_COMPLETE;
  ar_context c : res_accept_sec_context_context_handle r = Some c ->
    exported_context (if maj =? GSS_S_CONTINUE_NEEDED then gp_get_continue_needed_type
                      else gp_get_exported_context_type (arg_accept_sec_context_call_ctx asca)) oid ctx c;
  ar_token t : res_accept_sec_context_output_token r = Some t ->
    t = truncate32 obuf \/ t = [] /\ status_major_status (res_accept_sec_context_status r) = GSS_S_FAILURE;
  ar_deleg d : res_accept_sec_context_delegated_cred_handle r = Some d ->
    arg_accept_sec_context_ret_deleg_cred asca = true /\ Z.testbit flags 0 = true /\ exported_cred gpcall dch d }.

(** an outcome of the acceptor after the library took the step *)
Ltac accepted_step :=
  intros ? Hres _;
  match goal with
  | H0 : match arg_accept_sec_context_cred_handle _ with _ => _ end _ = _, Hz0 : ?m0 = 0,
    H1 : match ?a with _ => _ end _ = (_, ?ach, _, _), Hz1 : ?m1 = 0,
    Hi : gss_accept_sec_context _ ?ach _ _ _ _ _ = _, Ht : negb _ && negb _ = false |- _ =>
      apply step_taken in Ht; do 11 eexists; split; [exact (acceptor_cred_found _ _ _ _ _ _ _ _ _ _ _ _ _ _ H0 Hz0 H1 Hz1)|];
      split; [exact Hi|]; split; [exact Ht|]; clear Ht
  end;
  repeat match goal with H : (_ =? _) = true |- _ => apply Z.eqb_eq in H
                       | H : (_ =? _) = false |- _ => apply Z.eqb_neq in H end;
  match type of Hres with (sent_ctx ?x ≫= _) = _ =>
    let Hs := fresh "Hsent" in destruct (sent_ctx x) eqn:Hs; [|discriminate Hres] end;
  injection Hres as <-; constructor; cbn.

(** each part of it, from the call that made it *)
Ltac reply_status := match goal with Hs : status_major_status _ = _ |- _ => rewrite Hs end; first [done|intros; contradiction].
Ltac reply_context :=
  intros ? ->; first
  [ match goal with Hx : gp_export_ctx_id_to_gssx _ _ _ _ = _, Hs : sent_ctx _ = _ |- _ =>
      do 6 eexists; split; [exact Hx|exact Hs] end
  | match goal with Hs : sent_ctx None = _ |- _ => discriminate Hs end ].
Ltac reply_token :=
  intros ? [= <-]; first
  [ right; split; [done|]; match goal with Hs : status_major_status _ = _ |- _ => exact Hs end
  | left; match goal with Hc : gp_conv_buffer_to_gssx _ _ = (?r, _, _), Hz : ?r = 0 |- _ =>
      rewrite Hz in Hc; exact (conv_buffer_ok _ _ _ _ Hc) end ].
Ltac reply_deleg := first [by intros ? [=]|eapply delegated_only; eassumption].
(** C29. Any context, token or credential in a reply to GSSX_ACCEPT_SEC_CONTEXT comes from a step
    the library took on the token of the request, with the credential of the request or else
    one acquired for the service, always on a new context: the context the request continues is
    not used.  The context sent is the one of that step, exported; the token is the one the step
    put out, or empty in a reply that reports a failure; a delegated credential is the one of that step,
    and is sent only when the client asked for it and the library says one was delegated.  The
    reply says complete only when the library did. *)
Theorem accept_sec_context_steps fuel gpcall asca w :
  wp (gp_accept_sec_context fuel gpcall asca) (fun '(_, res, _) _ => forall ascr, res = Some ascr ->
    is_Some (res_accept_sec_context_context_handle ascr) \/
    is_Some (res_accept_sec_context_output_token ascr) \/
    is_Some (res_accept_sec_context_delegated_cred_handle ascr) \/
    status_major_status (res_accept_sec_context_status ascr) = GSS_S_COMPLETE ->
    exists ach w1 maj min ctx src oid obuf flags dch w2,
      acceptor_cred gpcall (arg_accept_sec_context_cred_handle asca) ach /\
      gss_accept_sec_context None ach (arg_accept_sec_context_input_token asca)
        (gp_conv_gssx_to_cb <$> arg_accept_sec_context_input_cb asca) true
        (arg_accept_sec_context_ret_deleg_cred asca) w1
        = ((maj, min, (ctx, src, oid, obuf, flags, dch)), w2) /\
      (maj = GSS_S_COMPLETE \/ maj = GSS_S_CONTINUE_NEEDED) /\
      accept_reply gpcall asca maj ctx oid obuf flags dch ascr) w.
Proof.
  unfold gp_accept_sec_context. cbn beta iota zeta. walk; try (by intros ? [=]).
  all: first [refused|accepted_step; [reply_status|reply_context|reply_token|reply_deleg]].
Qed.

(** ** Credentials *)

Lemma acquire_mechs_frame gpcall type add name usage mechs min last c w :
  wp (acquire_mechs gpcall type add name usage mechs min last c) (fun '(_, _, _, c') _ =>
    if (add : bool) then aq_out c' = aq_out c else aq_in c' = aq_in c) w.
Proof.
  revert min last c w. induction mechs as [|m mechs IH]; intros min last c w; cbn.
  { by destruct add. }
  destruct (negb _); [by destruct add|]. apply wp_step. intros r w1 _.
  destruct (negb (ak_maj r =? 0)); [by destruct add|].
  eapply wp_conseq; [apply IH|]. intros [[[? ?] ?] c'] w2. by destruct add.
Qed.

Lemma oid_set_in i w ret o w' : gp_conv_gssx_to_oid_set i w = ((ret, o), w') -> ret = 0 ->
  o = if decide (i = []) then None else Some i.
Proof.
  intros Hrun Hret. revert Hrun. unfold gp_conv_gssx_to_oid_set.
  destruct (Z.eqb_spec (len i) 0) as [E|E].
  { destruct i; [|done]. by intros [= _ <- _]. }
  rewrite decide_False by (by intros ->). intros Hrun.
  assert (Hw : wp (let* ok := malloc in
      if negb ok then mret (ENOMEM, None) else
      let* ok := malloc in
      if negb ok then mret (ENOMEM, None) else
      let* r := memdup_all i in
      match r with None => mret (ENOMEM, None) | Some r => mret (0, Some r) end)
    (fun '(ret, o) _ => ret = 0 -> o = Some i) w).
  { walk; try done. intros _. f_equal.
    match goal with H : memdup_all _ _ = _ |- _ =>
      destruct (wp_run _ _ _ _ _ H (memdup_all_cases _ _)) end; congruence. }
  by apply (wp_run _ _ _ _ _ Hrun Hw).
Qed.

(** an outcome without a credential to return *)
Ltac no_handle :=
  intros ? [= <-]; split; [|by left]; intros _ Hc; exfalso; revert Hc; cbn;
  match goal with H : status_major_status _ = _ |- _ => rewrite H end;
  first [discriminate|contradiction].

(** What GSSX_ACQUIRE_CRED returns.  A complete reply to a client that did not ask to
    add to its credential has a credential.  A client that did ask gets at most its own
    handle back: the acquired credential is never returned. *)
Theorem acquire_cred_handles gpcall aca w :
  wp (gp_acquire_cred gpcall aca) (fun '(_, res, _) _ => forall acr, res = Some acr ->
    (arg_acquire_cred_add_cred_to_input_handle aca = false ->
     status_major_status (res_acquire_cred_status acr) = GSS_S_COMPLETE ->
     is_Some (res_acquire_cred_output_cred_handle acr)) /\
    (arg_acquire_cred_add_cred_to_input_handle aca = true ->
     res_acquire_cred_output_cred_handle acr = None \/
     res_acquire_cred_output_cred_handle acr = arg_acquire_cred_input_cred_handle aca)) w.
Proof.
  unfold gp_acquire_cred. cbn beta iota zeta. walk; try no_handle.
  all: intros acr [= <-]; cbn.
  all: match goal with H : acquire_mechs _ _ _ _ _ _ _ _ _ _ = _ |- _ =>
    pose proof (wp_run _ _ _ _ _ H (acquire_mechs_frame _ _ _ _ _ _ _ _ _ _)) as Hframe end.
  - split; [eauto|]. intros Hadd. rewrite Hadd in Hframe. cbn in Hframe. congruence.
  - split; [|by right]. intros Hadd _. rewrite Hadd in Hframe. cbn in Hframe.
    destruct (arg_acquire_cred_input_cred_handle aca); [eauto|].
    match goal with H : mret (0, 0, None, ACQ_NORMAL) _ = _ |- _ => injection H end. congruence.
Qed.

Lemma allowed_mechs_cases gpcall desired use min last w :
  wp (allowed_mechs gpcall desired use min last) (fun '(maj, _, use', _) _ =>
    (exists m, m ∈ desired /\ gp_creds_allowed_mech gpcall (Some m) = true) \/
    use' = use) w.
Proof.
  revert use min last w. induction desired as [|m desired IH]; intros use min last w;
    cbn [allowed_mechs].
  { by right. }
  destruct (gp_creds_allowed_mech gpcall (Some m)) eqn:E; cbn [negb].
  - apply wp_any. intros [[[? ?] ?] ?] _. left. exists m. split; [by left|done].
  - eapply wp_conseq; [apply IH|]. intros [[[maj ?] use'] ?] w' [(m' & Hm & Ha)|H]; [|by right].
    left. exists m'. split; [by right|done].
Qed.

Lemma use_mechs_allowed gpcall desired w :
  (forall w', (gss_create_empty_oid_set w').1.2 = []) ->
  wp (let* '(maj, min, use) := gss_create_empty_oid_set in
      if negb (maj =? 0) then mret (maj, min, use, None) else
      let* '(maj, min, use, last) := allowed_mechs gpcall desired use min None in
      if negb (maj =? 0) then mret (maj, min, use, last) else
      mret (if len use =? 0 then (GSS_S_NO_CRED, 0, use, None) else (0, min, use, last)))
    (fun '(maj, _, _, _) _ => maj = 0 ->
      exists m, m ∈ desired /\ gp_creds_allowed_mech gpcall (Some m) = true) w.
Proof.
  intros Hempty. walk; try done.
  match goal with Hc : gss_create_empty_oid_set ?w = _, Ha : allowed_mechs _ _ _ _ _ _ = _ |- _ =>
    pose proof (Hempty w) as He; rewrite Hc in He; cbn in He; subst;
    pose proof (wp_run _ _ _ _ _ Ha (allowed_mechs_cases _ _ _ _ _ _)) as [?|Hu] end.
  - repeat case_match; simplify_eq/=; eauto.
  - by rewrite Hu.
Qed.

(** C30. A client that names mechanisms gets a credential only when the service allows one of
    them. *)
Theorem acquire_cred_allowed gpcall aca w :
  (forall w', (gss_create_empty_oid_set w').1.2 = []) ->
  wp (gp_acquire_cred gpcall aca) (fun '(_, res, _) _ => forall acr, res = Some acr ->
    arg_acquire_cred_desired_mechs aca <> [] ->
    is_Some (res_acquire_cred_output_cred_handle acr) \/
    status_major_status (res_acquire_cred_status acr) = GSS_S_COMPLETE ->
    exists m, m ∈ arg_acquire_cred_desired_mechs aca /\
      gp_creds_allowed_mech gpcall (Some m) = true) w.
Proof.
  intros Hempty. unfold gp_acquire_cred. cbn beta iota zeta. walk.
  all: intros acr [= <-] Hmechs Hgot.
  all: first [
    match goal with H : gp_conv_gssx_to_oid_set _ _ = _, H0 : ?r = 0 |- _ =>
      pose proof (oid_set_in _ _ _ _ _ H H0) as -> end;
    rewrite decide_False in * by done;
    match goal with H : bind gss_create_empty_oid_set _ _ = _ |- _ =>
      exact (wp_run _ _ _ _ _ H (use_mechs_allowed gpcall _ _ Hempty) ltac:(done)) end
  | exfalso; destruct Hgot as [[? [=]]|Hgot]; revert Hgot; cbn;
    match goal with H : status_major_status _ = _ |- _ => rewrite H end;
    first [discriminate|contradiction] ].
Qed.
End contexts.

(** ** Requests that stop the server *)

Section faults.
Context {XL : XdrLib} {LAWS : XdrLaws XL} {W : Type} {AL : Alloc W} {KL : KrbLib W} {GL : GssLib W}
  {NL : NssLib W} {CC : CcLib W}.

Lemma init_without_target gpcall isca w :
  arg_init_sec_context_target_name isca = None ->
  arg_init_sec_context_context_handle isca = None ->
  arg_init_sec_context_cred_handle isca = None ->
  gp_get_exported_context_type (arg_init_sec_context_call_ctx isca) <> -1 ->
  gp_init_sec_context gpcall isca w = ((0, None, None), w).
Proof.
  intros Ht Hx Hc Hty. unfold gp_init_sec_context. rewrite Ht, Hx, Hc.
  by rewrite (proj2 (Z.eqb_neq _ _) Hty).
Qed.

Lemma exec_without_target fuel c isca :
  arg_init_sec_context_target_name isca = None ->
  arg_init_sec_context_context_handle isca = None ->
  arg_init_sec_context_cred_handle isca = None ->
  gp_get_exported_context_type (arg_init_sec_context_call_ctx isca) <> -1 ->
  gp_rpc_execute (HD := server_handlers fuel) c GSSX_INIT_SEC_CONTEXT (arg_init_sec_context isca)
    = Some (0, None, c).
Proof.
  intros Ht Hx Hc Hty.
  change (Some (let '(ret, r, c) := with_call (fun call => gp_init_sec_context call isca) c in
            (ret, res_init_sec_context <$> r, c)) = Some (0, None, c)).
  unfold with_call. rewrite (init_without_target _ _ _ Ht Hx Hc Hty). by destruct c.
Qed.

(** A GSSX_INIT_SEC_CONTEXT request without the optional target name, sent by any client
    of any service, makes the server dereference a null pointer. *)
Theorem missing_target_faults fuel c i st isca :
  gp_rpc_decode_call (HD := server_handlers fuel) i st0
    = (0, st, Some (arg_init_sec_context isca)) ->
  cs_proc st = GSSX_INIT_SEC_CONTEXT ->
  arg_init_sec_context_target_name isca = None ->
  arg_init_sec_context_context_handle isca = None ->
  arg_init_sec_context_cred_handle isca = None ->
  gp_get_exported_context_type (arg_init_sec_context_call_ctx isca) <> -1 ->
  gp_rpc_process_call (HD := server_handlers fuel) true c i = None.
Proof.
  intros Hd Hp Ht Hx Hc Hty. unfold gp_rpc_process_call. fold st0. rewrite Hd. cbn beta iota.
  rewrite Hp, (exec_without_target fuel c isca Ht Hx Hc Hty). done.
Qed.
End faults.

(** ** The small world: the service of CredsProps.v and the libraries of the examples *)

#[local] Existing Instance always_mem.
#[local] Existing Instance toy_gss.
#[local] Existing Instance toy_krb.
#[local] Existing Instance toy_nss.
#[local] Existing Instance toy_cc.

Definition toy_call (faults : list string) : call_world toy :=
  CallWorld (w_svc_ctx false []) None (toy_world faults).

Definition toy_isca : gssx_arg_init_sec_context :=
  Mk_arg_init_sec_context w_ctx None None None gss_mech_krb5 0 0 None None [].

Definition no_target_request : bytes :=
  w_call (w_header GSSX_INIT_SEC_CONTEXT) ++ w_image xdr_gssx_arg_init_sec_context toy_isca.

Lemma missing_target_faults_witness :
  gp_rpc_process_call (HD := server_handlers 10) true (toy_call []) no_target_request = None.
Proof.
  apply (missing_target_faults 10 (toy_call []) no_target_request
    (CallStatus 7 GSSX_INIT_SEC_CONTEXT GP_RPC_SUCCESS GP_RPC_RPC_MISMATCH) toy_isca);
    [vm_compute; reflexivity|reflexivity|reflexivity|reflexivity|reflexivity|vm_compute; discriminate].
Defined.

(** a GSSX_GET_MIC request for a context *)
Definition toy_gma : gssx_arg_get_mic :=
  Mk_arg_get_mic w_ctx (Mk_ctx (bs "peer") [] false [] empty_name empty_name 0 0 false false [])
    0 (bs "message").
Definition mic_request : bytes :=
  w_call (w_header GSSX_GET_MIC) ++ w_image xdr_gssx_arg_get_mic toy_gma.

(** When the library cannot export the context after a message operation, the reply that
    would report it cannot be encoded: the server copies from a null pointer. *)
Theorem failed_export_faults :
  gp_rpc_process_call (HD := server_handlers 10) true (toy_call ["export_sec_context"%string])
    mic_request = None.
Proof. vm_compute. reflexivity. Qed.

(** A context is not released when the library refuses to use it: it stays live. *)
Theorem get_mic_leaks_context :
  toy_live (cw_world (default (0, [], toy_call [])
    (gp_rpc_process_call (HD := server_handlers 10) true (toy_call ["get_mic"%string]) mic_request)).2)
  = [0%nat].
Proof. vm_compute. reflexivity. Qed.

(** the same request in a world without faults is answered with the token *)
Example get_mic_answers :
  exists st ctx, (gp_get_mic toy_gma (toy_world [])).1
    = (0, Some (Mk_res_get_mic st (Some ctx) (bs "message") (Some 0))) /\
  status_major_status st = GSS_S_COMPLETE.
Proof. do 2 eexists. split; [vm_compute; reflexivity|reflexivity]. Qed.

Definition toy_aca (mechs : list bytes) : gssx_arg_acquire_cred :=
  Mk_arg_acquire_cred w_ctx None false None 0 mechs GSSX_C_INITIATE 0 0 [].

(** a client that only names a mechanism the service does not know gets no credential *)
Lemma acquire_cred_allowed_witness :
  wp (gp_acquire_cred (w_svc_ctx false []) (toy_aca [bs "other"])) (fun '(_, res, _) _ =>
    forall acr, res = Some acr ->
    arg_acquire_cred_desired_mechs (toy_aca [bs "other"]) <> [] ->
    is_Some (res_acquire_cred_output_cred_handle acr) \/
    status_major_status (res_acquire_cred_status acr) = GSS_S_COMPLETE ->
    exists m, m ∈ arg_acquire_cred_desired_mechs (toy_aca [bs "other"]) /\
      gp_creds_allowed_mech (w_svc_ctx false []) (Some m) = true) (toy_world []).
Proof.
  apply (acquire_cred_allowed (w_svc_ctx false []) (toy_aca [bs "other"]) (toy_world [])).
  intros w'. cbn. unfold toy_op. by case_decide.
Defined.

Example acquire_cred_answers :
  exists st h, (gp_acquire_cred (w_svc_ctx false []) (toy_aca [gss_mech_krb5]) (toy_world [])).1
    = (0, Some (Mk_res_acquire_cred st (Some h) []), None) /\
  name_display_name (cred_desired_name h) = bs "host".
Proof. do 2 eexists. split; [vm_compute; reflexivity|reflexivity]. Qed.
