(* ===== verification/Workers.v ===== *)
(** * The worker threads

    src/gp_workers.c: a dispatcher, which runs the event loop, hands queries to worker
    threads and takes their replies back.  Every critical section is one step; between two
    of them any thread may run.  The waits on a condition variable, the lost signals and,
    when allowed, the spurious wake-ups are those of POSIX. *)

From S2P Require Import Prelude Accept Dlist.

Definition GP_QUERY_IN := 0.
Definition GP_QUERY_OUT := 1.
Definition GP_QUERY_ERR := 2.
Definition DEFAULT_WORKER_THREADS_NUM := 5.

(** [q_request] is the buffer the query came with: no code reads it *)
Record gp_query := Query {
  q_conn : gp_conn; q_buffer : bytes; q_status : Z; q_request : bytes }.

Definition new_query (conn : gp_conn) (buffer : bytes) : gp_query :=
  Query conn buffer GP_QUERY_IN buffer.

(** ** The interface to the code that handles a query

    The flag says whether there is memory for the reply.  [None] is a fault of the server.
    A query stays the query of its connection. *)
Class QueryHandler (W : Type) := {
  handle : bool -> W -> gp_query -> option (gp_query * W);
  handle_keeps mem w q q' w' : handle mem w q = Some (q', w') ->
    q_conn q' = q_conn q /\ q_request q' = q_request q;
}.

(** ** The state *)

(** where a worker is: testing for shutdown; about to lock its mutex and look for a query;
    blocked in the wait; awake, about to lock again; handling a query; about to lock the
    pool with the handled query; about to write to the pipe; ended *)
Inductive pc :=
| Test | Enter | Waiting | Woken
| Handle (q : gp_query) | Done (q : gp_query) | Signal | Exited.

Record gp_thread := Thread { t_pc : pc; t_query : option gp_query }.

(** where the dispatcher is: in the event loop; assigning a query; about to hand it to a
    thread; handling a reply; looking at the wait list; ending the pool: picking a thread,
    about to wake it, joining it; the pool freed *)
Inductive dispatcher :=
| Idle | Assign (q : gp_query) | Hand (t : nat) (q : gp_query) | Reply | Drain
| Pick | Wake (t : nat) | Join (t : nat) | Freed.

(** [accepted], [finished] and [lost] are history: the queries the pool took, the ones whose
    reply was sent or whose connection was closed, and the failed writes to the pipe. *)
Record gp_workers (W : Type) := Workers {
  threads : list gp_thread;
  free_list : list nat;
  busy_list : list nat;
  wait_list : list gp_query;
  reply_list : list gp_query;
  pipe : nat;
  shutdown : bool;
  disp : dispatcher;
  world : W;
  accepted : list (gp_conn * bytes);
  finished : list gp_query;
  lost : nat;
}.
Arguments Workers {W}. Arguments threads {W}. Arguments free_list {W}. Arguments busy_list {W}.
Arguments wait_list {W}. Arguments reply_list {W}. Arguments pipe {W}. Arguments shutdown {W}.
Arguments disp {W}. Arguments world {W}. Arguments accepted {W}. Arguments finished {W}.
Arguments lost {W}.

Section pool.
Context {W : Type} {QH : QueryHandler W}.
(** the bytes a pipe holds; whether a wait may end without a signal *)
Variables (pipe_size : nat) (spurious : bool).

(** ** Changes of one part of the state *)

Definition set_thread (t : nat) (th : gp_thread) (s : gp_workers W) : gp_workers W :=
  Workers (<[t := th]> (threads s)) (free_list s) (busy_list s) (wait_list s) (reply_list s)
    (pipe s) (shutdown s) (disp s) (world s) (accepted s) (finished s) (lost s).
Definition set_disp (d : dispatcher) (s : gp_workers W) : gp_workers W :=
  Workers (threads s) (free_list s) (busy_list s) (wait_list s) (reply_list s)
    (pipe s) (shutdown s) d (world s) (accepted s) (finished s) (lost s).
Definition set_lists (free busy : list nat) (s : gp_workers W) : gp_workers W :=
  Workers (threads s) free busy (wait_list s) (reply_list s)
    (pipe s) (shutdown s) (disp s) (world s) (accepted s) (finished s) (lost s).
Definition set_queues (wait reply : list gp_query) (s : gp_workers W) : gp_workers W :=
  Workers (threads s) (free_list s) (busy_list s) wait reply
    (pipe s) (shutdown s) (disp s) (world s) (accepted s) (finished s) (lost s).
Definition set_pipe (n l : nat) (s : gp_workers W) : gp_workers W :=
  Workers (threads s) (free_list s) (busy_list s) (wait_list s) (reply_list s)
    n (shutdown s) (disp s) (world s) (accepted s) (finished s) l.
Definition set_shutdown (s : gp_workers W) : gp_workers W :=
  Workers (threads s) (free_list s) (busy_list s) (wait_list s) (reply_list s)
    (pipe s) true (disp s) (world s) (accepted s) (finished s) (lost s).
Definition set_world (w : W) (s : gp_workers W) : gp_workers W :=
  Workers (threads s) (free_list s) (busy_list s) (wait_list s) (reply_list s)
    (pipe s) (shutdown s) (disp s) w (accepted s) (finished s) (lost s).
Definition note_accepted (conn : gp_conn) (buffer : bytes) (s : gp_workers W) : gp_workers W :=
  Workers (threads s) (free_list s) (busy_list s) (wait_list s) (reply_list s)
    (pipe s) (shutdown s) (disp s) (world s) ((conn, buffer) :: accepted s) (finished s) (lost s).
Definition note_finished (q : gp_query) (s : gp_workers W) : gp_workers W :=
  Workers (threads s) (free_list s) (busy_list s) (wait_list s) (reply_list s)
    (pipe s) (shutdown s) (disp s) (world s) (accepted s) (finished s ++ [q]) (lost s).

(** ** The workers *)

(** gp_worker_main: look for a query, or wait for one *)
Definition take_or_wait (t : nat) (th : gp_thread) (s : gp_workers W) : gp_workers W :=
  match t_query th with
  | None => set_thread t (Thread Waiting None) s
  | Some q => set_thread t (Thread (Handle q) None) s
  end.

(** gp_worker_main, one step of a thread; [None] when it is blocked or ended.  During a
    shutdown a thread leaves the lists alone. *)
Definition worker_step (mem : bool) (t : nat) (s : gp_workers W) : option (gp_workers W) :=
  th ← threads s !! t;
  match t_pc th with
  | Test => Some (set_thread t (Thread (if shutdown s then Exited else Enter) (t_query th)) s)
  | Enter => Some (take_or_wait t th s)
  | Waiting => None
  | Woken => if shutdown s then Some (set_thread t (Thread Exited (t_query th)) s)
             else Some (take_or_wait t th s)
  | Handle q =>
      '(q, w) ← handle mem (world s) q;
      Some (set_world w (set_thread t (Thread (Done q) (t_query th)) s))
  | Done q =>
      let s := set_queues (wait_list s) (q :: reply_list s) s in
      let s := if negb (shutdown s)
               then set_lists (t :: free_list s) (remove_elem t (busy_list s)) s else s in
      Some (set_thread t (Thread Signal (t_query th)) s)
  | Signal =>
      let s := if (pipe s <? pipe_size)%nat then set_pipe (S (pipe s)) (lost s) s
               else set_pipe (pipe s) (S (lost s)) s in
      Some (set_thread t (Thread Test (t_query th)) s)
  | Exited => None
  end.

(** pthread_cond_signal: it wakes the thread if it waits, and is lost otherwise *)
Definition signalled (p : pc) : pc := match p with Waiting => Woken | p => p end.

(** ** The dispatcher *)

(** gp_query_assign: its two critical sections *)
Definition gp_query_assign (q : gp_query) (s : gp_workers W) : gp_workers W :=
  match free_list s with
  | t :: free => set_disp (Hand t q) (set_lists free (t :: busy_list s) s)
  | [] => set_disp Idle (set_queues (q :: wait_list s) (reply_list s) s)
  end.

Definition hand_over (t : nat) (q : gp_query) (s : gp_workers W) : option (gp_workers W) :=
  th ← threads s !! t;
  Some (set_disp Idle (set_thread t (Thread (signalled (t_pc th)) (Some q)) s)).

(** gp_handle_reply after the byte is read: the reply, then the wait list *)
Definition take_reply (s : gp_workers W) : gp_workers W :=
  match reply_list s with
  | q :: replies => set_disp Drain (note_finished q (set_queues (wait_list s) replies s))
  | [] => set_disp Drain s
  end.
Definition drain_wait_list (s : gp_workers W) : gp_workers W :=
  match wait_list s with
  | q :: wait => set_disp (Assign q) (set_queues wait (reply_list s) s)
  | [] => set_disp Idle s
  end.

(** gp_workers_free, a thread at a time *)
Definition pick_thread (s : gp_workers W) : gp_workers W :=
  match free_list s, busy_list s with
  | t :: free, busy => set_disp (Wake t) (set_lists free busy s)
  | [], t :: busy => set_disp (Wake t) (set_lists [] busy s)
  | [], [] => set_disp Freed s
  end.
Definition wake (t : nat) (s : gp_workers W) : option (gp_workers W) :=
  th ← threads s !! t;
  Some (set_disp (Join t) (set_thread t (Thread (signalled (t_pc th)) (t_query th)) s)).
Definition join (t : nat) (s : gp_workers W) : option (gp_workers W) :=
  th ← threads s !! t;
  match t_pc th with Exited => Some (set_disp Pick s) | _ => None end.

Definition disp_step (s : gp_workers W) : option (gp_workers W) :=
  match disp s with
  | Idle | Freed => None
  | Assign q => Some (gp_query_assign q s)
  | Hand t q => hand_over t q s
  | Reply => Some (take_reply s)
  | Drain => Some (drain_wait_list s)
  | Pick => Some (pick_thread s)
  | Wake t => wake t s
  | Join t => join t s
  end.

(** ** The steps of the pool *)

Definition gp_query_new (conn : gp_conn) (buffer : bytes) (s : gp_workers W) : gp_workers W :=
  set_disp (Assign (new_query conn buffer)) (note_accepted conn buffer s).

(** gp_handle_reply reads a byte of the pipe *)
Definition gp_handle_reply (s : gp_workers W) : gp_workers W :=
  set_disp Reply (set_pipe (pred (pipe s)) (lost s) s).

Definition gp_workers_free (s : gp_workers W) : gp_workers W := set_disp Pick (set_shutdown s).

Inductive step (s : gp_workers W) : gp_workers W -> Prop :=
| step_worker mem t s' : worker_step mem t s = Some s' -> step s s'
| step_spurious t q : spurious = true -> threads s !! t = Some (Thread Waiting q) ->
    step s (set_thread t (Thread Woken q) s)
| step_disp s' : disp_step s = Some s' -> step s s'
| step_query conn buffer : disp s = Idle -> step s (gp_query_new conn buffer s)
| step_reply : disp s = Idle -> (0 < pipe s)%nat -> step s (gp_handle_reply s)
| step_free : disp s = Idle -> step s (gp_workers_free s).

(** gp_workers_init: [n] threads, all free, the last created first *)
Definition num_threads (configured : Z) : nat :=
  Z.to_nat (if 0 <? configured then configured else DEFAULT_WORKER_THREADS_NUM).
Definition gp_workers_init (configured : Z) (w : W) : gp_workers W :=
  let n := num_threads configured in
  Workers (replicate n (Thread Test None)) (reverse (seq 0 n)) [] [] [] 0 false Idle w [] [] 0.

Definition reachable (configured : Z) (w : W) : gp_workers W -> Prop :=
  rtc step (gp_workers_init configured w).
End pool.
