(* ===== verification/WorkersProps.v ===== *)
(** * The pool keeps every query

    The invariants of Workers.v and what follows from them. *)

From S2P Require Import Prelude Accept Dlist Workers.

(** ** Sums over lists *)

Lemma sum_set {A} (f : A -> nat) (l : list A) i x y : l !! i = Some x ->
  (sum_list_with f (<[i := y]> l) + f x = sum_list_with f l + f y)%nat.
Proof.
  revert i. induction l as [|z l IH]; intros [|i]; [done..| |].
  - intros [= ->]. simpl. lia.
  - intros H. simpl. specialize (IH i H). lia.
Qed.

Lemma sum_list_perm {A} (f : A -> nat) (l k : list A) :
  l ≡ₚ k -> sum_list_with f l = sum_list_with f k.
Proof. induction 1; simpl; lia. Qed.

(** lists with the same sums for all weights are permutations *)
Lemma sums_perm {A} `{EqDecision A} (l k : list A) :
  (forall f : A -> nat, sum_list_with f l = sum_list_with f k) -> l ≡ₚ k.
Proof.
  revert k. induction l as [|x l IH]; intros k H.
  - destruct k as [|y k]; [done|]. specialize (H (fun _ => 1%nat)). simpl in H. lia.
  - assert (Hin : x ∈ k).
    { destruct (decide (x ∈ k)) as [|Hni]; [done|exfalso].
      specialize (H (fun y => if decide (y = x) then 1%nat else 0%nat)). simpl in H.
      rewrite decide_True in H by done.
      assert (sum_list_with (fun y => if decide (y = x) then 1%nat else 0%nat) k = 0%nat); [|lia].
      clear H IH. induction k as [|y k IHk]; [done|]. rewrite not_elem_of_cons in Hni.
      simpl. rewrite decide_False by naive_solver. apply IHk. naive_solver. }
    apply list_elem_of_split in Hin as (k1 & k2 & ->).
    rewrite <- Permutation_middle. constructor. apply IH. intros f. specialize (H f).
    rewrite sum_list_with_app in *. simpl in H. lia.
Qed.

#[export] Instance ucred_eq_dec : EqDecision ucred.
Proof. solve_decision. Defined.
#[export] Instance selinux_ctx_eq_dec : EqDecision selinux_ctx.
Proof. solve_decision. Defined.
#[export] Instance gp_conn_eq_dec : EqDecision gp_conn.
Proof. solve_decision. Defined.

Section invariant.
Context {W : Type} {QH : QueryHandler W}.
Variables (pipe_size : nat) (spurious : bool).

(** ** Threads and lists *)

Definition idle (p : pc) : Prop :=
  match p with Test | Enter | Waiting | Woken | Signal => True | _ => False end.

(** A thread is free or about to be handed a query, without one; or busy with a query it
    has not seen yet, and not blocked; or busy with the query it took. *)
Definition thread_ok (free busy : list nat) (d : dispatcher) (t : nat) (th : gp_thread) : Prop :=
  (t_query th = None /\ idle (t_pc th) /\ (t ∈ free \/ exists q, d = Hand t q)) \/
  (is_Some (t_query th) /\ idle (t_pc th) /\ t_pc th <> Waiting /\ t ∈ busy) \/
  (t_query th = None /\ (exists q, t_pc th = Handle q \/ t_pc th = Done q) /\ t ∈ busy).

(** the dispatcher outside gp_workers_free *)
Definition serving (d : dispatcher) : Prop :=
  match d with Idle | Assign _ | Hand _ _ | Reply | Drain => True | _ => False end.

Record lists_ok (s : gp_workers W) : Prop := {
  lo_perm : free_list s ++ busy_list s ≡ₚ seq 0 (length (threads s));
  lo_thread t th : threads s !! t = Some th ->
    thread_ok (free_list s) (busy_list s) (disp s) t th;
  lo_hand t q : disp s = Hand t q ->
    t ∈ busy_list s /\ exists p, threads s !! t = Some (Thread p None) /\ idle p;
  lo_serving : serving (disp s);
}.

Lemma lists_nodup s : lists_ok s -> NoDup (free_list s ++ busy_list s).
Proof. intros [Hp _ _ _]. rewrite Hp. apply NoDup_seq. Qed.

Lemma free_not_busy s t : lists_ok s -> t ∈ free_list s -> t ∈ busy_list s -> False.
Proof. intros H%lists_nodup H1 H2. apply NoDup_app in H as (_ & H & _). by eapply H. Qed.

(** a thread moves on, the lists stay *)
Lemma set_thread_ok t th' s : lists_ok s -> is_Some (threads s !! t) ->
  thread_ok (free_list s) (busy_list s) (disp s) t th' ->
  (forall q, disp s = Hand t q -> t_query th' = None /\ idle (t_pc th')) ->
  lists_ok (set_thread t th' s).
Proof.
  intros [Hp Ht Hh Hs] Hth Hok Hhand. split; simpl.
  - by rewrite length_insert.
  - intros u th. destruct (decide (u = t)) as [->|Hne].
    + rewrite list_lookup_insert_eq by by apply lookup_lt_is_Some. intros [= <-]. done.
    + rewrite list_lookup_insert_ne by done. apply Ht.
  - intros u q Hd. destruct (Hh u q Hd) as (Hb & p & Hu & Hi). split; [done|].
    destruct (decide (u = t)) as [->|Hne].
    + rewrite list_lookup_insert_eq by by apply lookup_lt_is_Some.
      destruct (Hhand q Hd) as [Hq Hidle]. destruct th' as [p' q']; simpl in *. subst. eauto.
    + rewrite list_lookup_insert_ne by done. eauto.
  - done.
Qed.

(** the dispatcher moves on, with no thread in its hands *)
Lemma set_disp_ok d s : lists_ok s -> (forall t q, disp s <> Hand t q) ->
  (forall t q, d <> Hand t q) -> serving d -> lists_ok (set_disp d s).
Proof.
  intros [Hp Ht Hh Hs] H1 H2 Hd. split; simpl; [done| | |done].
  - intros t th Hth. destruct (Ht t th Hth) as [(? & ? & [?|[q ?]])|[?|?]];
      [left; auto|by destruct (H1 t q)|by right; left|by right; right].
  - intros t q Hdq. by destruct (H2 t q).
Qed.

(** the parts that hold queries, bytes and the world do not matter *)
Lemma lists_ok_same s s' : lists_ok s -> threads s' = threads s ->
  free_list s' = free_list s -> busy_list s' = busy_list s -> disp s' = disp s -> lists_ok s'.
Proof.
  intros [Hp Ht Hh Hs] E1 E2 E3 E4. split; rewrite ?E1, ?E2, ?E3, ?E4; auto.
Qed.

Ltac same := eapply lists_ok_same; [eassumption|reflexivity..].

Lemma assign_ok q s : lists_ok s -> disp s = Assign q -> lists_ok (gp_query_assign q s).
Proof.
  intros Hok Hd. unfold gp_query_assign. destruct (free_list s) as [|t free] eqn:Ef.
  { apply set_disp_ok; try done; [same|by simpl; rewrite Hd]. }
  pose proof Hok as [Hp Ht Hh _]. rewrite Ef in *.
  assert (Hin : (t < length (threads s))%nat).
  { assert (t ∈ seq 0 (length (threads s))) as [? ?]%elem_of_seq; [|lia].
    rewrite <- Hp. by left. }
  apply lookup_lt_is_Some in Hin as [th Hth].
  assert (Hfb : t ∉ busy_list s).
  { intros Hb. apply (free_not_busy s t Hok); [|done]. rewrite Ef. by left. }
  destruct (Ht t th Hth) as [(Hq & Hi & _)|[(_ & _ & _ & ?)|(_ & _ & ?)]]; [|done..].
  split; simpl.
  - rewrite <- Hp. simpl. by rewrite <- Permutation_middle.
  - intros u thu Hu. destruct (decide (u = t)) as [->|Hne].
    { left. rewrite Hth in Hu. simplify_eq. split_and!; eauto. }
    destruct (Ht u thu Hu) as [(? & ? & [Hu'|[q' ?]])|[(? & ? & ? & ?)|(? & ? & ?)]].
    + left. apply elem_of_cons in Hu' as [|]; [done|]. auto.
    + rewrite Hd in *. done.
    + right; left. split_and!; auto. by right.
    + right; right. split_and!; auto. by right.
  - intros u q' [= <- <-]. split; [by left|]. destruct th as [p ?]; simpl in *. subst. eauto.
  - done.
Qed.

Lemma hand_over_ok t q s s' : lists_ok s -> disp s = Hand t q ->
  hand_over t q s = Some s' -> lists_ok s'.
Proof.
  intros [Hp Ht Hh Hs] Hd. unfold hand_over. destruct (Hh t q Hd) as (Hb & p & Hth & Hi).
  rewrite Hth. simpl. intros [= <-].
  assert (Hidle : idle (signalled p) /\ signalled p <> Waiting) by (by destruct p).
  split; simpl; [by rewrite length_insert| |done|done].
  intros u th. destruct (decide (u = t)) as [->|Hne].
  - rewrite list_lookup_insert_eq by by apply lookup_lt_is_Some; eauto. intros [= <-].
    right; left. simpl. naive_solver.
  - rewrite list_lookup_insert_ne by done. intros Hu.
    destruct (Ht u th Hu) as [(? & ? & [?|[q' ?]])|[?|?]];
      [left; auto|congruence|by right; left|by right; right].
Qed.

Lemma done_ok t q th s : lists_ok s -> threads s !! t = Some th -> t_pc th = Done q ->
  lists_ok (set_thread t (Thread Signal (t_query th))
    (set_lists (t :: free_list s) (remove_elem t (busy_list s)) s)).
Proof.
  intros Hok Hth Hpc. pose proof Hok as [Hp Ht Hh Hs].
  destruct (Ht t th Hth) as [(_ & Hi & _)|[(_ & Hi & _)|(Hq & _ & Hb)]];
    [by rewrite Hpc in Hi..|].
  pose proof (remove_elem_perm t _ Hb) as Hperm.
  assert (Hrem : forall u, u ∈ busy_list s -> u <> t -> u ∈ remove_elem t (busy_list s)).
  { intros u Hu Hne. rewrite <- Hperm in Hu. apply elem_of_cons in Hu as [|]; done. }
  split; simpl.
  - rewrite length_insert, <- Hp. rewrite Permutation_middle. by rewrite Hperm.
  - intros u thu. destruct (decide (u = t)) as [->|Hne].
    + rewrite list_lookup_insert_eq by by apply lookup_lt_is_Some; eauto. intros [= <-].
      left. simpl. split_and!; [done|done|]. left. by left.
    + rewrite list_lookup_insert_ne by done. intros Hu.
      destruct (Ht u thu Hu) as [(? & ? & [?|[q' ?]])|[(? & ? & ? & ?)|(? & ? & ?)]].
      * left. split_and!; auto. left. by right.
      * left. eauto.
      * right; left. auto.
      * right; right. auto.
  - intros u q' Hd. destruct (Hh u q' Hd) as (Hbu & p & Hu & Hi).
    assert (u <> t) as Hne by (intros ->; rewrite Hth in Hu; by simplify_eq/=).
    rewrite list_lookup_insert_ne by done. eauto.
  - done.
Qed.

Lemma worker_lists_ok mem t s s' : lists_ok s -> shutdown s = false ->
  worker_step pipe_size mem t s = Some s' -> lists_ok s'.
Proof.
  intros Hok Hsd. unfold worker_step. destruct (threads s !! t) as [th|] eqn:Hth; simpl; [|done].
  pose proof (lo_thread _ Hok t th Hth) as Hto.
  assert (Hhand : forall q, disp s = Hand t q -> t_query th = None /\ idle (t_pc th)).
  { intros q Hd. destruct (lo_hand _ Hok t q Hd) as (_ & p & Hp & Hi).
    rewrite Hth in Hp. by simplify_eq. }
  assert (Hmove : forall p, idle p -> idle (t_pc th) -> (is_Some (t_query th) -> p <> Waiting) ->
            lists_ok (set_thread t (Thread p (t_query th)) s)).
  { intros p Hp Hi Hw. apply set_thread_ok; [done|by eexists| |naive_solver].
    destruct Hto as [(? & ? & ?)|[(? & ? & ? & ?)|(? & [q [E|E]] & ?)]];
      [left; auto|right; left; auto|by rewrite E in Hi|by rewrite E in Hi]. }
  assert (Htake : idle (t_pc th) -> lists_ok (take_or_wait t th s)).
  { intros Hi. unfold take_or_wait. destruct (t_query th) as [q|] eqn:Hq.
    - apply set_thread_ok; [done|by eexists| |].
      + destruct Hto as [(? & ? & ?)|[(? & ? & ? & ?)|(? & ? & ?)]]; [congruence| |congruence].
        right; right. split_and!; eauto.
      + intros q' Hd. destruct (Hhand q' Hd). congruence.
    - apply Hmove; [done|done|by intros [? ?]]. }
  destruct (t_pc th) as [| | | |q|q| |] eqn:Hpc; simpl in *; rewrite ?Hsd; simpl.
  - intros [= <-]. by apply Hmove.
  - intros [= <-]. by apply Htake.
  - done.
  - intros [= <-]. by apply Htake.
  - destruct (handle mem (world s) q) as [[q' w']|] eqn:Eh; simpl; [|done]. intros [= <-].
    eapply (lists_ok_same (set_thread t (Thread (Done q') (t_query th)) s)); try done.
    apply set_thread_ok; [done|by eexists| |intros q2 Hd; by destruct (Hhand q2 Hd)].
    destruct Hto as [(_ & Hi & _)|[(_ & Hi & _)|(? & _ & ?)]]; [by rewrite Hpc in Hi..|].
    right; right. split_and!; eauto.
  - intros [= <-]. eapply (lists_ok_same (set_thread t (Thread Signal (t_query th))
      (set_lists (t :: free_list s) (remove_elem t (busy_list s)) s))); try done.
    by eapply done_ok.
  - intros [= <-]. eapply (lists_ok_same (set_thread t (Thread Test (t_query th)) s));
      [by apply Hmove|by case_match..].
  - done.
Qed.

Lemma step_lists_ok s s' : lists_ok s -> step pipe_size spurious s s' ->
  shutdown s = false -> shutdown s' = false -> lists_ok s'.
Proof.
  intros Hok Hst Hsd Hsd'. destruct Hst as [mem t s' H|t q _ Ht|s' H|conn b Hd|Hd _|Hd].
  - by eapply worker_lists_ok.
  - apply set_thread_ok; [done|by eexists| |].
    + destruct (lo_thread _ Hok t _ Ht) as [(? & ? & ?)|[(_ & _ & H & _)|(_ & [q' [H|H]] & _)]];
        [left; auto|done..].
    + intros q' Hq. destruct (lo_hand _ Hok t q' Hq) as (_ & p & Hp & _).
      rewrite Ht in Hp. by simplify_eq.
  - revert H. unfold disp_step. pose proof (lo_serving _ Hok) as Hs.
    destruct (disp s) as [|q|t q| | | |t|t|] eqn:Hd; try done.
    + intros [= <-]. by apply assign_ok.
    + intros H. by eapply hand_over_ok.
    + intros [= <-]. unfold take_reply. destruct (reply_list s); apply set_disp_ok; try done;
        rewrite ?Hd; try done; [by eapply lists_ok_same|by simpl; rewrite Hd].
    + intros [= <-]. unfold drain_wait_list. destruct (wait_list s); apply set_disp_ok; try done;
        rewrite ?Hd; try done; [by eapply lists_ok_same|by simpl; rewrite Hd].
  - apply set_disp_ok; try done; [by eapply lists_ok_same|by simpl; rewrite Hd].
  - apply set_disp_ok; try done; [by eapply lists_ok_same|by simpl; rewrite Hd].
  - discriminate Hsd'.
Qed.

(** ** Sums over the state *)

Definition th_weight (f : gp_query -> nat) (th : gp_thread) : nat :=
  ((match t_query th with Some q => f q | None => 0 end) +
   (match t_pc th with Handle q | Done q => f q | _ => 0 end))%nat.
Definition disp_weight (f : gp_query -> nat) (d : dispatcher) : nat :=
  match d with Assign q | Hand _ q => f q | _ => 0%nat end.

(** the queries of the pool: accepted and not finished *)
Definition pending_weight (f : gp_query -> nat) (s : gp_workers W) : nat :=
  (sum_list_with f (wait_list s) + sum_list_with f (reply_list s) +
   disp_weight f (disp s) + sum_list_with (th_weight f) (threads s))%nat.

Definition source (q : gp_query) : gp_conn * bytes := (q_conn q, q_request q).

(** a thread about to write to the pipe; a reply the dispatcher is about to take; a byte it
    has read and not yet paid a waiting query for *)
Definition signals (th : gp_thread) : nat := match t_pc th with Signal => 1 | _ => 0 end.
Definition taking (d : dispatcher) : nat := match d with Reply => 1 | _ => 0 end.
Definition paying (d : dispatcher) : nat := match d with Reply | Drain | Assign _ => 1 | _ => 0 end.

Definition bytes_due (s : gp_workers W) : nat :=
  (pipe s + sum_list_with signals (threads s) + lost s)%nat.

Record counts_ok (s : gp_workers W) : Prop := {
  co_queries (f : gp_conn * bytes -> nat) :
    (sum_list_with f (accepted s)
     = pending_weight (f ∘ source) s + sum_list_with (f ∘ source) (finished s))%nat;
  co_replies : (length (reply_list s) = bytes_due s + taking (disp s))%nat;
  co_waiting : wait_list s <> [] -> (length (free_list s) <= bytes_due s + paying (disp s))%nat;
}.

(** the sums of the threads after one of them moved *)
Ltac thread_sums Hth :=
  match type of Hth with threads ?s !! ?t = Some ?th =>
  match goal with |- context [<[t := ?th']> (threads s)] =>
    let H := fresh "Hsig" in
    pose proof (sum_set signals (threads s) t th th' Hth) as H; unfold signals in H at 2 4;
    cbn [t_pc t_query] in H;
    try match goal with f : gp_conn * bytes -> nat |- _ =>
      let H := fresh "Hqs" in
      pose proof (sum_set (th_weight (f ∘ source)) (threads s) t th th' Hth) as H;
      unfold th_weight in H at 2 4; cbn [t_pc t_query] in H
    end
  end end.

(** a thread moves without a query leaving or entering it, and without signalling *)
Lemma counts_thread t th th' s : threads s !! t = Some th ->
  (forall f, th_weight f th' = th_weight f th) -> signals th' = signals th ->
  counts_ok s -> counts_ok (set_thread t th' s).
Proof.
  intros Hth Hw Hs [H1 H2 H3].
  pose proof (sum_set signals (threads s) t th th' Hth) as Hsig.
  split; unfold bytes_due in *; simpl in *.
  - intros f. rewrite H1. unfold pending_weight. simpl.
    pose proof (sum_set (th_weight (f ∘ source)) (threads s) t th th' Hth) as Hq.
    rewrite Hw in Hq. lia.
  - lia.
  - intros Hne. specialize (H3 Hne). lia.
Qed.

Lemma take_counts t th s : threads s !! t = Some th ->
  t_pc th = Enter \/ t_pc th = Woken -> counts_ok s -> counts_ok (take_or_wait t th s).
Proof.
  intros Hth Hpc Hc. unfold take_or_wait. destruct th as [p [q|]]; cbn [t_query t_pc] in *;
    eapply counts_thread; try done; intros; unfold th_weight, signals; cbn;
    destruct Hpc as [-> | ->]; lia.
Qed.

Lemma worker_counts mem t s s' : counts_ok s -> lists_ok s -> shutdown s = false ->
  worker_step pipe_size mem t s = Some s' -> counts_ok s'.
Proof.
  intros Hc Hok Hsd. unfold worker_step.
  destruct (threads s !! t) as [[p oq]|] eqn:Hth; cbn [mbind option_bind t_pc t_query]; [|done].
  destruct p as [| | | |q|q| |]; rewrite ?Hsd; cbn [negb].
  - intros [= <-]. by eapply counts_thread.
  - intros [= <-]. eapply take_counts; [exact Hth|auto|done].
  - done.
  - intros [= <-]. eapply take_counts; [exact Hth|auto|done].
  - destruct (handle mem (world s) q) as [[q' w']|] eqn:Eh; simpl; [|done]. intros [= <-].
    destruct (handle_keeps _ _ _ _ _ Eh) as [E1 E2].
    destruct Hc as [H1 H2 H3]. split; unfold bytes_due in *; simpl in *.
    + intros f. rewrite H1. unfold pending_weight. simpl. thread_sums Hth.
      assert (source q' = source q) as E by (unfold source; congruence).
      cbn [compose] in *. rewrite E in *. lia.
    + thread_sums Hth. lia.
    + intros Hne. specialize (H3 Hne). thread_sums Hth. lia.
  - cbn [shutdown set_queues]. rewrite Hsd. cbn [negb].
    intros [= <-]. destruct Hc as [H1 H2 H3]. split; unfold bytes_due in *; simpl in *.
    + intros f. rewrite H1. unfold pending_weight. simpl. thread_sums Hth. cbn [compose] in *. lia.
    + thread_sums Hth. lia.
    + intros Hne. specialize (H3 Hne). thread_sums Hth. lia.
  - intros [= <-]. destruct Hc as [H1 H2 H3].
    destruct (pipe s <? pipe_size)%nat; split; unfold bytes_due in *; simpl in *;
      first [ intros f; rewrite H1; unfold pending_weight; simpl; thread_sums Hth; cbn [compose] in *; lia
            | thread_sums Hth; lia
            | intros Hne; specialize (H3 Hne); thread_sums Hth; lia ].
  - done.
Qed.

Lemma signalled_weight f p : match signalled p with Handle q | Done q => f q | _ => 0%nat end
  = match p with Handle q | Done q => f q | _ => 0%nat end.
Proof. by destruct p. Qed.
Lemma signalled_signals p q q' :
  signals (Thread (signalled p) q) = signals (Thread p q').
Proof. by destruct p. Qed.

Lemma assign_counts q s : counts_ok s -> disp s = Assign q -> counts_ok (gp_query_assign q s).
Proof.
  intros [H1 H2 H3] Hd. unfold gp_query_assign, bytes_due in *. rewrite Hd in *.
  destruct (free_list s) as [|t free] eqn:Ef; split; unfold bytes_due; simpl in *;
    try (intros f; rewrite H1; unfold pending_weight; rewrite Hd; simpl; lia); try lia.
  - rewrite Ef. simpl. lia.
  - intros Hne. specialize (H3 Hne). lia.
Qed.

Lemma hand_over_counts t q s s' : counts_ok s -> lists_ok s -> disp s = Hand t q ->
  hand_over t q s = Some s' -> counts_ok s'.
Proof.
  intros [H1 H2 H3] Hok Hd. unfold hand_over, bytes_due in *.
  destruct (lo_hand _ Hok t q Hd) as (_ & p & Hth & Hi). rewrite Hth, Hd in *. simpl.
  intros [= <-]. pose proof (sum_set signals (threads s) t _ (Thread (signalled p) (Some q)) Hth) as Hsig.
  rewrite (signalled_signals p (Some q) None) in Hsig.
  split; unfold bytes_due; simpl in *; [|lia|intros Hne; specialize (H3 Hne); lia].
  intros f. rewrite H1. unfold pending_weight. rewrite Hd. simpl.
  pose proof (sum_set (th_weight (f ∘ source)) (threads s) t _
    (Thread (signalled p) (Some q)) Hth) as Hq.
  unfold th_weight in Hq at 2 4. cbn [t_pc t_query] in Hq. rewrite signalled_weight in Hq. cbn [compose] in *. lia.
Qed.

Lemma take_reply_counts s : counts_ok s -> disp s = Reply -> counts_ok (take_reply s).
Proof.
  intros [H1 H2 H3] Hd. unfold take_reply, bytes_due in *. rewrite Hd in *.
  destruct (reply_list s) as [|q replies] eqn:Er; simpl in *; [lia|].
  split; unfold bytes_due; simpl; [|lia|exact H3].
  intros f. rewrite H1. unfold pending_weight. rewrite Hd, Er, sum_list_with_app. simpl. lia.
Qed.

Lemma drain_counts s : counts_ok s -> disp s = Drain -> counts_ok (drain_wait_list s).
Proof.
  intros [H1 H2 H3] Hd. unfold drain_wait_list, bytes_due in *. rewrite Hd in *.
  destruct (wait_list s) as [|q wait] eqn:Ew; split; unfold bytes_due; simpl in *; try done; try lia.
  - intros f. rewrite H1. unfold pending_weight. rewrite Hd, Ew. simpl. rewrite ?Ew. simpl. lia.
  - intros f. rewrite H1. unfold pending_weight. rewrite Hd, Ew. simpl. lia.
  - intros _. by apply H3.
Qed.

Lemma step_counts s s' : counts_ok s -> lists_ok s -> step pipe_size spurious s s' ->
  shutdown s = false -> shutdown s' = false -> counts_ok s'.
Proof.
  intros Hc Hok Hst Hsd Hsd'. destruct Hst as [mem t s' H|t q _ Ht|s' H|conn b Hd|Hd Hp|Hd].
  - by eapply worker_counts.
  - by eapply counts_thread.
  - revert H. unfold disp_step. pose proof (lo_serving _ Hok) as Hs.
    destruct (disp s) as [|q|t q| | | |t|t|] eqn:Hd; try done.
    + intros [= <-]. by apply assign_counts.
    + intros H. by eapply hand_over_counts.
    + intros [= <-]. by apply take_reply_counts.
    + intros [= <-]. by apply drain_counts.
  - destruct Hc as [H1 H2 H3]. unfold bytes_due in *. rewrite Hd in *.
    split; unfold bytes_due; simpl in *; [|lia|intros Hne; specialize (H3 Hne); lia].
    intros f. rewrite H1. unfold pending_weight. rewrite Hd. simpl.
    unfold compose, source. simpl. lia.
  - destruct Hc as [H1 H2 H3]. unfold bytes_due in *. rewrite Hd in *.
    split; unfold bytes_due; simpl in *; [|lia|intros Hne; specialize (H3 Hne); lia].
    intros f. rewrite H1. unfold pending_weight. rewrite Hd. simpl. lia.
  - discriminate Hsd'.
Qed.

(** ** What the queries hold *)

(** a query nobody handled yet, and the outcome of handling one *)
Definition fresh (q : gp_query) : Prop := q = new_query (q_conn q) (q_request q).
Definition answered (q : gp_query) : Prop :=
  exists mem (w w' : W), handle mem w (new_query (q_conn q) (q_request q)) = Some (q, w').

Definition thread_queries_ok (th : gp_thread) : Prop :=
  match t_query th with Some q => fresh q | None => True end /\
  match t_pc th with Handle q => fresh q | Done q => answered q | _ => True end.
Definition disp_queries_ok (d : dispatcher) : Prop :=
  match d with Assign q | Hand _ q => fresh q | _ => True end.

Record queries_ok (s : gp_workers W) : Prop := {
  qo_wait : Forall fresh (wait_list s);
  qo_reply : Forall answered (reply_list s);
  qo_finished : Forall answered (finished s);
  qo_threads : Forall thread_queries_ok (threads s);
  qo_disp : disp_queries_ok (disp s);
}.

Lemma handle_answers mem w q q' w' :
  fresh q -> handle mem w q = Some (q', w') -> answered q'.
Proof.
  intros Hf H. destruct (handle_keeps _ _ _ _ _ H) as [E1 E2].
  exists mem, w, w'. rewrite E1, E2. by rewrite <- Hf.
Qed.

Ltac queries H := destruct H as [H1 H2 H3 H4 H5]; split; simpl; auto.

Lemma worker_queries mem t s s' : queries_ok s ->
  worker_step pipe_size mem t s = Some s' -> queries_ok s'.
Proof.
  intros Hq. unfold worker_step.
  destruct (threads s !! t) as [[p oq]|] eqn:Hth; cbn [mbind option_bind t_pc t_query]; [|done].
  pose proof (Forall_lookup_1 _ _ _ _ (qo_threads _ Hq) Hth) as [Hoq Hp]; cbn in Hoq, Hp.
  assert (Htake : queries_ok (take_or_wait t (Thread p oq) s)).
  { unfold take_or_wait. destruct oq; queries Hq; by apply Forall_insert. }
  destruct p as [| | | |q|q| |].
  - intros [= <-]. queries Hq. apply Forall_insert; [done|]. split; [done|cbn; by destruct (shutdown s)].
  - by intros [= <-].
  - done.
  - destruct (shutdown s); [|by intros [= <-]]. intros [= <-]. queries Hq. by apply Forall_insert.
  - destruct (handle mem (world s) q) as [[q' w']|] eqn:Eh; simpl; [|done]. intros [= <-].
    queries Hq. apply Forall_insert; [done|]. split; [done|]. by eapply handle_answers.
  - intros [= <-]. destruct (negb _); queries Hq; by apply Forall_insert.
  - intros [= <-]. destruct (_ <? _)%nat; queries Hq; by apply Forall_insert.
  - done.
Qed.

Lemma step_queries s s' : queries_ok s -> step pipe_size spurious s s' -> queries_ok s'.
Proof.
  intros Hq Hst. destruct Hst as [mem t s' H|t oq _ Ht|s' H|conn b Hd|Hd Hp|Hd].
  - by eapply worker_queries.
  - pose proof (Forall_lookup_1 _ _ _ _ (qo_threads _ Hq) Ht) as [Hoq _].
    queries Hq. by apply Forall_insert.
  - revert H. unfold disp_step. pose proof (qo_disp _ Hq) as Hdq.
    destruct (disp s) as [|q|t q| | | |t|t|] eqn:Hd; try done; cbn in Hdq.
    + intros [= <-]. unfold gp_query_assign. destruct (free_list s); queries Hq.
    + unfold hand_over. destruct (threads s !! t) as [th|] eqn:Hth; simpl; [|done].
      pose proof (Forall_lookup_1 _ _ _ _ (qo_threads _ Hq) Hth) as [_ Hp]. intros [= <-].
      queries Hq. apply Forall_insert; [done|]. split; [done|]. simpl. by destruct (t_pc th).
    + intros [= <-]. unfold take_reply. destruct (reply_list s) eqn:E; queries Hq.
      * rewrite E in H2. by apply Forall_cons in H2 as [_ ?].
      * rewrite E in H2. apply Forall_cons in H2 as [? _]. apply Forall_app. auto.
    + intros [= <-]. unfold drain_wait_list. destruct (wait_list s) eqn:E; queries Hq.
      * rewrite E in H1. by apply Forall_cons in H1 as [_ ?].
      * rewrite E in H1. by apply Forall_cons in H1 as [? _].
    + intros [= <-]. unfold pick_thread. repeat case_match; queries Hq.
    + unfold wake. destruct (threads s !! t) as [th|] eqn:Hth; simpl; [|done].
      pose proof (Forall_lookup_1 _ _ _ _ (qo_threads _ Hq) Hth) as [? Hp]. intros [= <-].
      queries Hq. apply Forall_insert; [done|]. split; [done|]. simpl. by destruct (t_pc th).
    + unfold join. destruct (threads s !! t) as [th|] eqn:Hth; simpl; [|done].
      destruct (t_pc th); try done. intros [= <-]. queries Hq.
  - queries Hq. done.
  - queries Hq.
  - queries Hq.
Qed.

(** ** The invariant of the pool *)

Lemma shutdown_stays s s' : step pipe_size spurious s s' -> shutdown s' = false -> shutdown s = false.
Proof.
  intros Hst. destruct Hst as [mem t s' H|t oq _ Ht|s' H|conn b Hd|Hd Hp|Hd]; try done; revert H.
  - unfold worker_step, take_or_wait. destruct (threads s !! t) as [[p oq]|]; simpl; [|done].
    destruct p; try destruct oq; try destruct (handle _ _ _) as [[? ?]|]; simpl;
      repeat case_match; intros; simplify_eq/=; congruence.
  - unfold disp_step, gp_query_assign, hand_over, take_reply, drain_wait_list, pick_thread, wake, join.
    repeat case_match; intros; simplify_option_eq; try case_match; simplify_eq/=; congruence.
Qed.

Record inv (s : gp_workers W) : Prop := {
  inv_lists : lists_ok s; inv_counts : counts_ok s; inv_queries : queries_ok s }.

Lemma init_inv configured w : inv (gp_workers_init configured w).
Proof.
  unfold gp_workers_init. set (n := num_threads configured). split.
  - split; simpl; try done.
    + rewrite length_replicate, app_nil_r. by rewrite reverse_Permutation.
    + intros t th [-> Ht]%lookup_replicate. left. split_and!; [done|done|left].
      rewrite elem_of_reverse, elem_of_seq. lia.
  - assert (Hz : forall f : gp_thread -> nat, f (Thread Test None) = 0%nat ->
      sum_list_with f (replicate n (Thread Test None)) = 0%nat).
    { intros f Hf. induction n as [|m IH]; [done|]. simpl. lia. }
    split; unfold bytes_due, pending_weight; simpl.
    + intros f. by rewrite Hz.
    + by rewrite Hz.
    + done.
  - split; simpl; try done. by apply Forall_replicate.
Qed.

Lemma reachable_inv configured w s :
  reachable pipe_size spurious configured w s -> shutdown s = false -> inv s.
Proof.
  intros Hr. unfold reachable in Hr.
  assert (Hgen : forall s0, rtc (step pipe_size spurious) s0 s -> (shutdown s0 = false -> inv s0) ->
            shutdown s = false -> inv s); [|apply (Hgen _ Hr); intros _; apply init_inv].
  clear Hr. induction 1 as [s0|s0 s1 s2 H12 Hr IH]; intros H0 Hsd; [by apply H0|].
  apply IH; [|done]. intros Hsd1. pose proof (shutdown_stays _ _ H12 Hsd1) as Hsd0.
  destruct (H0 Hsd0) as [Hl Hc Hq].
  split; [by eapply step_lists_ok|by eapply step_counts|by eapply step_queries].
Qed.
End invariant.
