(* ===== verification/WorkersTheorems.v ===== *)
(** * The pool answers every query, and its shutdown may hang

    The theorems about src/gp_workers.c, from the invariants of WorkersProps.v. *)

From S2P Require Import Prelude Accept Dlist Workers WorkersProps.

Section pool.
Context {W : Type} {QH : QueryHandler W}.
Variables (pipe_size : nat) (spurious : bool).

Definition thread_queries (th : gp_thread) : list gp_query :=
  option_list (t_query th) ++ match t_pc th with Handle q | Done q => [q] | _ => [] end.
Definition disp_queries (d : dispatcher) : list gp_query :=
  match d with Assign q | Hand _ q => [q] | _ => [] end.

(** the queries the pool holds *)
Definition pending (s : gp_workers W) : list gp_query :=
  wait_list s ++ reply_list s ++ disp_queries (disp s) ++ (threads s ≫= thread_queries).

Lemma sum_bind f (ths : list gp_thread) :
  sum_list_with f (ths ≫= thread_queries) = sum_list_with (th_weight f) ths.
Proof.
  induction ths as [|[p oq] ths IH]; [done|]. rewrite bind_cons, sum_list_with_app, IH.
  unfold thread_queries, th_weight. rewrite sum_list_with_app. simpl.
  destruct oq, p; simpl; lia.
Qed.

Lemma pending_sum f s : sum_list_with f (pending s) = pending_weight f s.
Proof.
  unfold pending, pending_weight. rewrite !sum_list_with_app, sum_bind.
  destruct (disp s); simpl; lia.
Qed.

Lemma sum_list_map {A B} (g : A -> B) f (l : list A) :
  sum_list_with f (map g l) = sum_list_with (f ∘ g) l.
Proof. induction l; simpl; [done|]. by rewrite IHl. Qed.

Lemma sum_one {A} (l : list A) : sum_list_with (fun _ => 1%nat) l = length l.
Proof. induction l; simpl; [done|]. by rewrite IHl. Qed.

Lemma sum_zero {A} (f : A -> nat) l : Forall (fun x => f x = 0%nat) l -> sum_list_with f l = 0%nat.
Proof. induction 1; simpl; lia. Qed.

Lemma accepted_perm s : counts_ok s -> accepted s ≡ₚ map source (pending s ++ finished s).
Proof.
  intros [H _ _]. apply sums_perm. intros f. rewrite H, sum_list_map, sum_list_with_app, pending_sum.
  done.
Qed.

(** C18. The pool loses no query, invents none and answers none twice: while it serves, the
    queries it accepted are, each once, waiting, with a thread, on their way back, or
    finished; and what is sent to a connection is the outcome of handling the request that
    connection sent. *)
Theorem pool_keeps_queries configured w s :
  reachable pipe_size spurious configured w s -> shutdown s = false ->
  accepted s ≡ₚ map source (pending s ++ finished s) /\
  forall q, q ∈ finished s -> exists mem (w1 w2 : W),
    handle mem w1 (new_query (q_conn q) (q_request q)) = Some (q, w2).
Proof.
  intros Hr Hsd. destruct (reachable_inv _ _ _ _ _ Hr Hsd) as [_ Hc Hq].
  split; [by apply accepted_perm|]. intros q Hin.
  exact (proj1 (Forall_forall _ _) (qo_finished _ Hq) q Hin).
Qed.

(** While the pool serves, every thread is in exactly one of its two lists; a free thread
    holds no query; and a busy thread that was handed its query is never blocked: the signal
    that comes with the query is not lost. *)
Theorem pool_threads_listed configured w s :
  reachable pipe_size spurious configured w s -> shutdown s = false ->
  free_list s ++ busy_list s ≡ₚ seq 0 (length (threads s)) /\
  forall t th, threads s !! t = Some th ->
    (t ∈ free_list s -> thread_queries th = []) /\
    (t ∈ busy_list s -> (exists q, disp s = Hand t q) \/
       (length (thread_queries th) = 1%nat /\ t_pc th <> Waiting /\ t_pc th <> Exited)).
Proof.
  intros Hr Hsd. destruct (reachable_inv _ _ _ _ _ Hr Hsd) as [Hl _ _].
  split; [apply Hl|]. intros t th Hth. unfold thread_queries.
  destruct th as [p oq]; pose proof (lo_thread _ Hl t _ Hth) as Ht; unfold thread_ok in Ht; cbn in *.
  split; intros Hin.
  - destruct Ht as [(-> & Hi & _)|[(_ & _ & _ & ?)|(_ & _ & ?)]].
    + by destruct p.
    + by destruct (free_not_busy s t Hl).
    + by destruct (free_not_busy s t Hl).
  - destruct Ht as [(-> & Hi & [?|?])|[([q ->] & Hi & Hw & _)|(-> & [q [-> | ->]] & _)]].
    + by destruct (free_not_busy s t Hl).
    + by left.
    + right. split_and!; [by destruct p|done|by intros ->].
    + by right.
    + by right.
Qed.

(** ** Draining *)

(** a step of a thread or of the dispatcher, no new query and no end of the pool *)
Inductive inner (s : gp_workers W) : gp_workers W -> Prop :=
| inner_worker mem t s' : worker_step pipe_size mem t s = Some s' -> inner s s'
| inner_disp s' : disp_step s = Some s' -> inner s s'
| inner_reply : disp s = Idle -> (0 < pipe s)%nat -> inner s (gp_handle_reply s).

Lemma inner_step s s' : inner s s' -> step pipe_size spurious s s'.
Proof. destruct 1; [by eapply step_worker|by eapply step_disp|by eapply step_reply]. Qed.

(** how far the pool is from rest *)
Definition pc_dist (p : pc) : nat :=
  match p with Test => 3 | Enter | Woken => 2 | Waiting | Exited => 0
             | Signal => 8 | Done _ => 10 | Handle _ => 11 end.
Definition thread_dist (th : gp_thread) : nat :=
  (pc_dist (t_pc th) + match t_query th with Some _ => 10 | None => 0 end)%nat.
Definition disp_dist (d : dispatcher) : nat :=
  match d with Idle => 0 | Reply => 3 | Drain => 2 | Assign _ => 14 | Hand _ _ => 13 | _ => 0 end.
Definition distance (s : gp_workers W) : nat :=
  (13 * length (wait_list s) + length (reply_list s) + 4 * pipe s + disp_dist (disp s) +
   sum_list_with thread_dist (threads s))%nat.

Lemma set_thread_distance t th th' s : threads s !! t = Some th ->
  (distance (set_thread t th' s) + thread_dist th = distance s + thread_dist th')%nat.
Proof.
  intros Hth. unfold distance. simpl.
  pose proof (sum_set thread_dist (threads s) t th th' Hth). lia.
Qed.

Lemma worker_distance mem t s s' : shutdown s = false ->
  worker_step pipe_size mem t s = Some s' -> (distance s' < distance s)%nat.
Proof.
  intros Hsd. unfold worker_step.
  destruct (threads s !! t) as [[p oq]|] eqn:Hth; cbn [mbind option_bind t_pc t_query]; [|done].
  assert (Hset : forall th', (thread_dist th' < thread_dist (Thread p oq))%nat ->
            (distance (set_thread t th' s) < distance s)%nat).
  { intros th' H. pose proof (set_thread_distance t _ th' s Hth). lia. }
  assert (Htake : pc_dist p = 2%nat -> (distance (take_or_wait t (Thread p oq) s) < distance s)%nat).
  { intros Hp. unfold take_or_wait. destruct oq; apply Hset; unfold thread_dist; cbn in *; lia. }
  destruct p as [| | | |q|q| |]; rewrite ?Hsd.
  - intros [= <-]. apply Hset. unfold thread_dist. cbn. lia.
  - intros [= <-]. by apply Htake.
  - done.
  - intros [= <-]. by apply Htake.
  - destruct (handle mem (world s) q) as [[q' w']|]; simpl; [|done]. intros [= <-].
    assert (H := Hset (Thread (Done q') oq)). unfold distance, thread_dist in *. cbn in *. lia.
  - intros [= <-]. cbn [shutdown set_queues]. rewrite Hsd. cbn [negb]. unfold distance. simpl.
    pose proof (sum_set thread_dist (threads s) t _ (Thread Signal oq) Hth) as H.
    unfold thread_dist in H at 2 4. cbn in H. lia.
  - intros [= <-]. pose proof (sum_set thread_dist (threads s) t _ (Thread Test oq) Hth) as H.
    unfold thread_dist in H at 2 4. cbn in H.
    destruct (pipe s <? pipe_size)%nat; unfold distance; simpl; lia.
  - done.
Qed.

Lemma inner_distance s s' : lists_ok s -> shutdown s = false -> inner s s' ->
  (distance s' < distance s)%nat.
Proof.
  intros Hl Hsd Hin. destruct Hin as [mem t s' H|s' H|Hd Hp]; [by eapply worker_distance| |].
  - revert H. unfold disp_step. pose proof (lo_serving _ Hl) as Hs.
    destruct (disp s) as [|q|t q| | | |t|t|] eqn:Hd; try done.
    + intros [= <-]. unfold gp_query_assign, distance. rewrite Hd.
      destruct (free_list s); simpl; lia.
    + unfold hand_over. destruct (lo_hand _ Hl t q Hd) as (_ & p & Hth & Hi). rewrite Hth. simpl.
      intros [= <-]. unfold distance. simpl. rewrite Hd. simpl.
      pose proof (sum_set thread_dist (threads s) t _ (Thread (signalled p) (Some q)) Hth) as H.
      unfold thread_dist in H at 2 4. destruct p; cbn in *; try done; lia.
    + intros [= <-]. unfold take_reply, distance. rewrite Hd.
      destruct (reply_list s) eqn:E; simpl; rewrite ?E; simpl; lia.
    + intros [= <-]. unfold drain_wait_list, distance. rewrite Hd.
      destruct (wait_list s) eqn:E; simpl; rewrite ?E; simpl; lia.
  - unfold gp_handle_reply, distance. simpl. rewrite Hd. simpl. lia.
Qed.

(** a thread is in a procedure *)
Definition handling (th : gp_thread) : Prop := match t_pc th with Handle _ => True | _ => False end.
#[local] Instance handling_dec th : Decision (handling th).
Proof. unfold handling. destruct (t_pc th); apply _. Defined.

(** a thread is in a procedure that faults *)
Definition faulted (s : gp_workers W) : Prop :=
  exists t q oq, threads s !! t = Some (Thread (Handle q) oq) /\ forall mem, handle mem (world s) q = None.

Lemma stuck_handling s : (forall s', ~ inner s s') -> Exists handling (threads s) -> faulted s.
Proof.
  intros Hstuck ([p oq] & [t Hth]%list_elem_of_lookup & Hh)%Exists_exists. unfold handling in Hh. cbn in Hh.
  destruct p as [| | | |q|q| |]; try done. exists t, q, oq. split; [done|]. intros mem.
  destruct (handle mem (world s) q) as [[q' w']|] eqn:E; [exfalso|done].
  apply (Hstuck (set_world w' (set_thread t (Thread (Done q') oq) s))). apply (inner_worker _ mem t).
  unfold worker_step. by rewrite Hth; simpl; rewrite E.
Qed.

(** a pool at rest, with nothing on its way, holds no query *)
Lemma stuck_empty s : inv s -> shutdown s = false -> (0 < length (threads s))%nat -> lost s = 0%nat ->
  ~ Exists handling (threads s) -> (forall s', ~ inner s s') -> pending s = [].
Proof.
  intros [Hl [Hcq Hcr Hcw] Hq] Hsd Hn Hlost Hh Hstuck.
  assert (Hthreads : forall t th, threads s !! t = Some th -> th = Thread Waiting None /\ t ∈ free_list s \/
            exists q, disp s = Hand t q).
  { intros t [p oq] Hth. pose proof (lo_thread _ Hl t _ Hth) as Ht. unfold thread_ok in Ht; cbn in Ht.
    assert (Hw : worker_step pipe_size true t s = None).
    { destruct (worker_step pipe_size true t s) as [s'|] eqn:E; [|done].
      by destruct (Hstuck s' (inner_worker _ _ _ _ E)). }
    unfold worker_step in Hw. rewrite Hth in Hw. cbn [mbind option_bind t_pc t_query] in Hw.
    destruct p; try done; [|by rewrite Hsd in Hw| |].
    - destruct Ht as [(-> & _ & [?|?])|[(_ & _ & ? & _)|(_ & [q [?|?]] & _)]]; auto; done.
    - destruct Hh. apply Exists_exists. exists (Thread (Handle q) oq). split; [by eapply list_elem_of_lookup_2|done].
    - by destruct Ht as [(_ & [] & _)|[(_ & [] & _)|(_ & [q [?|?]] & _)]]. }
  assert (Hidle : disp s = Idle).
  { assert (Hd : disp_step s = None).
    { destruct (disp_step s) as [s'|] eqn:E; [|done]. by destruct (Hstuck s' (inner_disp _ _ E)). }
    revert Hd. unfold disp_step. pose proof (lo_serving _ Hl).
    destruct (disp s) as [|q|t q| | | |t|t|] eqn:E; try done.
    unfold hand_over. destruct (lo_hand _ Hl t q E) as (_ & p & -> & _). done. }
  assert (Hpipe : pipe s = 0%nat).
  { destruct (pipe s) eqn:E; [done|]. destruct (Hstuck _ (inner_reply s Hidle ltac:(lia))). }
  assert (Hall : forall t th, threads s !! t = Some th -> th = Thread Waiting None /\ t ∈ free_list s).
  { intros t th Hth. destruct (Hthreads t th Hth) as [?|[q E]]; [done|congruence]. }
  assert (Hz : forall f : gp_thread -> nat, f (Thread Waiting None) = 0%nat ->
            sum_list_with f (threads s) = 0%nat).
  { intros f Hf. apply sum_zero, Forall_lookup. intros t th Hth. by destruct (Hall t th Hth) as [-> _]. }
  unfold bytes_due in *. rewrite Hidle, Hpipe, Hlost, (Hz signals eq_refl) in *. simpl in *.
  assert (Hfree : (0 < length (free_list s))%nat).
  { destruct (lookup_lt_is_Some_2 (threads s) 0 Hn) as [th Hth].
    destruct (Hall _ _ Hth) as [_ Hin]. destruct (free_list s); [by apply elem_of_nil in Hin|simpl; lia]. }
  unfold pending. rewrite Hidle. destruct (wait_list s) as [|q wait].
  - destruct (reply_list s); [|discriminate Hcr]. simpl.
    assert (E := Hz (fun th => length (thread_queries th)) eq_refl).
    revert E. generalize (threads s). clear. induction l as [|th l IH]; [done|].
    intros E. rewrite bind_cons. cbn in E. destruct (thread_queries th); [|simpl in E; lia]. by apply IH.
  - specialize (Hcw ltac:(done)). lia.
Qed.

(** what the steps leave alone *)
Lemma worker_frame mem t s s' : worker_step pipe_size mem t s = Some s' ->
  shutdown s' = shutdown s /\ accepted s' = accepted s /\ finished s' = finished s /\
  length (threads s') = length (threads s) /\ disp s' = disp s.
Proof.
  unfold worker_step, take_or_wait. destruct (threads s !! t) as [[p oq]|]; simpl; [|done].
  destruct p; try destruct oq; try destruct (handle _ _ _) as [[? ?]|]; simpl;
    repeat case_match; intros; simplify_eq/=; rewrite ?length_insert; done.
Qed.

Lemma disp_frame (s s' : gp_workers W) : disp_step s = Some s' ->
  shutdown s' = shutdown s /\ accepted s' = accepted s /\
  (length (finished s) <= length (finished s'))%nat /\
  length (threads s') = length (threads s) /\ lost s' = lost s.
Proof.
  unfold disp_step, gp_query_assign, hand_over, take_reply, drain_wait_list, pick_thread, wake, join.
  destruct (disp s) as [|q|t q| | | |t|t|];
    try destruct (threads s !! t) as [[p oq]|]; try destruct (free_list s);
    try destruct (busy_list s); try destruct (reply_list s); try destruct (wait_list s);
    simpl; repeat case_match; intros; simplify_eq/=;
    rewrite ?length_insert, ?length_app; split_and!; (done || lia).
Qed.

Lemma step_threads s s' : step pipe_size spurious s s' -> length (threads s') = length (threads s).
Proof.
  destruct 1 as [mem t s' H|t oq _ Ht|s' H|conn b Hd|Hd Hp|Hd]; simpl; try done.
  - by apply worker_frame in H as (_ & _ & _ & ? & _).
  - by rewrite length_insert.
  - by apply disp_frame in H as (_ & _ & _ & ? & _).
Qed.

Lemma reachable_threads configured w s :
  reachable pipe_size spurious configured w s -> length (threads s) = num_threads configured.
Proof.
  intros Hr. unfold reachable in Hr. etrans; [|apply (length_replicate (num_threads configured) (Thread Test None))].
  change (replicate _ _) with (threads (gp_workers_init configured w)).
  induction Hr as [|s0 s1 s2 H _ IH]; [done|]. by rewrite IH, (step_threads _ _ H).
Qed.

Lemma num_threads_pos configured : (0 < num_threads configured)%nat.
Proof. unfold num_threads, DEFAULT_WORKER_THREADS_NUM. destruct (Z.ltb_spec 0 configured); lia. Qed.

(** a pool that serves; and one whose pipe holds a byte for every query *)
Record draining (s : gp_workers W) : Prop := { dr_inv : inv s; dr_serving : shutdown s = false }.
Definition roomy (s : gp_workers W) : Prop := lost s = 0%nat /\ (length (pending s) <= pipe_size)%nat.

Lemma accepted_length s : counts_ok s ->
  length (accepted s) = (length (pending s) + length (finished s))%nat.
Proof. intros H. rewrite (accepted_perm s H), length_map, length_app. done. Qed.

Lemma worker_lost mem t s s' : counts_ok s -> roomy s -> worker_step pipe_size mem t s = Some s' -> lost s' = lost s.
Proof.
  intros Hc [Hlost Hroom]. unfold worker_step, take_or_wait.
  destruct (threads s !! t) as [[p oq]|] eqn:Hth; cbn [mbind option_bind t_pc t_query]; [|done].
  destruct p; try (destruct oq; simpl; repeat case_match; intros; by simplify_eq/=).
  - destruct (handle _ _ _) as [[? ?]|]; simpl; intros; by simplify_eq/=.
  - intros [= <-]. destruct (Nat.ltb_spec (pipe s) pipe_size) as [|Hfull]; [done|exfalso].
    pose proof (co_replies _ Hc) as Hr. unfold bytes_due in Hr.
    pose proof (sum_set signals (threads s) t _ (Thread Test oq) Hth) as Hs. cbn in Hs.
    unfold pending in Hroom. rewrite !length_app in Hroom. lia.
Qed.

Lemma inner_draining s s' : draining s -> inner s s' ->
  draining s' /\ accepted s' = accepted s /\ length (threads s') = length (threads s) /\ (roomy s -> roomy s').
Proof.
  intros Hdr Hin. pose proof Hdr as [[Hl Hc Hq] Hsd].
  assert (Hf : shutdown s' = shutdown s /\ accepted s' = accepted s /\
            (length (finished s) <= length (finished s'))%nat /\
            length (threads s') = length (threads s) /\ (roomy s -> lost s' = lost s)).
  { destruct Hin as [mem t s' H|s' H|Hd Hp]; [|apply disp_frame in H; naive_solver|done].
    assert (Hlost : roomy s -> lost s' = lost s) by (intros Hr; by eapply worker_lost).
    apply worker_frame in H as (? & ? & -> & ? & _). done. }
  destruct Hf as (E1 & E2 & E3 & E4 & E5). rewrite Hsd in E1. pose proof (inner_step _ _ Hin) as Hst.
  assert (Hinv : inv s') by (split; [by eapply step_lists_ok|by eapply step_counts|by eapply step_queries]).
  split_and!; [done|done|done|]. intros Hr. specialize (E5 Hr). destruct Hr as [Hlost Hroom]. split; [congruence|].
  pose proof (accepted_length s Hc) as L1. pose proof (accepted_length s' (inv_counts _ Hinv)) as L2.
  rewrite E2 in L2. lia.
Qed.

Lemma nsteps_draining n s s' : draining s -> nsteps inner n s s' ->
  draining s' /\ accepted s' = accepted s /\ length (threads s') = length (threads s) /\
  (roomy s -> roomy s') /\ (n + distance s' <= distance s)%nat.
Proof.
  intros Hdr Hn. revert Hdr. induction Hn as [s|n s0 s1 s2 H _ IH]; intros Hdr; [split_and!; auto|].
  destruct (inner_draining _ _ Hdr H) as (Hdr1 & E1 & E2 & Hr1).
  destruct (IH Hdr1) as (Hdr2 & E3 & E4 & Hr2 & Hle).
  pose proof (inner_distance s0 s1 (inv_lists _ (dr_inv _ Hdr)) (dr_serving _ Hdr) H).
  split_and!; [done|congruence|congruence|auto|lia].
Qed.

(** C19. Left alone - no new query, no shutdown - the pool stops after a bounded number of steps,
    whatever thread runs when.  It stops only with every accepted query finished, or with a
    procedure of a thread that faults, or when a byte for a reply was lost because the pipe
    was full; which does not happen where the pipe has room for a byte of every pending query. *)
Theorem pool_drains configured w s n s' :
  reachable pipe_size spurious configured w s -> shutdown s = false -> nsteps inner n s s' ->
  (n <= distance s)%nat /\
  (lost s = 0%nat -> (length (pending s) <= pipe_size)%nat -> lost s' = 0%nat) /\
  ((forall s2, ~ inner s' s2) ->
     (pending s' = [] /\ accepted s ≡ₚ map source (finished s')) \/
     (exists t q oq, threads s' !! t = Some (Thread (Handle q) oq) /\ forall mem, handle mem (world s') q = None) \/
     (0 < lost s')%nat).
Proof.
  intros Hr Hsd Hn. pose proof (reachable_inv _ _ _ _ _ Hr Hsd) as Hinv.
  destruct (nsteps_draining n s s') as (Hdr & Ha & Ht & Hroomy & Hle); [by split|done|].
  split; [lia|]. split; [intros Hl Hp; by destruct Hroomy|]. intros Hstuck. destruct Hdr as [Hinv' Hsd'].
  destruct (decide (Exists handling (threads s'))) as [He|Hne]; [right; left; by apply stuck_handling|].
  destruct (decide (lost s' = 0%nat)) as [Hlost|]; [left|right; right; lia].
  assert (Hp : pending s' = []).
  { apply stuck_empty; try done. rewrite Ht, (reachable_threads _ _ _ Hr). apply num_threads_pos. }
  split; [done|]. rewrite <- Ha, (accepted_perm s' (inv_counts _ Hinv')), Hp. done.
Qed.
End pool.
