(* ===== verification/Server.v ===== *)
(** * The server

    gp_handle_query of src/gp_workers.c: the service of the connection, the dispatch of the
    call, the callback after it; and the pool of threads that runs it. *)

From S2P Require Import Prelude Xdr RpcXdr RpcProcess RpcTable RpcReply Accept World Service Creds.
From S2P Require Import CredHandlers Workers WorkersProps WorkersTheorems.

Section server.
Context {XL : XdrLib} {W : Type} {CC : CcLib W} {HD : RpcHandlers (call_world W)}.
Variable cfg : gp_config.

(** the callback of the call context (src/gp_creds.c) *)
Definition safe_free_mem_ccache (ccname : bytes) : M W unit :=
  let* e := cc_init_context in
  if negb (e =? 0) then mret tt else
  let* '(e, cc) := krb5_cc_resolve ccname in
  if negb (e =? 0) then mret tt else krb5_cc_destroy cc.

Definition gp_handle_query (mem : bool) (w : W) (q : gp_query) : option (gp_query * W) :=
  match gp_creds_match_conn cfg (q_conn q) with
  | None => Some (Query (q_conn q) (q_buffer q) GP_QUERY_ERR (q_request q), w)
  | Some service =>
      '(ret, buffer, c) ←
        gp_rpc_process_call mem (CallWorld (CallCtx service (q_conn q)) None w) (q_buffer q);
      let q := if negb (ret =? 0) then Query (q_conn q) (q_buffer q) GP_QUERY_ERR (q_request q)
               else Query (q_conn q) buffer GP_QUERY_OUT (q_request q) in
      let w := match cw_callback c with
               | Some ccname => (safe_free_mem_ccache ccname (cw_world c)).2
               | None => cw_world c
               end in
      Some (q, w)
  end.

Lemma handle_query_keeps mem w q q' w' : gp_handle_query mem w q = Some (q', w') ->
  q_conn q' = q_conn q /\ q_request q' = q_request q.
Proof.
  unfold gp_handle_query. destruct (gp_creds_match_conn _ _); [|by intros [= <- _]].
  destruct (gp_rpc_process_call _ _ _) as [[[ret buffer] c]|]; simpl; [|done].
  intros [= <- _]. by destruct (negb _).
Qed.

Definition server_queries : QueryHandler W :=
  {| handle := gp_handle_query; handle_keeps := handle_query_keeps |}.

(** memory for the copy is all that can be missing in a reply *)
Lemma process_call_mem mem (c : call_world W) i out c' :
  gp_rpc_process_call mem c i = Some (0, out, c') -> gp_rpc_process_call true c i = Some (0, out, c').
Proof.
  destruct mem; [done|]. unfold gp_rpc_process_call.
  destruct (gp_rpc_decode_call i _) as [[ret st] arg].
  destruct (match arg with Some _ => _ | None => _ end) as [[[[r acc] res] w]|]; simpl; [|done].
  destruct (gp_rpc_encode_reply _ _ _ _ _ _ _) as [ret2 s]. destruct (ret2 =? 0) eqn:E; simpl.
  - done.
  - intros [= -> _ _]. discriminate E.
Qed.

Context {LAWS : XdrLaws XL} {TYPED : HandlersTyped (call_world W)}.

(** a call that is answered held a message, and the answer carries its transaction id *)
Lemma answer_replies (c : call_world W) i out c' : gp_rpc_process_call true c i = Some (0, out, c') ->
  exists m rest rh body, xdec xdr_gp_rpc_msg i = Some (m, rest) /\
    xdec xdr_gp_rpc_msg out = Some (RpcMsg (xid m) (MsgReply rh), body).
Proof.
  intros Hp. destruct (xdec xdr_gp_rpc_msg i) as [[m rest]|] eqn:Hm.
  - destruct (process_replies c i m rest Hm) as (out' & c2 & rh & body & Hp' & Hr).
    { intros Hru. apply ruined_faults in Hru. congruence. }
    rewrite Hp in Hp'. injection Hp' as <- _. by exists m, rest, rh, body.
  - rewrite (process_none c i true Hm) in Hp. discriminate Hp.
Qed.

(** the dispatch of a request for a service, in some world *)
Definition dispatched (svc : gp_service) (q : gp_query) (mem : bool) (ret : Z) (out : bytes) : Prop :=
  exists w c, gp_rpc_process_call mem (CallWorld (CallCtx svc (q_conn q)) None w) (q_request q) = Some (ret, out, c).

End server.
