(* ===== verification/PoolExamples.v ===== *)
(** * Runs of the pool

    Schedules that execute the pool of Workers.v: the theorems applied, the shutdown that
    hangs, and the order queries are served in. *)

From S2P Require Import Prelude Xdr Rfc4506 RpcXdr GssxXdr RpcProcess RpcTable RpcReply RpcExamples.
From S2P Require Import Accept World Toy Util Crypt LinuxCreds Service CredsProps CredHandlers Workers WorkersProps WorkersTheorems Server.

(** ** Schedules *)

Inductive move :=
| Run (t : nat) | Dispatch | Query_in (conn : gp_conn) (buffer : bytes) | Byte_in | Shut_down.

Section runs.
Context {W : Type} {QH : QueryHandler W}.
Variables (pipe_size : nat) (spurious : bool).

Definition make (m : move) (s : gp_workers W) : option (gp_workers W) :=
  match m with
  | Run t => worker_step pipe_size true t s
  | Dispatch => disp_step s
  | Query_in conn buffer => match disp s with Idle => Some (gp_query_new conn buffer s) | _ => None end
  | Byte_in => match disp s, pipe s with Idle, S _ => Some (gp_handle_reply s) | _, _ => None end
  | Shut_down => match disp s with Idle => Some (gp_workers_free s) | _ => None end
  end.

Fixpoint make_all (ms : list move) (s : gp_workers W) : option (gp_workers W) :=
  match ms with [] => Some s | m :: ms => s' ← make m s; make_all ms s' end.

Lemma make_step m s s' : make m s = Some s' -> step pipe_size spurious s s'.
Proof.
  destruct m as [t| |conn b| |]; simpl.
  - apply step_worker.
  - apply step_disp.
  - destruct (disp s) eqn:E; try done. intros [= <-]. by apply step_query.
  - destruct (disp s) eqn:E; try done. destruct (pipe s) eqn:Ep; [done|]. intros [= <-].
    apply step_reply; [done|lia].
  - destruct (disp s) eqn:E; try done. intros [= <-]. by apply step_free.
Qed.

Lemma make_all_steps ms s s' : make_all ms s = Some s' -> rtc (step pipe_size spurious) s s'.
Proof.
  revert s. induction ms as [|m ms IH]; intros s; simpl; [by intros [= ->]|].
  destruct (make m s) as [s1|] eqn:E; simpl; [|done]. intros H.
  eapply rtc_l; [by eapply make_step|by apply IH].
Qed.

(** a schedule with no new query and no shutdown *)
Definition inner_move (m : move) : Prop :=
  match m with Query_in _ _ | Shut_down => False | _ => True end.

Lemma make_inner_steps ms s s' : Forall inner_move ms -> make_all ms s = Some s' ->
  nsteps (inner pipe_size) (length ms) s s'.
Proof.
  intros Hms. revert s. induction Hms as [|m ms Hm _ IH]; intros s; simpl.
  { intros [= ->]. constructor. }
  destruct (make m s) as [s1|] eqn:E; simpl; [|done]. intros H.
  apply (nsteps_l _ _ _ s1); [|by apply IH].
  destruct m as [t| | | |]; simpl in E; try done.
  - by eapply inner_worker.
  - by apply inner_disp.
  - destruct (disp s) eqn:Ed; try done. destruct (pipe s) eqn:Ep; [done|].
    injection E as <-. apply inner_reply; [done|lia].
Qed.

End runs.

(** ** A shutdown that hangs *)

(** the dispatcher joins thread 0, which waits *)
Definition hung {W} (w : W) : gp_workers W :=
  Workers [Thread Waiting None] [] [] [] [] 0 true (Join 0) w [] [] 0.

(** gp_workers_free may wait for ever: a thread that has tested the flag and not yet
    locked its mutex misses the signal, waits for the next one, and is joined by the
    dispatcher, which would send it.  No step is left. *)
Theorem shutdown_may_hang {W} {QH : QueryHandler W} pipe_size (w : W) :
  exists s, reachable pipe_size false 1 w s /\ shutdown s = true /\ disp s = Join 0 /\
    forall s', ~ step pipe_size false s s'.
Proof.
  exists (hung w). split; [|split; [reflexivity|split; [reflexivity|]]].
  - apply (make_all_steps pipe_size false [Run 0; Shut_down; Dispatch; Dispatch; Run 0]). reflexivity.
  - intros s' Hst. inversion Hst as [mem t ? H|t q H|? H|? ? H|H|H]; subst; try discriminate H.
    destruct t as [|t]; discriminate H.
Qed.
(** ** Concrete runs: a handler that echoes *)

Definition echo : QueryHandler unit.
Proof.
  refine {| handle := fun _ w q => Some (Query (q_conn q) (q_buffer q) GP_QUERY_OUT (q_request q), w) |}.
  by intros _ w q q' w' [= <- _].
Defined.
#[local] Existing Instance echo.

Definition w_conn (sd : Z) : gp_conn := Conn "s" sd CRED_TYPE_UNIX (Ucred 1 48 48) None None.
Definition a_query (sd : Z) : move := Query_in (w_conn sd) [byte_of sd].

(** one thread takes a query and gives its reply back *)
Definition serve_one : list move :=
  [Run 0; Run 0; a_query 5; Dispatch; Dispatch; Run 0; Run 0; Run 0; Run 0; Byte_in; Dispatch; Dispatch].

Definition served : gp_workers unit :=
  default (gp_workers_init 1 tt) (make_all 16 serve_one (gp_workers_init 1 tt)).

Lemma served_reachable : reachable 16 false 1 tt served.
Proof. apply (make_all_steps 16 false serve_one). vm_compute. reflexivity. Qed.

Lemma pool_keeps_queries_witness :
  accepted served ≡ₚ map source (pending served ++ finished served) /\
  (exists mem w1 w2, handle mem w1 (new_query (w_conn 5) [byte_of 5])
    = Some (Query (w_conn 5) [byte_of 5] GP_QUERY_OUT [byte_of 5], w2)).
Proof.
  destruct (pool_keeps_queries 16 false 1 tt served served_reachable eq_refl) as [H1 H2].
  split; [exact H1|].
  apply (H2 (Query (w_conn 5) [byte_of 5] GP_QUERY_OUT [byte_of 5])). left.
Defined.

Lemma pool_threads_listed_witness : free_list served ++ busy_list served ≡ₚ seq 0 1.
Proof.
  exact (proj1 (pool_threads_listed 16 false 1 tt served served_reachable eq_refl)).
Defined.

(** ** The order of service *)

(** The wait list is a stack: of three queries for one thread the last one overtakes the
    second. *)
Theorem later_query_first :
  exists s, reachable 16 false 1 tt s /\
    map fst (accepted s) = [w_conn 7; w_conn 6; w_conn 5] /\
    map q_conn (finished s) = [w_conn 5; w_conn 7; w_conn 6].
Proof.
  set (run := [Run 0; a_query 5; Dispatch; Dispatch; a_query 6; Dispatch; a_query 7; Dispatch;
    Run 0; Run 0; Run 0; Run 0; Byte_in; Dispatch; Dispatch; Dispatch; Dispatch;
    Run 0; Run 0; Run 0; Run 0; Run 0; Byte_in; Dispatch; Dispatch; Dispatch; Dispatch;
    Run 0; Run 0; Run 0; Run 0; Run 0; Byte_in; Dispatch; Dispatch]).
  exists (default (gp_workers_init 1 tt) (make_all 16 run (gp_workers_init 1 tt))).
  split; [apply (make_all_steps 16 false run); vm_compute; reflexivity|].
  vm_compute. split; reflexivity.
Qed.

(** ** The server, with procedures that answer without looking *)

#[local] Instance quiet_handlers : RpcHandlers (call_world toy) := {|
  RpcProcess.gp_indicate_mechs w _ := (0, Some w_res_indicate_mechs, w);
  RpcProcess.gp_import_and_canon_name w _ := (0, Some w_res_import_and_canon_name, w);
  RpcProcess.gp_acquire_cred w _ := (0, Some w_res_acquire_cred, w);
  RpcProcess.gp_init_sec_context w _ := (0, Some w_res_init_sec_context, w);
  RpcProcess.gp_accept_sec_context w _ := (0, Some w_res_accept_sec_context, w);
  RpcProcess.gp_release_handle w _ := (0, Some w_res_release_handle, w);
  RpcProcess.gp_get_mic w _ := (0, Some w_res_get_mic, w);
  RpcProcess.gp_verify_mic w _ := (0, Some w_res_verify_mic, w);
  RpcProcess.gp_wrap w _ := (0, Some w_res_wrap, w);
  RpcProcess.gp_unwrap w _ := (0, Some w_res_unwrap, w);
  RpcProcess.gp_wrap_size_limit w _ := (0, Some w_res_wrap_size_limit, w);
|}.

#[local] Instance quiet_typed : HandlersTyped (call_world toy).
Proof. split; intros w a r [= <-]; typed_result. Qed.

Definition w_cfg : gp_config := Config None None true None 1 [w_service "http" 48 (Some "s")] None.

Definition served_call : gp_workers toy :=
  let init := gp_workers_init 1 (toy_world []) in
  default init (make_all (QH := server_queries (CC := toy_cc) w_cfg) 16
    [Run 0; Run 0; Query_in (w_conn 5) (w_request (w_header 1)); Dispatch; Dispatch;
     Run 0; Run 0; Run 0; Run 0; Byte_in; Dispatch; Dispatch] init).

Lemma served_call_reachable :
  reachable (QH := server_queries (CC := toy_cc) w_cfg) 16 false 1 (toy_world []) served_call.
Proof.
  apply (make_all_steps (QH := server_queries (CC := toy_cc) w_cfg) 16 false
    [Run 0; Run 0; Query_in (w_conn 5) (w_request (w_header 1)); Dispatch; Dispatch;
     Run 0; Run 0; Run 0; Run 0; Byte_in; Dispatch; Dispatch]).
  vm_compute. reflexivity.
Qed.

Definition served_query : gp_query :=
  default (new_query (w_conn 5) []) (head (finished served_call)).


Example served_query_sent : q_status served_query = GP_QUERY_OUT.
Proof. vm_compute. reflexivity. Qed.

(** ** The server left alone, with the procedures of the program *)

Definition real_queries : QueryHandler toy := server_queries (CC := toy_cc)
  (HD := server_handlers (AL := always_mem) (KL := toy_krb) (GL := toy_gss) (NL := toy_nss) (CC := toy_cc) 10) w_cfg.

(** a request that has just arrived, and what is left to do *)
Definition arrive : list move := [Run 0; Run 0; Query_in (w_conn 5) (w_request (w_header 1))].
Definition drain : list move := [Dispatch; Dispatch; Run 0; Run 0; Run 0; Run 0; Byte_in; Dispatch; Dispatch].

Definition real_asked : gp_workers toy :=
  default (gp_workers_init 1 (toy_world [])) (make_all (QH := real_queries) 16 arrive (gp_workers_init 1 (toy_world []))).
Definition real_served : gp_workers toy := default real_asked (make_all (QH := real_queries) 16 drain real_asked).

Lemma real_asked_reachable : reachable (QH := real_queries) 16 false 1 (toy_world []) real_asked.
Proof. apply (make_all_steps (QH := real_queries) 16 false arrive). vm_compute. reflexivity. Qed.

Lemma real_asked_served : nsteps (inner (QH := real_queries) 16) 9 real_asked real_served.
Proof. apply (make_inner_steps (QH := real_queries) 16 drain); [repeat constructor|]. vm_compute. reflexivity. Qed.

Example real_served_sent : map q_status (finished real_served) = [GP_QUERY_OUT].
Proof. vm_compute. reflexivity. Qed.

Lemma real_served_rests t q oq : threads real_served !! t = Some (Thread (Handle q) oq) -> False.
Proof.
  intros H. assert (Ht : Forall (fun th => match t_pc th with Handle _ => False | _ => True end) (threads real_served))
    by (vm_compute; repeat constructor).
  exact (proj1 (Forall_lookup _ _) Ht _ _ H).
Qed.

Lemma pool_drains_witness : pending real_asked <> [] /\ (9 <= distance real_asked)%nat /\
  ((forall s2, ~ inner (QH := real_queries) 16 real_served s2) ->
     pending real_served = [] /\ accepted real_asked ≡ₚ map source (finished real_served)).
Proof.
  split; [vm_compute; discriminate|].
  destruct (pool_drains (QH := real_queries) 16 false 1 (toy_world []) real_asked 9 real_served
    real_asked_reachable eq_refl real_asked_served) as (Hle & Hlost & Hstuck).
  split; [exact Hle|]. intros H. destruct (Hstuck H) as [Hp|[(t & q & oq & Ht & _)|Hl]]; [exact Hp| |].
  - destruct (real_served_rests t q oq Ht).
  - rewrite Hlost in Hl; [lia|reflexivity|vm_compute; lia].
Defined.
