(* ===== verification/ParseFlags.v ===== *)
(** * Flags and lists in the configuration

    The strings of src/gp_config.c that are taken apart with strtok_r(3), strtoul(3) and
    strchr(3).  What strtok_r keeps between calls is the part of the string from its handle to
    the next NUL, since it never goes past one. *)

From Stdlib Require Import Ascii.
From S2P Require Import Prelude World Util.

(** ** The C library's functions *)

Definition ULONG_MAX := 2 ^ 64 - 1.

Fixpoint skip_while (p : Ascii.ascii -> bool) (s : string) : string :=
  match s with String c s' => if p c then skip_while p s' else s | EmptyString => s end.
Fixpoint take_while (p : Ascii.ascii -> bool) (s : string) : string :=
  match s with String c s' => if p c then String c (take_while p s') else EmptyString | EmptyString => s end.

(** [", "], the delimiters of every list *)
Definition is_delim (c : Ascii.ascii) : bool := Ascii.eqb c ","%char || Ascii.eqb c " "%char.

(** the token at the handle, and the handle after it *)
Definition strtok_r (handle : string) : option (string * string) :=
  match skip_while is_delim handle with
  | EmptyString => None
  | s => Some (take_while (fun c => negb (is_delim c)) s,
               match skip_while (fun c => negb (is_delim c)) s with
               | String _ s => s
               | EmptyString => EmptyString
               end)
  end.

Definition isspace (c : Ascii.ascii) : bool :=
  let n := Ascii.nat_of_ascii c in ((9 <=? n) && (n <=? 13))%nat || (n =? 32)%nat.

(** the value of a digit in some base up to 16 *)
Definition digit_in (base : Z) (c : Ascii.ascii) : option Z :=
  let n := Z.of_nat (Ascii.nat_of_ascii c) in
  let d := if (48 <=? n) && (n <=? 57) then n - 48
           else if (97 <=? n) && (n <=? 102) then n - 87
           else if (65 <=? n) && (n <=? 70) then n - 55 else 16 in
  if d <? base then Some d else None.

Fixpoint digits (base acc : Z) (s : string) : Z * string :=
  match s with
  | String c s' => match digit_in base c with
                   | Some d => digits base (acc * base + d) s'
                   | None => (acc, s)
                   end
  | EmptyString => (acc, s)
  end.

Definition ulong (neg : bool) (z : Z) : Z :=
  if ULONG_MAX <? z then ULONG_MAX else if neg then u64 (- z) else z.

(** [strtoul(s, &end, 0)]: the value and [end] *)
Definition strtoul (s : string) : Z * string :=
  let t := skip_while isspace s in
  let '(neg, t) := match t with
                   | String c t' => if Ascii.eqb c "-"%char then (true, t')
                                    else if Ascii.eqb c "+"%char then (false, t') else (false, t)
                   | EmptyString => (false, t)
                   end in
  let number base t := let '(z, rest) := digits base 0 t in (ulong neg z, rest) in
  match t with
  | String c0 t' =>
      if Ascii.eqb c0 "0"%char then
        match t' with
        | String c1 (String c2 _ as t2) =>
            if (Ascii.eqb c1 "x"%char || Ascii.eqb c1 "X"%char) && bool_decide (is_Some (digit_in 16 c2))
            then number 16 t2 else number 8 t
        | _ => number 8 t
        end
      else if bool_decide (is_Some (digit_in 10 c0)) then number 10 t else (0, s)
  | EmptyString => (0, s)
  end.

(** ** Flags *)

Definition GSS_C_MUTUAL_FLAG := 2.
Definition GSS_C_CONF_FLAG := 16.
Definition GSS_C_INTEG_FLAG := 32.
Definition GSS_C_ANON_FLAG := 64.

Definition flag_names : list (string * Z) :=
  [("DELEGATE", GSS_C_DELEG_FLAG);
   ("MUTUAL_AUTH", GSS_C_MUTUAL_FLAG);
   ("REPLAY_DETECT", GSS_C_REPLAY_FLAG);
   ("SEQUENCE", GSS_C_SEQUENCE_FLAG);
   ("CONFIDENTIALITY", GSS_C_CONF_FLAG);
   ("INTEGRITIY", GSS_C_INTEG_FLAG);
   ("ANONYMOUS", GSS_C_ANON_FLAG)].

Definition flag_named (name : string) : option Z :=
  snd <$> List.find (fun f => strcaseeq name f.1) flag_names.

(** [*storage |= flagval] or [*storage &= ~flagval] *)
Definition change_flag (add : bool) (flagval storage : Z) : Z :=
  if add then Z.lor storage flagval else Z.land storage (Z.lxor (2 ^ 32 - 1) flagval).

(** strtoul is given the handle of strtok_r for its end pointer.  No fuel left: [None]. *)
Fixpoint parse_loop (fuel : nat) (handle : string) (storage : Z) : option Z :=
  match fuel with
  | O => None
  | S fuel =>
      match strtok_r handle with
      | None => Some storage
      | Some (token, handle) =>
          let qualified add token :=
            match flag_named token with
            | Some flagval => parse_loop fuel handle (change_flag add flagval storage)
            | None =>
                let '(conv, handle) := strtoul token in
                if (conv =? 0) || (conv =? ULONG_MAX) || negb (String.eqb handle "")
                then parse_loop fuel handle storage
                else parse_loop fuel handle (change_flag add (u32 conv) storage)
            end in
          match token with
          | String c token =>
              if Ascii.eqb c "+"%char then qualified true token
              else if Ascii.eqb c "-"%char then qualified false token
              else parse_loop fuel handle storage
          | EmptyString => parse_loop fuel handle storage
          end
      end
  end.

(** the int of the function and the flags after it *)
Definition parse_flags {W} {AL : Alloc W} (value : string) (storage : Z) : M W (Z * Z) :=
  let* ok := malloc in
  if negb ok then mret (ENOMEM, storage) else
  mret (0, default storage (parse_loop (S (String.length value)) value storage)).

Example parse_one : parse_loop 50 "+mutual_auth, -DELEGATE" 1 = Some 2.
Proof. reflexivity. Qed.
Example parse_number : parse_loop 50 "+0x20 +SEQUENCE" 0 = Some 32.
Proof. reflexivity. Qed.
Example parse_unknown : parse_loop 50 "+INTEGRITY,+SEQUENCE" 0 = Some 0.
Proof. reflexivity. Qed.

(** ** The loop ends *)

Lemma skip_take_while p s :
  (String.length (take_while p s) + String.length (skip_while p s) = String.length s)%nat.
Proof. induction s as [|c s IH]; simpl; [done|]. destruct (p c); simpl; lia. Qed.

Lemma skip_while_length p s : (String.length (skip_while p s) <= String.length s)%nat.
Proof. pose proof (skip_take_while p s). lia. Qed.

Lemma digits_length base acc s : (String.length (digits base acc s).2 <= String.length s)%nat.
Proof.
  revert acc. induction s as [|c s IH]; intros acc; simpl; [done|].
  destruct (digit_in base c); [|done]. specialize (IH (acc * base + z)). lia.
Qed.

Lemma strtoul_length s : (String.length (strtoul s).2 <= String.length s)%nat.
Proof.
  unfold strtoul. pose proof (skip_while_length isspace s) as Hs.
  set (t := skip_while isspace s) in *. clearbody t.
  assert (Hd : forall base neg t', (String.length t' <= String.length t)%nat ->
    (String.length (let '(z, rest) := digits base 0 t' in (ulong neg z, rest)).2 <= String.length s)%nat).
  { intros base neg t' H. pose proof (digits_length base 0 t').
    destruct (digits base 0 t') as [z rest]. simpl in *. lia. }
  set (sg := match t with String _ _ => _ | EmptyString => _ end).
  assert (Hsg : (String.length sg.2 <= String.length t)%nat).
  { subst sg. destruct t as [|c t]; [done|]. repeat case_match; simpl; lia. }
  destruct sg as [neg u]. simpl in Hsg.
  destruct u as [|c0 u']; [done|]. simpl in Hsg.
  destruct (Ascii.eqb c0 "0"%char).
  - destruct u' as [|c1 [|c2 u2]]; [apply Hd; simpl in *; lia..|].
    destruct (_ && _); apply Hd; simpl in *; lia.
  - destruct (bool_decide _); [apply Hd; simpl in *; lia|done].
Qed.

Lemma strtok_length h token h' : strtok_r h = Some (token, h') ->
  (0 < String.length token)%nat /\
  (String.length token + String.length h' <= String.length h)%nat.
Proof.
  unfold strtok_r. pose proof (skip_while_length is_delim h) as Hs.
  destruct (skip_while is_delim h) as [|c s] eqn:E; [done|]. intros [= <- <-].
  assert (Hc : is_delim c = false).
  { clear Hs. revert E. induction h as [|d h IH]; simpl; [done|].
    destruct (is_delim d) eqn:Ed; [exact IH|]. by intros [= <- _]. }
  rewrite Hc. simpl. pose proof (skip_take_while (fun c => negb (is_delim c)) s).
  destruct (skip_while _ s); simpl in *; lia.
Qed.

(** The loop goes round at most once for every character: the fuel of [parse_flags] is never
    used up, and with more of it nothing changes. *)
Lemma parse_loop_total fuel h storage : (String.length h < fuel)%nat ->
  is_Some (parse_loop fuel h storage).
Proof.
  revert h storage. induction fuel as [|fuel IH]; intros h storage Hf; [lia|]. simpl.
  destruct (strtok_r h) as [[token h']|] eqn:E; [|by eexists].
  apply strtok_length in E as [E1 E2].
  assert (Hq : forall add t, (String.length t < String.length token)%nat -> is_Some
    match flag_named t with
    | Some flagval => parse_loop fuel h' (change_flag add flagval storage)
    | None =>
        let '(conv, handle) := strtoul t in
        if (conv =? 0) || (conv =? ULONG_MAX) || negb (String.eqb handle "")
        then parse_loop fuel handle storage
        else parse_loop fuel handle (change_flag add (u32 conv) storage)
    end).
  { intros add t Ht. destruct (flag_named t); [apply IH; lia|].
    pose proof (strtoul_length t). destruct (strtoul t) as [conv rest]. simpl in *.
    destruct (_ || _); apply IH; lia. }
  assert (Hrest : is_Some (parse_loop fuel h' storage)) by (apply IH; lia).
  destruct token as [|c t]; [done|]. simpl in Hq.
  destruct (Ascii.eqb c "+"%char); [apply (Hq true t); lia|].
  destruct (Ascii.eqb c "-"%char); [apply (Hq false t); lia|done].
Qed.

(** ** What the lists mean *)

Lemma string_length_app s t : String.length (s +:+ t) = (String.length s + String.length t)%nat.
Proof. induction s as [|c s IH]; simpl; [done|]. by rewrite IH. Qed.


Fixpoint all_chars (p : ascii -> bool) (s : string) : bool :=
  match s with String c s => p c && all_chars p s | EmptyString => true end.
Definition no_delim (s : string) : bool := all_chars (fun c => negb (is_delim c)) s.

Lemma strtok_skip d s : is_delim d = true -> strtok_r (String d s) = strtok_r s.
Proof. intros Hd. unfold strtok_r. simpl. by rewrite Hd. Qed.

Lemma while_token t d rest : no_delim t = true -> is_delim d = true ->
  take_while (fun c => negb (is_delim c)) (t +:+ String d rest) = t /\
  skip_while (fun c => negb (is_delim c)) (t +:+ String d rest) = String d rest.
Proof.
  intros Ht Hd. induction t as [|c t IH]; simpl.
  - by rewrite Hd.
  - apply andb_true_iff in Ht as [Hc Ht]. rewrite Hc. destruct (IH Ht) as [IH1 IH2].
    by rewrite IH1, IH2.
Qed.

Lemma while_token_end t : no_delim t = true ->
  take_while (fun c => negb (is_delim c)) t = t /\
  skip_while (fun c => negb (is_delim c)) t = "".
Proof.
  intros Ht. induction t as [|c t IH]; simpl; [done|].
  apply andb_true_iff in Ht as [Hc Ht]. rewrite Hc. destruct (IH Ht) as [IH1 IH2].
  by rewrite IH1, IH2.
Qed.

(** a token with a delimiter after it, and the last one *)
Lemma strtok_token c t d rest : no_delim (String c t) = true -> is_delim d = true ->
  strtok_r (String c t +:+ String d rest) = Some (String c t, rest).
Proof.
  intros Ht Hd. pose proof Ht as [Hc%negb_true_iff _]%andb_true_iff.
  destruct (while_token _ d rest Ht Hd) as [E1 E2].
  unfold strtok_r. simpl skip_while at 1. rewrite Hc.
  change (String c (t +:+ String d rest)) with (String c t +:+ String d rest). by rewrite E1, E2.
Qed.

Lemma strtok_last c t : no_delim (String c t) = true ->
  strtok_r (String c t) = Some (String c t, "").
Proof.
  intros Ht. pose proof Ht as [Hc%negb_true_iff _]%andb_true_iff.
  destruct (while_token_end _ Ht) as [E1 E2].
  unfold strtok_r. simpl skip_while at 1. rewrite Hc. by rewrite E1, E2.
Qed.

(** a name of the table has no delimiter in it *)
Lemma all_chars_lower s : no_delim (lower s) = no_delim s.
Proof.
  unfold no_delim. induction s as [|c s IH]; simpl; [done|]. rewrite IH. f_equal. f_equal.
  by destruct c as [[] [] [] [] [] [] [] []].
Qed.

Lemma flag_named_no_delim name v : flag_named name = Some v -> no_delim name = true.
Proof.
  unfold flag_named. intros H. destruct (List.find _ _) as [[n f]|] eqn:E; [|done].
  apply List.find_some in E as [Hin Heq]. apply String.eqb_eq in Heq. simpl in Heq.
  rewrite <- all_chars_lower, Heq, all_chars_lower.
  simpl in Hin. repeat destruct Hin as [[= <- _]|Hin]; done.
Qed.

(** a flag with its qualifier, and a list of flags as it is written *)
Definition flag_text (f : bool * string) : string :=
  String (if f.1 then "+" else "-")%char f.2.
Fixpoint spell (l : list (bool * string)) : string :=
  match l with
  | [] => ""
  | [f] => flag_text f
  | f :: l => flag_text f +:+ String ","%char (String " "%char (spell l))
  end.
Definition change_flags (l : list (bool * string)) (storage : Z) : Z :=
  fold_left (fun storage f => change_flag f.1 (default 0 (flag_named f.2)) storage) l storage.

Lemma flag_text_token f : no_delim f.2 = true -> no_delim (flag_text f) = true.
Proof. destruct f as [[] n]; simpl; intros H; exact H. Qed.

(** a known flag at the handle *)
Lemma parse_known fuel h f h' storage v : flag_named f.2 = Some v ->
  strtok_r h = Some (flag_text f, h') ->
  parse_loop (S fuel) h storage = parse_loop fuel h' (change_flag f.1 v storage).
Proof. intros Hv Hh. simpl. rewrite Hh. destruct f as [[] n]; simpl in *; by rewrite Hv. Qed.

(** A list of known flags with qualifiers changes each of them, from left to right. *)
Theorem parse_flags_spec {W} {AL : Alloc W} l storage (w : W) :
  (malloc w).1 = true -> Forall (fun f => is_Some (flag_named f.2)) l ->
  (parse_flags (spell l) storage w).1 = (0, change_flags l storage).
Proof.
  intros Hm Hl. unfold parse_flags, bind. destruct (malloc w) as [ok w']. simpl in Hm. subst ok.
  cbv beta iota delta [negb mret fst]. f_equal.
  assert (H : forall fuel, (String.length (spell l) < fuel)%nat ->
    parse_loop fuel (spell l) storage = Some (change_flags l storage)).
  2: { specialize (H (S (String.length (spell l))) ltac:(lia)). by rewrite H. }
  clear w w'. revert storage.
  induction Hl as [|f l [v Hv] Hl IH]; intros storage fuel Hf; (destruct fuel as [|fuel]; [lia|]).
  { done. }
  pose proof (flag_text_token f (flag_named_no_delim _ _ Hv)) as Ht.
  unfold change_flags. simpl fold_left. rewrite Hv. simpl default.
  destruct l as [|f2 l].
  - rewrite (parse_known fuel _ f "" storage v Hv); [|by apply strtok_last].
    destruct fuel as [|fuel]; [simpl in Hf; lia|]. done.
  - change (spell (f :: f2 :: l)) with
      (flag_text f +:+ String ","%char (String " "%char (spell (f2 :: l)))) in *.
    rewrite (parse_known fuel _ f (String " "%char (spell (f2 :: l))) storage v Hv);
      [|by apply strtok_token].
    destruct fuel as [|fuel]; [simpl in Hf; lia|].
    assert (Hskip : forall st, parse_loop (S fuel) (String " "%char (spell (f2 :: l))) st
                    = parse_loop (S fuel) (spell (f2 :: l)) st).
    { intros st. cbn [parse_loop]. by rewrite strtok_skip. }
    rewrite Hskip. apply IH. revert Hf. unfold flag_text at 1. rewrite string_length_app. simpl. lia.
Qed.

(** a number, and what strtok_r is left with *)
Lemma parse_numeric fuel h add t h' storage : flag_named t = None ->
  strtok_r h = Some (flag_text (add, t), h') ->
  parse_loop (S fuel) h storage =
  (let '(conv, rest) := strtoul t in
   parse_loop fuel rest (if (conv =? 0) || (conv =? ULONG_MAX) || negb (String.eqb rest "")
                         then storage else change_flag add (u32 conv) storage)).
Proof.
  intros Hn Hh. cbn [parse_loop]. rewrite Hh. destruct add; cbn -[parse_loop strtoul flag_named];
    rewrite Hn; destruct (strtoul t) as [conv rest]; by destruct (_ || _).
Qed.

(** Whatever follows a flag that is written as a number is not read: strtoul(3) is given the
    handle of strtok_r(3) to store its end pointer in. *)
Theorem parse_flags_number_last fuel add t rest storage :
  no_delim t = true -> flag_named t = None -> (strtoul t).2 = "" ->
  parse_loop (S (S fuel)) (flag_text (add, t) +:+ String ","%char rest) storage =
  parse_loop (S (S fuel)) (flag_text (add, t)) storage.
Proof.
  intros Ht Hn Hs. pose proof (flag_text_token (add, t) Ht) as Htok.
  rewrite (parse_numeric (S fuel) (flag_text (add, t) +:+ String "," rest) add t rest storage Hn (strtok_token _ _ "," rest Htok eq_refl)).
  rewrite (parse_numeric (S fuel) (flag_text (add, t)) add t "" storage Hn (strtok_last _ _ Htok)).
  destruct (strtoul t) as [conv r]. simpl in Hs. by subst r.
Qed.

Lemma parse_flags_number_last_witness :
  parse_loop 40 "-0x0001, +ANONYMOUS" 1 = Some 0 /\
  parse_loop 40 "-0x0001, +ANONYMOUS" 1 = parse_loop 40 "-0x0001" 1.
Proof.
  split; [done|]. exact (parse_flags_number_last 38 false "0x0001" " +ANONYMOUS" 1 eq_refl eq_refl eq_refl).
Defined.

Lemma parse_flags_spec_witness :
  (parse_flags (AL := always_mem) (spell [(true, "mutual_auth"); (false, "DELEGATE")]) 1 tt).1 = (0, 2).
Proof.
  apply (parse_flags_spec (AL := always_mem) [(true, "mutual_auth"); (false, "DELEGATE")] 1 tt eq_refl).
  repeat constructor; by eexists.
Defined.

(** ** Flags stay 32-bit words *)

Lemma in_u32_land z : in_u32 z <-> Z.land z (Z.ones 32) = z.
Proof.
  unfold in_u32. rewrite Z.land_ones by lia. split; intros H; [by apply Z.mod_small|].
  rewrite <- H. by apply Z.mod_pos_bound.
Qed.

Lemma change_flag_range add v storage : in_u32 storage -> in_u32 v -> in_u32 (change_flag add v storage).
Proof.
  rewrite !in_u32_land. intros Hs Hv. unfold change_flag. destruct add.
  - by rewrite Z.land_lor_distr_l, Hs, Hv.
  - by rewrite <- Z.land_assoc, (Z.land_comm _ (Z.ones 32)), Z.land_assoc, Hs.
Qed.

Lemma flag_named_range name v : flag_named name = Some v -> in_u32 v.
Proof.
  unfold flag_named. intros H. destruct (List.find _ _) as [[n f]|] eqn:E; [|done].
  apply List.find_some in E as [Hin _]. injection H as <-.
  simpl in Hin. repeat destruct Hin as [[= _ <-]|Hin]; done.
Qed.

Lemma parse_loop_range fuel h storage r : in_u32 storage -> parse_loop fuel h storage = Some r -> in_u32 r.
Proof.
  revert h storage. induction fuel as [|fuel IH]; intros h storage Hs; cbn [parse_loop]; [done|].
  destruct (strtok_r h) as [[token h']|]; [|by intros [= <-]].
  assert (Hq : forall add t, match flag_named t with
    | Some flagval => parse_loop fuel h' (change_flag add flagval storage)
    | None =>
        let '(conv, handle) := strtoul t in
        if (conv =? 0) || (conv =? ULONG_MAX) || negb (String.eqb handle "")
        then parse_loop fuel handle storage
        else parse_loop fuel handle (change_flag add (u32 conv) storage)
    end = Some r -> in_u32 r).
  { intros add t. destruct (flag_named t) as [v|] eqn:Hv.
    - apply IH, change_flag_range; [done|by eapply flag_named_range].
    - destruct (strtoul t) as [conv rest]. destruct (_ || _); apply IH; [done|].
      apply change_flag_range; [done|apply u32_range]. }
  destruct token as [|c t]; [by apply IH|].
  destruct (Ascii.eqb c "+"%char); [apply Hq|]. destruct (Ascii.eqb c "-"%char); [apply Hq|by apply IH].
Qed.

Lemma parse_flags_range {W} {AL : Alloc W} value storage (w : W) : in_u32 storage ->
  in_u32 (parse_flags value storage w).1.2.
Proof.
  intros Hs. unfold parse_flags, bind. destruct (malloc w) as [[] w']; [|done].
  cbv beta iota delta [negb mret fst snd].
  destruct (parse_loop _ value storage) as [r|] eqn:E; [|done]. by eapply parse_loop_range.
Qed.
