(* ===== verification/Outcome.v ===== *)
(** * Results of the daemon's start and configuration

    The monad of the code that runs before the event loop, and when it reads its configuration
    again: its functions return an error, or may read a null pointer. *)

From S2P Require Import Prelude World.

(** ** Results: a value, an error, a null dereference, or no end *)

Inductive outcome (A : Type) :=
| Done (a : A)
| Failed (ret : Z)
| Fault
| Loops.
Arguments Done {A}.
Arguments Failed {A}.
Arguments Fault {A}.
Arguments Loops {A}.

Definition Cf (W A : Type) : Type := M W (outcome A).
Definition done {W A} (a : A) : Cf W A := mret (Done a).
Definition failed {W A} (ret : Z) : Cf W A := mret (Failed ret).
Definition lift {W A} (m : M W A) : Cf W A := let* a := m in done a.
Definition tbind {W A B} (m : Cf W A) (k : A -> Cf W B) : Cf W B :=
  let* r := m in
  match r with
  | Done a => k a
  | Failed ret => mret (Failed ret)
  | Fault => mret Fault
  | Loops => mret Loops
  end.

Notation "'try*' x ':=' m 'in' k" := (tbind m (fun x => k))
  (at level 10, x binder, m at level 100, k at level 200).
Notation "'try*' ' p ':=' m 'in' k" := (tbind m (fun x => match x with p => k end))
  (at level 10, p pattern, m at level 100, k at level 200, only parsing).
