(* ===== verification/Trace.v ===== *)
(** * Tracing of the Kerberos library

    gp_krb5_tracing_setup, free_k5tracer, gp_krb5_fini_tracing and the copying loop of
    k5tracer_thread, of src/gp_mgmt.c; the level of the messages, which switches the tracing,
    of src/gp_debug.c.

    The library writes what it does to the file that KRB5_TRACE names: a pipe, and a thread
    copies from it to the standard error.  The theorems about both are in the second half. *)

From S2P Require Import Prelude World Outcome.

(** the thread, which must be joined once *)
Inductive k5_thread := Running | Joined.
(** struct k5tracer *)
Record k5tracer := K5tracer { k5_tid : k5_thread; k5_fd : Z }.

(** the static variables of both files and of gp_log.c, and the variable of the environment;
    the function that is set is gp_krb5_tracing_setup when there is one *)
Record tracing := Tracing {
  tr_k5tracer : option k5tracer;
  tr_file_name : option string;
  tr_env : option string;                  (* KRB5_TRACE *)
  gp_debug : Z;
  gp_env_trace : bool;
  tr_setup_fn : bool;                      (* gp_debug_setup_k5_trace_fn *)
  gp_syslog_status : bool;
}.

Definition set_tracer (k : option k5tracer) (s : tracing) : tracing :=
  Tracing k (tr_file_name s) (tr_env s) (gp_debug s) (gp_env_trace s) (tr_setup_fn s) (gp_syslog_status s).
Definition set_file_name (n : option string) (s : tracing) : tracing :=
  Tracing (tr_k5tracer s) n (tr_env s) (gp_debug s) (gp_env_trace s) (tr_setup_fn s) (gp_syslog_status s).
Definition set_env (e : option string) (s : tracing) : tracing :=
  Tracing (tr_k5tracer s) (tr_file_name s) e (gp_debug s) (gp_env_trace s) (tr_setup_fn s) (gp_syslog_status s).
Definition set_level (l : Z) (s : tracing) : tracing :=
  Tracing (tr_k5tracer s) (tr_file_name s) (tr_env s) l (gp_env_trace s) (tr_setup_fn s) (gp_syslog_status s).
Definition set_env_trace (b : bool) (s : tracing) : tracing :=
  Tracing (tr_k5tracer s) (tr_file_name s) (tr_env s) (gp_debug s) b (tr_setup_fn s) (gp_syslog_status s).
Definition set_fn (b : bool) (s : tracing) : tracing :=
  Tracing (tr_k5tracer s) (tr_file_name s) (tr_env s) (gp_debug s) (gp_env_trace s) b (gp_syslog_status s).
Definition set_syslog (b : bool) (s : tracing) : tracing :=
  Tracing (tr_k5tracer s) (tr_file_name s) (tr_env s) (gp_debug s) (gp_env_trace s) (tr_setup_fn s) b.

(** the calls; an errno, or a result of 0, where they say how they did *)
Class TraceLib (W : Type) := {
  trace_calloc : M W bool;
  trace_name : M W (Z + string);           (* asprintf(3), with the number of the process *)
  trace_unlink : string -> M W Z;
  trace_mkfifo : string -> M W Z;
  trace_open : string -> M W (Z + Z);      (* an errno, or the descriptor *)
  trace_close : Z -> M W unit;
  trace_attr_init : M W Z;
  trace_attr_setdetachstate : M W Z;
  trace_attr_destroy : M W unit;
  trace_create : M W Z;
  trace_cancel_join : M W unit;
}.

(** a world that holds the variables *)
Class Statics (W : Type) := { statics : W -> tracing; set_statics : tracing -> W -> W }.

Section trace.
Context {W : Type} {TL : TraceLib W}.

Definition free_k5tracer (s : tracing) : M W tracing :=
  match tr_k5tracer s with
  | None => mret s
  | Some k =>
      let* _ := if 0 <? k5_fd k then trace_close (k5_fd k) else mret tt in
      mret (set_tracer None s)
  end.

(** the way out of a failure *)
Definition trace_failed (ret : Z) (s : tracing) : M W tracing :=
  if negb (ret =? 0) then free_k5tracer s else mret s.

(** from the pipe on *)
Definition trace_start (name : string) (s : tracing) : M W tracing :=
  let* r := trace_open name in
  match r with
  | inl errno => trace_failed errno (set_tracer (Some (K5tracer Joined (-1))) s)
  | inr fd =>
      let s := set_tracer (Some (K5tracer Joined fd)) s in
      if fd <=? 2 then
        let* _ := trace_close fd in
        trace_failed EINVAL (set_tracer (Some (K5tracer Joined 0)) s)
      else
        let* ret := trace_attr_init in
        if negb (ret =? 0) then trace_failed ret s else
        let* _ := trace_attr_setdetachstate in
        let* ret := trace_create in
        let* _ := trace_attr_destroy in
        if negb (ret =? 0) then trace_failed ret s
        else mret (set_env (Some name) (set_tracer (Some (K5tracer Running fd)) s))
  end.

Definition trace_on (s : tracing) : M W tracing :=
  let* ok := trace_calloc in
  if negb ok then trace_failed ENOMEM s else
  let s := set_tracer (Some (K5tracer Joined 0)) s in
  let* r := match tr_file_name s with Some n => mret (inr n) | None => trace_name end in
  match r with
  | inl errno => trace_failed errno s
  | inr name =>
      let s := set_file_name (Some name) s in
      let* errno := trace_unlink name in
      if negb (errno =? 0) && negb (errno =? ENOENT) then trace_failed errno s else
      let* errno := trace_mkfifo name in
      if negb (errno =? 0) then trace_failed errno s else trace_start name s
  end.

(** The thread of a tracer that is switched off was joined, the tracer is kept.  To cancel a
    thread that was joined is undefined. *)
Definition gp_krb5_tracing_setup (action : Z) (s : tracing) : Cf W tracing :=
  if negb (action =? 0) && negb (action =? 1) then done s else
  if action =? 0 then
    match tr_k5tracer s with
    | None => done s
    | Some k =>
        match k5_tid k with
        | Joined => mret Fault
        | Running =>
            let* _ := trace_cancel_join in
            done (set_env None (set_tracer (Some (K5tracer Joined (k5_fd k))) s))
        end
    end
  else match tr_k5tracer s with
       | Some _ => done s
       | None => lift (trace_on s)
       end.

Definition gp_krb5_fini_tracing (s : tracing) : Cf W tracing :=
  match tr_file_name s with
  | None => done s
  | Some name =>
      try* s := gp_krb5_tracing_setup 0 s in
      let* _ := trace_unlink name in done s
  end.

(** ** src/gp_debug.c *)

Definition gp_debug_check_env_ (s : tracing) : tracing :=
  match tr_env s with Some _ => set_env_trace true s | None => s end.

Definition gp_debug_set_krb5_tracing_fn (s : tracing) : Cf W tracing :=
  try* s := if tr_setup_fn s then gp_krb5_tracing_setup 0 s else done s in
  let s := set_fn true s in
  if (3 <=? gp_debug s) && negb (gp_env_trace s) then gp_krb5_tracing_setup 1 s else done s.

Definition gp_debug_toggle (level : Z) (s : tracing) : Cf W tracing :=
  try* s :=
    if gp_env_trace s then done s
    else if 3 <=? level then
      if tr_setup_fn s then gp_krb5_tracing_setup 1 s else done (set_env (Some "/dev/stderr") s)
    else if tr_setup_fn s then gp_krb5_tracing_setup 0 s else done (set_env None s) in
  done (set_level level s).

(** ** The same for the rest of the daemon, which has these variables in its world *)

Definition on_statics {ST : Statics W} (f : tracing -> Cf W tracing) : Cf W unit :=
  let* s := (fun w => (statics w, w)) in
  try* s := f s in
  fun w => (Done tt, set_statics s w).

Context {ST : Statics W}.

Definition debug_check_env : Cf W unit := on_statics (fun s => done (gp_debug_check_env_ s)).
Definition debug_set_krb5_tracing_fn : Cf W unit := on_statics gp_debug_set_krb5_tracing_fn.
Definition debug_toggle (level : Z) : Cf W unit := on_statics (gp_debug_toggle level).
Definition syslog_status (b : bool) : Cf W unit := on_statics (fun s => done (set_syslog b s)).
Definition krb5_fini_tracing : Cf W unit := on_statics gp_krb5_fini_tracing.
End trace.

(** ** The thread

    One readable event: what read(2) returned, one after the other, ends in nothing to read or
    in an error; what fwrite(3) returned.  The position is of the event, and after a write that
    is not complete it becomes the number of bytes that are left. *)

Definition K5_BUF := 512%nat.

(** [pos] and [rn] bytes from it must be in the buffer *)
Fixpoint k5_write (buf : bytes) (pos rn : nat) (writes : list nat) (out : bytes)
  : outcome (nat * list nat * bytes) :=
  match rn with
  | O => Done (pos, writes, out)
  | _ =>
      if Nat.ltb K5_BUF (pos + rn) then Fault else
      match writes with
      | [] => Loops
      | wn :: writes =>
          match Nat.min wn rn with
          | O => Done (pos, writes, out)
          | wn => k5_write buf (pos + (rn - wn)) (rn - wn) writes (out ++ take wn (drop pos buf))
          end
      end
  end.

(** what read(2) leaves in the buffer *)
Definition k5_fill (data buf : bytes) : bytes := take K5_BUF data ++ drop (length (take K5_BUF data)) buf.

Fixpoint k5_copy (buf : bytes) (pos : nat) (reads : list bytes) (writes : list nat) (out : bytes)
  : outcome bytes :=
  match reads with
  | [] | [] :: _ => Done out
  | data :: reads =>
      let buf := k5_fill data buf in
      match k5_write buf pos (length (take K5_BUF data)) writes out with
      | Done (pos, writes, out) => k5_copy buf pos reads writes out
      | Failed ret => Failed ret
      | Fault => Fault
      | Loops => Loops
      end
  end.

(** ** Tracing, checked

    What the thread copies, and how often tracing can be switched on. *)

(** ** The copy *)

Lemma k5_write_full buf rn wn writes out : (0 < rn <= K5_BUF)%nat -> (K5_BUF <= wn)%nat ->
  k5_write buf 0 rn (wn :: writes) out = Done (0%nat, writes, out ++ take rn buf).
Proof.
  intros Hrn Hwn. destruct rn as [|rn]; [lia|]. cbn [k5_write].
  replace (Nat.ltb K5_BUF (0 + S rn)) with false by (symmetry; apply Nat.ltb_ge; lia).
  rewrite Nat.min_r by lia. rewrite Nat.sub_diag. by destruct writes.
Qed.

Lemma k5_fill_take data buf : take (length (take K5_BUF data)) (k5_fill data buf) = take K5_BUF data.
Proof. unfold k5_fill. by rewrite take_app_length. Qed.

(** Where every write takes all it is given, the thread copies all that is read, up to the
    end or the first error, whatever was in its buffer. *)
Theorem tracer_copies reads writes buf out : Forall (fun d => d <> []) reads ->
  (length reads <= length writes)%nat -> Forall (fun wn => (K5_BUF <= wn)%nat) writes ->
  k5_copy buf 0 reads writes out = Done (out ++ concat (take K5_BUF <$> reads)).
Proof.
  intros Hr. revert writes buf out. induction Hr as [|data reads Hd _ IH]; intros writes buf out Hl Hw.
  { simpl. by rewrite app_nil_r. }
  destruct writes as [|wn writes]; [simpl in Hl; lia|]. apply Forall_cons in Hw as [Hwn Hw].
  cbn [k5_copy]. destruct data as [|c data]; [done|]. cbv zeta.
  assert (Hn : (0 < length (take K5_BUF (c :: data)) <= K5_BUF)%nat)
    by (rewrite length_take; unfold K5_BUF; cbn [length]; lia).
  rewrite k5_write_full by done.
  rewrite k5_fill_take, IH by (done || simpl in Hl; lia). by rewrite <- app_assoc.
Qed.

(** a write that is not complete: of "abcdef" two bytes are written, then four from the fifth on,
    and of the next line nothing *)
Example short_write_garbles :
  k5_copy (replicate 512 Byte.x2e) 0 [String.list_byte_of_string "abcdef"; String.list_byte_of_string "xyz"]
    [2; 100; 100]%nat [] = Done (String.list_byte_of_string "abef..ef.").
Proof. vm_compute. reflexivity. Qed.

(** ** On and off *)

Section props.
Context {W : Type} {TL : TraceLib W}.

(** the calls of a run, in order *)
Fixpoint setups (actions : list Z) (s : tracing) : Cf W tracing :=
  match actions with
  | [] => done s
  | a :: actions => try* s := gp_krb5_tracing_setup a s in setups actions s
  end.

Definition switched_off (s : tracing) : Prop := exists k, tr_k5tracer s = Some k /\ k5_tid k = Joined.

(** Once tracing is switched off it stays off: to switch it on does nothing, and to switch it off
    once more cancels a thread that is gone. *)
Lemma setups_off actions s w : switched_off s ->
  setups actions s w = (if bool_decide (0 ∈ actions) then Fault else Done s, w).
Proof.
  intros (k & Hk & Ht). induction actions as [|a actions IH]; [done|]. cbn [setups]. unfold tbind, bind.
  unfold gp_krb5_tracing_setup. destruct (Z.eqb_spec a 0) as [->|Ha].
  - rewrite bool_decide_eq_true_2 by left. simpl. by rewrite Hk, Ht.
  - assert (E : bool_decide (0 ∈ a :: actions) = bool_decide (0 ∈ actions)).
    { apply bool_decide_ext. rewrite elem_of_cons. naive_solver. }
    rewrite E, <- IH. destruct (negb (a =? 1)); simpl; [done|]. by rewrite Hk.
Qed.

(** Of a tracer that runs, the first switch off ends the tracing for good; a second one, and
    the end of the daemon is one, is undefined. *)
Theorem tracing_once s k actions w : tr_k5tracer s = Some k -> k5_tid k = Running ->
  is_Some (tr_file_name s) ->
  (setups (0 :: actions) s w).1 = (if bool_decide (0 ∈ actions) then Fault
    else Done (set_env None (set_tracer (Some (K5tracer Joined (k5_fd k))) s))) /\
  (tbind (setups (0 :: actions) s) gp_krb5_fini_tracing w).1 = Fault.
Proof.
  intros Hk Ht [name Hn]. set (s' := set_env None _).
  assert (E : exists w', setups (0 :: actions) s w = (if bool_decide (0 ∈ actions) then Fault else Done s', w')).
  { simpl. unfold tbind at 1, bind. unfold gp_krb5_tracing_setup at 1. simpl. rewrite Hk, Ht. unfold bind.
    destruct (trace_cancel_join w) as [u w']. simpl. exists w'. apply setups_off. by eexists. }
  destruct E as [w' E]. unfold tbind, bind. rewrite E. split; [done|]. case_bool_decide; [done|].
  unfold gp_krb5_fini_tracing. simpl. by rewrite Hn.
Qed.
End props.

(** ** A daemon whose level of messages is changed

    A system where every call succeeds. *)

Definition trace_system {W} : TraceLib W := {|
  trace_calloc := mret true;
  trace_name := mret (inr "/tmp/krb5.tracing.7");
  trace_unlink _ := mret ENOENT; trace_mkfifo _ := mret 0; trace_open _ := mret (inr 9);
  trace_close _ := mret tt; trace_attr_init := mret 0; trace_attr_setdetachstate := mret 0;
  trace_attr_destroy := mret tt; trace_create := mret 0; trace_cancel_join := mret tt;
|}.

#[local] Existing Instance trace_system.

Definition quiet : tracing := Tracing None None None 0 false false false.

Fixpoint toggles (levels : list Z) (s : tracing) : Cf unit tracing :=
  match levels with [] => done s | l :: levels => try* s := gp_debug_toggle l s in toggles levels s end.

Definition after_levels (levels : list Z) : outcome tracing :=
  ((try* s := gp_debug_set_krb5_tracing_fn quiet in toggles levels s) tt).1.

(** the configuration is read again with the levels 3, 1 and 3: there is no tracing *)
Example not_restarted : (tr_env <$> match after_levels [3; 1; 3] with Done s => Some s | _ => None end) = Some None.
Proof. vm_compute. reflexivity. Qed.

(** two configurations in a row without it, after one with it *)
Example joined_twice : after_levels [3; 1; 1] = Fault.
Proof. vm_compute. reflexivity. Qed.

Definition traced : tracing := match after_levels [3] with Done s => s | _ => quiet end.

Lemma tracing_once_witness : (tbind (setups [0; 1; 1] traced) gp_krb5_fini_tracing tt).1 = Fault.
Proof.
  apply (tracing_once traced (K5tracer Running 9) [1; 1] tt); [reflexivity|reflexivity|by eexists].
Defined.

Lemma tracer_copies_witness :
  k5_copy [] 0 [String.list_byte_of_string "one"; String.list_byte_of_string "two"] [512; 600]%nat [] =
  Done (String.list_byte_of_string "onetwo").
Proof. apply tracer_copies; [repeat constructor; done|simpl; lia|repeat constructor; unfold K5_BUF; lia]. Defined.
