(* ===== verification/Config.v ===== *)
(** * The configuration

    src/gp_config.c: what is read from the configuration files, through the ini library, and
    turned into the services of gp_config.  A function that fails leaves nothing behind that
    is looked at: the configuration is freed, so only the error is kept. *)

From S2P Require Import Prelude World Outcome Util Accept Service Crypt ParseFlags Trace.

Definition DEFAULT_FILTERED_FLAGS := GSS_C_DELEG_FLAG.
Definition DEFAULT_ENFORCED_FLAGS := 0.
Definition DEFAULT_MIN_LIFETIME := 15.
Definition GP_USER_PROXY_WORKERS := 2.
Definition GP_USER_PROXY_SERVICE := "user-proxy".
Definition INI_GET_FIRST_VALUE := 0.
Definition INI_GET_NEXT_VALUE := 1.

(** ** What is asked of the libraries *)

(** the ini library (ini_configobj.h): handles, and its flags *)
Class IniLib (W : Type) := {
  ini_cfgobj : Type;
  ini_cfgfile : Type;
  value_obj : Type;
  ref_array : Type;
  INI_STOP_ON_ANY : Z; INI_PARSE_NOWRAP : Z; INI_MS_MERGE : Z; INI_MV1S_ALLOW : Z;
  INI_MV2S_ALLOW : Z; INI_MS_DETECT : Z; INI_MS_PRESERVE : Z;
  ini_config_create : M W (Z + ini_cfgobj);
  ini_config_destroy : ini_cfgobj -> M W unit;
  ini_config_file_open : string -> M W (Z + ini_cfgfile);
  ini_config_file_destroy : ini_cfgfile -> M W unit;
  (* file, error level, collision flags, parse flags, object *)
  ini_config_parse : ini_cfgfile -> Z -> Z -> Z -> ini_cfgobj -> M W Z;
  (* object, directory, patterns, sections, error level, collision, parse and merge flags:
     an error, a new object when files were read, and messages *)
  ini_config_augment : ini_cfgobj -> string -> list string -> list string -> Z -> Z -> Z -> Z ->
                       M W (Z * option ini_cfgobj * option ref_array);
  ref_array_destroy : ref_array -> M W unit;
  (* section, key, object, first or next *)
  ini_get_config_valueobj : string -> string -> ini_cfgobj -> Z -> M W (Z * option value_obj);
  ini_get_const_string_config_value : value_obj -> M W (string * Z);
  (* value, strict, default *)
  ini_get_int_config_value : value_obj -> Z -> Z -> M W (Z * Z);
  ini_get_section_list : ini_cfgobj -> M W (list string * Z);
}.

(** [inl] is errno *)
Class ConfSys (W : Type) := {
  getpwnam : string -> M W (Z + Z);             (* the uid *)
  SELINUX_context_new : string -> M W (option selinux_ctx);
  secure_getenv : string -> M W (option string);
  sys_mkdir : string -> Z -> M W (option Z);
  sys_geteuid : M W Z;
}.

Section config.
Context {W : Type} {AL : Alloc W} {INI : IniLib W} {SYS : ConfSys W} {KL : KrbLib W}.
Context {TL : TraceLib W} {ST : Statics W}.
(** the names the build is configured with *)
Variables (GP_SOCKET_NAME PUBCONF_PATH : string).

(** memory, or ENOMEM *)
Definition need_memory : Cf W unit :=
  let* ok := malloc in if ok then done tt else failed ENOMEM.

(** ** Reading values *)

Definition gp_config_get_string (ctx : ini_cfgobj) (secname keyname : string) : M W (Z + string) :=
  let* '(ret, vo) := ini_get_config_valueobj secname keyname ctx INI_GET_FIRST_VALUE in
  if negb (ret =? 0) then mret (inl ret) else
  match vo with
  | None => mret (inl ENOENT)
  | Some vo =>
      let* '(val, ret) := ini_get_const_string_config_value vo in
      mret (if negb (ret =? 0) then inl ret else inr val)
  end.

Definition gp_config_get_int (ctx : ini_cfgobj) (secname keyname : string) : M W (Z + Z) :=
  let* '(ret, vo) := ini_get_config_valueobj secname keyname ctx INI_GET_FIRST_VALUE in
  if negb (ret =? 0) then mret (inl ret) else
  match vo with
  | None => mret (inl ENOENT)
  | Some vo =>
      let* '(val, ret) := ini_get_int_config_value vo 0 0 in
      mret (if negb (ret =? 0) then inl ret else inr val)
  end.

(** the values after the first ones, [array]; no fuel left is a loop that goes on *)
Fixpoint string_array_loop (fuel : nat) (ctx : ini_cfgobj) (secname keyname : string)
    (array : list string) : Cf W (list string) :=
  match fuel with
  | O => mret Loops
  | S fuel =>
      let* '(ret, vo) := ini_get_config_valueobj secname keyname ctx INI_GET_NEXT_VALUE in
      if negb (ret =? 0) then failed ret else
      match vo with
      | None => done array
      | Some vo =>
          let* '(value, ret) := ini_get_const_string_config_value vo in
          if negb (ret =? 0) then failed ret else
          try* _ := need_memory in
          try* _ := need_memory in
          string_array_loop fuel ctx secname keyname (array ++ [value])
      end
  end.

Definition gp_config_get_string_array (fuel : nat) (ctx : ini_cfgobj) (secname keyname : string)
  : Cf W (list string) :=
  let* '(ret, vo) := ini_get_config_valueobj secname keyname ctx INI_GET_FIRST_VALUE in
  if negb (ret =? 0) then failed ret else
  match vo with
  | None => failed ENOENT
  | Some vo =>
      let* '(value, ret) := ini_get_const_string_config_value vo in
      if negb (ret =? 0) then failed ret else
      try* _ := need_memory in
      try* _ := need_memory in
      string_array_loop fuel ctx secname keyname [value]
  end.

Definition gp_config_get_nsec (ctx : ini_cfgobj) : M W nat :=
  let* '(l, error) := ini_get_section_list ctx in
  mret (if negb (error =? 0) then 0%nat else length l).

(** [None] is NULL *)
Definition gp_config_get_secname (ctx : ini_cfgobj) (i : nat) : M W (option string) :=
  let* '(l, error) := ini_get_section_list ctx in
  if negb (error =? 0) then mret None else
  match l !! i with
  | None => mret None
  | Some name => let* ok := malloc in mret (if ok then Some name else None)
  end.

(** an option that is on when it is there and true *)
Definition get_flag (ctx : ini_cfgobj) (secname keyname : string) : M W bool :=
  let* r := gp_config_get_string ctx secname keyname in
  mret (match r with inr value => gp_boolean_is_true value | inl _ => false end).

(** an optional string, copied; errors are taken for absence *)
Definition get_copy (ctx : ini_cfgobj) (secname keyname : string) : Cf W (option string) :=
  let* r := gp_config_get_string ctx secname keyname in
  match r with
  | inr value => try* _ := need_memory in done (Some value)
  | inl _ => done None
  end.

(** ... and where errors other than absence are not *)
Definition get_optional (ctx : ini_cfgobj) (secname keyname : string) : Cf W (option string) :=
  let* r := gp_config_get_string ctx secname keyname in
  match r with
  | inr value => done (Some value)
  | inl ret => if ret =? ENOENT then done None else failed ret
  end.

(** ** The krb5 mechanism *)

Definition find_keytab (store : list (string * string)) : option string :=
  snd <$> List.find (fun e => String.eqb e.1 "keytab") store.

(** the error returned is the minor status, even when it is 0 *)
Definition setup_krb5_creds_handle (store : list (string * string)) : Cf W (option keyblock) :=
  let* '(ret_maj, ret_min, handle) := gp_init_creds_handle (find_keytab store) in
  if negb (ret_maj =? 0) then (if ret_min =? 0 then done None else failed ret_min)
  else done handle.

Definition deprecated_vals : list (string * string) :=
  [("krb5_keytab", "keytab"); ("krb5_ccache", "ccache"); ("krb5_client_keytab", "client_keytab")].

Fixpoint check_deprecated (ctx : ini_cfgobj) (secname : string) (l : list (string * string)) : Cf W unit :=
  match l with
  | [] => done tt
  | (a, _) :: l =>
      let* r := gp_config_get_string ctx secname a in
      match r with
      | inr _ => failed EINVAL
      | inl ret => if ret =? ENOENT then check_deprecated ctx secname l else failed ret
      end
  end.

(** the text before and after the first colon *)
Fixpoint split_colon (s : string) : option (string * string) :=
  match s with
  | EmptyString => None
  | String c s =>
      if Ascii.eqb c (Ascii.ascii_of_nat 58) then Some (EmptyString, s)
      else '(k, v) ← split_colon s; Some (String c k, v)
  end.

Fixpoint store_elements (strings : list string) : Cf W (list (string * string)) :=
  match strings with
  | [] => done []
  | s :: strings =>
      match split_colon s with
      | None => failed EINVAL
      | Some e =>
          try* _ := need_memory in
          try* _ := need_memory in
          try* l := store_elements strings in
          done (e :: l)
      end
  end.

Definition get_krb5_mech_cfg (fuel : nat) (ctx : ini_cfgobj) (secname : string) : Cf W gp_cred_krb5 :=
  try* principal := get_optional ctx secname "krb5_principal" in
  try* _ := match principal with Some _ => need_memory | None => done tt end in
  try* _ := check_deprecated ctx secname deprecated_vals in
  let* r := gp_config_get_string_array fuel ctx secname "cred_store" in
  try* store :=
    match r with
    | Done strings => try* _ := need_memory in store_elements strings
    | Failed ret => if ret =? ENOENT then done [] else failed ret
    | Fault => mret Fault
    | Loops => mret Loops
    end in
  try* handle := setup_krb5_creds_handle store in
  done (CredKrb5 principal store handle).

(** ** The services *)

Definition sock_of (svc : gp_service) : string := default GP_SOCKET_NAME (svc_socket svc).

(** a program that is not an absolute path, or has a bar in it *)
Definition bad_program (svc : gp_service) : bool :=
  match svc_program svc with
  | None => false
  | Some p => negb (String.prefix "/" p) || bool_decide (is_Some (String.index 0 "|" p))
  end.

(** [jsvc] comes before [isvc] in the configuration *)
Definition clash (isvc jsvc : gp_service) : bool :=
  if negb (gp_same (Some (sock_of isvc)) (Some (sock_of jsvc))) ||
     negb (gp_same (svc_program isvc) (svc_program jsvc)) ||
     negb (gp_selinux_ctx_equal (svc_selinux_ctx isvc) (svc_selinux_ctx jsvc))
  then false
  else if svc_any_uid jsvc then true else svc_euid jsvc =? svc_euid isvc.

Fixpoint check_against (isvc : gp_service) (svcs : list gp_service) (ret : Z) : Z :=
  match svcs with
  | [] => ret
  | jsvc :: svcs => check_against isvc svcs (if clash isvc jsvc then 1 else ret)
  end.

Fixpoint check_loop (before svcs : list gp_service) (ret : Z) : Z :=
  match svcs with
  | [] => ret
  | isvc :: svcs =>
      let ret := if bad_program isvc then 1 else ret in
      check_loop (before ++ [isvc]) svcs (check_against isvc before ret)
  end.

Definition check_services (svcs : list gp_service) : Z := check_loop [] svcs 0.

(** ENOENT is the error of an option that has to be there *)
Definition missing (ret : Z) : Z := if ret =? ENOENT then EINVAL else ret.

(** a number, or the name of a user *)
Definition get_euid (ctx : ini_cfgobj) (secname : string) : Cf W Z :=
  let* r := gp_config_get_int ctx secname "euid" in
  match r with
  | inr valnum => done (u32 valnum)
  | inl _ =>
      let* r := gp_config_get_string ctx secname "euid" in
      match r with
      | inl ret => failed (missing ret)
      | inr value =>
          let* r := getpwnam value in
          match r with
          | inl errno => failed (missing (if errno =? 0 then ENOENT else errno))
          | inr uid => done (u32 uid)
          end
      end
  end.

(** the body is run once for every token, and once when there is none; [found] is the krb5
    configuration read so far *)
Fixpoint krb5_mechs_loop (fuel : nat) (ctx : ini_cfgobj) (secname value : string) (handle : string)
    (found : option gp_cred_krb5) : Cf W (option gp_cred_krb5) :=
  match fuel with
  | O => mret Loops
  | S fuel =>
      try* found :=
        if String.eqb value "krb5"
        then try* k := get_krb5_mech_cfg fuel ctx secname in done (Some k)
        else done found in
      match strtok_r handle with
      | None => done found
      | Some (_, handle) => krb5_mechs_loop fuel ctx secname value handle found
      end
  end.

Definition get_cred_usage (ctx : ini_cfgobj) (secname : string) : Cf W Z :=
  let* r := gp_config_get_string ctx secname "cred_usage" in
  match r with
  | inl _ => done GSS_C_BOTH
  | inr value =>
      if strcaseeq value "initiate" then done GSS_C_INITIATE
      else if strcaseeq value "accept" then done GSS_C_ACCEPT
      else if strcaseeq value "both" then done GSS_C_BOTH
      else failed EINVAL
  end.

Definition get_selinux (ctx : ini_cfgobj) (secname : string) : Cf W (option selinux_ctx) :=
  let* r := gp_config_get_string ctx secname "selinux_context" in
  match r with
  | inl _ => done None
  | inr value =>
      let* c := SELINUX_context_new value in
      match c with Some c => done (Some c) | None => failed EINVAL end
  end.

Definition get_filter_flags (ctx : ini_cfgobj) (secname : string) : M W Z :=
  let* r := gp_config_get_string ctx secname "filter_flags" in
  match r with
  | inl _ => mret DEFAULT_FILTERED_FLAGS
  | inr value => let* '(_, flags) := parse_flags value DEFAULT_FILTERED_FLAGS in mret flags
  end.

Definition get_enforce_flags (ctx : ini_cfgobj) (secname : string) : Cf W Z :=
  let* r := gp_config_get_string ctx secname "enforce_flags" in
  match r with
  | inl _ => done DEFAULT_ENFORCED_FLAGS
  | inr value =>
      let* '(ret, flags) := parse_flags value DEFAULT_ENFORCED_FLAGS in
      if negb (ret =? 0) then failed ret else done flags
  end.

Definition get_min_lifetime (ctx : ini_cfgobj) (secname : string) : M W Z :=
  let* r := gp_config_get_int ctx secname "min_lifetime" in
  mret (match r with
        | inr valnum => if 0 <=? valnum then valnum else DEFAULT_MIN_LIFETIME
        | inl _ => DEFAULT_MIN_LIFETIME
        end).

(** one section; [None] is a section that names no known mechanism, which is ignored *)
Definition load_service (fuel : nat) (ctx : ini_cfgobj) (secname : string) : Cf W (option gp_service) :=
  try* _ := need_memory in
  try* _ := need_memory in
  try* euid := get_euid ctx secname in
  let* any_uid := get_flag ctx secname "allow_any_uid" in
  let* proto_trans := get_flag ctx secname "allow_protocol_transition" in
  let* const_deleg := get_flag ctx secname "allow_constrained_delegation" in
  let* cc_sync := get_flag ctx secname "allow_client_ccache_sync" in
  let* trusted := get_flag ctx secname "trusted" in
  let* kernel_nfsd := get_flag ctx secname "kernel_nfsd" in
  let* impersonate := get_flag ctx secname "impersonate" in
  try* socket := get_copy ctx secname "socket" in
  let* r := gp_config_get_string ctx secname "mechs" in
  match r with
  | inl ret => failed (missing ret)
  | inr value =>
      try* _ := need_memory in
      let handle := match strtok_r value with Some (_, h) => h | None => EmptyString end in
      try* krb5 := krb5_mechs_loop fuel ctx secname value handle None in
      match krb5 with
      | None => done None
      | Some krb5 =>
          try* selinux := get_selinux ctx secname in
          try* usage := get_cred_usage ctx secname in
          let* filter_flags := get_filter_flags ctx secname in
          try* enforce_flags := get_enforce_flags ctx secname in
          try* program := get_copy ctx secname "program" in
          let* min_lifetime := get_min_lifetime ctx secname in
          done (Some (Service (String.substring 8 (String.length secname - 8) secname) euid any_uid
            proto_trans const_deleg cc_sync trusted kernel_nfsd impersonate socket selinux usage
            filter_flags enforce_flags min_lifetime program GP_CRED_KRB5 krb5))
      end
  end.

(** [n] sections from [i] on; a name that could not be copied is read through all the same *)
Fixpoint load_sections (fuel n : nat) (ctx : ini_cfgobj) (i : nat) (svcs : list gp_service)
  : Cf W (list gp_service) :=
  match n with
  | O => done svcs
  | S n =>
      let* secname := gp_config_get_secname ctx i in
      match secname with
      | None => mret Fault
      | Some secname =>
          if String.prefix "service/" secname then
            try* svc := load_service fuel ctx secname in
            load_sections fuel n ctx (S i) (svcs ++ option_list svc)
          else load_sections fuel n ctx (S i) svcs
      end
  end.

Definition load_services (fuel : nat) (ctx : ini_cfgobj) : Cf W (list gp_service) :=
  let* num_sec := gp_config_get_nsec ctx in
  try* _ := need_memory in
  try* svcs := load_sections fuel num_sec ctx 0 [] in
  match svcs with
  | [] => failed ENOENT
  | _ => let ret := check_services svcs in
         if negb (ret =? 0) then failed ret else done svcs
  end.

(** ** The files *)

Definition gp_config_from_file (config_file : string) (ini_config : ini_cfgobj) (collision_flags : Z)
  : M W Z :=
  let* r := ini_config_file_open config_file in
  match r with
  | inl ret => let* _ := ini_config_destroy ini_config in mret ret
  | inr file_ctx =>
      let* ret := ini_config_parse file_ctx INI_STOP_ON_ANY collision_flags INI_PARSE_NOWRAP ini_config in
      let* _ := ini_config_file_destroy file_ctx in
      let* _ := if negb (ret =? 0) then ini_config_destroy ini_config else mret tt in
      mret ret
  end.

Definition dir_patterns : list string := ["^[0-9]\{2\}-.\{1,\}\.conf$"].
Definition dir_sections : list string := ["^gssproxy$"; "^service/.*$"].

(** the messages are released where they are printed, and again when there is an error *)
Definition gp_config_from_dir (config_dir : string) (ini_config : ini_cfgobj) (collision_flags : Z)
  : M W (Z * ini_cfgobj) :=
  let* '(ret, result_cfg, error_list) :=
    ini_config_augment ini_config config_dir dir_patterns dir_sections INI_STOP_ON_ANY
      collision_flags INI_PARSE_NOWRAP (Z.lor INI_MS_DETECT INI_MS_PRESERVE) in
  let* _ := match error_list with Some l => ref_array_destroy l | None => mret tt end in
  if negb (ret =? 0) && negb (ret =? EEXIST) then
    let* _ := match error_list with Some l => ref_array_destroy l | None => mret tt end in
    mret (ret, ini_config)
  else
    match result_cfg with
    | Some c => let* _ := ini_config_destroy ini_config in mret (0, c)
    | None => mret (0, ini_config)
    end.

Definition gp_config_init (config_file config_dir : option string) : Cf W ini_cfgobj :=
  let collision_flags := Z.lor (Z.lor INI_MS_MERGE INI_MV1S_ALLOW) INI_MV2S_ALLOW in
  let* r := ini_config_create in
  match r with
  | inl _ => failed ENOENT
  | inr ini_config =>
      let* ret := match config_file with
                  | Some f => gp_config_from_file f ini_config collision_flags
                  | None => mret 0
                  end in
      if negb (ret =? 0) then failed ret else
      let* '(ret, ini_config) := match config_dir with
                                 | Some d => gp_config_from_dir d ini_config collision_flags
                                 | None => mret (0, ini_config)
                                 end in
      if negb (ret =? 0) then failed ret else done ini_config
  end.

Definition gp_init_ini_context (config_file config_dir : option string) : Cf W ini_cfgobj :=
  let* ok := malloc in
  if negb ok then failed ENOENT else gp_config_init config_file config_dir.

Definition gp_config_close (ctx : ini_cfgobj) : M W unit := ini_config_destroy ctx.

(** ** The whole configuration *)

Definition set_loaded (proxy_user : option string) (num_workers : Z) (svcs : list gp_service)
    (cfg : gp_config) : gp_config :=
  Config (cfg_config_file cfg) (cfg_config_dir cfg) (cfg_daemonize cfg) (cfg_socket_name cfg)
    num_workers svcs proxy_user.

(** the section of the daemon itself; the level of the messages is that of this file, or 0 *)
Definition load_globals (ctx : ini_cfgobj) : Cf W (option string * Z) :=
  try* debug := get_optional ctx "gssproxy" "debug" in
  let level := match debug with Some s => if gp_boolean_is_true s then 1 else 0 | None => 0 end in
  let* r := gp_config_get_int ctx "gssproxy" "debug_level" in
  try* level := match r with
                | inr n => done n
                | inl ret => if ret =? ENOENT then done level else failed ret
                end in
  try* _ := debug_toggle level in
  try* syslog := get_optional ctx "gssproxy" "syslog_status" in
  try* _ := match syslog with Some s => syslog_status (gp_boolean_is_true s) | None => done tt end in
  try* proxy_user := get_optional ctx "gssproxy" "run_as_user" in
  try* _ := match proxy_user with Some _ => need_memory | None => done tt end in
  let* r := gp_config_get_int ctx "gssproxy" "worker threads" in
  match r with
  | inr n => done (proxy_user, n)
  | inl ret => if ret =? ENOENT then done (proxy_user, -1) else failed ret
  end.

Definition load_config (fuel : nat) (cfg : gp_config) : Cf W gp_config :=
  try* ctx := gp_init_ini_context (cfg_config_file cfg) (cfg_config_dir cfg) in
  let* r :=
    try* '(proxy_user, num_workers) := load_globals ctx in
    try* svcs := load_services fuel ctx in
    done (set_loaded proxy_user num_workers svcs cfg) in
  let* _ := gp_config_close ctx in
  mret r.

Definition daemonize_of (opt_daemonize : Z) : bool := (opt_daemonize =? 0) || (opt_daemonize =? 1).

(** every string of the configuration is a copy; an error is a NULL *)
Definition read_config (fuel : nat) (config_file config_dir socket_name : option string)
    (opt_daemonize : Z) : Cf W gp_config :=
  try* _ := need_memory in
  try* _ := need_memory in
  let file := match config_file with
              | Some f => f
              | None => PUBCONF_PATH +:+ "/gssproxy.conf"
              end in
  let dir := match config_dir, config_file with
             | Some d, _ => Some d
             | None, None => Some PUBCONF_PATH
             | None, Some _ => None
             end in
  try* _ := match dir with Some _ => need_memory | None => done tt end in
  try* _ := need_memory in
  load_config fuel (Config (Some file) dir (daemonize_of opt_daemonize)
    (Some (default GP_SOCKET_NAME socket_name)) 0 [] None).

(** the directory of the session; the text printf(3) has for a null pointer *)
Definition user_socket_name : Cf W string :=
  let* envdir := secure_getenv "XDG_RUNTIME_DIR" in
  let envdir := default "(null)" envdir in
  try* _ := need_memory in
  let* e := sys_mkdir (envdir +:+ "/gssproxy") 448 in
  try* _ := match e with
            | Some errno => if negb (errno =? EEXIST) then failed errno else done tt
            | None => done tt
            end in
  try* _ := need_memory in
  done (envdir +:+ "/gssproxy/default.sock").

Definition userproxy_config (socket_name : option string) (opt_daemonize : Z) : Cf W gp_config :=
  try* _ := need_memory in
  try* socket := match socket_name with
                 | Some s => try* _ := need_memory in done s
                 | None => user_socket_name
                 end in
  try* _ := need_memory in
  try* _ := need_memory in
  try* _ := need_memory in
  try* _ := need_memory in
  let* euid := sys_geteuid in
  try* handle := setup_krb5_creds_handle [] in
  done (Config None None (daemonize_of opt_daemonize) (Some socket) GP_USER_PROXY_WORKERS
    [Service GP_USER_PROXY_SERVICE euid false false false true false false false (Some socket) None
       GSS_C_BOTH DEFAULT_FILTERED_FLAGS DEFAULT_ENFORCED_FLAGS DEFAULT_MIN_LIFETIME None
       GP_CRED_KRB5 (CredKrb5 None [] handle)] None).
End config.
