(* ===== verification/ConfigProps.v ===== *)
(** * What a configuration that is accepted guarantees

    The services src/gp_config.c lets through are well formed, and no two of them compete for
    the same clients.  At the end an ini library that holds its sections in a list reads some. *)

From S2P Require Import Prelude Socket Accept World Util Service Crypt ParseFlags Outcome Trace Config.

(** ** The check of the services *)

Section check.
Variable GP_SOCKET_NAME : string.

Lemma check_against_ret isvc svcs ret : ret <> 0 -> check_against GP_SOCKET_NAME isvc svcs ret <> 0.
Proof. revert ret. induction svcs as [|j svcs IH]; intros ret Hr; simpl; [done|]. by apply IH; destruct (clash _ _ _). Qed.

Lemma check_against_spec isvc svcs :
  check_against GP_SOCKET_NAME isvc svcs 0 = 0 <->
  Forall (fun jsvc => clash GP_SOCKET_NAME isvc jsvc = false) svcs.
Proof.
  induction svcs as [|j svcs IH]; simpl; [done|]. rewrite Forall_cons, <- IH.
  destruct (clash GP_SOCKET_NAME isvc j); [|tauto]. split; [|by intros [? _]].
  intros H. by apply check_against_ret in H.
Qed.

Lemma check_loop_ret before svcs ret : ret <> 0 -> check_loop GP_SOCKET_NAME before svcs ret <> 0.
Proof.
  revert before ret. induction svcs as [|i svcs IH]; intros before ret Hr; simpl; [done|].
  apply IH, check_against_ret. by destruct (bad_program i).
Qed.

Lemma check_loop_spec before svcs : check_loop GP_SOCKET_NAME before svcs 0 = 0 <->
  Forall (fun s => bad_program s = false) svcs /\
  forall i isvc jsvc, svcs !! i = Some isvc -> jsvc ∈ before ++ take i svcs ->
    clash GP_SOCKET_NAME isvc jsvc = false.
Proof.
  revert before. induction svcs as [|s svcs IH]; intros before; simpl.
  { split; [|done]. intros _. split; [constructor|]. intros i isvc jsvc H. by destruct i. }
  rewrite Forall_cons. destruct (bad_program s) eqn:Hb.
  { split; [|by intros [[? _] _]]. intros H. exfalso. revert H. by apply check_loop_ret, check_against_ret. }
  destruct (decide (check_against GP_SOCKET_NAME s before 0 = 0)) as [Hc|Hc].
  2: { split; [intros H; exfalso; revert H; by apply check_loop_ret|]. intros [_ H]. exfalso. apply Hc.
       apply check_against_spec, Forall_forall. intros j Hj. apply (H 0%nat); [done|]. simpl.
       by rewrite app_nil_r. }
  rewrite Hc, IH. apply check_against_spec in Hc. rewrite Forall_forall in Hc. split.
  - intros [H1 H2]. split; [done|]. intros [|i] isvc jsvc Hi Hj; simpl in *.
    + injection Hi as <-. apply Hc. by rewrite app_nil_r in Hj.
    + apply (H2 i); [done|]. by rewrite <- app_assoc.
  - intros [[_ H1] H2]. split; [done|]. intros i isvc jsvc Hi Hj. apply (H2 (S i)); [done|].
    by rewrite <- app_assoc in Hj.
Qed.

(** The check accepts exactly the lists in which every program is an absolute path without a
    bar, and no service competes with one before it. *)
Theorem check_services_spec svcs : check_services GP_SOCKET_NAME svcs = 0 <->
  Forall (fun s => bad_program s = false) svcs /\
  forall i j isvc jsvc, svcs !! i = Some isvc -> svcs !! j = Some jsvc -> (j < i)%nat ->
    clash GP_SOCKET_NAME isvc jsvc = false.
Proof.
  unfold check_services. rewrite check_loop_spec. apply and_iff_compat_l.
  split.
  - intros H i j isvc jsvc Hi Hj Hlt. apply (H i); [done|]. simpl.
    apply list_elem_of_lookup. exists j. by rewrite lookup_take_lt.
  - intros H i isvc jsvc Hi Hj. apply list_elem_of_lookup in Hj as [j Hj]. simpl in Hj.
    apply lookup_take_Some in Hj as [Hj Hlt]. by apply (H i j).
Qed.

(** C23. In a daemon that listens on the socket it was built with, which is the one the check
    assumes: in a configuration the check accepted, two services with the same program and
    SELinux context never compete for a connection unless the earlier one is for one user, who
    is its client, and the later one is open to every user.  So the connection that is given to
    the earlier service is one of the user it names. *)
Theorem services_unambiguous cfg i j isvc jsvc conn :
  cfg_socket_name cfg = Some GP_SOCKET_NAME ->
  check_services GP_SOCKET_NAME (cfg_svcs cfg) = 0 ->
  cfg_svcs cfg !! i = Some isvc -> cfg_svcs cfg !! j = Some jsvc -> (j < i)%nat ->
  svc_program isvc = svc_program jsvc ->
  gp_selinux_ctx_equal (svc_selinux_ctx isvc) (svc_selinux_ctx jsvc) = true ->
  admits cfg conn isvc -> admits cfg conn jsvc ->
  svc_any_uid jsvc = false /\ svc_any_uid isvc = true /\ uc_uid (conn_ucred conn) = svc_euid jsvc.
Proof.
  intros Hsock Hchk Hi Hj Hlt Hprog Hsel (Ui & _ & _ & Si) (Uj & _ & _ & Sj).
  apply check_services_spec in Hchk as [_ Hchk]. specialize (Hchk i j isvc jsvc Hi Hj Hlt).
  assert (Es : sock_of GP_SOCKET_NAME isvc = sock_of GP_SOCKET_NAME jsvc).
  { unfold sock_of. rewrite Hsock in Si, Sj. destruct (svc_socket isvc), (svc_socket jsvc); simpl; congruence. }
  unfold clash in Hchk. rewrite Es, Hprog, Hsel in Hchk.
  rewrite !(proj2 (gp_same_spec _ _) eq_refl) in Hchk. simpl in Hchk.
  destruct (svc_any_uid jsvc); [done|]. apply Z.eqb_neq in Hchk.
  destruct Uj as [?|Uj]; [done|]. split; [done|]. split; [|done].
  destruct Ui as [Ui|Ui]; [done|]. congruence.
Qed.
End check.

(** ** What is returned *)

(** a value that is returned has the property *)
Definition returns {W A} (m : Cf W A) (P : A -> Prop) : Prop :=
  forall w, match (m w).1 with Done a => P a | _ => True end.
(** the same of a computation that always returns *)
Definition gives {W A} (m : M W A) (P : A -> Prop) : Prop := forall w, P (m w).1.

Section returns.
Context {W : Type}.

Lemma returns_done {A} (a : A) (P : A -> Prop) : P a -> returns (W := W) (done a) P.
Proof. by intros H w. Qed.
Lemma returns_failed {A} ret (P : A -> Prop) : returns (W := W) (failed ret) P.
Proof. done. Qed.
Lemma returns_fault {A} (P : A -> Prop) : returns (W := W) (mret Fault) P.
Proof. done. Qed.
Lemma returns_loops {A} (P : A -> Prop) : returns (W := W) (mret Loops) P.
Proof. done. Qed.
Lemma returns_try {A B} (m : Cf W A) (k : A -> Cf W B) (P : A -> Prop) Q :
  returns m P -> (forall a, P a -> returns (k a) Q) -> returns (tbind m k) Q.
Proof.
  intros Hm Hk w. unfold tbind, bind. specialize (Hm w). destruct (m w) as [[a| | |] w1]; try done.
  by apply Hk.
Qed.
Lemma returns_let {A B} (m : M W A) (k : A -> Cf W B) (P : A -> Prop) Q :
  gives m P -> (forall a, P a -> returns (k a) Q) -> returns (bind m k) Q.
Proof. intros Hm Hk w. unfold bind. specialize (Hm w). destruct (m w) as [a w1]. by apply Hk. Qed.
Lemma returns_any {A} (m : Cf W A) : returns m (fun _ => True).
Proof. intros w. by destruct (m w).1. Qed.
Lemma gives_any {A} (m : M W A) : gives m (fun _ => True).
Proof. done. Qed.

(** steps whose results are of no interest *)
Lemma returns_skip {A B} (m : Cf W A) (k : A -> Cf W B) Q :
  (forall a, returns (k a) Q) -> returns (tbind m k) Q.
Proof. intros Hk. eapply returns_try; [apply returns_any|]. auto. Qed.
Lemma returns_skip_let {A B} (m : M W A) (k : A -> Cf W B) Q :
  (forall a, returns (k a) Q) -> returns (bind m k) Q.
Proof. intros Hk. eapply returns_let; [apply gives_any|]. auto. Qed.
End returns.

Create HintDb config discriminated.
#[export] Hint Resolve returns_failed returns_fault returns_loops : config.

(** ** Well-formed services *)

Definition no_colon (s : string) : bool := all_chars (fun c => negb (Ascii.eqb c (Ascii.ascii_of_nat 58))) s.

Record service_ok (svc : gp_service) : Prop := {
  ok_euid : in_u32 (svc_euid svc);
  ok_usage : svc_cred_usage svc ∈ [GSS_C_BOTH; GSS_C_INITIATE; GSS_C_ACCEPT];
  ok_filter : in_u32 (svc_filter_flags svc);
  ok_enforce : in_u32 (svc_enforce_flags svc);
  ok_lifetime : 0 <= svc_min_lifetime svc < 2 ^ 31;
  ok_mechs : svc_mechs svc = GP_CRED_KRB5;
  ok_store : Forall (fun e => no_colon e.1 = true) (k5_store (svc_krb5 svc));
}.

Section load.
Context {W : Type} {AL : Alloc W} {INI : IniLib W} {SYS : ConfSys W} {KL : KrbLib W}.
Context {TL : TraceLib W} {ST : Statics W}.
Variables (GP_SOCKET_NAME PUBCONF_PATH : string).
(** what the library reads is a C int *)
Hypothesis ini_int : forall vo strict dflt,
  gives (ini_get_int_config_value vo strict dflt) (fun r => in_s32 r.1).

Lemma get_int_range ctx secname key :
  gives (gp_config_get_int ctx secname key) (fun r => match r with inr v => in_s32 v | inl _ => True end).
Proof.
  intros w. unfold gp_config_get_int, bind.
  destruct (ini_get_config_valueobj _ _ _ _ w) as [[ret [vo|]] w1]; destruct (negb (ret =? 0)); try done.
  pose proof (ini_int vo 0 0 w1) as H. destruct (ini_get_int_config_value vo 0 0 w1) as [[v ret'] w2].
  simpl in *. by destruct (negb (ret' =? 0)).
Qed.

Lemma get_euid_range ctx secname : returns (get_euid ctx secname) in_u32.
Proof.
  apply returns_skip_let. intros [e|v]; [|apply returns_done, u32_range].
  apply returns_skip_let. intros [e'|v]; [apply returns_failed|].
  apply returns_skip_let. intros [e'|v']; [apply returns_failed|apply returns_done, u32_range].
Qed.

Lemma get_usage_range ctx secname :
  returns (get_cred_usage ctx secname) (fun u => u ∈ [GSS_C_BOTH; GSS_C_INITIATE; GSS_C_ACCEPT]).
Proof.
  apply returns_skip_let. intros [e|v]; [apply returns_done; set_solver|].
  repeat case_match; first [apply returns_failed|apply returns_done; set_solver].
Qed.

Lemma get_filter_range ctx secname : gives (get_filter_flags ctx secname) in_u32.
Proof.
  intros w. unfold get_filter_flags, bind. destruct (gp_config_get_string _ _ _ w) as [[e|v] w1]; [done|].
  pose proof (parse_flags_range v DEFAULT_FILTERED_FLAGS w1 ltac:(done)) as H.
  by destruct (parse_flags v DEFAULT_FILTERED_FLAGS w1) as [[ret f] w2].
Qed.

Lemma get_enforce_range ctx secname : returns (get_enforce_flags ctx secname) in_u32.
Proof.
  apply returns_skip_let. intros [e|v]; [by apply returns_done|].
  eapply (returns_let _ _ (fun r => in_u32 r.2)); [intros w; by apply parse_flags_range|].
  intros [ret f] Hf. destruct (negb _); [apply returns_failed|by apply returns_done].
Qed.

Lemma get_lifetime_range ctx secname :
  gives (get_min_lifetime ctx secname) (fun t => 0 <= t < 2 ^ 31).
Proof.
  intros w. unfold get_min_lifetime, bind. pose proof (get_int_range ctx secname "min_lifetime" w) as H.
  destruct (gp_config_get_int _ _ _ w) as [[e|v] w1]; simpl in *; [done|].
  destruct (Z.leb_spec 0 v); [|done]. unfold in_s32 in H. lia.
Qed.

(** ** The credential store *)

(** An element of the store is the text around its first colon. *)
Theorem split_colon_spec s k v : split_colon s = Some (k, v) <->
  s = k +:+ String (Ascii.ascii_of_nat 58) v /\ no_colon k = true.
Proof.
  split.
  - revert k. induction s as [|c s IH]; intros k; cbn [split_colon]; [done|].
    destruct (Ascii.eqb_spec c (Ascii.ascii_of_nat 58)) as [->|Hc]; [by intros [= <- <-]|].
    destruct (split_colon s) as [[k' v']|] eqn:E; simpl; [|done]. intros [= <- <-].
    destruct (IH k' eq_refl) as [-> Hk]. split; [done|].
    unfold no_colon in *. cbn [all_chars]. by rewrite Hk, (proj2 (Ascii.eqb_neq _ _) Hc).
  - intros [-> Hk]. induction k as [|c k IH]; [done|].
    unfold no_colon in Hk. cbn [all_chars] in Hk. apply andb_true_iff in Hk as [Hc Hk].
    apply negb_true_iff in Hc.
    change (String c k +:+ String (Ascii.ascii_of_nat 58) v)
      with (String c (k +:+ String (Ascii.ascii_of_nat 58) v)). cbn [split_colon]. rewrite Hc. by rewrite (IH Hk).
Qed.

Lemma store_elements_ok l : returns (store_elements (W := W) l) (Forall (fun e => no_colon e.1 = true)).
Proof.
  induction l as [|s l IH]; cbn [store_elements]; [by apply returns_done|].
  destruct (split_colon s) as [[k v]|] eqn:E; [|apply returns_failed].
  apply returns_skip. intros _. apply returns_skip. intros _.
  eapply returns_try; [exact IH|]. intros l' Hl. apply returns_done. constructor; [|done].
  by apply split_colon_spec in E as [_ ?].
Qed.

Lemma krb5_cfg_ok fuel ctx secname : returns (get_krb5_mech_cfg fuel ctx secname)
  (fun k => Forall (fun e => no_colon e.1 = true) (k5_store k)).
Proof.
  apply returns_skip. intros principal. apply returns_skip. intros _. apply returns_skip. intros _.
  apply returns_skip_let. intros r. eapply (returns_try _ _ (Forall (fun e => no_colon e.1 = true))).
  - destruct r as [strings|ret| |]; auto with config.
    + apply returns_skip. intros _. apply store_elements_ok.
    + destruct (ret =? ENOENT); [by apply returns_done|apply returns_failed].
  - intros store Hs. apply returns_skip. intros h. by apply returns_done.
Qed.

Lemma krb5_mechs_loop_ok fuel ctx secname value handle found :
  (forall k, found = Some k -> Forall (fun e => no_colon e.1 = true) (k5_store k)) ->
  returns (krb5_mechs_loop fuel ctx secname value handle found)
    (fun o => forall k, o = Some k -> Forall (fun e => no_colon e.1 = true) (k5_store k)).
Proof.
  revert handle found. induction fuel as [|fuel IH]; intros handle found Hf; cbn [krb5_mechs_loop];
    [apply returns_loops|].
  eapply (returns_try _ _ (fun o => forall k, o = Some k -> Forall (fun e => no_colon e.1 = true) (k5_store k))).
  - destruct (String.eqb value "krb5"); [|by apply returns_done].
    eapply returns_try; [apply krb5_cfg_ok|]. intros k Hk. apply returns_done. by intros k' [= <-].
  - intros found' Hf'. destruct (strtok_r handle) as [[t h]|]; [by apply IH|by apply returns_done].
Qed.

Lemma load_service_ok fuel ctx secname : returns (load_service fuel ctx secname)
  (fun o => forall svc, o = Some svc -> service_ok svc).
Proof.
  do 2 (apply returns_skip; intros _). eapply returns_try; [apply get_euid_range|]. intros euid He.
  do 7 (apply returns_skip_let; intros ?). apply returns_skip. intros socket.
  apply returns_skip_let. intros [ret|value]; [apply returns_failed|]. apply returns_skip. intros _.
  eapply returns_try; [by apply krb5_mechs_loop_ok|]. intros [krb5|] Hk; [|by apply returns_done].
  apply returns_skip. intros selinux. eapply returns_try; [apply get_usage_range|]. intros usage Hu.
  eapply returns_let; [apply get_filter_range|]. intros filter Hfi.
  eapply returns_try; [apply get_enforce_range|]. intros enforce Hen.
  apply returns_skip. intros program. eapply returns_let; [apply get_lifetime_range|]. intros t Ht.
  apply returns_done. intros svc [= <-]. split; simpl; auto.
Qed.

Lemma load_sections_ok fuel n ctx i svcs : Forall service_ok svcs ->
  returns (load_sections fuel n ctx i svcs) (Forall service_ok).
Proof.
  revert i svcs. induction n as [|n IH]; intros i svcs Hs; cbn [load_sections]; [by apply returns_done|].
  apply returns_skip_let. intros [secname|]; [|apply returns_fault].
  destruct (String.prefix "service/" secname); [|by apply IH].
  eapply returns_try; [apply load_service_ok|]. intros o Ho. apply IH, Forall_app_2; [done|].
  destruct o as [svc|]; simpl; [|constructor]. constructor; [by apply Ho|constructor].
Qed.

(** C24. Whatever the files hold, a configuration that is accepted has a service, all its services
    are well formed, and they passed the check. *)
Theorem load_config_ok fuel cfg : returns (load_config GP_SOCKET_NAME fuel cfg) (fun cfg' =>
  cfg_svcs cfg' <> [] /\ Forall service_ok (cfg_svcs cfg') /\
  check_services GP_SOCKET_NAME (cfg_svcs cfg') = 0 /\ cfg_socket_name cfg' = cfg_socket_name cfg).
Proof.
  apply returns_skip. intros ctx. eapply returns_let.
  2: { intros r Hr. apply returns_skip_let. intros _. intros w. exact Hr. }
  refine (returns_skip _ _ _ _). intros [user n].
  eapply (returns_try _ _ (fun svcs => svcs <> [] /\ Forall service_ok svcs /\
    check_services GP_SOCKET_NAME svcs = 0)).
  - apply returns_skip_let. intros num. apply returns_skip. intros _.
    eapply returns_try; [by apply load_sections_ok|]. intros [|s svcs] Hs; [apply returns_failed|].
    cbv zeta. destruct (Z.eqb_spec (check_services GP_SOCKET_NAME (s :: svcs)) 0) as [E|E];
      [by apply returns_done|apply returns_failed].
  - intros svcs (H1 & H2 & H3). by apply returns_done.
Qed.
End load.

(** ** Lists of values *)

(** what the library promises of the iteration over the values of a key *)
Class IniValues (W : Type) {AL : Alloc W} {INI : IniLib W} := {
  ini_values : ini_cfgobj -> string -> string -> list string;
  ini_text : value_obj -> string;
  (* the values the iteration has still to give *)
  ini_pending : W -> list string;
  ini_first obj sec key w : wp (ini_get_config_valueobj sec key obj INI_GET_FIRST_VALUE)
    (fun r w' => match ini_values obj sec key with
      | [] => r = (0, None)
      | v :: l => exists vo, r = (0, Some vo) /\ ini_text vo = v /\ ini_pending w' = l
      end) w;
  ini_next obj sec key w : wp (ini_get_config_valueobj sec key obj INI_GET_NEXT_VALUE)
    (fun r w' => match ini_pending w with
      | [] => r = (0, None)
      | v :: l => exists vo, r = (0, Some vo) /\ ini_text vo = v /\ ini_pending w' = l
      end) w;
  ini_string vo w : wp (ini_get_const_string_config_value vo)
    (fun r w' => r = (ini_text vo, 0) /\ ini_pending w' = ini_pending w) w;
  ini_malloc : preserves ini_pending malloc;
}.

Section values.
Context {W : Type} {AL : Alloc W} {INI : IniLib W} {VALS : IniValues W}.

(** the values, or no memory *)
Definition all_or_nomem (l : list string) (r : outcome (list string)) : Prop :=
  r = Done l \/ r = Failed ENOMEM.

Lemma memory_pending {A} (k : unit -> Cf W A) (Q : outcome A -> Prop) w : Q (Failed ENOMEM) ->
  (forall w', ini_pending w' = ini_pending w -> Q (k tt w').1) -> Q (tbind need_memory k w).1.
Proof.
  intros Hn Hk. unfold need_memory, tbind, bind. pose proof (ini_malloc w) as H.
  destruct (malloc w) as [[] w']; [by apply Hk|exact Hn].
Qed.

Lemma string_array_loop_values fuel ctx sec key array w : (length (ini_pending w) < fuel)%nat ->
  all_or_nomem (array ++ ini_pending w) (string_array_loop fuel ctx sec key array w).1.
Proof.
  revert array w. induction fuel as [|fuel IH]; intros array w Hf; [lia|]. cbn [string_array_loop].
  pose proof (ini_next ctx sec key w) as Hn. unfold wp, bind in *.
  destruct (ini_get_config_valueobj _ _ _ _ w) as [[ret vo] w1].
  destruct (ini_pending w) as [|v l] eqn:El.
  { injection Hn as -> ->. left. by rewrite app_nil_r. }
  destruct Hn as (vo' & [= -> ->] & <- & Hp). simpl.
  pose proof (ini_string vo' w1) as Hs. unfold wp in Hs.
  destruct (ini_get_const_string_config_value vo' w1) as [[value ret'] w2].
  destruct Hs as [[= -> ->] Hp2]. simpl.
  apply memory_pending; [by right|]. intros w3 H3. apply memory_pending; [by right|]. intros w4 H4.
  assert (E : ini_pending w4 = l) by congruence. rewrite <- E in *.
  replace (array ++ ini_text vo' :: ini_pending w4) with ((array ++ [ini_text vo']) ++ ini_pending w4)
    by (by rewrite <- app_assoc). apply IH. simpl in Hf. lia.
Qed.

(** All the values of a key are read, in their order, and the loop ends; a key without values
    is reported missing. *)
Theorem string_array_values fuel ctx sec key w : (length (ini_values ctx sec key) < fuel)%nat ->
  match ini_values ctx sec key with
  | [] => (gp_config_get_string_array fuel ctx sec key w).1 = Failed ENOENT
  | l => all_or_nomem l (gp_config_get_string_array fuel ctx sec key w).1
  end.
Proof.
  intros Hf. unfold gp_config_get_string_array.
  pose proof (ini_first ctx sec key w) as Hn. unfold wp, bind in *.
  destruct (ini_get_config_valueobj _ _ _ _ w) as [[ret vo] w1].
  destruct (ini_values ctx sec key) as [|v l]; [by injection Hn as -> ->|].
  destruct Hn as (vo' & [= -> ->] & <- & Hp). simpl.
  pose proof (ini_string vo' w1) as Hs. unfold wp in Hs.
  destruct (ini_get_const_string_config_value vo' w1) as [[value ret'] w2].
  destruct Hs as [[= -> ->] Hp2]. simpl.
  apply memory_pending; [by right|]. intros w3 H3. apply memory_pending; [by right|]. intros w4 H4.
  assert (E : ini_pending w4 = l) by congruence. rewrite <- E.
  apply (string_array_loop_values fuel ctx sec key [ini_text vo']). simpl in Hf. rewrite E. lia.
Qed.
End values.

(** ** Configuration files, read

    An ini library that holds sections of keys with their values, and files loaded with it. *)

Record ini := IniWorld {
  i_pending : list string; i_sections : list (string * list (string * list string)); i_statics : tracing }.
Definition Ini pending sections : ini := IniWorld pending sections quiet.

#[export] Instance ini_statics : Statics ini :=
  {| statics := i_statics; set_statics s w := IniWorld (i_pending w) (i_sections w) s |}.
#[export] Instance ini_trace : TraceLib ini := trace_system.

Definition keyed {A} (l : list (string * list A)) (name : string) : list A :=
  from_option snd [] (List.find (fun e => String.eqb name e.1) l).

Definition ini_obj : Type := list (string * list (string * list string)).
Definition ini_lookup (obj : ini_obj) (sec key : string) : list string := keyed (keyed obj sec) key.

Definition ini_pop (l : list string) : M ini (Z * option string) := fun w =>
  match l with
  | [] => ((0, None), w)
  | v :: l => ((0, Some v), IniWorld l (i_sections w) (i_statics w))
  end.

#[export] Instance ini_lib : IniLib ini := {|
  ini_cfgobj := ini_obj;
  ini_cfgfile := unit;
  value_obj := string;
  ref_array := unit;
  INI_STOP_ON_ANY := 0; INI_PARSE_NOWRAP := 1; INI_MS_MERGE := 0; INI_MV1S_ALLOW := 2;
  INI_MV2S_ALLOW := 4; INI_MS_DETECT := 8; INI_MS_PRESERVE := 16;
  ini_config_create := fun w => (inr (i_sections w), w);
  ini_config_destroy _ := mret tt;
  ini_config_file_open _ := mret (inr tt);
  ini_config_file_destroy _ := mret tt;
  ini_config_parse _ _ _ _ _ := mret 0;
  ini_config_augment _ _ _ _ _ _ _ _ := mret (0, None, None);
  ref_array_destroy _ := mret tt;
  ini_get_config_valueobj sec key obj mode := fun w =>
    if mode =? INI_GET_FIRST_VALUE then ini_pop (ini_lookup obj sec key) w
    else ini_pop (i_pending w) w;
  ini_get_const_string_config_value vo := mret (vo, 0);
  ini_get_int_config_value vo _ _ := mret
    (let '(z, rest) := strtoul vo in
     if String.eqb vo "" || negb (String.eqb rest "") then (0, 5) else (s32 z, 0));
  ini_get_section_list obj := mret (obj.*1, 0);
|}.

#[export] Instance ini_sys : ConfSys ini := {|
  getpwnam name := mret (if String.eqb name "apache" then inr 48 else inl 0);
  SELINUX_context_new _ := mret None;
  secure_getenv _ := mret None;
  sys_mkdir _ _ := mret None;
  sys_geteuid := mret 1000;
|}.

#[local] Instance ini_alloc : Alloc ini := always_mem.
#[local] Instance ini_krb : KrbLib ini := toy_krb.

Lemma ini_int_s32 vo strict dflt : gives (ini_get_int_config_value (W := ini) vo strict dflt) (fun r => in_s32 r.1).
Proof.
  intros w. simpl. destruct (strtoul vo) as [z rest]. destruct (_ || _); [done|]. apply s32_range.
Qed.

#[export] Instance ini_ok : IniValues ini.
Proof.
  refine {| ini_values := ini_lookup; ini_text := (fun v => v); ini_pending := i_pending |}.
  - intros obj sec key w. unfold wp. simpl. destruct (ini_lookup obj sec key) as [|v l]; [done|].
    by exists v.
  - intros obj sec key w. unfold wp. simpl. destruct (i_pending w) as [|v l]; [done|].
    by exists v.
  - done.
  - done.
Defined.

(** ** A configuration like the one that is installed *)

Definition sample : ini_obj :=
  [("gssproxy", [("worker threads", ["4"])]);
   ("service/HTTP", [("mechs", ["krb5"]); ("euid", ["apache"]); ("socket", ["/run/http.sock"]);
                     ("cred_store", ["keytab:/etc/http.keytab"; "ccache:FILE:/tmp/x"]);
                     ("cred_usage", ["initiate"])]);
   ("service/rest", [("mechs", ["krb5"]); ("euid", ["0"]); ("allow_any_uid", ["yes"]);
                     ("filter_flags", ["-0x0001 +ANONYMOUS"])])].

Definition read_sample (obj : ini_obj) : outcome gp_config :=
  (read_config "/run/default.sock" "/etc/gssproxy" 20 None None None 0 (Ini [] obj)).1.

Definition summary (r : outcome gp_config) : outcome (list (string * Z * Z * list (string * string))) :=
  match r with
  | Done cfg => Done ((fun s => (svc_name s, svc_euid s, svc_filter_flags s, k5_store (svc_krb5 s))) <$> cfg_svcs cfg)
  | Failed e => Failed e
  | Fault => Fault
  | Loops => Loops
  end.

(** the second service asks for 0x0001 not to be filtered and ANONYMOUS to be: the example of
    the manual page, of which the second flag is never read *)
Example sample_read : summary (read_sample sample) =
  Done [("HTTP", 48, 1, [("keytab", "/etc/http.keytab"); ("ccache", "FILE:/tmp/x")]);
        ("rest", 0, 0, [])].
Proof. vm_compute. reflexivity. Qed.

(** a section without mechs is not discarded, it makes the configuration fail *)
Example mechs_missing_fatal :
  summary (read_sample (sample ++ [("service/x", [("euid", ["0"])])])) = Failed EINVAL.
Proof. vm_compute. reflexivity. Qed.

(** a list of mechanisms with krb5 in it is not taken for krb5 *)
Example mechs_list_ignored :
  summary (read_sample [("service/x", [("euid", ["0"]); ("mechs", ["krb5 iakerb"])])]) = Failed ENOENT.
Proof. vm_compute. reflexivity. Qed.

(** ** The check of the services assumes that the daemon listens on the socket it was built with *)

Definition plain_service (name : string) (euid : Z) (any : bool) (socket program : option string) : gp_service :=
  Service name euid any false false false false false false socket None GSS_C_BOTH 0 0 15 program
    GP_CRED_KRB5 (CredKrb5 None [] None).
Definition plain_conn (uid : Z) (socket : string) : gp_conn :=
  Conn socket 5 CRED_TYPE_UNIX (Ucred 1 uid uid) None None.

(** the first service takes every client of the second one *)
Definition shadowed : list gp_service :=
  [plain_service "all" 0 true None None; plain_service "web" 48 false (Some "/run/custom.sock") None].
Example check_assumes_default_socket :
  let cfg := Config None None true (Some "/run/custom.sock") 1 shadowed None in
  check_services "/run/default.sock" shadowed = 0 /\
  option_map svc_name (gp_creds_match_conn cfg (plain_conn 48 "/run/custom.sock")) = Some "all".
Proof. vm_compute. done. Qed.

(** ** The theorems, applied *)

Definition two_services : list gp_service :=
  [plain_service "web" 48 false None None; plain_service "all" 0 true None None].

Lemma services_unambiguous_witness :
  svc_any_uid (plain_service "web" 48 false None None) = false /\
  svc_any_uid (plain_service "all" 0 true None None) = true /\
  uc_uid (conn_ucred (plain_conn 48 "/run/default.sock")) = 48.
Proof.
  apply (services_unambiguous "/run/default.sock"
    (Config None None true (Some "/run/default.sock") 1 two_services None) 1 0
    (plain_service "all" 0 true None None) (plain_service "web" 48 false None None)
    (plain_conn 48 "/run/default.sock")); try done; try lia.
  - split; [by left|]. split_and!; done.
  - split; [by right|]. split_and!; done.
Defined.

Lemma load_config_ok_witness :
  returns (load_config (W := ini) "/run/default.sock" 20 (Config None None true (Some "s") 0 [] None))
    (fun cfg' => cfg_svcs cfg' <> [] /\ Forall service_ok (cfg_svcs cfg') /\
       check_services "/run/default.sock" (cfg_svcs cfg') = 0 /\ cfg_socket_name cfg' = Some "s").
Proof. apply load_config_ok. exact ini_int_s32. Defined.

Lemma string_array_values_witness :
  all_or_nomem ["keytab:/etc/http.keytab"; "ccache:FILE:/tmp/x"]
    (gp_config_get_string_array (W := ini) 20 sample "service/HTTP" "cred_store" (Ini [] [])).1.
Proof.
  exact (string_array_values (W := ini) 20 sample "service/HTTP" "cred_store" (Ini [] [])
    ltac:(vm_compute; lia)).
Defined.
