(* ===== verification/Client.v ===== *)
(** * The client's connection to the daemon

    src/client/gpm_common.c: the one connection a process keeps, its timer and its epoll
    descriptor, sending a request and receiving the reply with timeouts and retries, and
    gpm_make_call, the client half of a call.

    The system calls are operations of the class [NetLib]; [inl] is the errno of a call that
    returned -1.  The loops that wait for the kernel take fuel: [None] is fuel used up. *)

From S2P Require Import Prelude Xdr RpcXdr GssxXdr RpcProcess Socket Accept World.

Definition RESPONSE_TIMEOUT := 15.
Definition MAX_TIMEOUT_RETRY := 3%nat.
Definition PATH_MAX := 4096%nat.
Definition EPOLLIN := 1.
Definition EPOLLOUT := 4.

(** struct gpm_ctx, without its mutex, which is the world's *)
Record gpm_ctx := GpmCtx {
  g_fd : Z; g_pid : Z; g_uid : Z; g_gid : Z; g_next_xid : Z; g_epollfd : Z; g_timerfd : Z }.

Record epoll_event := Event { ev_events : Z; ev_fd : Z }.

Class NetLib (W : Type) := {
  gp_getenv : string -> M W (option string);
  mutex_lock : M W Z;
  mutex_unlock : M W Z;
  getpid : M W Z;
  geteuid : M W Z;
  getegid : M W Z;
  sys_socket : M W (Z + Z);
  sys_connect : Z -> string -> M W (option Z);
  sys_close : Z -> M W unit;
  timerfd_create : M W (Z + Z);
  timerfd_settime : Z -> Z -> M W (option Z);
  timer_read : Z -> M W (option Z);
  epoll_create1 : M W (Z + Z);
  (* epoll descriptor, descriptor, events *)
  epoll_ctl_add : Z -> Z -> Z -> M W (option Z);
  epoll_ctl_del : Z -> Z -> M W (option Z);
  (* at most two events; none when the timeout of the call itself is over *)
  sys_epoll_wait : Z -> M W (Z + list epoll_event);
  sys_send : Z -> bytes -> M W (Z + Z);
  sys_read : Z -> Z -> M W (Z + bytes);
}.

(** ** The monad: the connection and the world, or no result *)

Definition Cl (W A : Type) : Type := gpm_ctx * W -> option (A * (gpm_ctx * W)).
Definition cret {W A} (a : A) : Cl W A := fun s => Some (a, s).
Definition cbind {W A B} (m : Cl W A) (k : A -> Cl W B) : Cl W B :=
  fun s => '(a, s) ← m s; k a s.
Definition cstop {W A} : Cl W A := fun _ => None.
Definition call {W A} (m : M W A) : Cl W A :=
  fun '(c, w) => let '(a, w) := m w in Some (a, (c, w)).
Definition ctx {W} : Cl W gpm_ctx := fun '(c, w) => Some (c, (c, w)).
Definition put {W} (f : gpm_ctx -> gpm_ctx) : Cl W unit := fun '(c, w) => Some (tt, (f c, w)).

Notation "'do*' x ':=' m 'in' k" := (cbind m (fun x => k))
  (at level 10, x binder, m at level 100, k at level 200).
Notation "'do*' ' p ':=' m 'in' k" := (cbind m (fun x => match x with p => k end))
  (at level 10, p pattern, m at level 100, k at level 200, only parsing).

Definition set_conn (fd pid uid gid : Z) (c : gpm_ctx) : gpm_ctx :=
  GpmCtx fd pid uid gid (g_next_xid c) (g_epollfd c) (g_timerfd c).
Definition set_fd (fd : Z) (c : gpm_ctx) : gpm_ctx :=
  GpmCtx fd (g_pid c) (g_uid c) (g_gid c) (g_next_xid c) (g_epollfd c) (g_timerfd c).
Definition set_next_xid (x : Z) (c : gpm_ctx) : gpm_ctx :=
  GpmCtx (g_fd c) (g_pid c) (g_uid c) (g_gid c) x (g_epollfd c) (g_timerfd c).
Definition set_epollfd (fd : Z) (c : gpm_ctx) : gpm_ctx :=
  GpmCtx (g_fd c) (g_pid c) (g_uid c) (g_gid c) (g_next_xid c) fd (g_timerfd c).
Definition set_timerfd (fd : Z) (c : gpm_ctx) : gpm_ctx :=
  GpmCtx (g_fd c) (g_pid c) (g_uid c) (g_gid c) (g_next_xid c) (g_epollfd c) fd.

Section client.
Context {XL : XdrLib} {W : Type} {AL : Alloc W} {NET : NetLib W}.
(** the socket name the build is configured with *)
Variable GP_SOCKET_NAME : string.

(** gpm_init_once: [xid] are the four random bytes *)
Definition gpm_init_once (xid : Z) : gpm_ctx := GpmCtx (-1) 0 0 0 (s32 xid) (-1) (-1).

(** ** The socket *)

Definition get_pipe_name : M W (Z * string) :=
  let* env := gp_getenv "GSSPROXY_SOCKET" in
  let name := default GP_SOCKET_NAME env in
  mret (if (PATH_MAX <=? String.length name)%nat then (ENAMETOOLONG, name) else (0, name)).

Definition gpm_open_socket : Cl W Z :=
  do* '(ret, name) := call get_pipe_name in
  if negb (ret =? 0) then cret ret else
  do* '(ret, fd) :=
    do* r := call sys_socket in
    match r with
    | inl e => cret (e, -1)
    | inr fd =>
        do* e := call (sys_connect fd (String.substring 0 SUN_PATH_MAX name)) in
        match e with
        | Some e => do* _ := call (sys_close fd) in cret (e, -1)
        | None => cret (0, fd)
        end
    end in
  do* p := call getpid in do* u := call geteuid in do* g := call getegid in
  do* _ := put (set_conn fd p u g) in
  cret ret.

Definition gpm_close_socket : Cl W unit :=
  do* c := ctx in
  do* _ := call (sys_close (g_fd c)) in
  put (set_fd (-1)).

Definition gpm_timer_close : Cl W unit :=
  do* c := ctx in
  if g_timerfd c <? 0 then cret tt else
  do* _ := call (sys_close (g_timerfd c)) in
  put (set_timerfd (-1)).

Definition gpm_timer_setup (timeout_seconds : Z) : Cl W Z :=
  do* c := ctx in
  do* _ := if 0 <=? g_timerfd c then gpm_timer_close else cret tt in
  do* r := call timerfd_create in
  match r with
  | inl e => do* _ := put (set_timerfd (-1)) in cret e
  | inr t =>
      do* _ := put (set_timerfd t) in
      do* e := call (timerfd_settime t timeout_seconds) in
      match e with
      | Some e => do* _ := gpm_timer_close in cret e
      | None => cret 0
      end
  end.

Definition gpm_epoll_close : Cl W unit :=
  do* c := ctx in
  if g_epollfd c <? 0 then cret tt else
  do* _ := call (sys_close (g_epollfd c)) in
  put (set_epollfd (-1)).

Definition gpm_epoll_setup : Cl W Z :=
  do* c := ctx in
  do* _ := if 0 <=? g_epollfd c then gpm_epoll_close else cret tt in
  do* r := call epoll_create1 in
  match r with
  | inl e => do* _ := put (set_epollfd (-1)) in cret e
  | inr ep =>
      do* _ := put (set_epollfd ep) in
      do* c := ctx in
      do* e := call (epoll_ctl_add ep (g_timerfd c) EPOLLIN) in
      match e with
      | Some e => do* _ := gpm_epoll_close in cret e
      | None => cret 0
      end
  end.

Definition gpm_release_sock : Cl W Z :=
  do* _ := gpm_epoll_close in
  do* _ := gpm_timer_close in
  call mutex_unlock.

Definition gpm_grab_sock : Cl W Z :=
  do* ret := call mutex_lock in
  if negb (ret =? 0) then cret ret else
  do* p := call getpid in do* u := call geteuid in do* g := call getegid in
  do* c := ctx in
  do* _ := if negb (g_fd c =? -1) &&
              (negb (p =? g_pid c) || negb (u =? g_uid c) || negb (g =? g_gid c))
           then gpm_close_socket else cret tt in
  do* c := ctx in
  do* ret := if g_fd c =? -1 then gpm_open_socket else cret 0 in
  do* ret := if negb (ret =? 0) then cret ret else gpm_timer_setup RESPONSE_TIMEOUT in
  do* ret := if negb (ret =? 0) then cret ret else gpm_epoll_setup in
  do* _ := if negb (ret =? 0) then do* _ := gpm_release_sock in cret tt else cret tt in
  cret ret.

Definition gpm_retry_socket : Cl W Z :=
  do* _ := gpm_epoll_close in
  do* _ := gpm_close_socket in
  gpm_open_socket.

(** ** Waiting *)

Fixpoint epoll_wait_loop (fuel : nat) (ep : Z) : Cl W (Z + list epoll_event) :=
  match fuel with
  | O => cstop
  | S fuel =>
      do* r := call (sys_epoll_wait ep) in
      match r with
      | inl e => if e =? EINTR then epoll_wait_loop fuel ep else cret (inl e)
      | inr evs => cret (inr evs)
      end
  end.

(** what the events mean: the error, if any *)
Definition wait_result (c : gpm_ctx) (event_flags : Z) (r : Z + list epoll_event) : Cl W Z :=
  match r with
  | inl e => cret e
  | inr [] => cret ETIMEDOUT
  | inr (ev0 :: evs) =>
      if bool_decide (evs = []) && (ev_fd ev0 =? g_timerfd c) then
        if Z.land (ev_events ev0) EPOLLIN =? 0 then cret EBADF else
        do* e := call (timer_read (g_timerfd c)) in
        cret match e with
             | Some e => if negb (e =? EAGAIN) then e else ETIMEDOUT
             | None => ETIMEDOUT
             end
      else
        let ev := match evs with
                  | ev1 :: _ => if negb (ev_fd ev0 =? g_fd c) then ev1 else ev0
                  | [] => ev0
                  end in
        cret (if Z.land (ev_events ev) event_flags =? 0 then EBADFD else 0)
  end.

Definition gpm_epoll_wait (fuel : nat) (event_flags : Z) : Cl W Z :=
  do* c := ctx in
  do* ret := if g_epollfd c <? 0 then gpm_epoll_setup else cret 0 in
  if negb (ret =? 0) then cret ret else
  do* c := ctx in
  do* e := call (epoll_ctl_add (g_epollfd c) (g_fd c) event_flags) in
  match e with
  | Some e => do* _ := gpm_epoll_close in cret e
  | None =>
      do* r := epoll_wait_loop fuel (g_epollfd c) in
      do* ret := wait_result c event_flags r in
      do* _ := if negb (ret =? 0) then gpm_epoll_close else cret tt in
      do* c := ctx in
      do* e := call (epoll_ctl_del (g_epollfd c) (g_fd c)) in
      match e with
      | Some e => do* _ := gpm_epoll_close in cret (if ret =? 0 then e else ret)
      | None => cret ret
      end
  end.

(** ** Sending *)

(** the length: an error of the wait, or what send(2) said *)
Fixpoint send_size (fuel : nat) (size : bytes) : Cl W (Z + (Z + Z)) :=
  match fuel with
  | O => cstop
  | S fuel' =>
      do* ret := gpm_epoll_wait fuel EPOLLOUT in
      if negb (ret =? 0) then cret (inl ret) else
      do* c := ctx in
      do* r := call (sys_send (g_fd c) size) in
      match r with
      | inl e => if e =? EINTR then send_size fuel' size else cret (inr r)
      | inr _ => cret (inr r)
      end
  end.

Definition whole_size (r : Z + Z) : bool := match r with inr wn => wn =? 4 | inl _ => false end.

(** ... again on a new connection, once, when it was not sent whole *)
Definition send_header (fuel : nat) (size : bytes) : Cl W Z :=
  do* r := send_size fuel size in
  match r with
  | inl ret => cret ret
  | inr r =>
      if whole_size r then cret 0 else
      do* ret := gpm_retry_socket in
      if negb (ret =? 0) then cret ret else
      do* r := send_size fuel size in
      match r with
      | inl ret => cret ret
      | inr r => cret (if whole_size r then 0 else EIO)
      end
  end.

Fixpoint send_body (fuel : nat) (rest : bytes) : Cl W Z :=
  if len rest =? 0 then cret 0 else
  match fuel with
  | O => cstop
  | S fuel' =>
      do* ret := gpm_epoll_wait fuel EPOLLOUT in
      if negb (ret =? 0) then cret ret else
      do* c := ctx in
      do* r := call (sys_send (g_fd c) rest) in
      match r with
      | inl e => if (e =? EINTR) || (e =? EAGAIN) then send_body fuel' rest else cret e
      | inr wn => send_body fuel' (drop (Z.to_nat wn) rest)
      end
  end.

Definition gpm_send_buffer (fuel : nat) (buffer : bytes) : Cl W Z :=
  if MAX_RPC_SIZE <? len buffer then cret EINVAL else
  do* ret := send_header fuel (packet_header (len buffer)) in
  if negb (ret =? 0) then cret ret else send_body fuel buffer.

(** ** Receiving *)

Fixpoint recv_size (fuel : nat) : Cl W (Z + (Z + bytes)) :=
  match fuel with
  | O => cstop
  | S fuel' =>
      do* ret := gpm_epoll_wait fuel EPOLLIN in
      if negb (ret =? 0) then cret (inl ret) else
      do* c := ctx in
      do* r := call (sys_read (g_fd c) 4) in
      match r with
      | inl e => if e =? EINTR then recv_size fuel' else cret (inr r)
      | inr _ => cret (inr r)
      end
  end.

(** [length] bytes are to be read, [got] are *)
Fixpoint recv_body (fuel : nat) (length : Z) (got : bytes) : Cl W (Z * bytes) :=
  if len got <? length then
    match fuel with
    | O => cstop
    | S fuel' =>
        do* ret := gpm_epoll_wait fuel EPOLLIN in
        if negb (ret =? 0) then cret (ret, got) else
        do* c := ctx in
        do* r := call (sys_read (g_fd c) (length - len got)) in
        match r with
        | inl e => if (e =? EINTR) || (e =? EAGAIN) then recv_body fuel' length got
                   else cret (e, got)
        | inr d => if len d =? 0 then cret (EIO, got) else recv_body fuel' length (got ++ d)
        end
    end
  else cret (0, got).

(** the error and the buffer, which is freed when there is one *)
Definition gpm_recv_buffer (fuel : nat) : Cl W (Z * option bytes) :=
  do* r := recv_size fuel in
  match r with
  | inl ret => cret (ret, None)
  | inr (inl _) => cret (EIO, None)
  | inr (inr h) =>
      if negb (len h =? 4) then cret (EIO, None) else
      let length := Z.land (be_val h) (Z.lnot FRAGMENT_BIT) in
      if MAX_RPC_SIZE <? length then cret (EMSGSIZE, None) else
      do* ok := call malloc in
      if negb ok then cret (ENOMEM, None) else
      do* '(ret, got) := recv_body fuel length [] in
      cret (if ret =? 0 then (0, Some got) else (ret, None))
  end.

(** ** The conversation *)

(** [next_xid++] overflows at [INT_MAX]; the sum is wrapped, as compilers do it *)
Definition gpm_next_xid : Cl W Z :=
  do* c := ctx in
  if g_next_xid c <? 0 then do* _ := put (set_next_xid 1) in cret 0
  else do* _ := put (set_next_xid (s32 (g_next_xid c + 1))) in cret (g_next_xid c).

(** [n] turns are left; [ret] is the outcome of the turn before *)
Fixpoint gpm_send_recv_loop (fuel n : nat) (send_buffer : bytes) (ret : Z)
  : Cl W (Z * option bytes) :=
  match n with
  | O => cret (ret, None)
  | S n =>
      let again :=
        do* ret := gpm_retry_socket in
        if negb (ret =? 0) then cret (ret, None)
        else gpm_send_recv_loop fuel n send_buffer ETIMEDOUT in
      do* ret := gpm_send_buffer fuel send_buffer in
      if ret =? 0 then
        do* '(ret, reply) := gpm_recv_buffer fuel in
        if ret =? 0 then cret (0, reply)
        else if ret =? ETIMEDOUT then again else cret (ret, None)
      else if ret =? ETIMEDOUT then again else cret (ret, None)
  end.

(** ** The call *)

Definition client_set {A R} oa (ia : A -> gp_rpc_arg) ca orr (ir : R -> gp_rpc_res) cr
  : codec gp_rpc_arg * codec gp_rpc_res := (member_arg oa ia ca, member_res orr ir cr).

Definition gpm_xdr_set : list (codec gp_rpc_arg * codec gp_rpc_res) :=
  [(xdr_arg_void, xdr_res_void);
   client_set as_indicate_mechs arg_indicate_mechs xdr_gssx_arg_indicate_mechs
     (fun r => match r with res_indicate_mechs r => Some r | _ => None end)
     res_indicate_mechs xdr_gssx_res_indicate_mechs;
   client_set as_get_call_context arg_get_call_context xdr_gssx_arg_get_call_context
     (fun r => match r with res_get_call_context r => Some r | _ => None end)
     res_get_call_context xdr_gssx_res_get_call_context;
   client_set as_import_and_canon_name arg_import_and_canon_name xdr_gssx_arg_import_and_canon_name
     (fun r => match r with res_import_and_canon_name r => Some r | _ => None end)
     res_import_and_canon_name xdr_gssx_res_import_and_canon_name;
   client_set as_export_cred arg_export_cred xdr_gssx_arg_export_cred
     (fun r => match r with res_export_cred r => Some r | _ => None end)
     res_export_cred xdr_gssx_res_export_cred;
   client_set as_import_cred arg_import_cred xdr_gssx_arg_import_cred
     (fun r => match r with res_import_cred r => Some r | _ => None end)
     res_import_cred xdr_gssx_res_import_cred;
   client_set as_acquire_cred arg_acquire_cred xdr_gssx_arg_acquire_cred
     (fun r => match r with res_acquire_cred r => Some r | _ => None end)
     res_acquire_cred xdr_gssx_res_acquire_cred;
   client_set as_store_cred arg_store_cred xdr_gssx_arg_store_cred
     (fun r => match r with res_store_cred r => Some r | _ => None end)
     res_store_cred xdr_gssx_res_store_cred;
   client_set as_init_sec_context arg_init_sec_context xdr_gssx_arg_init_sec_context
     (fun r => match r with res_init_sec_context r => Some r | _ => None end)
     res_init_sec_context xdr_gssx_res_init_sec_context;
   client_set as_accept_sec_context arg_accept_sec_context xdr_gssx_arg_accept_sec_context
     (fun r => match r with res_accept_sec_context r => Some r | _ => None end)
     res_accept_sec_context xdr_gssx_res_accept_sec_context;
   client_set as_release_handle arg_release_handle xdr_gssx_arg_release_handle
     (fun r => match r with res_release_handle r => Some r | _ => None end)
     res_release_handle xdr_gssx_res_release_handle;
   client_set as_get_mic arg_get_mic xdr_gssx_arg_get_mic
     (fun r => match r with res_get_mic r => Some r | _ => None end)
     res_get_mic xdr_gssx_res_get_mic;
   client_set as_verify_mic arg_verify_mic xdr_gssx_arg_verify_mic
     (fun r => match r with res_verify_mic r => Some r | _ => None end)
     res_verify_mic xdr_gssx_res_verify_mic;
   client_set as_wrap arg_wrap xdr_gssx_arg_wrap
     (fun r => match r with res_wrap r => Some r | _ => None end)
     res_wrap xdr_gssx_res_wrap;
   client_set as_unwrap arg_unwrap xdr_gssx_arg_unwrap
     (fun r => match r with res_unwrap r => Some r | _ => None end)
     res_unwrap xdr_gssx_res_unwrap;
   client_set as_wrap_size_limit arg_wrap_size_limit xdr_gssx_arg_wrap_size_limit
     (fun r => match r with res_wrap_size_limit r => Some r | _ => None end)
     res_wrap_size_limit xdr_gssx_res_wrap_size_limit].

(** the call header of every request *)
Definition call_msg (x proc : Z) : gp_rpc_msg :=
  RpcMsg x (MsgCall (CallHeader 2 GSSPROXY GSSPROXYVERS proc no_auth no_auth)).

Definition encode_request (x proc : Z) (arg_fn : codec gp_rpc_arg) (arg : gp_rpc_arg)
  : option bytes :=
  s ← xenc xdr_gp_rpc_msg (call_msg x proc) (xdrmem_create MAX_RPC_SIZE);
  s ← xenc arg_fn arg s;
  Some (xdr_buffer s).

(** the answer in a reply to the request [x] *)
Definition decode_reply (x : Z) (res_fn : codec gp_rpc_res) (reply : bytes) : Z * option gp_rpc_res :=
  match xdec xdr_gp_rpc_msg reply with
  | Some (RpcMsg x' (MsgReply (MsgAccepted (AcceptedReply _ ReplySuccess))), body) =>
      if negb (x' =? x) then (EINVAL, None) else
      match xdec res_fn body with
      | Some (r, _) => (0, Some r)
      | None => (EINVAL, None)
      end
  | _ => (EINVAL, None)
  end.

(** [None] is also a procedure number outside the table, which no caller passes *)
Definition gpm_make_call (fuel : nat) (proc : Z) (arg : gp_rpc_arg) : Cl W (Z * option gp_rpc_res) :=
  do* ok := call malloc in
  if negb ok then cret (ENOMEM, None) else
  do* ret := gpm_grab_sock in
  if negb (ret =? 0) then cret (ret, None) else
  do* x := gpm_next_xid in
  match gpm_xdr_set !! Z.to_nat proc with
  | None => cstop
  | Some (arg_fn, res_fn) =>
      match encode_request x proc arg_fn arg with
      | None => do* _ := gpm_release_sock in cret (EINVAL, None)
      | Some request =>
          do* '(ret, reply) := gpm_send_recv_loop fuel MAX_TIMEOUT_RETRY request 0 in
          do* _ := gpm_release_sock in
          if negb (ret =? 0) then cret (ret, None)
          else cret (decode_reply x res_fn (default [] reply))
      end
  end.
End client.
