(* ===== verification/ClientLogic.v ===== *)
(** * A program logic for the client

    Weakest preconditions and invariants of the computations of Client.v.  The three files
    that follow instantiate them with what a call does to the descriptors of the process
    (ClientFds.v), to the wire (ClientWire.v), and with how long it takes (ClientEnds.v). *)

From S2P Require Import Prelude World Client.

(** ** Weakest preconditions; [stop] is what is said of a run that used up its fuel *)

Section logic.
Context {W : Type}.
Implicit Types s : gpm_ctx * W.

Definition wpc {A} (stop : Prop) (m : Cl W A) (Q : A -> gpm_ctx * W -> Prop) s : Prop :=
  match m s with Some (a, s') => Q a s' | None => stop end.

Lemma wpc_ret {A} stop (a : A) Q s : Q a s -> wpc stop (cret a) Q s.
Proof. done. Qed.

Lemma wpc_stop {A} (stop : Prop) (Q : A -> gpm_ctx * W -> Prop) s : stop -> wpc stop cstop Q s.
Proof. done. Qed.

Lemma wpc_any {A} (m : Cl W A) (Q : A -> gpm_ctx * W -> Prop) s :
  (forall a s', Q a s') -> wpc True m Q s.
Proof. unfold wpc. destruct (m s) as [[a s']|]; auto. Qed.

Lemma wpc_stop_any {A} stop (m : Cl W A) (Q : A -> gpm_ctx * W -> Prop) s :
  wpc stop m Q s -> wpc True m Q s.
Proof. unfold wpc. destruct (m s) as [[a s']|]; auto. Qed.

Lemma wpc_run {A} stop (m : Cl W A) (Q : A -> gpm_ctx * W -> Prop) s a s' :
  m s = Some (a, s') -> wpc stop m Q s -> Q a s'.
Proof. unfold wpc. by intros ->. Qed.

Lemma wpc_bind {A B} stop (m : Cl W A) (k : A -> Cl W B) Q s :
  wpc stop m (fun a => wpc stop (k a) Q) s -> wpc stop (cbind m k) Q s.
Proof. unfold wpc, cbind. by destruct (m s) as [[a s']|]. Qed.

Lemma wpc_conseq {A} stop (m : Cl W A) (Q Q' : A -> gpm_ctx * W -> Prop) s :
  wpc stop m Q s -> (forall a s', Q a s' -> Q' a s') -> wpc stop m Q' s.
Proof. unfold wpc. destruct (m s) as [[a s']|]; auto. Qed.

Lemma wpc_call {A} stop (m : M W A) Q c w :
  wp m (fun a w' => Q a (c, w')) w -> wpc stop (call m) Q (c, w).
Proof. unfold wp, wpc, call. by destruct (m w). Qed.

Lemma wpc_ctx stop Q c (w : W) : Q c (c, w) -> wpc stop ctx Q (c, w).
Proof. done. Qed.

Lemma wpc_put stop f Q c (w : W) : Q tt (f c, w) -> wpc stop (put f) Q (c, w).
Proof. done. Qed.

(** two things a run ensures, it ensures together *)
Lemma wpc_and {A} (m : Cl W A) (stop : Prop) (Q Q' : A -> gpm_ctx * W -> Prop) s :
  wpc stop m Q s -> wpc True m Q' s -> wpc stop m (fun a s' => Q a s' /\ Q' a s') s.
Proof. unfold wpc. destruct (m s) as [[a s']|]; auto. Qed.

(** ** Steps of the world that change nothing of interest *)

Definition respects {A} (R : W -> W -> Prop) (m : M W A) : Prop := forall w, R w (m w).2.

(** a call that only takes such a step *)
Lemma wpc_respects {A} stop (R : W -> W -> Prop) (m : M W A) Q c w : respects R m ->
  (forall a w', R w w' -> Q a (c, w')) -> wpc stop (call m) Q (c, w).
Proof.
  intros Hm HQ. apply wpc_call. unfold wp. specialize (Hm w). destruct (m w) as [a w']. by apply HQ.
Qed.

(** ** Invariants of computations *)

Definition keeps {A} (stop : Prop) (I : gpm_ctx * W -> Prop) (m : Cl W A) : Prop :=
  forall s, I s -> wpc stop m (fun _ => I) s.

Context (stop : Prop) (I : gpm_ctx * W -> Prop).

Lemma keeps_ret {A} (a : A) : keeps stop I (cret a).
Proof. by intros s. Qed.
Lemma keeps_stop {A} : stop -> keeps stop I (cstop (A := A)).
Proof. by intros ? s. Qed.
Lemma keeps_bind {A B} (m : Cl W A) (k : A -> Cl W B) :
  keeps stop I m -> (forall a, keeps stop I (k a)) -> keeps stop I (cbind m k).
Proof.
  intros Hm Hk s Hs. apply wpc_bind. eapply wpc_conseq; [by apply Hm|]. intros a s'. apply Hk.
Qed.
(** a step of a run that keeps the invariant *)
Lemma wpc_keeps {A B} (m : Cl W A) (k : A -> Cl W B) Q s : keeps stop I m -> I s ->
  (forall a s', I s' -> wpc stop (k a) Q s') -> wpc stop (cbind m k) Q s.
Proof. intros Hm Hs Hk. apply wpc_bind. eapply wpc_conseq; [by apply Hm|apply Hk]. Qed.
Lemma keeps_if {A} (b : bool) (m m' : Cl W A) :
  keeps stop I m -> keeps stop I m' -> keeps stop I (if b then m else m').
Proof. by destruct b. Qed.
Lemma keeps_ctx : keeps stop I ctx.
Proof. by intros [c w]. Qed.
Lemma keeps_put f : (forall c w, I (c, w) -> I (f c, w)) -> keeps stop I (put f).
Proof. intros Hf [c w]. apply Hf. Qed.
Lemma keeps_respects {A} (R : W -> W -> Prop) (m : M W A) : respects R m ->
  (forall c w w', R w w' -> I (c, w) -> I (c, w')) -> keeps stop I (call m).
Proof.
  intros Hm HI [c w] Hs. apply wpc_call. unfold wp. specialize (Hm w). destruct (m w) as [a w'].
  by eapply HI.
Qed.
End logic.

Create HintDb client discriminated.
#[export] Hint Resolve keeps_ret keeps_stop keeps_ctx : client.

(** every branch of a computation, down to the calls it makes *)
Ltac keep :=
  repeat first
    [ progress eauto 4 with client
    | apply keeps_bind; [|intros]
    | match goal with |- keeps _ _ (match ?x with _ => _ end) => destruct x end ].

(** the calls no theorem about the client needs a particular answer of *)
Class Quiet {W : Type} {AL : Alloc W} {NET : NetLib W} (R : W -> W -> Prop) := {
  malloc_quiet : respects R malloc;
  getenv_quiet n : respects R (gp_getenv n);
  getpid_quiet : respects R getpid;
  geteuid_quiet : respects R geteuid;
  getegid_quiet : respects R getegid;
  connect_quiet fd n : respects R (sys_connect fd n);
  settime_quiet fd t : respects R (timerfd_settime fd t);
  timer_read_quiet fd : respects R (timer_read fd);
  ctl_add_quiet ep fd e : respects R (epoll_ctl_add ep fd e);
  ctl_del_quiet ep fd : respects R (epoll_ctl_del ep fd);
  epoll_wait_quiet ep : respects R (sys_epoll_wait ep);
}.

(** get_pipe_name only reads the environment *)
Lemma pipe_name_quiet {W} {AL : Alloc W} {NET : NetLib W} (R : W -> W -> Prop) {Q : Quiet R} name :
  respects R (get_pipe_name name).
Proof.
  intros w. unfold get_pipe_name, bind. pose proof (getenv_quiet "GSSPROXY_SOCKET" w) as H.
  by destruct (gp_getenv _ w) as [env w'].
Qed.

#[export] Hint Extern 1 (respects _ _) =>
  solve [ apply malloc_quiet | apply pipe_name_quiet, _ | apply getpid_quiet | apply geteuid_quiet
        | apply getegid_quiet | apply connect_quiet | apply settime_quiet | apply timer_read_quiet
        | apply ctl_add_quiet | apply ctl_del_quiet | apply epoll_wait_quiet ] : client.
