(* ===== verification/ClientFds.v ===== *)
(** * The client leaks no descriptor and no lock

    What a call does with the descriptors of the process and with the mutex. *)

From S2P Require Import Prelude Xdr RpcXdr GssxXdr RpcProcess Socket Accept World Client ClientLogic.

(** ** Descriptors and the mutex *)

(** what is open, and how often the mutex is locked; who else writes neither *)
Class NetFds (W : Type) {AL : Alloc W} {NET : NetLib W} := {
  open_fds : W -> gset Z;
  locks : W -> Z;
  fd_state w := (open_fds w, locks w);
  fd_step w w' := fd_state w' = fd_state w;
  open_nonneg w fd : fd ∈ open_fds w -> 0 <= fd;
  fd_quiet :: Quiet fd_step;
  send_fds fd b : respects fd_step (sys_send fd b);
  read_fds fd n : respects fd_step (sys_read fd n);
  close_fds fd w : fd_state (sys_close fd w).2 = (open_fds w ∖ {[fd]}, locks w);
  lock_fds w : wp mutex_lock (fun ret w' =>
    fd_state w' = (open_fds w, (if ret =? 0 then locks w + 1 else locks w))) w;
  unlock_fds w : fd_state (mutex_unlock w).2 = (open_fds w, locks w - 1);
  (* a descriptor that is handed out was closed *)
  opened (r : (Z + Z)%type) (w w' : W) := match r with
    | inl _ => fd_state w' = fd_state w
    | inr fd => 0 <= fd /\ (fd ∉ open_fds w) /\ fd_state w' = (({[fd]} ∪ open_fds w), locks w)
    end;
  socket_fds w : wp sys_socket (fun r w' => opened r w w') w;
  timerfd_fds w : wp timerfd_create (fun r w' => opened r w w') w;
  epoll_fds w : wp epoll_create1 (fun r w' => opened r w w') w;
}.

#[export] Hint Resolve send_fds read_fds : client.

Section fds.
Context {XL : XdrLib} {W : Type} {AL : Alloc W} {NET : NetLib W} {FDS : NetFds W}.
Variable GP_SOCKET_NAME : string.
(** the descriptors of the rest of the process, and how often the mutex was locked *)
Variables (base : gset Z) (n : Z).

Definition fd_set (fd : Z) : gset Z := if decide (0 <= fd) then {[fd]} else ∅.

(** What is open is the rest of the process's and what the client's structure names, each
    once. *)
Definition owns : gpm_ctx * W -> Prop := fun '(c, w) =>
  open_fds w = base ∪ fd_set (g_fd c) ∪ fd_set (g_epollfd c) ∪ fd_set (g_timerfd c) /\
  base ## fd_set (g_fd c) /\ base ## fd_set (g_epollfd c) /\ base ## fd_set (g_timerfd c) /\
  fd_set (g_fd c) ## fd_set (g_epollfd c) /\ fd_set (g_fd c) ## fd_set (g_timerfd c) /\
  fd_set (g_epollfd c) ## fd_set (g_timerfd c) /\ locks w = n.

Lemma owns_view c w w' : fd_state w' = fd_state w -> owns (c, w) -> owns (c, w').
Proof. intros H. injection H as H1 H2. unfold owns. by rewrite H1, H2. Qed.

Lemma keeps_call {A} (m : M W A) : respects fd_step m -> keeps True owns (call m).
Proof. intros Hm. eapply keeps_respects; [exact Hm|]. intros c w w'. apply owns_view. Qed.

Lemma fd_set_neg fd : fd < 0 -> fd_set fd = ∅.
Proof. intros H. unfold fd_set. by rewrite decide_False by lia. Qed.
Lemma fd_set_minus1 : fd_set (-1) = ∅.
Proof. done. Qed.
Lemma fd_set_nonneg fd : 0 <= fd -> fd_set fd = {[fd]}.
Proof. intros H. unfold fd_set. by rewrite decide_True. Qed.

(** closing the descriptor of one field, whatever it is *)
Lemma closed_set (X : gset Z) fd w : (forall z, z ∈ open_fds w -> 0 <= z) ->
  open_fds w = X ∪ fd_set fd -> X ## fd_set fd -> open_fds w ∖ {[fd]} = X.
Proof.
  intros Hn Ho Hd. destruct (decide (0 <= fd)).
  - rewrite fd_set_nonneg in * by done. set_solver.
  - assert (fd ∉ open_fds w) by (intros ?%Hn; lia).
    rewrite fd_set_neg in * by lia. set_solver.
Qed.

(** a descriptor the world just handed out, for a field that has none *)
Lemma opened_set (X : gset Z) fd (w w' : W) : opened (inr fd) w w' -> open_fds w = X ->
  open_fds w' = X ∪ fd_set fd /\ X ## fd_set fd /\ locks w' = locks w.
Proof.
  intros (H0 & Hf & Hs) <-. injection Hs as H1 H2. rewrite fd_set_nonneg by done.
  split; [set_solver|]. split; [set_solver|done].
Qed.

(** ** The three fields, each closed and opened *)

Lemma close_owns X fd w : open_fds w = X ∪ fd_set fd -> X ## fd_set fd ->
  wp (sys_close fd) (fun _ w' => open_fds w' = X /\ locks w' = locks w) w.
Proof.
  intros Ho Hd. unfold wp. pose proof (close_fds fd w) as H.
  destruct (sys_close fd w) as [[] w']. injection H as -> ->. split; [|done].
  eapply closed_set; [apply open_nonneg|done|done].
Qed.

(** three sets over one, one of them taken out *)
Lemma out_first (B P Q R : gset Z) : B ∪ P ∪ Q ∪ R = B ∪ Q ∪ R ∪ P.
Proof. set_solver. Qed.
Lemma out_second (B P Q R : gset Z) : B ∪ P ∪ Q ∪ R = B ∪ P ∪ R ∪ Q.
Proof. set_solver. Qed.
Lemma apart_union (B Q R P : gset Z) : B ## P -> Q ## P -> R ## P -> B ∪ Q ∪ R ## P.
Proof. set_solver. Qed.

(** closing the descriptor of a field, which is -1 after it *)
Lemma closed_owns c w : owns (c, w) ->
  wp (sys_close (g_fd c)) (fun _ w' => owns (set_fd (-1) c, w')) w /\
  wp (sys_close (g_epollfd c)) (fun _ w' => owns (set_epollfd (-1) c, w')) w /\
  wp (sys_close (g_timerfd c)) (fun _ w' => owns (set_timerfd (-1) c, w')) w.
Proof.
  intros (Ho & D1 & D2 & D3 & D4 & D5 & D6 & Hn). unfold owns.
  cbn [g_fd g_epollfd g_timerfd set_fd set_epollfd set_timerfd].
  rewrite fd_set_minus1, !(right_id_L ∅ (∪)).
  split; [|split]; (eapply wp_conseq; [eapply close_owns|intros _ w' [-> ->]]).
  - etrans; [exact Ho|apply out_first].
  - by apply apart_union.
  - split_and!; try done; apply disjoint_empty_l || apply disjoint_empty_r.
  - etrans; [exact Ho|apply out_second].
  - by apply apart_union.
  - split_and!; try done; apply disjoint_empty_l || apply disjoint_empty_r.
  - exact Ho.
  - by apply apart_union.
  - split_and!; try done; apply disjoint_empty_l || apply disjoint_empty_r.
Qed.

Lemma close_socket_owns s : owns s ->
  wpc True gpm_close_socket (fun _ s' => owns s' /\ g_fd s'.1 = -1) s.
Proof.
  destruct s as [c w]. intros Hs. apply wpc_bind, wpc_ctx, wpc_bind, wpc_call.
  eapply wp_conseq; [apply (closed_owns c w Hs)|]. intros [] w' H. by apply wpc_put.
Qed.

Lemma timer_close_owns s : owns s ->
  wpc True gpm_timer_close (fun _ s' => owns s' /\ g_timerfd s'.1 < 0) s.
Proof.
  destruct s as [c w]. intros Hs. apply wpc_bind, wpc_ctx.
  destruct (Z.ltb_spec (g_timerfd c) 0); [by apply wpc_ret|]. apply wpc_bind, wpc_call.
  eapply wp_conseq; [apply (closed_owns c w Hs)|]. intros [] w' H'. apply wpc_put.
  split; [done|]. simpl. lia.
Qed.

Lemma epoll_close_owns s : owns s ->
  wpc True gpm_epoll_close (fun _ s' => owns s' /\ g_epollfd s'.1 < 0) s.
Proof.
  destruct s as [c w]. intros Hs. apply wpc_bind, wpc_ctx.
  destruct (Z.ltb_spec (g_epollfd c) 0); [by apply wpc_ret|]. apply wpc_bind, wpc_call.
  eapply wp_conseq; [apply (closed_owns c w Hs)|]. intros [] w' H'. apply wpc_put.
  split; [done|]. simpl. lia.
Qed.

Lemma keeps_close_socket : keeps True owns gpm_close_socket.
Proof. intros s Hs. eapply wpc_conseq; [by apply close_socket_owns|]. simpl. tauto. Qed.
Lemma keeps_timer_close : keeps True owns gpm_timer_close.
Proof. intros s Hs. eapply wpc_conseq; [by apply timer_close_owns|]. simpl. tauto. Qed.
Lemma keeps_epoll_close : keeps True owns gpm_epoll_close.
Proof. intros s Hs. eapply wpc_conseq; [by apply epoll_close_owns|]. simpl. tauto. Qed.
Hint Resolve keeps_call keeps_close_socket keeps_timer_close keeps_epoll_close : client.

Lemma put_sets (O O' B P Q N : gset Z) : O = B ∪ P ∪ Q -> O' = O ∪ N -> O ## N ->
  O' = B ∪ N ∪ P ∪ Q /\ B ## N /\ N ## P /\ N ## Q.
Proof. intros -> -> Hd. split; [set_solver|]. split_and!; set_solver. Qed.

(** a descriptor just opened can be put into a field that has none, and -1 when none was *)
Lemma opened_owns c w w' (r : Z + Z) : owns (c, w) -> opened r w w' ->
  let fd := match r with inl _ => -1 | inr fd => fd end in
  (g_fd c < 0 -> owns (set_fd fd c, w')) /\
  (g_epollfd c < 0 -> owns (set_epollfd fd c, w')) /\
  (g_timerfd c < 0 -> owns (set_timerfd fd c, w')).
Proof.
  intros (Hw & Hs) Hop fd.
  assert (open_fds w' = open_fds w ∪ fd_set fd /\ open_fds w ## fd_set fd /\ locks w' = locks w)
    as (Ho & Hd & Hl).
  { subst fd. destruct r as [e|fd]; [|by apply opened_set].
    injection Hop as H1 H2. rewrite fd_set_minus1, H1, H2. set_solver. }
  clear Hop. clearbody fd. destruct Hs as (D1 & D2 & D3 & D4 & D5 & D6 & Hn).
  split_and!; intros Hneg; rewrite (fd_set_neg _ Hneg), ?(right_id_L ∅ (∪)) in Hw;
    destruct (put_sets _ _ _ _ _ _ Hw Ho Hd) as (E & E1 & E2 & E3); unfold owns;
    cbn [g_fd g_epollfd g_timerfd set_fd set_epollfd set_timerfd].
  - by rewrite E, Hl.
  - split; [|by rewrite Hl]. rewrite E, <- !(assoc_L (∪)). f_equal.
    rewrite (assoc_L (∪)), (comm_L (∪) (fd_set fd)). by rewrite <- (assoc_L (∪)).
  - split; [|by rewrite Hl]. rewrite E, <- !(assoc_L (∪)). f_equal. by rewrite (comm_L (∪)), (assoc_L (∪)).
Qed.

Lemma open_socket_owns s : owns s -> g_fd s.1 < 0 ->
  wpc True (gpm_open_socket GP_SOCKET_NAME) (fun _ => owns) s.
Proof.
  destruct s as [c w]. simpl. intros Hs Hfd. apply wpc_bind, (wpc_respects _ fd_step); [apply pipe_name_quiet, _|].
  intros [ret name] w1 H1. apply (owns_view _ _ _ H1) in Hs. clear H1.
  destruct (negb (ret =? 0)); [by apply wpc_ret|].
  assert (Hput : forall (ret fd : Z) w', owns (set_fd fd c, w') ->
    wpc True (do* p := call getpid in do* u := call geteuid in do* g := call getegid in
      do* _ := put (set_conn fd p u g) in cret ret) (fun _ => owns) (c, w')).
  { clear. intros ret fd w' H. unfold fd_step in *. apply wpc_bind, (wpc_respects _ fd_step); [apply getpid_quiet|]. intros p w1 H1.
    apply wpc_bind, (wpc_respects _ fd_step); [apply geteuid_quiet|]. intros u w2 H2.
    apply wpc_bind, (wpc_respects _ fd_step); [apply getegid_quiet|]. intros g w3 H3.
    apply wpc_bind, wpc_put, wpc_ret.
    apply (owns_view _ w'); [congruence|exact H]. }
  apply wpc_bind, wpc_bind, wpc_call. eapply wp_conseq; [apply socket_fds|].
  intros r w2 Hop. destruct (opened_owns _ _ _ _ Hs Hop) as (H & _). specialize (H Hfd).
  destruct r as [e|fd]; [by apply wpc_ret, Hput|].
  apply wpc_bind, (wpc_respects _ fd_step); [apply connect_quiet|]. intros [e|] w3 H3.
  - apply (owns_view _ _ _ H3) in H. apply wpc_bind, wpc_call.
    eapply wp_conseq; [apply (closed_owns _ _ H)|]. intros [] w4 H4. by apply wpc_ret, Hput.
  - apply wpc_ret, Hput. by eapply owns_view.
Qed.

Lemma keeps_retry_socket : keeps True owns (gpm_retry_socket GP_SOCKET_NAME).
Proof.
  apply keeps_bind; [eauto with client|]. intros _ s Hs. apply wpc_bind.
  eapply wpc_conseq; [by apply close_socket_owns|]. simpl. intros _ s' [H1 H2].
  apply open_socket_owns; [done|lia].
Qed.

(** the timer and the epoll descriptor: one closed before, and put into its field *)
Lemma keeps_timer_setup t : keeps True owns (gpm_timer_setup t).
Proof.
  intros [c w] Hs. apply wpc_bind, wpc_ctx, wpc_bind.
  apply (wpc_conseq _ _ (fun _ s => owns s /\ g_timerfd s.1 < 0)).
  { destruct (Z.leb_spec 0 (g_timerfd c)); [by apply timer_close_owns|]. by apply wpc_ret. }
  intros _ [c1 w1] [H1 Hneg]. apply wpc_bind, wpc_call. eapply wp_conseq; [apply timerfd_fds|].
  intros r w2 Hop. destruct (opened_owns _ _ _ _ H1 Hop) as (_ & _ & H). specialize (H Hneg).
  destruct r as [e|fd]; apply wpc_bind, wpc_put; [by apply wpc_ret|]. revert H.
  apply (keeps_bind True owns); [eauto with client|]. intros [e|]; keep.
Qed.

Lemma keeps_epoll_setup : keeps True owns gpm_epoll_setup.
Proof.
  intros [c w] Hs. apply wpc_bind, wpc_ctx, wpc_bind.
  apply (wpc_conseq _ _ (fun _ s => owns s /\ g_epollfd s.1 < 0)).
  { destruct (Z.leb_spec 0 (g_epollfd c)); [by apply epoll_close_owns|]. by apply wpc_ret. }
  intros _ [c1 w1] [H1 Hneg]. apply wpc_bind, wpc_call. eapply wp_conseq; [apply epoll_fds|].
  intros r w2 Hop. destruct (opened_owns _ _ _ _ H1 Hop) as (_ & H & _). specialize (H Hneg).
  destruct r as [e|fd]; apply wpc_bind, wpc_put; [by apply wpc_ret|]. revert H.
  apply (keeps_bind True owns); [eauto with client|]. intros c2.
  apply keeps_bind; [eauto with client|]. intros [e|]; keep.
Qed.
Hint Resolve keeps_retry_socket keeps_timer_setup keeps_epoll_setup : client.

(** ** Everything between taking and releasing the lock *)

Lemma keeps_epoll_wait fuel flags : keeps True owns (gpm_epoll_wait fuel flags).
Proof.
  unfold gpm_epoll_wait. apply keeps_bind; [eauto with client|]. intros c.
  assert (Hloop : forall k ep, keeps True owns (epoll_wait_loop k ep)).
  { induction k as [|k IH]; intros ep; simpl; keep. }
  assert (Hres : forall c r, keeps True owns (wait_result c flags r)).
  { intros c0 [e|[|ev0 evs]]; simpl; keep. }
  keep.
Qed.
Hint Resolve keeps_epoll_wait : client.

Lemma keeps_send_buffer fuel b : keeps True owns (gpm_send_buffer GP_SOCKET_NAME fuel b).
Proof.
  assert (Hsize : forall k b, keeps True owns (send_size k b)).
  { induction k as [|k IH]; intros b0; cbn [send_size]; keep. }
  assert (Hbody : forall k b, keeps True owns (send_body k b)).
  { induction k as [|k IH]; intros b0; cbn [send_body]; keep. }
  unfold gpm_send_buffer, send_header. keep.
Qed.

Lemma keeps_recv_buffer fuel : keeps True owns (gpm_recv_buffer fuel).
Proof.
  assert (Hsize : forall k, keeps True owns (recv_size k)).
  { induction k as [|k IH]; cbn [recv_size]; keep. }
  assert (Hbody : forall k l b, keeps True owns (recv_body k l b)).
  { induction k as [|k IH]; intros l b; cbn [recv_body]; keep. }
  unfold gpm_recv_buffer. keep.
Qed.
Hint Resolve keeps_send_buffer keeps_recv_buffer : client.

Lemma keeps_send_recv_loop fuel k b ret :
  keeps True owns (gpm_send_recv_loop GP_SOCKET_NAME fuel k b ret).
Proof. revert ret. induction k as [|k IH]; intros ret; cbn [gpm_send_recv_loop]; keep. Qed.
End fds.

#[export] Hint Resolve keeps_call keeps_close_socket keeps_timer_close keeps_epoll_close
  keeps_retry_socket keeps_timer_setup keeps_epoll_setup keeps_send_recv_loop : client.

#[local] Arguments gpm_send_recv_loop : simpl never.

Section calls.
Context {XL : XdrLib} {W : Type} {AL : Alloc W} {NET : NetLib W} {FDS : NetFds W}.
Variable GP_SOCKET_NAME : string.
Variables (base : gset Z) (n : Z).

(** between calls: the connection may be open, the timer and the epoll descriptor are not *)
Definition idle (s : gpm_ctx * W) : Prop :=
  owns base n s /\ g_epollfd s.1 < 0 /\ g_timerfd s.1 < 0.

Lemma timer_close_epollfd s : wpc True gpm_timer_close
  (fun _ s' => g_epollfd s'.1 = g_epollfd s.1) s.
Proof.
  destruct s as [c w]. apply wpc_bind, wpc_ctx. destruct (g_timerfd c <? 0); [by apply wpc_ret|].
  apply wpc_bind, wpc_call. unfold wp. destruct (sys_close _ w) as [[] w']. by apply wpc_put.
Qed.

Lemma unlock_owns s : owns base (n + 1) s -> wpc True (call mutex_unlock)
  (fun _ s' => owns base n s' /\ s'.1 = s.1) s.
Proof.
  destruct s as [c w]. intros (Ho & D1 & D2 & D3 & D4 & D5 & D6 & Hn). apply wpc_call.
  unfold wp. pose proof (unlock_fds w) as H. destruct (mutex_unlock w) as [r w'].
  injection H as H1 H2. unfold owns. rewrite H1, H2. split_and!; try done. lia.
Qed.

Lemma release_sock_idle s : owns base (n + 1) s ->
  wpc True gpm_release_sock (fun _ => idle) s.
Proof.
  intros Hs. apply wpc_bind. eapply wpc_conseq; [by apply epoll_close_owns|].
  intros _ s1 [H1 He]. apply wpc_bind.
  eapply wpc_conseq; [apply wpc_and; [by apply timer_close_owns|apply timer_close_epollfd]|].
  intros _ s2 [[H2 Ht] E]. eapply wpc_conseq; [by apply unlock_owns|].
  intros r s3 [H3 E3]. unfold idle. rewrite E3, E. done.
Qed.

Lemma lock_owns s : owns base n s -> wpc True (call mutex_lock)
  (fun ret s' => owns base (if ret =? 0 then n + 1 else n) s' /\ s'.1 = s.1) s.
Proof.
  destruct s as [c w]. intros (Ho & D1 & D2 & D3 & D4 & D5 & D6 & Hn). apply wpc_call.
  eapply wp_conseq; [apply lock_fds|]. intros ret w' H. injection H as H1 H2.
  unfold owns. rewrite H1, H2. split; [|done]. split_and!; try done. destruct (ret =? 0); lia.
Qed.

(** a connection that is taken is locked; one that is not leaves the process as it was *)
Lemma grab_sock_owns s : idle s -> wpc True (gpm_grab_sock GP_SOCKET_NAME)
  (fun ret s' => if ret =? 0 then owns base (n + 1) s' else idle s') s.
Proof.
  intros (Hs & He & Ht). apply wpc_bind. eapply wpc_conseq; [by apply lock_owns|].
  intros ret s1 [H1 E1]. destruct (ret =? 0) eqn:Hret; simpl.
  2: { apply wpc_ret. rewrite Hret. unfold idle. by rewrite E1. }
  clear Hs He Ht E1 s.
  do 3 (eapply wpc_keeps; [|exact H1|clear s1 H1; intros ? s1 H1]; [eauto with client|]).
  destruct s1 as [c w]. apply wpc_bind, wpc_ctx.
  eapply wpc_keeps; [|exact H1|clear c w H1; intros _ [c w] H1]; [eauto using keeps_if with client|].
  apply wpc_bind, wpc_ctx, wpc_bind. apply (wpc_conseq _ _ (fun _ => owns base (n + 1))).
  { destruct (Z.eqb_spec (g_fd c) (-1)) as [E|]; [|by apply wpc_ret].
    apply open_socket_owns; [done|]. simpl. lia. }
  clear c w H1 ret Hret. intros ret s1 H1.
  do 2 (eapply wpc_keeps; [|exact H1|clear ret s1 H1; intros ret s1 H1];
    [eauto using keeps_if with client|]).
  apply wpc_bind. destruct (ret =? 0) eqn:Hret; simpl.
  - apply wpc_ret, wpc_ret. by rewrite Hret.
  - apply wpc_bind. eapply wpc_conseq; [by apply release_sock_idle|]. simpl. intros _ s2 H2.
    apply wpc_ret, wpc_ret. by rewrite Hret.
Qed.

(** C26. Whatever becomes of a call, the timer and the epoll descriptor are closed after it, the
    mutex is as it was, and what is open is what the process had open and the connection. *)
Theorem make_call_balanced fuel proc arg s : idle s ->
  wpc True (gpm_make_call GP_SOCKET_NAME fuel proc arg) (fun _ => idle) s.
Proof.
  intros (Hs & He & Ht). apply wpc_bind.
  apply (wpc_conseq _ _ (fun _ => idle)).
  { destruct s as [c w]. apply (wpc_respects _ fd_step); [apply malloc_quiet|]. intros ok w1 H1.
    split; [exact (owns_view _ _ _ _ _ H1 Hs)|done]. }
  clear s Hs He Ht. intros [] s H; [|by apply wpc_ret]. simpl.
  apply wpc_bind. eapply wpc_conseq; [by apply grab_sock_owns|].
  clear s H. simpl. intros ret s H. destruct (ret =? 0); [|by apply wpc_ret]. simpl.
  apply wpc_bind. apply (wpc_conseq _ _ (fun _ => owns base (n + 1))).
  { destruct s as [c w]. apply wpc_bind, wpc_ctx. destruct (_ <? 0); apply wpc_bind, wpc_put, wpc_ret; exact H. }
  clear s H. intros x s H. destruct (gpm_xdr_set !! _) as [[arg_fn res_fn]|]; [|done].
  destruct (encode_request _ _ _ _) as [request|].
  2: { apply wpc_bind. eapply wpc_conseq; [by apply release_sock_idle|]. simpl. intros _ s' H'. by apply wpc_ret. }
  eapply wpc_keeps; [apply keeps_send_recv_loop|exact H|]. clear s H. intros [ret' reply] s H.
  apply wpc_bind. eapply wpc_conseq; [by apply release_sock_idle|]. simpl. intros _ s' H'.
  destruct (negb _); by apply wpc_ret.
Qed.
End calls.
