(* ===== verification/ClientWire.v ===== *)
(** * What a call puts on the wire

    The bytes each connection has carried, in both directions, and how a call adds to them:
    a call that succeeds sent one framed request on a connection and read one framed reply
    from it. *)

From S2P Require Import Prelude Xdr RpcXdr GssxXdr RpcProcess Socket Accept World Client ClientLogic.

(** the bytes that were sent and received on the connection behind each descriptor *)
Class NetWire (W : Type) {AL : Alloc W} {NET : NetLib W} := {
  sent : W -> gmap Z bytes;
  got : W -> gmap Z bytes;
  wire_step (w w' : W) := (sent w', got w') = (sent w, got w);
  wire_quiet :: Quiet wire_step;
  lock_wire : respects wire_step mutex_lock;
  unlock_wire : respects wire_step mutex_unlock;
  close_wire fd : respects wire_step (sys_close fd);
  timerfd_wire : respects wire_step timerfd_create;
  epoll_wire : respects wire_step epoll_create1;
  (* errno is not 0 after a call that failed *)
  connect_errno fd n w e : (sys_connect fd n w).1 = Some e -> e <> 0;
  socket_wire w : wp sys_socket (fun r w' => match r with
    | inl e => e <> 0 /\ wire_step w w'
    | inr fd => sent w' = <[fd := []]> (sent w) /\ got w' = <[fd := []]> (got w)
    end) w;
  send_wire fd b w : wp (sys_send fd b) (fun r w' => match r with
    | inl e => e <> 0 /\ wire_step w w'
    | inr n => 0 <= n <= len b /\ got w' = got w /\
        sent w' = <[fd := sent w !!! fd ++ take (Z.to_nat n) b]> (sent w)
    end) w;
  read_wire fd n w : wp (sys_read fd n) (fun r w' => match r with
    | inl e => e <> 0 /\ wire_step w w'
    | inr d => len d <= n /\ sent w' = sent w /\ got w' = <[fd := got w !!! fd ++ d]> (got w)
    end) w;
}.

#[export] Hint Resolve lock_wire unlock_wire close_wire timerfd_wire epoll_wire : client.

Section wire.
Context {XL : XdrLib} {W : Type} {AL : Alloc W} {NET : NetLib W} {NW : NetWire W}.
Variable GP_SOCKET_NAME : string.

(** what the connection of the client's structure has carried *)
Definition hist (s : gpm_ctx * W) : bytes * bytes :=
  (sent s.2 !!! g_fd s.1, got s.2 !!! g_fd s.1).
Definition at_hist (h : bytes * bytes) (s : gpm_ctx * W) : Prop := hist s = h.
(** ... or nothing yet, on a new connection *)
Definition or_new (h h0 : bytes * bytes) : Prop := h0 = h \/ h0 = ([], []).

Lemma at_hist_step h c w w' : wire_step w w' -> at_hist h (c, w) -> at_hist h (c, w').
Proof. intros H. injection H as H1 H2. unfold at_hist, hist. simpl. by rewrite H1, H2. Qed.

Lemma keeps_call_wire {A} h (m : M W A) : respects wire_step m -> keeps True (at_hist h) (call m).
Proof. intros Hm. eapply keeps_respects; [exact Hm|]. intros c w w'. apply at_hist_step. Qed.

Lemma keeps_put_timerfd h fd : keeps True (at_hist h) (put (W := W) (set_timerfd fd)).
Proof. by apply keeps_put. Qed.
Lemma keeps_put_epollfd h fd : keeps True (at_hist h) (put (W := W) (set_epollfd fd)).
Proof. by apply keeps_put. Qed.
Lemma keeps_put_xid h x : keeps True (at_hist h) (put (W := W) (set_next_xid x)).
Proof. by apply keeps_put. Qed.
Hint Resolve keeps_call_wire keeps_put_timerfd keeps_put_epollfd keeps_put_xid : client.

(** ** The timer and the epoll descriptor carry nothing *)

Lemma timer_close_wire h : keeps True (at_hist h) gpm_timer_close.
Proof. unfold gpm_timer_close. keep. Qed.
Lemma epoll_close_wire h : keeps True (at_hist h) gpm_epoll_close.
Proof. unfold gpm_epoll_close. keep. Qed.
Hint Resolve timer_close_wire epoll_close_wire : client.
Lemma timer_setup_wire h t : keeps True (at_hist h) (gpm_timer_setup t).
Proof. unfold gpm_timer_setup. keep. Qed.
Lemma epoll_setup_wire h : keeps True (at_hist h) gpm_epoll_setup.
Proof. unfold gpm_epoll_setup. keep. Qed.
Lemma release_sock_wire h : keeps True (at_hist h) gpm_release_sock.
Proof. unfold gpm_release_sock. keep. Qed.
Hint Resolve timer_setup_wire epoll_setup_wire release_sock_wire : client.
Lemma epoll_wait_wire h fuel flags : keeps True (at_hist h) (gpm_epoll_wait fuel flags).
Proof.
  assert (Hloop : forall k ep, keeps True (at_hist h) (epoll_wait_loop k ep)).
  { induction k as [|k IH]; intros ep; simpl; keep. }
  assert (Hres : forall c r, keeps True (at_hist h) (wait_result c flags r)).
  { intros c0 [e|[|ev0 evs]]; simpl; keep. }
  unfold gpm_epoll_wait. keep.
Qed.
Hint Resolve epoll_wait_wire : client.

(** ** A new connection has carried nothing *)

Lemma open_socket_wire s : wpc True (gpm_open_socket GP_SOCKET_NAME)
  (fun ret s' => ret = 0 -> at_hist ([], []) s') s.
Proof.
  destruct s as [c w]. apply wpc_bind, (wpc_respects _ wire_step); [apply pipe_name_quiet, _|].
  intros [ret name] w1 _. destruct (Z.eqb_spec ret 0) as [->|Hr]; simpl; [|by apply wpc_ret].
  assert (Hput : forall (ret fd : Z) w', (ret = 0 -> sent w' !!! fd = [] /\ got w' !!! fd = []) ->
    wpc True (do* p := call getpid in do* u := call geteuid in do* g := call getegid in
      do* _ := put (set_conn fd p u g) in cret ret)
      (fun ret s' => ret = 0 -> at_hist ([], []) s') (c, w')).
  { clear. intros ret fd w' H. unfold at_hist, hist.
    do 3 (apply wpc_bind, (wpc_respects _ wire_step); [eauto with client|];
      intros ? w1 Hw; injection Hw as E1 E2; rewrite <- E1, <- E2 in H; clear w' E1 E2;
      rename w1 into w').
    apply wpc_bind, wpc_put, wpc_ret. intros Hret. simpl. by destruct (H Hret) as [-> ->]. }
  apply wpc_bind, wpc_bind, wpc_call. eapply wp_conseq; [apply socket_wire|].
  intros [e|fd] w2 H2; [apply wpc_ret, Hput; tauto|]. destruct H2 as [H1 H2].
  apply wpc_bind. pose proof (connect_errno fd (String.substring 0 SUN_PATH_MAX name) w2) as He.
  apply wpc_call. unfold wp. pose proof (connect_quiet (R := wire_step) fd
    (String.substring 0 SUN_PATH_MAX name) w2) as Hc.
  destruct (sys_connect _ _ w2) as [[e|] w3].
  - apply wpc_bind, (wpc_respects _ wire_step); [eauto with client|]. intros _ w4 _.
    apply wpc_ret, Hput. intros ->. by destruct (He 0).
  - apply wpc_ret, Hput. intros _. injection Hc as E1 E2. simpl in E1, E2.
    by rewrite E1, E2, H1, H2, !lookup_total_insert_eq.
Qed.

Lemma retry_socket_wire s : wpc True (gpm_retry_socket GP_SOCKET_NAME)
  (fun ret s' => ret = 0 -> at_hist ([], []) s') s.
Proof.
  apply wpc_bind. eapply wpc_conseq; [by apply (epoll_close_wire (hist s))|]. intros _ s1 _.
  apply wpc_bind. eapply (wpc_conseq _ _ (fun _ _ => True)); [|intros _ s2 _; apply open_socket_wire].
  destruct s1 as [c w]. apply wpc_bind, wpc_ctx, wpc_bind, wpc_call, wp_any. by intros [] w'.
Qed.

(** ** Sending *)

Lemma send_size_wire fuel b S G s : at_hist (S, G) s ->
  wpc True (send_size fuel b) (fun r s' => match r with
    | inl ret => ret <> 0
    | inr (inl _) => at_hist (S, G) s'
    | inr (inr n) => 0 <= n <= len b /\ at_hist (S ++ take (Z.to_nat n) b, G) s'
    end) s.
Proof.
  revert s. induction fuel as [|fuel IH]; [done|]. intros s Hs. cbn [send_size].
  eapply wpc_keeps; [apply epoll_wait_wire|exact Hs|]. clear s Hs. intros ret [c w] Hs.
  destruct (Z.eqb_spec ret 0) as [E|E]; simpl; [|by apply wpc_ret].
  apply wpc_bind, wpc_ctx, wpc_bind, wpc_call. eapply wp_conseq; [apply send_wire|]. intros [e|n] w' Hw.
  - destruct Hw as [_ Hw]. apply (at_hist_step _ _ _ _ Hw) in Hs.
    destruct (e =? EINTR); [by apply IH|by apply wpc_ret].
  - destruct Hw as (Hn & Hg & Hsent). apply wpc_ret. split; [done|].
    unfold at_hist, hist in *. simpl in *. injection Hs as <- <-.
    by rewrite Hg, Hsent, lookup_total_insert_eq.
Qed.
Lemma take_whole (b : bytes) n : n = len b -> take (Z.to_nat n) b = b.
Proof. intros ->. apply take_ge. unfold len. lia. Qed.

(** the length is sent whole, at the latest on a second connection *)
Lemma send_header_wire fuel b h s : len b = 4 -> at_hist h s ->
  wpc True (send_header GP_SOCKET_NAME fuel b) (fun ret s' => ret = 0 ->
    exists h0, or_new h h0 /\ at_hist (h0.1 ++ b, h0.2) s') s.
Proof.
  intros Hb Hs. destruct h as [S G]. apply wpc_bind.
  assert (Hwhole : forall r S' G' s', match r with
      | inr n => 0 <= n <= len b /\ at_hist (S' ++ take (Z.to_nat n) b, G') s'
      | inl _ => at_hist (S', G') s'
      end -> whole_size r = true -> at_hist (S' ++ b, G') s').
  { intros [e|n] S' G' s' H; simpl; [done|]. intros E%Z.eqb_eq.
    rewrite take_whole in H by lia. tauto. }
  eapply wpc_conseq; [by apply send_size_wire|]. intros [ret|r] s1 H1; [by apply wpc_ret|].
  destruct (whole_size r) eqn:Hr.
  - apply wpc_ret. intros _. exists (S, G). split; [by left|]. by apply (Hwhole r).
  - apply wpc_bind. eapply wpc_conseq; [apply retry_socket_wire|]. intros ret s2 H2. simpl in H2.
    destruct (Z.eqb_spec ret 0) as [E|E]; simpl; [|by apply wpc_ret].
    apply wpc_bind. eapply wpc_conseq; [apply send_size_wire; by apply H2|].
    intros [ret'|r'] s3 H3; [by apply wpc_ret|]. apply wpc_ret. destruct (whole_size r') eqn:Hr'; [|done].
    intros _. exists ([], []). split; [by right|]. by apply (Hwhole r').
Qed.

Lemma send_body_wire fuel b S G s : at_hist (S, G) s ->
  wpc True (send_body fuel b) (fun ret s' => ret = 0 -> at_hist (S ++ b, G) s') s.
Proof.
  revert b S s. induction fuel as [|fuel IH]; intros b S s Hs; cbn [send_body];
    (destruct (Z.eqb_spec (len b) 0) as [E|_];
     [apply wpc_ret; intros _; destruct b; [by rewrite app_nil_r|done]|]); [done|].
  eapply wpc_keeps; [apply epoll_wait_wire|exact Hs|]. clear s Hs. intros ret [c w] Hs.
  destruct (Z.eqb_spec ret 0) as [E|E]; simpl; [|by apply wpc_ret].
  apply wpc_bind, wpc_ctx, wpc_bind, wpc_call. eapply wp_conseq; [apply send_wire|]. intros [e|n] w' Hw.
  - destruct Hw as [He Hw]. apply (at_hist_step _ _ _ _ Hw) in Hs.
    destruct (_ || _); [by apply IH|by apply wpc_ret].
  - destruct Hw as (Hn & Hg & Hsent).
    eapply wpc_conseq; [apply (IH _ (S ++ take (Z.to_nat n) b))|].
    + unfold at_hist, hist in *. simpl in *. injection Hs as <- <-.
      by rewrite Hg, Hsent, lookup_total_insert_eq.
    + intros ret' s'. by rewrite <- app_assoc, take_drop.
Qed.

Lemma send_buffer_wire fuel b h s : at_hist h s ->
  wpc True (gpm_send_buffer GP_SOCKET_NAME fuel b) (fun ret s' => ret = 0 ->
    exists h0, or_new h h0 /\ at_hist (h0.1 ++ frame b, h0.2) s') s.
Proof.
  intros Hs. unfold gpm_send_buffer. destruct (Z.ltb_spec MAX_RPC_SIZE (len b)); [by apply wpc_ret|].
  apply wpc_bind. eapply wpc_conseq.
  { apply (send_header_wire _ _ h); [|done]. unfold len. by rewrite length_packet_header. }
  intros ret s1 H1. simpl in H1. destruct (Z.eqb_spec ret 0) as [E|E]; simpl; [|by apply wpc_ret].
  destruct (H1 E) as (h0 & Hh & H2). eapply wpc_conseq; [by apply send_body_wire|].
  intros ret' s2 H3 E'. exists h0. split; [done|].
  rewrite <- packet_header_frame by (unfold MAX_RPC_SIZE in *; lia). rewrite app_assoc. by apply H3.
Qed.

(** ** Receiving *)

Lemma recv_size_wire fuel S G s : at_hist (S, G) s ->
  wpc True (recv_size fuel) (fun r s' => match r with
    | inl ret => ret <> 0
    | inr (inl _) => True
    | inr (inr hd) => at_hist (S, G ++ hd) s'
    end) s.
Proof.
  revert s. induction fuel as [|fuel IH]; [done|]. intros s Hs. cbn [recv_size].
  eapply wpc_keeps; [apply epoll_wait_wire|exact Hs|]. clear s Hs. intros ret [c w] Hs.
  destruct (Z.eqb_spec ret 0) as [E|E]; simpl; [|by apply wpc_ret].
  apply wpc_bind, wpc_ctx, wpc_bind, wpc_call. eapply wp_conseq; [apply read_wire|]. intros [e|d] w' Hw.
  - destruct Hw as [_ Hw]. apply (at_hist_step _ _ _ _ Hw) in Hs.
    destruct (e =? EINTR); [by apply IH|by apply wpc_ret].
  - destruct Hw as (_ & Hsent & Hg). apply wpc_ret.
    unfold at_hist, hist in *. simpl in *. injection Hs as <- <-.
    by rewrite Hg, Hsent, lookup_total_insert_eq.
Qed.

Lemma recv_body_wire fuel n b S G s : len b <= n -> at_hist (S, G ++ b) s ->
  wpc True (recv_body fuel n b) (fun r s' => r.1 = 0 -> len r.2 = n /\ at_hist (S, G ++ r.2) s') s.
Proof.
  revert b s. induction fuel as [|fuel IH]; intros b s Hb Hs; cbn [recv_body];
    (destruct (Z.ltb_spec (len b) n) as [Hlt|Hge]; [|apply wpc_ret; intros _; split; [simpl; lia|exact Hs]]);
    [done|].
  eapply wpc_keeps; [apply epoll_wait_wire|exact Hs|]. clear s Hs. intros ret [c w] Hs.
  destruct (Z.eqb_spec ret 0) as [E|E]; simpl; [|by apply wpc_ret].
  apply wpc_bind, wpc_ctx, wpc_bind, wpc_call. eapply wp_conseq; [apply read_wire|]. intros [e|d] w' Hw.
  - destruct Hw as [He Hw]. apply (at_hist_step _ _ _ _ Hw) in Hs.
    destruct (_ || _); [by apply IH|by apply wpc_ret].
  - destruct Hw as (Hd & Hsent & Hg). destruct (len d =? 0); [by apply wpc_ret|].
    apply IH; [rewrite len_app; lia|].
    unfold at_hist, hist in *. simpl in *. injection Hs as <- Hs2.
    by rewrite Hg, Hsent, lookup_total_insert_eq, Hs2, app_assoc.
Qed.
(** a reply as it came in: a header of four bytes that announces the bytes after it *)
Definition framed_reply (inp reply : bytes) : Prop :=
  exists hd, inp = hd ++ reply /\ len hd = 4 /\
    len reply = Z.land (be_val hd) (Z.lnot FRAGMENT_BIT) /\ len reply <= MAX_RPC_SIZE.

Lemma recv_buffer_wire fuel S G s : at_hist (S, G) s ->
  wpc True (gpm_recv_buffer fuel) (fun r s' => r.1 = 0 ->
    exists inp reply, r.2 = Some reply /\ framed_reply inp reply /\ at_hist (S, G ++ inp) s') s.
Proof.
  intros Hs. apply wpc_bind. eapply wpc_conseq; [by apply recv_size_wire|].
  intros [ret|[e|hd]] s1 H1; [by apply wpc_ret|by apply wpc_ret|].
  destruct (Z.eqb_spec (len hd) 4) as [E4|]; simpl; [|by apply wpc_ret].
  set (n := Z.land _ _). destruct (Z.ltb_spec MAX_RPC_SIZE n); [by apply wpc_ret|].
  eapply wpc_keeps; [|exact H1|]; [eauto with client|]. intros ok s2 H2.
  destruct ok; [|by apply wpc_ret]. simpl. apply wpc_bind.
  assert (Hn : 0 <= n) by (apply Z.land_nonneg; by right).
  eapply wpc_conseq; [apply (recv_body_wire _ n [] S (G ++ hd)); [done|by rewrite app_nil_r]|].
  intros [ret got0] s3 H3. simpl in H3. destruct (Z.eqb_spec ret 0) as [E|E]; [|by apply wpc_ret].
  destruct (H3 E) as [Hl H4]. apply wpc_ret. intros _. exists (hd ++ got0), got0. split; [done|].
  split; [|by rewrite app_assoc]. exists hd. unfold n in *. split_and!; try done. lia.
Qed.

(** ** The conversation and the call *)

(** one request was sent and one reply received, on a connection of which [h] was known, or
    a new one *)
Definition exchanged (h : bytes * bytes) (request reply : bytes) (s : gpm_ctx * W) : Prop :=
  exists h0 inp, or_new h h0 /\ framed_reply inp reply /\
    at_hist (h0.1 ++ frame request, h0.2 ++ inp) s.

Lemma or_new_new h h0 : or_new ([], []) h0 -> or_new h h0.
Proof. unfold or_new. tauto. Qed.

Lemma send_recv_wire fuel n request ret h s : (0 < n)%nat \/ ret <> 0 -> at_hist h s ->
  wpc True (gpm_send_recv_loop GP_SOCKET_NAME fuel n request ret) (fun r s' => r.1 = 0 ->
    exists reply, r.2 = Some reply /\ exchanged h request reply s') s.
Proof.
  revert ret h s. induction n as [|n IH]; intros ret h s Hn Hs; cbn [gpm_send_recv_loop].
  { apply wpc_ret. simpl. destruct Hn; [lia|done]. }
  assert (Hagain : forall s, wpc True (do* ret := gpm_retry_socket GP_SOCKET_NAME in
      if negb (ret =? 0) then cret (ret, None)
      else gpm_send_recv_loop GP_SOCKET_NAME fuel n request ETIMEDOUT)
      (fun r s' => r.1 = 0 -> exists reply, r.2 = Some reply /\ exchanged h request reply s') s).
  { intros s0. apply wpc_bind. eapply wpc_conseq; [apply retry_socket_wire|]. intros ret1 s1 H1.
    simpl in H1. destruct (Z.eqb_spec ret1 0) as [E|E]; simpl; [|by apply wpc_ret].
    eapply wpc_conseq; [apply IH; [by right|by apply H1]|]. intros r s2 H2 E2.
    destruct (H2 E2) as (reply & ? & h0 & inp & Ho & ?). exists reply. split; [done|].
    exists h0, inp. split; [by apply or_new_new|done]. }
  apply wpc_bind. eapply wpc_conseq; [by apply send_buffer_wire|]. intros ret1 s1 H1. simpl in H1.
  destruct (Z.eqb_spec ret1 0) as [E|E].
  2: { destruct (_ =? _); [apply Hagain|by apply wpc_ret]. }
  destruct (H1 E) as (h0 & Ho & H2). apply wpc_bind.
  eapply wpc_conseq; [by apply recv_buffer_wire|]. intros [ret2 reply] s2 H3. simpl in H3.
  destruct (Z.eqb_spec ret2 0) as [E2|E2].
  - apply wpc_ret. intros _. destruct (H3 E2) as (inp & r & -> & Hf & H4).
    exists r. split; [done|]. by exists h0, inp.
  - destruct (_ =? _); [apply Hagain|by apply wpc_ret].
Qed.

(** the connection a call is given: the one there was, or a new one *)
Lemma grab_sock_wire h s : at_hist h s -> wpc True (gpm_grab_sock GP_SOCKET_NAME)
  (fun ret s' => ret = 0 -> exists h0, or_new h h0 /\ at_hist h0 s') s.
Proof.
  intros Hs. eapply wpc_keeps; [|exact Hs|]; [eauto with client|]. clear s Hs. intros ret s Hs.
  destruct (negb (ret =? 0)) eqn:Hret; [apply wpc_ret; intros ->; done|].
  do 3 (eapply wpc_keeps; [|exact Hs|clear s Hs; intros ? s Hs]; [eauto with client|]).
  destruct s as [c w]. apply wpc_bind, wpc_ctx, wpc_bind.
  apply (wpc_conseq _ _ (fun _ s => at_hist h s \/ g_fd s.1 = -1)).
  { destruct (_ && _); [|apply wpc_ret; by left]. apply wpc_bind, wpc_ctx, wpc_bind, wpc_call, wp_any.
    intros [] w'. apply wpc_put. by right. }
  clear c w Hs ret Hret. intros _ [c w] Hs. apply wpc_bind, wpc_ctx, wpc_bind.
  apply (wpc_conseq _ _ (fun ret s => ret = 0 -> exists h0, or_new h h0 /\ at_hist h0 s)).
  { destruct (Z.eqb_spec (g_fd c) (-1)) as [E|E].
    - eapply wpc_conseq; [apply open_socket_wire|]. intros ret s H Hr. exists ([], []).
      split; [by right|by apply H].
    - apply wpc_ret. intros _. exists h. split; [by left|]. by destruct Hs. }
  clear c w Hs. intros ret s Hs.
  destruct (Z.eqb_spec ret 0) as [E|E]; simpl.
  - destruct (Hs E) as (h0 & Ho & H0). clear Hs E.
    do 3 (eapply wpc_keeps; [|exact H0|clear s H0; intros ? s H0];
      [eauto using keeps_if, keeps_bind, keeps_ret with client|]).
    apply wpc_ret. eauto.
  - do 2 (apply wpc_bind, wpc_ret; simpl; rewrite (proj2 (Z.eqb_neq _ _) E); simpl).
    apply wpc_bind, wpc_any. intros _ s'. by apply wpc_ret.
Qed.

#[local] Arguments gpm_send_recv_loop : simpl never.

(** ** Transaction identifiers *)

Definition at_xid (z : Z) (s : gpm_ctx * W) : Prop := g_next_xid s.1 = z.

Lemma keeps_call_xid {A} z (m : M W A) : keeps True (at_xid z) (call m).
Proof. by apply (keeps_respects _ _ (fun _ _ => True)). Qed.
Lemma keeps_put_xid_field z f : (forall c, g_next_xid (f c) = g_next_xid c) ->
  keeps True (at_xid z) (put (W := W) f).
Proof. intros Hf. apply keeps_put. intros c w. unfold at_xid. simpl. by rewrite Hf. Qed.
Hint Resolve keeps_call_xid keeps_put_xid_field : client.

Lemma grab_sock_xid z : keeps True (at_xid z) (gpm_grab_sock GP_SOCKET_NAME).
Proof.
  unfold gpm_grab_sock, gpm_release_sock, gpm_close_socket, gpm_open_socket, gpm_timer_setup,
    gpm_epoll_setup, gpm_timer_close, gpm_epoll_close. keep.
Qed.

(** what gpm_next_xid returns, and what it leaves *)
Definition xid_of (z : Z) : Z := if z <? 0 then 0 else z.
Definition xid_after (z : Z) : Z := if z <? 0 then 1 else s32 (z + 1).

Lemma next_xid_spec z s : at_xid z s ->
  wpc False gpm_next_xid (fun x s' => x = xid_of z /\ at_xid (xid_after z) s') s.
Proof.
  destruct s as [c w]. intros <-. unfold xid_of, xid_after, gpm_next_xid. simpl.
  apply wpc_bind, wpc_ctx. by destruct (Z.ltb_spec (g_next_xid c) 0).
Qed.

Lemma next_xid_wire h : keeps True (at_hist h) (gpm_next_xid (W := W)).
Proof. unfold gpm_next_xid. keep. Qed.

(** what a call that succeeded did *)
Definition call_done (h : bytes * bytes) (x proc : Z) (arg : gp_rpc_arg)
    (res : option gp_rpc_res) (s : gpm_ctx * W) : Prop :=
  exists arg_fn res_fn request reply r,
    gpm_xdr_set !! Z.to_nat proc = Some (arg_fn, res_fn) /\
    encode_request x proc arg_fn arg = Some request /\
    exchanged h request reply s /\
    decode_reply x res_fn reply = (0, Some r) /\ res = Some r.

Lemma decode_reply_ok x res_fn reply o : decode_reply x res_fn reply = (0, o) -> is_Some o.
Proof. unfold decode_reply. intros H. repeat case_match; simplify_eq/=; eauto. Qed.

Lemma make_call_wire fuel proc arg h z s : at_hist h s -> at_xid z s ->
  wpc True (gpm_make_call GP_SOCKET_NAME fuel proc arg)
    (fun r s' => r.1 = 0 -> call_done h (xid_of z) proc arg r.2 s') s.
Proof.
  intros Hs Hx. apply wpc_bind.
  eapply wpc_conseq; [apply wpc_and; [apply keeps_call_wire; [eauto with client|exact Hs]
    |apply keeps_call_xid, Hx]|].
  clear s Hs Hx. intros [] s [Hs Hx]; [|by apply wpc_ret]. simpl. apply wpc_bind.
  eapply wpc_conseq; [apply wpc_and; [apply grab_sock_wire, Hs|apply grab_sock_xid, Hx]|].
  clear s Hs Hx. intros ret s [H Hx]. simpl in H.
  destruct (Z.eqb_spec ret 0) as [E|E]; simpl; [|by apply wpc_ret]. destruct (H E) as (h0 & Ho & Hs).
  clear H E. apply wpc_bind. eapply wpc_conseq; [apply wpc_and; [apply next_xid_wire, Hs|]|].
  { eapply wpc_stop_any, next_xid_spec, Hx. }
  clear s Hs Hx. intros x s [Hs [-> _]].
  destruct (gpm_xdr_set !! Z.to_nat proc) as [[arg_fn res_fn]|] eqn:Hset; [|done].
  destruct (encode_request _ _ _ _) as [request|] eqn:Hreq.
  2: { apply wpc_bind, wpc_any. intros _ s'. by apply wpc_ret. }
  apply wpc_bind. eapply wpc_conseq; [apply send_recv_wire; [left; unfold MAX_TIMEOUT_RETRY; lia|exact Hs]|].
  clear s Hs ret. intros [ret reply] s H. simpl in H. apply wpc_bind.
  destruct (Z.eqb_spec ret 0) as [E|E]; simpl.
  2: { apply wpc_any. intros _ s'. by apply wpc_ret. }
  destruct (H E) as (r & -> & h1 & inp & Ho1 & Hf & H1). clear H E.
  eapply wpc_conseq; [apply release_sock_wire, H1|]. clear s H1. simpl. intros _ s Hs. apply wpc_ret. simpl.
  destruct (decode_reply _ _ _) as [ret' o] eqn:Hdec. simpl. intros ->.
  destruct (decode_reply_ok _ _ _ _ Hdec) as [res ->].
  exists arg_fn, res_fn, request, r, res. split_and!; try done.
  exists h1, inp. split_and!; try done. destruct Ho1 as [-> | ->]; [done|by right].
Qed.
End wire.
