(* ===== verification/ClientEnds.v ===== *)
(** * A call returns

    Every loop of the client waits for the kernel, and goes round again only when a call was
    interrupted, moved nothing, or moved some of at most MAX_RPC_SIZE bytes.  When the kernel
    interrupts a process a bounded number of times, the fuel of Client.v is never used up. *)

From S2P Require Import Prelude Xdr RpcXdr GssxXdr RpcProcess Socket Accept World Client ClientLogic.

(** how often the calls to come may still be interrupted, or move nothing *)
Class NetPatience (W : Type) {AL : Alloc W} {NET : NetLib W} := {
  patience : W -> nat;
  no_less (w w' : W) := (patience w' <= patience w)%nat;
  ends_quiet :: Quiet no_less;
  lock_ends : respects no_less mutex_lock;
  unlock_ends : respects no_less mutex_unlock;
  close_ends fd : respects no_less (sys_close fd);
  timerfd_ends : respects no_less timerfd_create;
  epoll_ends : respects no_less epoll_create1;
  socket_ends : respects no_less sys_socket;
  wait_ends ep w : (sys_epoll_wait ep w).1 = inl EINTR ->
    (patience (sys_epoll_wait ep w).2 < patience w)%nat;
  send_ends fd b w : wp (sys_send fd b) (fun r w' => (patience w' <= patience w)%nat /\ match r with
    | inl e => e = EINTR \/ e = EAGAIN -> (patience w' < patience w)%nat
    | inr n => n <= 0 -> (patience w' < patience w)%nat
    end) w;
  read_ends fd n w : wp (sys_read fd n) (fun r w' => (patience w' <= patience w)%nat /\ match r with
    | inl e => e = EINTR \/ e = EAGAIN -> (patience w' < patience w)%nat
    | inr _ => True
    end) w;
}.

#[export] Hint Resolve lock_ends unlock_ends close_ends timerfd_ends epoll_ends socket_ends : client.

Section ends.
Context {XL : XdrLib} {W : Type} {AL : Alloc W} {NET : NetLib W} {NP : NetPatience W}.
Variable GP_SOCKET_NAME : string.

Definition within (k : nat) (s : gpm_ctx * W) : Prop := (patience s.2 <= k)%nat.

Lemma keeps_call_ends {A} k (m : M W A) : respects no_less m -> keeps False (within k) (call m).
Proof.
  intros Hm. eapply keeps_respects; [exact Hm|]. intros c w w' H1 H2. unfold within, no_less in *.
  simpl in *. lia.
Qed.
Lemma keeps_put_ends k f : keeps False (within k) (put (W := W) f).
Proof. by apply keeps_put. Qed.
Hint Resolve keeps_call_ends keeps_put_ends : client.

(** one interruption less *)
Lemma within_less {A} k (m : Cl W A) w c w' : within k (c, w) -> (patience w' < patience w)%nat ->
  keeps False (within (pred k)) m -> wpc False m (fun _ => within k) (c, w').
Proof.
  intros H1 H2 Hm. unfold within in *. simpl in H1.
  eapply wpc_conseq; [apply Hm; unfold within; simpl; lia|].
  intros a s Hs. unfold within in *. simpl in *. lia.
Qed.

Lemma open_socket_ends k : keeps False (within k) (gpm_open_socket GP_SOCKET_NAME).
Proof. unfold gpm_open_socket. keep. Qed.
Lemma close_socket_ends k : keeps False (within k) (gpm_close_socket (W := W)).
Proof. unfold gpm_close_socket. keep. Qed.
Lemma timer_close_ends k : keeps False (within k) (gpm_timer_close (W := W)).
Proof. unfold gpm_timer_close. keep. Qed.
Lemma epoll_close_ends k : keeps False (within k) (gpm_epoll_close (W := W)).
Proof. unfold gpm_epoll_close. keep. Qed.
Hint Resolve open_socket_ends close_socket_ends timer_close_ends epoll_close_ends : client.
Lemma timer_setup_ends k t : keeps False (within k) (gpm_timer_setup (W := W) t).
Proof. unfold gpm_timer_setup. keep. Qed.
Lemma epoll_setup_ends k : keeps False (within k) (gpm_epoll_setup (W := W)).
Proof. unfold gpm_epoll_setup. keep. Qed.
Lemma release_sock_ends k : keeps False (within k) (gpm_release_sock (W := W)).
Proof. unfold gpm_release_sock. keep. Qed.
Lemma retry_socket_ends k : keeps False (within k) (gpm_retry_socket GP_SOCKET_NAME).
Proof. unfold gpm_retry_socket. keep. Qed.
Hint Resolve timer_setup_ends epoll_setup_ends release_sock_ends retry_socket_ends : client.
Lemma grab_sock_ends k : keeps False (within k) (gpm_grab_sock GP_SOCKET_NAME).
Proof. unfold gpm_grab_sock. keep. Qed.
Lemma next_xid_ends k : keeps False (within k) (gpm_next_xid (W := W)).
Proof. unfold gpm_next_xid. keep. Qed.
Hint Resolve grab_sock_ends next_xid_ends : client.

(** ** The loops *)

Lemma wait_loop_ends fuel k ep : (k < fuel)%nat -> keeps False (within k) (epoll_wait_loop (W := W) fuel ep).
Proof.
  revert k. induction fuel as [|fuel IH]; intros k Hk; [lia|]. intros [c w] Hs. cbn [epoll_wait_loop].
  apply wpc_bind, wpc_call. pose proof (wait_ends ep w) as Hw.
  pose proof (epoll_wait_quiet (R := no_less) ep w) as Hle. unfold wp.
  destruct (sys_epoll_wait ep w) as [[e|evs] w']; simpl in *.
  - destruct (Z.eqb_spec e EINTR) as [->|].
    + assert (patience w' < patience w)%nat by auto. eapply within_less; [exact Hs|done|].
      apply IH. unfold within in Hs. simpl in Hs. lia.
    + apply wpc_ret. unfold within, no_less in *. simpl in *. lia.
  - apply wpc_ret. unfold within, no_less in *. simpl in *. lia.
Qed.

Lemma epoll_wait_ends fuel k flags : (k < fuel)%nat ->
  keeps False (within k) (gpm_epoll_wait (W := W) fuel flags).
Proof.
  intros Hk. assert (Hres : forall c r, keeps False (within k) (wait_result (W := W) c flags r)).
  { intros c0 [e|[|ev0 evs]]; simpl; keep. }
  pose proof (fun ep => wait_loop_ends fuel k ep Hk). unfold gpm_epoll_wait. keep.
Qed.

Lemma send_size_ends fuel k b : (k < fuel)%nat -> keeps False (within k) (send_size (W := W) fuel b).
Proof.
  revert k. induction fuel as [|fuel IH]; intros k Hk; [lia|]. cbn [send_size].
  apply keeps_bind; [by apply epoll_wait_ends|]. intros ret. destruct (negb _); [keep|].
  intros [c w] Hs. apply wpc_bind, wpc_ctx, wpc_bind, wpc_call. eapply wp_conseq; [apply send_ends|].
  intros [e|n] w' [Hle Hlt]; [destruct (Z.eqb_spec e EINTR) as [->|]|].
  - assert (patience w' < patience w)%nat by auto. eapply within_less; [exact Hs|done|].
    apply IH. unfold within in Hs. simpl in Hs. lia.
  - apply wpc_ret. unfold within in *. simpl in *. lia.
  - apply wpc_ret. unfold within in *. simpl in *. lia.
Qed.

Lemma send_body_ends fuel k b : (k + length b < fuel)%nat ->
  keeps False (within k) (send_body (W := W) fuel b).
Proof.
  revert k b. induction fuel as [|fuel IH]; intros k b Hk; [lia|]. cbn [send_body].
  destruct (Z.eqb_spec (len b) 0) as [|Hb]; [keep|].
  apply keeps_bind; [apply epoll_wait_ends; lia|]. intros ret. destruct (negb _); [keep|].
  intros [c w] Hs. apply wpc_bind, wpc_ctx, wpc_bind, wpc_call. eapply wp_conseq; [apply send_ends|].
  unfold within in Hs. simpl in Hs. intros [e|n] w' [Hle Hlt].
  - destruct (Z.eqb_spec e EINTR) as [->|]; [|destruct (Z.eqb_spec e EAGAIN) as [->|]]; simpl.
    + assert (patience w' < patience w)%nat by auto. eapply within_less; [exact Hs|done|]. apply IH. lia.
    + assert (patience w' < patience w)%nat by auto. eapply within_less; [exact Hs|done|]. apply IH. lia.
    + apply wpc_ret. unfold within. simpl. lia.
  - destruct (decide (n <= 0)).
    + assert (patience w' < patience w)%nat by auto. eapply within_less; [exact Hs|done|].
      apply IH. rewrite length_drop. lia.
    + apply IH; [|unfold within; simpl; lia]. rewrite length_drop. unfold len in Hb. lia.
Qed.

Lemma send_buffer_ends fuel k b : (k + Z.to_nat MAX_RPC_SIZE < fuel)%nat ->
  keeps False (within k) (gpm_send_buffer GP_SOCKET_NAME fuel b).
Proof.
  intros Hk. pose proof (fun b => send_size_ends fuel k b ltac:(lia)). unfold gpm_send_buffer.
  destruct (Z.ltb_spec MAX_RPC_SIZE (len b)); [keep|].
  assert (keeps False (within k) (send_body (W := W) fuel b)).
  { apply send_body_ends. unfold len in *. lia. }
  unfold send_header. keep.
Qed.

Lemma recv_size_ends fuel k : (k < fuel)%nat -> keeps False (within k) (recv_size (W := W) fuel).
Proof.
  revert k. induction fuel as [|fuel IH]; intros k Hk; [lia|]. cbn [recv_size].
  apply keeps_bind; [by apply epoll_wait_ends|]. intros ret. destruct (negb _); [keep|].
  intros [c w] Hs. apply wpc_bind, wpc_ctx, wpc_bind, wpc_call. eapply wp_conseq; [apply read_ends|].
  unfold within in Hs. simpl in Hs.
  intros [e|d] w' [Hle Hlt]; [destruct (Z.eqb_spec e EINTR) as [->|]|].
  - assert (patience w' < patience w)%nat by auto. eapply within_less; [exact Hs|done|].
    apply IH. lia.
  - apply wpc_ret. unfold within. simpl. lia.
  - apply wpc_ret. unfold within. simpl. lia.
Qed.

Lemma recv_body_ends fuel k n b : (k + Z.to_nat (n - len b) < fuel)%nat ->
  keeps False (within k) (recv_body (W := W) fuel n b).
Proof.
  revert k b. induction fuel as [|fuel IH]; intros k b Hk; [lia|]. cbn [recv_body].
  destruct (Z.ltb_spec (len b) n) as [Hb|]; [|keep].
  apply keeps_bind; [apply epoll_wait_ends; lia|]. intros ret. destruct (negb _); [keep|].
  intros [c w] Hs. apply wpc_bind, wpc_ctx, wpc_bind, wpc_call. eapply wp_conseq; [apply read_ends|].
  unfold within in Hs. simpl in Hs. intros [e|d] w' [Hle Hlt].
  - destruct (Z.eqb_spec e EINTR) as [->|]; [|destruct (Z.eqb_spec e EAGAIN) as [->|]]; simpl.
    + assert (patience w' < patience w)%nat by auto. eapply within_less; [exact Hs|done|]. apply IH. lia.
    + assert (patience w' < patience w)%nat by auto. eapply within_less; [exact Hs|done|]. apply IH. lia.
    + apply wpc_ret. unfold within. simpl. lia.
  - destruct (Z.eqb_spec (len d) 0) as [|Hd]; [apply wpc_ret; unfold within; simpl; lia|].
    apply IH; [|unfold within; simpl; lia]. rewrite len_app. pose proof (len_nonneg d). lia.
Qed.

Lemma recv_buffer_ends fuel k : (k + Z.to_nat MAX_RPC_SIZE < fuel)%nat ->
  keeps False (within k) (gpm_recv_buffer (W := W) fuel).
Proof.
  intros Hk. pose proof (recv_size_ends fuel k ltac:(lia)). unfold gpm_recv_buffer.
  apply keeps_bind; [done|]. intros [ret|[e|hd]]; [keep..|]. destruct (negb _); [keep|].
  set (n := Z.land _ _). destruct (Z.ltb_spec MAX_RPC_SIZE n); [keep|].
  assert (keeps False (within k) (recv_body (W := W) fuel n [])).
  { apply recv_body_ends. rewrite len_nil. lia. }
  keep.
Qed.

Lemma send_recv_ends fuel k n b ret : (k + Z.to_nat MAX_RPC_SIZE < fuel)%nat ->
  keeps False (within k) (gpm_send_recv_loop GP_SOCKET_NAME fuel n b ret).
Proof.
  intros Hk. pose proof (send_buffer_ends fuel k b Hk). pose proof (recv_buffer_ends fuel k Hk).
  revert ret. induction n as [|n IH]; intros ret; cbn [gpm_send_recv_loop]; keep.
Qed.

(** C27. A call returns, whatever the daemon does, when the fuel is more than the interruptions
    to come and the size of a message. *)
Theorem make_call_returns fuel proc arg s :
  (patience s.2 + Z.to_nat MAX_RPC_SIZE < fuel)%nat -> 0 <= proc <= GSSX_PROC_MAX ->
  is_Some (gpm_make_call GP_SOCKET_NAME fuel proc arg s).
Proof.
  intros Hk Hp. pose proof (fun n b ret => send_recv_ends fuel (patience s.2) n b ret Hk).
  assert (Hset : is_Some (gpm_xdr_set !! Z.to_nat proc)).
  { apply lookup_lt_is_Some_2. change (length gpm_xdr_set) with 16%nat. unfold GSSX_PROC_MAX in Hp. lia. }
  destruct Hset as [[arg_fn res_fn] Hset].
  assert (Hk' : keeps False (within (patience s.2)) (gpm_make_call GP_SOCKET_NAME fuel proc arg)).
  { unfold gpm_make_call. rewrite Hset. keep. }
  specialize (Hk' s (le_n _)). unfold wpc in Hk'.
  destruct (gpm_make_call _ _ _ _ s) as [[r s']|]; [by eexists|done].
Qed.
End ends.
