(* ===== verification/RemoteCall.v ===== *)
(** * A remote call, from the client's argument to its result

    The client of Client.v and the dispatcher of RpcProcess.v together: what the handler
    returned for the caller's argument is what the caller gets.  Then a network on which
    everything arrives, for concrete calls. *)

From S2P Require Import Prelude Xdr Rfc4506 RpcXdr GssxXdr RpcProcess RpcTable RpcReply RpcExamples.
From S2P Require Import Socket Accept World Client ClientLogic ClientFds ClientWire ClientEnds.

(** ** Transaction identifiers *)

Section xids.
Context {W : Type}.

(** the identifiers of the next [n] calls *)
Fixpoint next_xids (n : nat) : Cl W (list Z) :=
  match n with
  | O => cret []
  | S n => do* x := gpm_next_xid in do* l := next_xids n in cret (x :: l)
  end.

Lemma s32_small z : 0 <= z < 2 ^ 31 -> s32 z = z.
Proof.
  intros Hz. unfold s32, signed. change (32 - 1) with 31. rewrite Z.mod_small by lia.
  destruct (Z.ltb_spec z (2 ^ 31)); lia.
Qed.

Lemma xid_step z : in_s32 z ->
  in_s32 (xid_after z) /\ xid_of (xid_after z) = (xid_of z + 1) mod 2 ^ 31.
Proof.
  unfold in_s32, xid_after, xid_of. intros Hz. destruct (Z.ltb_spec z 0) as [|Hp]; [done|].
  destruct (decide (z = 2 ^ 31 - 1)) as [->|]; [done|].
  rewrite s32_small by lia. destruct (Z.ltb_spec (z + 1) 0); [lia|].
  rewrite Z.mod_small by lia. lia.
Qed.

Lemma next_xids_spec n z s : in_s32 z -> at_xid z s ->
  wpc False (next_xids n) (fun l _ => length l = n /\
    forall i x, l !! i = Some x -> x = (xid_of z + Z.of_nat i) mod 2 ^ 31) s.
Proof.
  revert z s. induction n as [|n IH]; intros z s Hz Hs; cbn [next_xids].
  { apply wpc_ret. split; [done|]. by intros [|i] x ?. }
  apply wpc_bind. eapply wpc_conseq; [apply next_xid_spec, Hs|]. intros x s1 [-> H1].
  destruct (xid_step z Hz) as [Hz' Hstep].
  apply wpc_bind. eapply wpc_conseq; [apply (IH _ _ Hz' H1)|]. intros l s2 [Hl Hx]. apply wpc_ret.
  split; [simpl; lia|]. intros [|i] x; simpl.
  - intros [= <-]. rewrite ?Z.add_0_r, Z.mod_small; [done|]. unfold xid_of, in_s32 in *.
    destruct (Z.ltb_spec z 0); lia.
  - intros H. rewrite (Hx i x H), Hstep, Zplus_mod_idemp_l. f_equal. lia.
Qed.

(** No two of 2^31 successive calls of a process have the same transaction identifier. *)
Theorem xids_distinct n s : in_s32 (g_next_xid s.1) -> Z.of_nat n <= 2 ^ 31 ->
  wpc False (next_xids n) (fun l _ => length l = n /\ NoDup l) s.
Proof.
  intros Hz Hn. eapply wpc_conseq; [by apply next_xids_spec|]. intros l s' [Hl Hx]. split; [done|].
  apply NoDup_alt. intros i j x Hi Hj.
  pose proof (lookup_lt_Some _ _ _ Hi). pose proof (lookup_lt_Some _ _ _ Hj).
  apply Hx in Hi. apply Hx in Hj. rewrite Hi in Hj.
  assert (Hd : (Z.of_nat i - Z.of_nat j) mod 2 ^ 31 = 0).
  { replace (Z.of_nat i - Z.of_nat j)
      with ((xid_of (g_next_xid s.1) + Z.of_nat i) - (xid_of (g_next_xid s.1) + Z.of_nat j)) by lia.
    rewrite Zminus_mod, Hj, Z.sub_diag. done. }
  apply Z.mod_divide in Hd as [q Hq]; [|done]. nia.
Qed.
End xids.

(** ** The two tables *)

Section remote.
Context {XL : XdrLib} {LAWS : XdrLaws XL}.
Context {V : Type} {HD : RpcHandlers V} {TYPED : HandlersTyped V}.
Context {W : Type} {AL : Alloc W} {NET : NetLib W} {NW : NetWire W}.
Variable GP_SOCKET_NAME : string.

(** the client's table is the server's, without the functions *)
Lemma client_table p :
  gpm_xdr_set !! p = (fun fs => (arg_fn (W := V) fs, res_fn fs)) <$> gp_xdr_set !! p.
Proof. by do 17 (destruct p as [|p]; [done|]). Qed.

(** an encoding that succeeded wrote the image *)
Lemma image_enc {A} (c : codec A) a s s' : codec_ok c -> xdom c a -> xenc c a s = Some s' ->
  exists bs, image_of c a bs /\ xdr_buffer s' = xdr_buffer s ++ bs.
Proof.
  intros Hok Ha He. destruct (Hok a Ha) as (bs & Hi). pose proof Hi as (_ & Hfit & Hno).
  exists bs. split; [done|]. destruct (decide (len bs <= room s)) as [Hle|Hgt].
  - destruct (Hfit s Hle) as (s2 & E & B & _). rewrite He in E. by injection E as <-.
  - rewrite Hno in He by lia. discriminate.
Qed.

Lemma call_msg_dom x p : in_u32 x -> in_u32 p -> xdom xdr_gp_rpc_msg (call_msg x p).
Proof.
  intros Hx Hp. assert (Hauth : xdom xdr_gp_rpc_opaque_auth no_auth).
  { split; [|done]. split; [done|]. split; done. }
  split; [|done]. split; [done|]. split; [done|]. split; [|done].
  split; [|done]. repeat split; try done; apply Hp.
Qed.

(** the request a client encodes is the image of a call header and of the argument *)
Lemma request_image x p fs arg request :
  in_u32 x -> in_u32 p -> codec_ok (arg_fn fs) -> xdom (arg_fn fs) arg ->
  encode_request x p (arg_fn (W := V) fs) arg = Some request ->
  exists hd args, request = hd ++ args /\ image_of xdr_gp_rpc_msg (call_msg x p) hd /\
    image_of (arg_fn fs) arg args.
Proof.
  intros Hx Hp Hok Ha He. unfold encode_request in He.
  destruct (xenc xdr_gp_rpc_msg _ _) as [s1|] eqn:E1; simpl in He; [|done].
  destruct (xenc (arg_fn fs) arg s1) as [s2|] eqn:E2; simpl in He; [|done]. injection He as <-.
  destruct (image_enc _ _ _ _ codec_ok_msg (call_msg_dom x p Hx Hp) E1) as (hd & Hi & Hb).
  destruct (image_enc _ _ _ _ Hok Ha E2) as (args & Hi2 & Hb2).
  exists hd, args. split_and!; try done. rewrite Hb2, Hb.
  by rewrite (proj1 (xdrmem_create_spec MAX_RPC_SIZE ltac:(done))).
Qed.

(** the client takes the result of a reply the dispatcher computed, and nothing else *)
Lemma reply_decoded x p fs arg request v out v' r : in_u32 x -> GSSX_PROC_MIN <= p <= GSSX_PROC_MAX ->
  fn_set p = Some fs -> xdom (arg_fn fs) arg ->
  encode_request x p (arg_fn (W := V) fs) arg = Some request ->
  gp_rpc_process_call true v request = Some (0, out, v') ->
  decode_reply x (res_fn fs) out = (0, Some r) ->
  exists f, exec_fn fs = Some f /\ f v arg = (0, Some r, v').
Proof.
  intros Hx Hp Hfs Ha Hreq Hrun Hdec.
  destruct (entries p Hp) as (fs' & Hfs' & _ & Harg & _). rewrite Hfs in Hfs'. injection Hfs' as <-.
  destruct (request_image x p fs arg request Hx) as (hd & args & -> & Hhd & Hargs); try done.
  { unfold in_u32, GSSX_PROC_MIN, GSSX_PROC_MAX in *. lia. }
  pose proof (decode_call_accepts x (CallHeader 2 GSSPROXY GSSPROXYVERS p no_auth no_auth) fs arg
    hd args ltac:(done) Hfs Hhd Hargs) as Hd.
  destruct (process_accepted v _ _ arg fs Hd Hfs)
    as (f & ret & r' & v2 & Hf & Hex & [(_ & _ & ?)|(out' & Hrun' & Hres)]); [congruence|].
  rewrite Hrun in Hrun'. injection Hrun' as <- <-. exists f. split; [done|]. rewrite Hex.
  unfold decode_reply in Hdec. destruct Hres as [[_ Hr]|(-> & r2 & hd2 & body & -> & Hi & Hb & Hout)].
  { apply replies_decode in Hr. rewrite Hr in Hdec. discriminate Hdec. }
  case_decide.
  - subst out. rewrite (proj1 Hi body) in Hdec. simpl in Hdec. rewrite Z.eqb_refl in Hdec. simpl in Hdec.
    pose proof (proj1 Hb []) as Hd2. rewrite app_nil_r in Hd2. rewrite Hd2 in Hdec.
    injection Hdec as <-. done.
  - apply replies_decode in Hout. rewrite Hout in Hdec. discriminate Hdec.
Qed.

(** C6. A call that succeeds sent one framed request and read one framed reply, on the
    connection the client had or on a new one; and when the reply is what the dispatcher
    answers to that request, the caller has the result that the procedure returned for the
    caller's own argument. *)
Theorem remote_call fuel p fs arg s res s' :
  GSSX_PROC_MIN <= p <= GSSX_PROC_MAX -> fn_set (W := V) p = Some fs -> xdom (arg_fn fs) arg ->
  in_s32 (g_next_xid s.1) ->
  gpm_make_call GP_SOCKET_NAME fuel p arg s = Some ((0, res), s') ->
  exists request reply r, exchanged (hist s) request reply s' /\ res = Some r /\
    forall v v', gp_rpc_process_call true v request = Some (0, reply, v') ->
      exists f, exec_fn fs = Some f /\ f v arg = (0, Some r, v').
Proof.
  intros Hp Hfs Ha Hx Hrun.
  destruct (wpc_run _ _ _ _ _ _ Hrun
    (make_call_wire GP_SOCKET_NAME fuel p arg _ _ s eq_refl eq_refl) eq_refl)
    as (arg_fn' & res_fn' & request & reply & r & Hset & Hreq & Hex & Hdec & Hr).
  exists request, reply, r. split; [done|]. split; [done|]. intros v v' Hproc.
  rewrite client_table in Hset. unfold fn_set in Hfs. rewrite Hfs in Hset. injection Hset as <- <-.
  eapply reply_decoded; eauto. unfold xid_of, in_u32, in_s32 in *.
  destruct (Z.ltb_spec (g_next_xid s.1) 0); lia.
Qed.
End remote.
