(* ===== verification/ClientExamples.v ===== *)
(** * Concrete calls over a network that delivers

    An instance of the client's world: descriptors are handed out in turn, at most fifty bytes
    go in one send(2), and the peer of every connection answers what was sent to it. *)

From S2P Require Import Prelude Xdr Rfc4506 RpcXdr GssxXdr RpcProcess RpcTable RpcReply RpcExamples.
From S2P Require Import Socket Accept World Client ClientLogic ClientFds ClientWire ClientEnds RemoteCall.

Record net := Net {
  n_open : list N;                 (* open descriptors *)
  n_locks : Z;
  n_sent : gmap Z bytes;
  n_got : gmap Z bytes;
  n_watch : option (Z * Z);        (* the descriptor and the events last asked for *)
  n_interrupts : nat;              (* epoll_wait(2) fails with EINTR so often *)
  n_memory : list bool;            (* the answers of malloc, then there is memory *)
  n_peer : bytes -> bytes;         (* all the peer sends, given all it received *)
}.

Definition set_open l w := Net l (n_locks w) (n_sent w) (n_got w) (n_watch w) (n_interrupts w) (n_memory w) (n_peer w).
Definition set_locks z w := Net (n_open w) z (n_sent w) (n_got w) (n_watch w) (n_interrupts w) (n_memory w) (n_peer w).
Definition set_sent m w := Net (n_open w) (n_locks w) m (n_got w) (n_watch w) (n_interrupts w) (n_memory w) (n_peer w).
Definition set_got m w := Net (n_open w) (n_locks w) (n_sent w) m (n_watch w) (n_interrupts w) (n_memory w) (n_peer w).
Definition set_watch o w := Net (n_open w) (n_locks w) (n_sent w) (n_got w) o (n_interrupts w) (n_memory w) (n_peer w).
Definition set_interrupts k w := Net (n_open w) (n_locks w) (n_sent w) (n_got w) (n_watch w) k (n_memory w) (n_peer w).
Definition set_memory l w := Net (n_open w) (n_locks w) (n_sent w) (n_got w) (n_watch w) (n_interrupts w) l (n_peer w).

(** a descriptor that is not open *)
Definition net_fd (w : net) : N := (1 + foldr N.max 2 (n_open w))%N.
Definition net_open : M net (Z + Z) := fun w =>
  (inr (Z.of_N (net_fd w)), set_open (net_fd w :: n_open w) w).

#[export] Instance net_alloc : Alloc net := fun w =>
  match n_memory w with b :: l => (b, set_memory l w) | [] => (true, w) end.

#[export] Instance net_lib : NetLib net := {|
  gp_getenv _ := mret None;
  mutex_lock := fun w => (0, set_locks (n_locks w + 1) w);
  mutex_unlock := fun w => (0, set_locks (n_locks w - 1) w);
  getpid := mret 100; geteuid := mret 1000; getegid := mret 1000;
  sys_socket := fun w =>
    let fd := Z.of_N (net_fd w) in
    (inr fd, set_sent (<[fd := []]> (n_sent w)) (set_got (<[fd := []]> (n_got w))
               (set_open (net_fd w :: n_open w) w)));
  sys_connect _ _ := mret None;
  sys_close fd := fun w => (tt, set_open (filter (fun x => Z.of_N x <> fd) (n_open w)) w);
  timerfd_create := net_open;
  timerfd_settime _ _ := mret None;
  timer_read _ := mret None;
  epoll_create1 := net_open;
  epoll_ctl_add _ fd ev := fun w => (None, set_watch (Some (fd, ev)) w);
  epoll_ctl_del _ _ := mret None;
  sys_epoll_wait _ := fun w => match n_interrupts w with
    | S k => (inl EINTR, set_interrupts k w)
    | O => (inr match n_watch w with Some (fd, ev) => [Event ev fd] | None => [] end, w)
    end;
  sys_send fd b := fun w =>
    if len b =? 0 then (inl EINVAL, w) else
    let n := Z.min 50 (len b) in
    (inr n, set_sent (<[fd := n_sent w !!! fd ++ take (Z.to_nat n) b]> (n_sent w)) w);
  sys_read fd n := fun w =>
    let d := take (Z.to_nat n) (drop (length (n_got w !!! fd)) (n_peer w (n_sent w !!! fd))) in
    if n <? 0 then (inl EINVAL, w) else
    (inr d, set_got (<[fd := n_got w !!! fd ++ d]> (n_got w)) w);
|}.

Lemma net_fd_fresh w x : x ∈ n_open w -> (x < net_fd w)%N.
Proof.
  unfold net_fd. induction (n_open w) as [|y l IH]; [by intros ?%not_elem_of_nil|].
  intros [->|H]%elem_of_cons; simpl; [lia|]. specialize (IH H). lia.
Qed.

Lemma net_opened w w' : n_open w' = net_fd w :: n_open w -> n_locks w' = n_locks w ->
  0 <= Z.of_N (net_fd w) /\ (Z.of_N (net_fd w) ∉ (list_to_set (Z.of_N <$> n_open w) : gset Z)) /\
  ((list_to_set (Z.of_N <$> n_open w') : gset Z), n_locks w') =
  ({[Z.of_N (net_fd w)]} ∪ list_to_set (Z.of_N <$> n_open w), n_locks w).
Proof.
  intros -> ->. split; [lia|]. split; [|done].
  rewrite elem_of_list_to_set, list_elem_of_fmap. intros (x & Hx & Hin%net_fd_fresh). lia.
Qed.

#[export] Instance net_fds : NetFds net.
Proof.
  refine {| open_fds w := list_to_set (Z.of_N <$> n_open w); locks := n_locks |}.
  - intros w fd. rewrite elem_of_list_to_set, list_elem_of_fmap. intros (x & -> & _). lia.
  - split; intros; intros w; try done.
    + unfold malloc, net_alloc. by destruct (n_memory w).
    + simpl. by destruct (n_interrupts w).
  - intros fd b w. simpl. by destruct (_ =? 0).
  - intros fd n w. simpl. by destruct (_ <? 0).
  - intros fd w. simpl. f_equal. apply set_eq. intros x.
    rewrite elem_of_difference, !elem_of_list_to_set, !list_elem_of_fmap, elem_of_singleton.
    setoid_rewrite list_elem_of_filter. split.
    + intros (y & -> & Hy & Hin). split; [by exists y|done].
    + intros [(y & -> & Hin) Hy]. by exists y.
  - done.
  - done.
  - intros w. by apply net_opened.
  - intros w. by apply net_opened.
  - intros w. by apply net_opened.
Defined.

#[export] Instance net_wire : NetWire net.
Proof.
  refine {| sent := n_sent; got := n_got |}; try done.
  - split; intros; intros w; try done.
    + unfold malloc, net_alloc. by destruct (n_memory w).
    + simpl. by destruct (n_interrupts w).
  - intros fd b w. unfold wp. simpl. pose proof (len_nonneg b).
    destruct (Z.eqb_spec (len b) 0); [done|]. split; [lia|done].
  - intros fd n w. unfold wp. simpl. destruct (Z.ltb_spec n 0); [done|].
    split; [|done]. unfold len. rewrite length_take. lia.
Defined.

#[export] Instance net_patience : NetPatience net.
Proof.
  refine {| patience := n_interrupts |}; try (intros; intros w; exact (le_n _)).
  - split; intros; intros w; try exact (le_n _).
    + unfold malloc, net_alloc. by destruct (n_memory w).
    + simpl. destruct (n_interrupts w) eqn:E; simpl; rewrite ?E; lia.
  - intros ep w. simpl. destruct (n_interrupts w) eqn:E; [done|]. simpl. lia.
  - intros fd b w. unfold wp. simpl. pose proof (len_nonneg b).
    destruct (Z.eqb_spec (len b) 0); simpl; (split; [lia|]); [intros [|]; done|]. lia.
  - intros fd n w. unfold wp. simpl. destruct (Z.ltb_spec n 0); simpl; (split; [lia|done || by intros [|]]).
Defined.

(** ** A daemon behind the network *)

(** every framed request is answered, by some procedures *)
Fixpoint serve {HD : RpcHandlers Z} (k : nat) (b : bytes) : bytes :=
  match k with
  | O => []
  | S k =>
      let n := Z.land (be_val (take 4 b)) (Z.lnot FRAGMENT_BIT) in
      if len b <? 4 + n then [] else
      match gp_rpc_process_call true 0 (take (Z.to_nat n) (drop 4 b)) with
      | Some (_, out, _) => frame out ++ serve k (drop (Z.to_nat (4 + n)) b)
      | None => []
      end
  end.

(** a process that has descriptors 0 to 2 open, on a network with some interruptions; the
    allocator answers as given, and then has memory *)
Definition net_with (HD : RpcHandlers Z) (interrupts : nat) (memory : list bool) : gpm_ctx * net :=
  (gpm_init_once 7, Net [0; 1; 2]%N 0 ∅ ∅ None interrupts memory (serve 10)).
(** the procedures of RpcExamples.v *)
Definition net_start := net_with counting_handlers.

#[local] Abbreviation ask := (gpm_make_call (W := net) "/run/gssproxy" 50 1 w_arg).

Lemma net_start_idle k l : idle (list_to_set [0; 1; 2]) 0 (net_start k l).
Proof. split; [|done]. by vm_compute. Qed.

Lemma asked_once : fst <$> ask (net_start 2 []) = Some (0, Some (res_indicate_mechs w_res_indicate_mechs)).
Proof. by vm_compute. Qed.

(** A call that fails while its reply is coming in leaves the connection open, and the rest of
    the reply in it: the calls after it fail on a network that works. *)
Definition ask_again (n : nat) : Cl net (list Z) :=
  Nat.iter n (fun m => do* '(ret, _) := ask in do* l := m in cret (ret :: l)) (cret []).

Example short_of_memory_once :
  fst <$> ask_again 4 (net_start 0 [true; false]) = Some [ENOMEM; EINVAL; EINVAL; EINVAL].
Proof. vm_compute. reflexivity. Qed.
Example ask_again_works : fst <$> ask_again 4 (net_start 0 []) = Some [0; 0; 0; 0].
Proof. by vm_compute. Qed.

(** ** The theorems about the client, applied *)

Lemma make_call_balanced_witness :
  idle (list_to_set [0; 1; 2]) 0 (net_start 2 []) /\
  wpc True ask (fun _ => idle (list_to_set [0; 1; 2]) 0) (net_start 2 []).
Proof.
  split; [apply net_start_idle|]. apply make_call_balanced. apply net_start_idle.
Defined.

Lemma make_call_returns_witness :
  is_Some (gpm_make_call "/run/gssproxy" (3 + Z.to_nat MAX_RPC_SIZE) 1 w_arg (net_start 2 [])).
Proof. apply make_call_returns; [simpl; lia|done]. Defined.

Lemma xids_distinct_witness :
  in_s32 (g_next_xid (net_start 0 []).1) /\
  wpc False (next_xids 1000) (fun l _ => length l = 1000%nat /\ NoDup l) (net_start 0 []).
Proof. split; [done|]. apply xids_distinct; done. Defined.

Lemma asked_done : exists res s',
  gpm_make_call "/run/gssproxy" 50 1 w_arg (net_start 2 []) = Some ((0, res), s').
Proof.
  assert (H : forall o : option (Z * option gp_rpc_res * (gpm_ctx * net)),
    fst <$> o = Some (0, Some (res_indicate_mechs w_res_indicate_mechs)) ->
    exists res s', o = Some ((0, res), s')).
  { intros [[[ret res] s']|] [= -> _]. by exists res, s'. }
  apply H, asked_once.
Qed.

Lemma asked_arg : xdom (arg_fn (W := Z) set_indicate_mechs) w_arg.
Proof. typed_result. Qed.

Lemma remote_call_witness : exists res s' request reply r,
    gpm_make_call "/run/gssproxy" 50 1 w_arg (net_start 2 []) = Some ((0, res), s') /\
    exchanged (hist (net_start 2 [])) request reply s' /\ res = Some r /\
    forall v v' : Z, gp_rpc_process_call true v request = Some (0, reply, v') ->
      exists f, exec_fn set_indicate_mechs = Some f /\ f v w_arg = (0, Some r, v').
Proof.
  assert (Hx : in_s32 (g_next_xid (net_start 2 []).1)) by done.
  assert (Hp : GSSX_PROC_MIN <= 1 <= GSSX_PROC_MAX) by done.
  destruct asked_done as (res & s' & E). exists res, s'.
  destruct (remote_call (V := Z) _ _ 1 set_indicate_mechs _ _ _ _ Hp eq_refl asked_arg Hx E)
    as (request & reply & r & H).
  exists request, reply, r. exact (conj E H).
Defined.
