(* ===== verification/Gpm.v ===== *)
(** * The procedures of the client: state, status and mechanisms

    src/client/gpm_display_status.c and src/client/gpm_indicate_mechs.c, with the monad all
    the client's procedures are written in.

    A procedure works on the state a process keeps besides its connection, [gpm_proc]: the
    status of the last call (thread-local in the code; the model is of one thread) and the
    table of the mechanisms of the daemon.  A computation ends without a result when it reads
    through a null pointer or releases memory twice ([None] inside), and when the fuel of
    gpm_make_call is used up ([None] outside).

    Out-pointers are given as booleans that say whether they are null, and what is stored
    through them is returned, [None] when nothing is.  [minor_status], which no caller of the
    repository passes as null, is not tested.  What a reply that does not decode leaves in the
    result structure is not modelled: the result is the zeroed one. *)

From S2P Require Import Prelude Xdr RpcXdr GssxXdr RpcProcess World Util Conv Client.

(** ** Data *)

Record gpm_mech_info := MechInfo {
  gi_mech : option bytes;
  gi_name_types : option (list bytes);
  gi_mech_attrs : option (list bytes);
  gi_known_mech_attrs : option (list bytes);
  gi_cred_options : option (list bytes);
  gi_sec_ctx_options : option (list bytes);
  gi_saslname_sasl_mech_name : option bytes;
  gi_saslname_mech_name : option bytes;
  gi_saslname_mech_desc : option bytes;
}.

Record gpm_mech_attr := MechAttr {
  ga_attr : option bytes; ga_name : option bytes; ga_short_desc : option bytes;
  ga_long_desc : option bytes }.

(** the arrays are the calloc'ed ones, the lengths the fields of the structure *)
Record gpm_mechs := GpmMechs {
  gm_initialized : bool;
  gm_mech_set : option (list bytes);
  gm_info_len : Z; gm_info : option (list gpm_mech_info);
  gm_desc_len : Z; gm_desc : option (list gpm_mech_attr) }.

(** [p_once] is indicate_mechs_once *)
Record gpm_proc := GpmProc {
  p_last_status : option gssx_status; p_mechs : gpm_mechs; p_once : bool }.

Definition no_mechs : gpm_mechs := GpmMechs false None 0 None 0 None.
Definition gpm_start : gpm_proc := GpmProc None no_mechs false.

Definition set_last_status (s : option gssx_status) (p : gpm_proc) : gpm_proc :=
  GpmProc s (p_mechs p) (p_once p).
Definition set_mechs (g : gpm_mechs) (p : gpm_proc) : gpm_proc :=
  GpmProc (p_last_status p) g (p_once p).
Definition set_once (p : gpm_proc) : gpm_proc :=
  GpmProc (p_last_status p) (p_mechs p) true.

(** ** The monad *)

Definition Gp (W A : Type) : Type := gpm_proc -> Cl W (option (A * gpm_proc)).
Definition gret {W A} (a : A) : Gp W A := fun p => cret (Some (a, p)).
Definition gbind {W A B} (m : Gp W A) (k : A -> Gp W B) : Gp W B := fun p =>
  do* r := m p in match r with Some (a, p) => k a p | None => cret None end.
Definition crash {W A} : Gp W A := fun _ => cret None.
Definition lift {W A} (m : Cl W A) : Gp W A := fun p => do* a := m in cret (Some (a, p)).
Definition lib {W A} (m : M W A) : Gp W A := lift (call m).
Definition getp {W} : Gp W gpm_proc := fun p => cret (Some (p, p)).
Definition setp {W} (f : gpm_proc -> gpm_proc) : Gp W unit := fun p => cret (Some (tt, f p)).

Notation "'do!' x ':=' m 'in' k" := (gbind m (fun x => k))
  (at level 10, x binder, m at level 100, k at level 200).
Notation "'do!' ' p ':=' m 'in' k" := (gbind m (fun x => match x with p => k end))
  (at level 10, p pattern, m at level 100, k at level 200, only parsing).

(** reading through a pointer *)
Definition deref {W A} (o : option A) : Gp W A :=
  match o with Some a => gret a | None => crash end.

(** strerror_r(3) of the GNU C library *)
Class Strerror := strerror_r : Z -> option bytes.

Definition MAX_GP_STRERROR := 1024%nat.
Definition gp_internal_err : bytes := String.list_byte_of_string "Internal strerror_r() error.".

Definition gp_strerror {SE : Strerror} (errnum : Z) : bytes :=
  take (MAX_GP_STRERROR - 1) (to_nul (default gp_internal_err (strerror_r errnum))).

Section gpm.
Context {XL : XdrLib} {W : Type} {AL : Alloc W} {NET : NetLib W} {GL : GssLib W} {SE : Strerror}.
Variable GP_SOCKET_NAME : string.
Variable fuel : nat.

Definition zero_call_ctx : gssx_call_ctx := Mk_call_ctx [] [] [].

(** a call, and its result read through the member of the procedure *)
Definition make_call {R} (proc : Z) (arg : gp_rpc_arg) (out : gp_rpc_res -> option R) (zero : R)
  : Gp W (Z * R) :=
  do! '(ret, res) := lift (gpm_make_call GP_SOCKET_NAME fuel proc arg) in
  gret (ret, default zero (res ≫= out)).

(** ** The last status *)

Definition gpm_save_status (status : gssx_status) : Gp W unit :=
  do! _ := setp (set_last_status None) in
  do! '(ret, last_status) := lib (gp_copy_gssx_status_alloc status) in
  if ret =? 0 then setp (set_last_status last_status) else gret tt.

Definition STD_MAJ_ERROR_STR : bytes := cstr "Internal gssproxy error".

(** without memory for the string, 24 bytes are copied from a null pointer *)
Definition gpm_save_internal_status (err : Z) (err_str : bytes) : Gp W unit :=
  do! ok := lib malloc in
  if ok then
    gpm_save_status (Mk_status GSS_S_FAILURE [] (u32 err) STD_MAJ_ERROR_STR
                       (err_str ++ [Byte.x00]) [] [])
  else
    do! _ := setp (set_last_status None) in
    do! ok := lib malloc in
    if negb ok then gret tt else
    do! ok := lib malloc in
    if negb ok then gret tt else crash.

(** a status of the library is compared with 64-bit fields *)
Definition gpm_display_status (status_value status_type message_context : Z)
  : Gp W (Z * option Z * option bytes) :=
  do! p := getp in
  let last_status := p_last_status p in
  let copy str :=
    do! '(ret, tmp) := lib (gp_copy_utf8string str) in
    gret (if negb (ret =? 0) then (GSS_S_FAILURE, Some ret, None)
          else (GSS_S_COMPLETE, Some 0, Some tmp)) in
  if status_type =? GSS_C_GSS_CODE then
    match last_status with
    | Some s =>
        if (status_major_status s =? status_value) && negb (len (status_major_status_string s) =? 0)
        then copy (status_major_status_string s)
        else gret (GSS_S_UNAVAILABLE, None, None)
    | None => gret (GSS_S_UNAVAILABLE, None, None)
    end
  else if status_type =? GSS_C_MECH_CODE then
    match last_status with
    | Some s =>
        if (status_minor_status s =? status_value) && negb (len (status_minor_status_string s) =? 0)
        then if negb (message_context =? 0) then gret (GSS_S_FAILURE, Some EINVAL, None)
             else copy (status_minor_status_string s)
        else gret (GSS_S_UNAVAILABLE, None, None)
    | None => gret (GSS_S_UNAVAILABLE, None, None)
    end
  else gret (GSS_S_BAD_STATUS, Some EINVAL, None).

(** ** The table of mechanisms *)

(** [None] is a null set *)
Definition gpm_copy_gss_OID_set (oldset : option (list bytes)) : Gp W (Z * Z * option (list bytes)) :=
  do! '(ret_maj, ret_min, n) := lib gss_create_empty_oid_set in
  if negb (ret_maj =? 0) then gret (ret_maj, ret_min, None) else
  do! l := deref oldset in
  (fix copy l n : Gp W (Z * Z * option (list bytes)) :=
     match l with
     | [] => gret (GSS_S_COMPLETE, 0, Some n)
     | m :: l =>
         do! '(ret_maj, ret_min, n) := lib (gss_add_oid_set_member m n) in
         if negb (ret_maj =? 0) then gret (ret_maj, ret_min, None) else copy l n
     end) l n.

Definition gpm_copy_gss_buffer (oldbuf : option bytes) : M W (Z * Z * option bytes) :=
  match oldbuf with
  | None => mret (GSS_S_COMPLETE, 0, Some [])
  | Some b =>
      if len b =? 0 then mret (GSS_S_COMPLETE, 0, Some []) else
      let* ok := malloc in
      if negb ok then mret (GSS_S_FAILURE, ENOMEM, None)
      else mret (GSS_S_COMPLETE, 0, Some b)
  end.

(** the first conversion that fails ends the loop *)
Definition conv {A B} (m : M W (Z * A)) (k : A -> M W (option B)) : M W (option B) :=
  let* '(ret, a) := m in if negb (ret =? 0) then mret None else k a.

Notation "'conv*' x ':=' m 'in' k" := (conv m (fun x => k))
  (at level 10, x binder, m at level 100, k at level 200).

(** A mechanism without an OID is given to gss_add_oid_set_member as a null pointer, which
    the library treats as an empty OID. *)
Fixpoint mech_infos (l : list gssx_mech_info) (set : list bytes)
  : M W (option (list gpm_mech_info * list bytes)) :=
  match l with
  | [] => mret (Some ([], set))
  | mi :: l =>
      conv* mech := gp_conv_gssx_to_oid_alloc (Some (mech_info_mech mi)) in
      let* '(ret_maj, _, set) := gss_add_oid_set_member (default [] mech) set in
      if negb (ret_maj =? 0) then mret None else
      conv* name_types := gp_conv_gssx_to_oid_set (mech_info_name_types mi) in
      conv* mech_attrs := gp_conv_gssx_to_oid_set (mech_info_mech_attrs mi) in
      conv* known_mech_attrs := gp_conv_gssx_to_oid_set (mech_info_known_mech_attrs mi) in
      conv* cred_options := gp_conv_gssx_to_oid_set (mech_info_cred_options mi) in
      conv* sec_ctx_options := gp_conv_gssx_to_oid_set (mech_info_sec_ctx_options mi) in
      conv* sasl := gp_conv_gssx_to_buffer_alloc (mech_info_saslname_sasl_mech_name mi) in
      conv* name := gp_conv_gssx_to_buffer_alloc (mech_info_saslname_mech_name mi) in
      conv* desc := gp_conv_gssx_to_buffer_alloc (mech_info_saslname_mech_desc mi) in
      let gi := MechInfo mech name_types mech_attrs known_mech_attrs cred_options
                  sec_ctx_options sasl name desc in
      let* r := mech_infos l set in
      mret ('(gis, set) ← r; Some (gi :: gis, set))
  end.

Fixpoint mech_descs (l : list gssx_mech_attr) : M W (option (list gpm_mech_attr)) :=
  match l with
  | [] => mret (Some [])
  | ma :: l =>
      conv* attr := gp_conv_gssx_to_oid_alloc (Some (mech_attr_attr ma)) in
      conv* name := gp_conv_gssx_to_buffer_alloc (mech_attr_name ma) in
      conv* short_desc := gp_conv_gssx_to_buffer_alloc (mech_attr_short_desc ma) in
      conv* long_desc := gp_conv_gssx_to_buffer_alloc (mech_attr_long_desc ma) in
      let* r := mech_descs l in
      mret (gas ← r; Some (MechAttr attr name short_desc long_desc :: gas))
  end.

(** The end of a failed attempt.  The loops over the arrays go by the lengths of the
    structure, which are never reset, over the arrays there are, of [n_info] and [n_desc]
    elements. *)
Definition gpmint_release (g : gpm_mechs) (n_info n_desc : Z) : Gp W unit :=
  if (n_desc <? gm_desc_len g) || (n_info <? gm_info_len g) then crash
  else setp (set_mechs (GpmMechs (gm_initialized g) None (gm_info_len g) None (gm_desc_len g) None)).

Definition alloc_len {A} (array : option (list A)) : Z := len (default [] array).

Definition zero_res_indicate_mechs := Mk_res_indicate_mechs zero_status [] [] [] [].

Definition gpmint_indicate_mechs : Gp W unit :=
  do! '(ret, res) := make_call GSSX_INDICATE_MECHS (arg_indicate_mechs (Mk_arg_indicate_mechs zero_call_ctx))
      (fun r => match r with res_indicate_mechs r => Some r | _ => None end) zero_res_indicate_mechs in
  do! p := getp in
  let g := p_mechs p in
  let n_info := alloc_len (gm_info g) in
  let n_desc := alloc_len (gm_desc g) in
  if negb (ret =? 0) then gpmint_release g n_info n_desc else
  let status := res_indicate_mechs_status res in
  if negb (status_major_status status =? 0) then
    do! _ := gpm_save_status status in
    if u32 (status_major_status status) =? 0 then gret tt else gpmint_release g n_info n_desc
  else
  do! '(ret_maj, _, set) := lib gss_create_empty_oid_set in
  if negb (ret_maj =? 0) then gpmint_release g n_info n_desc else
  do! ok := lib malloc in
  if negb ok then gpmint_release g 0 n_desc else
  let n_info := len (res_indicate_mechs_mechs res) in
  do! r := lib (mech_infos (res_indicate_mechs_mechs res) set) in
  match r with
  | None => gpmint_release g n_info n_desc
  | Some (info, set) =>
      let g := GpmMechs (gm_initialized g) (Some set) n_info (Some info) (gm_desc_len g) None in
      do! ok := lib malloc in
      if negb ok then setp (set_mechs g) else
      let n_desc := len (res_indicate_mechs_mech_attr_descs res) in
      do! r := lib (mech_descs (res_indicate_mechs_mech_attr_descs res)) in
      match r with
      | None => gpmint_release g n_info n_desc
      | Some desc => setp (set_mechs (GpmMechs true (Some set) n_info (Some info) n_desc (Some desc)))
      end
  end.

(** pthread_once(3) does not fail on an initialised control; the lock of the second attempt
    is only ever taken here *)
Definition gpmint_init_global_mechs : Gp W Z :=
  do! p := getp in
  do! _ := if p_once p then gret tt
           else do! _ := gpmint_indicate_mechs in setp set_once in
  do! p := getp in
  if gm_initialized (p_mechs p) then gret 0 else
  do! _ := gpmint_indicate_mechs in
  do! p := getp in
  gret (if gm_initialized (p_mechs p) then 0 else EIO).

(** the index in the set of the mechanism that is equal *)
Fixpoint equal_mech (mech_type : option bytes) (set : list bytes) : option nat :=
  match set with
  | [] => None
  | m :: set => if gss_oid_equal (Some m) mech_type then Some 0%nat
                else S <$> equal_mech mech_type set
  end.

Definition gpm_mech_to_static (mech_type : option bytes) : Gp W (Z * option nat) :=
  do! ret := gpmint_init_global_mechs in
  if negb (ret =? 0) then gret (ret, None) else
  do! p := getp in
  do! set := deref (gm_mech_set (p_mechs p)) in
  match equal_mech mech_type set with
  | Some i => gret (0, Some i)
  | None => gret (ENOENT, None)
  end.

(** ** What a process asks about mechanisms *)

Definition gpm_indicate_mechs (mech_set : bool) : Gp W (Z * Z * option (list bytes)) :=
  if negb mech_set then gret (GSS_S_CALL_INACCESSIBLE_WRITE, 0, None) else
  do! ret := gpmint_init_global_mechs in
  if negb (ret =? 0) then gret (GSS_S_FAILURE, ret, None) else
  do! p := getp in gpm_copy_gss_OID_set (gm_mech_set (p_mechs p)).

(** the first [info_len] elements, and the first of them for a mechanism *)
Definition infos (g : gpm_mechs) : list gpm_mech_info :=
  take (Z.to_nat (gm_info_len g)) (default [] (gm_info g)).
Definition descs (g : gpm_mechs) : list gpm_mech_attr :=
  take (Z.to_nat (gm_desc_len g)) (default [] (gm_desc g)).
Definition info_of (mech_type : option bytes) (l : list gpm_mech_info) : option gpm_mech_info :=
  snd <$> list_find (fun gi => gss_oid_equal (gi_mech gi) mech_type = true) l.

Definition gpm_inquire_names_for_mech (mech_type : option bytes) (mech_names : bool)
  : Gp W (Z * Z * option (list bytes)) :=
  if negb mech_names then gret (GSS_S_CALL_INACCESSIBLE_WRITE, 0, None) else
  do! ret := gpmint_init_global_mechs in
  if negb (ret =? 0) then gret (GSS_S_FAILURE, ret, None) else
  do! p := getp in
  match info_of mech_type (infos (p_mechs p)) with
  | Some gi => gpm_copy_gss_OID_set (gi_name_types gi)
  | None => gret (GSS_S_BAD_MECH, 0, None)
  end.

(** gss_test_oid_set_member refuses a null set with the calling error of RFC 2744 *)
Definition test_member (member : bytes) (set : option (list bytes)) : M W (Z * Z * bool) :=
  match set with
  | Some set => gss_test_oid_set_member member set
  | None => mret (GSS_S_CALL_INACCESSIBLE_READ, 0, false)
  end.

(** the major status of the last round of the loop is the one that counts, and a test that
    fails ends its round with it *)
Fixpoint mechs_for_name (name_type : bytes) (l : list gpm_mech_info) (maj min : Z) (set : list bytes)
  : M W (Z * Z * list bytes) :=
  match l with
  | [] => mret (maj, min, set)
  | gi :: l =>
      let* '(maj, min, present) := test_member name_type (gi_name_types gi) in
      if negb (maj =? 0) then mechs_for_name name_type l maj min set else
      if negb present then mechs_for_name name_type l maj min set else
      let* '(maj, min, set) := gss_add_oid_set_member (default [] (gi_mech gi)) set in
      if negb (maj =? 0) then mret (maj, min, set) else mechs_for_name name_type l maj min set
  end.

Definition gpm_inquire_mechs_for_name (input_name : option gssx_name) (mech_types : bool)
  : Gp W (Z * Z * option (list bytes)) :=
  match input_name with
  | None => gret (GSS_S_CALL_INACCESSIBLE_WRITE, 0, None)
  | Some name =>
      if negb mech_types then gret (GSS_S_CALL_INACCESSIBLE_WRITE, 0, None) else
      do! ret := gpmint_init_global_mechs in
      if negb (ret =? 0) then gret (GSS_S_FAILURE, ret, None) else
      do! p := getp in
      do! '(maj, min, set) := lib gss_create_empty_oid_set in
      if negb (maj =? 0) then gret (maj, min, None) else
      do! '(maj, min, set) := lib (mechs_for_name (gp_conv_gssx_to_oid (Some (name_name_type name)))
                                     (infos (p_mechs p)) maj min set) in
      gret (if negb (maj =? 0) then (maj, min, None) else (GSS_S_COMPLETE, 0, Some set))
  end.

(** the sets copied so far stay with the caller when the second copy fails *)
Definition gpm_inquire_attrs_for_mech (mech : option bytes) (mech_attrs known_mech_attrs : bool)
  : Gp W (Z * Z * (option (list bytes) * option (list bytes))) :=
  do! ret := gpmint_init_global_mechs in
  if negb (ret =? 0) then gret (GSS_S_FAILURE, ret, (None, None)) else
  do! p := getp in
  match info_of mech (infos (p_mechs p)) with
  | None => gret (GSS_S_BAD_MECH, 0, (None, None))
  | Some gi =>
      do! '(maj, min, attrs) := if mech_attrs then gpm_copy_gss_OID_set (gi_mech_attrs gi)
                                else gret (GSS_S_COMPLETE, 0, None) in
      if negb (maj =? 0) then gret (maj, min, (None, None)) else
      if negb known_mech_attrs then gret (GSS_S_COMPLETE, 0, (attrs, None)) else
      do! '(maj, min, known) := gpm_copy_gss_OID_set (gi_known_mech_attrs gi) in
      gret (maj, min, (attrs, known))
  end.

(** three buffers copied in turn; none is left when one cannot be *)
Definition copy_three (a b c : option bytes) : M W (Z * Z * option (bytes * bytes * bytes)) :=
  let* '(maj, min, x) := gpm_copy_gss_buffer a in
  if negb (maj =? 0) then mret (maj, min, None) else
  let* '(maj, min, y) := gpm_copy_gss_buffer b in
  if negb (maj =? 0) then mret (maj, min, None) else
  let* '(maj, min, z) := gpm_copy_gss_buffer c in
  mret (maj, min, if negb (maj =? 0) then None
                  else Some (default [] x, default [] y, default [] z)).

(** [outs]: none of the three out-pointers is null *)
Definition gpm_inquire_saslname_for_mech (desired_mech : option bytes) (outs : bool)
  : Gp W (Z * Z * option (bytes * bytes * bytes)) :=
  if negb outs then gret (GSS_S_CALL_INACCESSIBLE_WRITE, 0, None) else
  do! ret := gpmint_init_global_mechs in
  if negb (ret =? 0) then gret (GSS_S_FAILURE, ret, None) else
  do! p := getp in
  match info_of desired_mech (infos (p_mechs p)) with
  | Some gi => lib (copy_three (gi_saslname_sasl_mech_name gi) (gi_saslname_mech_name gi)
                      (gi_saslname_mech_desc gi))
  | None => gret (GSS_S_BAD_MECH, 0, None)
  end.

Definition gpm_display_mech_attr (mech_attr : option bytes) (outs : bool)
  : Gp W (Z * Z * option (bytes * bytes * bytes)) :=
  if negb outs then gret (GSS_S_CALL_INACCESSIBLE_WRITE, 0, None) else
  do! ret := gpmint_init_global_mechs in
  if negb (ret =? 0) then gret (GSS_S_FAILURE, ret, None) else
  do! p := getp in
  match snd <$> list_find (fun ga => gss_oid_equal (ga_attr ga) mech_attr = true) (descs (p_mechs p)) with
  | Some ga => lib (copy_three (ga_name ga) (ga_short_desc ga) (ga_long_desc ga))
  | None => gret (GSS_S_BAD_MECH, 0, None)
  end.

(** The loop over desired or critical attributes reaches its end; the major and minor status
    of its last test are kept. *)
Fixpoint all_present (attrs : list bytes) (set : option (list bytes)) (maj min : Z)
  : M W (bool * Z * Z) :=
  match attrs with
  | [] => mret (true, maj, min)
  | a :: attrs =>
      let* '(maj, min, present) := test_member a set in
      if negb (maj =? 0) then mret (false, maj, min) else
      if negb present then mret (false, maj, min) else all_present attrs set maj min
  end.

(** the loop over excepted attributes stops at one that is present *)
Fixpoint none_present (attrs : list bytes) (set : option (list bytes)) (maj min : Z)
  : M W (bool * Z * Z) :=
  match attrs with
  | [] => mret (true, maj, min)
  | a :: attrs =>
      let* '(maj, min, present) := test_member a set in
      if negb (maj =? 0) then none_present attrs set maj min else
      if present then mret (false, maj, min) else none_present attrs set maj min
  end.

(** a set that is null is not asked about *)
Definition ask (test : list bytes -> option (list bytes) -> Z -> Z -> M W (bool * Z * Z))
    (attrs set : option (list bytes)) (unasked : bool) (maj min : Z) : M W (bool * Z * Z) :=
  match attrs with
  | Some attrs => test attrs set maj min
  | None => mret (unasked, maj, min)
  end.

Fixpoint mechs_by_attrs (desired except critical : option (list bytes)) (l : list gpm_mech_info)
    (maj min : Z) (set : list bytes) : M W (Z * Z * list bytes) :=
  match l with
  | [] => mret (maj, min, set)
  | gi :: l =>
      let next maj min set := mechs_by_attrs desired except critical l maj min set in
      let* '(all, maj, min) := ask all_present desired (gi_mech_attrs gi) true maj min in
      if negb all then next maj min set else
      let* '(none, maj, min) := ask none_present except (gi_mech_attrs gi) false maj min in
      if none then next maj min set else
      let* '(known, maj, min) := ask all_present critical (gi_known_mech_attrs gi) true maj min in
      if negb known then next maj min set else
      let* '(maj, min, set) := gss_add_oid_set_member (default [] (gi_mech gi)) set in
      if negb (maj =? 0) then mret (maj, min, set) else next maj min set
  end.

Definition gpm_indicate_mechs_by_attrs (desired except critical : option (list bytes)) (mechs : bool)
  : Gp W (Z * Z * option (list bytes)) :=
  if negb mechs then gret (GSS_S_CALL_INACCESSIBLE_WRITE, 0, None) else
  do! ret := gpmint_init_global_mechs in
  if negb (ret =? 0) then gret (GSS_S_FAILURE, ret, None) else
  do! '(maj, min, set) := lib gss_create_empty_oid_set in
  if negb (maj =? 0) then gret (maj, min, None) else
  do! p := getp in
  do! '(maj, min, set) := lib (mechs_by_attrs desired except critical (infos (p_mechs p)) maj min set) in
  gret (if negb (maj =? 0) then (maj, min, None) else (GSS_S_COMPLETE, 0, Some set)).
End gpm.
