(* ===== verification/GpmLogic.v ===== *)
(** * A program logic for the client's procedures

    Weakest preconditions and invariants of the computations of Gpm.v, on top of those of
    ClientLogic.v.  [cr] is what is said of a run that crashed, [stop] of one that used up
    its fuel. *)

From S2P Require Import Prelude Xdr World Client ClientLogic Gpm.

Section logic.
Context {W : Type}.
Implicit Types (p : gpm_proc) (s : gpm_ctx * W).

Definition gwp {A} (stop cr : Prop) (m : Gp W A) (Q : A -> gpm_proc -> gpm_ctx * W -> Prop) p s : Prop :=
  wpc stop (m p) (fun r s' => match r with Some (a, p') => Q a p' s' | None => cr end) s.

Lemma gwp_ret {A} stop cr (a : A) Q p s : Q a p s -> gwp stop cr (gret a) Q p s.
Proof. done. Qed.

Lemma gwp_crash {A} stop (cr : Prop) (Q : A -> gpm_proc -> gpm_ctx * W -> Prop) p s :
  cr -> gwp stop cr crash Q p s.
Proof. done. Qed.

Lemma gwp_bind {A B} stop cr (m : Gp W A) (k : A -> Gp W B) Q p s :
  gwp stop cr m (fun a => gwp stop cr (k a) Q) p s -> gwp stop cr (gbind m k) Q p s.
Proof.
  intros H. unfold gwp, gbind. apply wpc_bind. eapply wpc_conseq; [exact H|].
  intros [[a p']|] s' H'; [exact H'|by apply wpc_ret].
Qed.

Lemma gwp_conseq {A} (stop cr : Prop) (m : Gp W A) (Q Q' : A -> gpm_proc -> gpm_ctx * W -> Prop) p s :
  gwp stop cr m Q p s -> (forall a p' s', Q a p' s' -> Q' a p' s') -> gwp stop cr m Q' p s.
Proof.
  intros H HQ. eapply wpc_conseq; [exact H|]. intros [[a p']|] s' H'; [by apply HQ|done].
Qed.

Lemma gwp_any {A} (m : Gp W A) (Q : A -> gpm_proc -> gpm_ctx * W -> Prop) p s :
  (forall a p' s', Q a p' s') -> gwp True True m Q p s.
Proof. intros HQ. apply wpc_any. intros [[a p']|] s'; [apply HQ|done]. Qed.

Lemma gwp_lift {A} stop cr (m : Cl W A) Q p s :
  wpc stop m (fun a s' => Q a p s') s -> gwp stop cr (lift m) Q p s.
Proof. intros H. apply wpc_bind. eapply wpc_conseq; [exact H|]. intros a s' H'. by apply wpc_ret. Qed.

Lemma gwp_lib {A} stop cr (m : M W A) Q p c (w : W) :
  wp m (fun a w' => Q a p (c, w')) w -> gwp stop cr (lib m) Q p (c, w).
Proof. intros H. by apply gwp_lift, wpc_call. Qed.

(** a library call of which nothing needs to be known *)
Lemma gwp_lib_any {A} stop cr (m : M W A) Q p c (w : W) :
  (forall a w', Q a p (c, w')) -> gwp stop cr (lib m) Q p (c, w).
Proof. intros H. apply gwp_lib, wp_any. intros a w'. apply H. Qed.

Lemma gwp_getp stop cr Q p s : Q p p s -> gwp stop cr getp Q p s.
Proof. done. Qed.

Lemma gwp_setp stop cr f Q p s : Q tt (f p) s -> gwp stop cr (setp f) Q p s.
Proof. done. Qed.

Lemma gwp_deref {A} stop (cr : Prop) (o : option A) Q p s :
  (o = None -> cr) -> (forall a, o = Some a -> Q a p s) -> gwp stop cr (deref o) Q p s.
Proof. destruct o; intros H1 H2; [by apply H2|by apply H1]. Qed.

(** a run that ended is one the precondition speaks about *)
Lemma gwp_run {A} stop cr (m : Gp W A) Q p s a p' s' :
  m p s = Some (Some (a, p'), s') -> gwp stop cr m Q p s -> Q a p' s'.
Proof. unfold gwp, wpc. by intros ->. Qed.

(** what a computation returned is known from its run *)
Lemma gwp_step {A B} (m : Gp W A) (k : A -> Gp W B) Q p s :
  (forall a p' s', m p s = Some (Some (a, p'), s') -> gwp True True (k a) Q p' s') ->
  gwp True True (gbind m k) Q p s.
Proof.
  intros H. unfold gwp, gbind. apply wpc_bind. unfold wpc at 1.
  destruct (m p s) as [[[[a p']|] s']|] eqn:E; [by apply (H a p' s')|done|done].
Qed.

(** ** Invariants *)

Definition gkeeps {A} (stop cr : Prop) (I : gpm_proc -> gpm_ctx * W -> Prop) (m : Gp W A) : Prop :=
  forall p s, I p s -> gwp stop cr m (fun _ => I) p s.

Context (stop cr : Prop) (I : gpm_proc -> gpm_ctx * W -> Prop).

Lemma gkeeps_ret {A} (a : A) : gkeeps stop cr I (gret a).
Proof. by intros p s. Qed.
Lemma gkeeps_crash {A} : cr -> gkeeps stop cr I (crash (A := A)).
Proof. by intros ? p s. Qed.
Lemma gkeeps_deref {A} (o : option A) : cr -> gkeeps stop cr I (deref o).
Proof. destruct o; [intros; apply gkeeps_ret|apply gkeeps_crash]. Qed.
Lemma gkeeps_bind {A B} (m : Gp W A) (k : A -> Gp W B) :
  gkeeps stop cr I m -> (forall a, gkeeps stop cr I (k a)) -> gkeeps stop cr I (gbind m k).
Proof.
  intros Hm Hk p s Hs. apply gwp_bind. eapply gwp_conseq; [by apply Hm|]. intros a p' s'. apply Hk.
Qed.
Lemma gwp_keeps {A B} (m : Gp W A) (k : A -> Gp W B) Q p s : gkeeps stop cr I m -> I p s ->
  (forall a p' s', I p' s' -> gwp stop cr (k a) Q p' s') -> gwp stop cr (gbind m k) Q p s.
Proof. intros Hm Hs Hk. apply gwp_bind. eapply gwp_conseq; [by apply Hm|apply Hk]. Qed.
Lemma gkeeps_if {A} (b : bool) (m m' : Gp W A) :
  gkeeps stop cr I m -> gkeeps stop cr I m' -> gkeeps stop cr I (if b then m else m').
Proof. by destruct b. Qed.
Lemma gkeeps_getp : gkeeps stop cr I getp.
Proof. by intros p s. Qed.
Lemma gkeeps_setp f : (forall p s, I p s -> I (f p) s) -> gkeeps stop cr I (setp f).
Proof. intros Hf p s. apply Hf. Qed.
Lemma gkeeps_lift {A} (m : Cl W A) : (forall p, keeps stop (I p) m) -> gkeeps stop cr I (lift m).
Proof. intros Hm p s Hs. by apply gwp_lift, Hm. Qed.
Lemma gkeeps_lib {A} (m : M W A) : (forall p, keeps stop (I p) (call m)) -> gkeeps stop cr I (lib m).
Proof. apply gkeeps_lift. Qed.
End logic.

Create HintDb gpm discriminated.
#[export] Hint Resolve gkeeps_ret gkeeps_crash gkeeps_deref gkeeps_getp Logic.I : gpm.

(** every branch of a procedure, down to the calls it makes *)
Ltac gkeep :=
  repeat first
    [ progress eauto 4 with gpm
    | apply gkeeps_bind; [|intros]
    | match goal with |- gkeeps _ _ _ (match ?x with _ => _ end) => destruct x end ].

(** ** A table of mechanisms that is there is not asked for again *)

Definition table_ready (p : gpm_proc) : Prop := p_once p = true /\ gm_initialized (p_mechs p) = true.

Lemma init_ready {XL : XdrLib} {W} {AL : Alloc W} {NET : NetLib W} {GL : GssLib W}
    name fuel stop cr Q p (s : gpm_ctx * W) :
  table_ready p -> Q 0 p s -> gwp stop cr (gpmint_init_global_mechs name fuel) Q p s.
Proof.
  intros [Ho Hi] HQ. unfold gpmint_init_global_mechs. apply gwp_bind, gwp_getp, gwp_bind. rewrite Ho.
  apply gwp_ret, gwp_bind, gwp_getp. rewrite Hi. by apply gwp_ret.
Qed.

(** ** Computations that only allocate *)

Section mem_only.
Context {W : Type} {AL : Alloc W}.

Definition mem_only {A} (m : M W A) : Prop :=
  forall R : W -> W -> Prop, Reflexive R -> Transitive R -> respects R malloc -> respects R m.

Lemma mem_only_ret {A} (a : A) : mem_only (mret a).
Proof. intros R HR _ _ w. apply HR. Qed.
Lemma mem_only_malloc : mem_only malloc.
Proof. intros R _ _ H. exact H. Qed.
Lemma mem_only_bind {A B} (m : M W A) (k : A -> M W B) :
  mem_only m -> (forall a, mem_only (k a)) -> mem_only (bind m k).
Proof.
  intros Hm Hk R HR HT Ha w. unfold bind. specialize (Hm R HR HT Ha w). destruct (m w) as [a w1].
  specialize (Hk a R HR HT Ha w1). by etrans.
Qed.
End mem_only.

#[export] Hint Resolve mem_only_ret mem_only_malloc : gpm.

Ltac mem_only :=
  repeat first
    [ progress eauto 4 with gpm
    | apply mem_only_bind; [|intros]
    | match goal with |- mem_only (match ?x with _ => _ end) => destruct x end ].
