(* ===== verification/GpmNames.v ===== *)
(** * The procedures of the client on names

    src/client/gpm_import_and_canon_name.c.  A function that fills in the display name of a
    name it is given returns the name as it leaves it.  No two name arguments are the same
    structure. *)

From S2P Require Import Prelude Xdr RpcXdr GssxXdr RpcProcess World Util Conv Creds Handlers Client Gpm.

Definition GSS_C_NT_HOSTBASED_SERVICE_X : bytes := map byte_of [43; 6; 1; 5; 6; 2].
Definition GSS_C_NT_HOSTBASED_SERVICE : bytes := map byte_of [42; 134; 72; 134; 247; 18; 1; 2; 1; 4].
Definition GSS_C_NT_ANONYMOUS : bytes := map byte_of [43; 6; 1; 5; 6; 3].
Definition GSS_C_NT_COMPOSITE_EXPORT : bytes := map byte_of [43; 6; 1; 5; 6; 6].
(** gss_nt_krb5_name is another name of GSS_KRB5_NT_PRINCIPAL_NAME *)
Definition static_name_types : list bytes :=
  [GSS_C_NT_USER_NAME; GSS_C_NT_MACHINE_UID_NAME; GSS_C_NT_STRING_UID_NAME;
   GSS_C_NT_HOSTBASED_SERVICE_X; GSS_C_NT_HOSTBASED_SERVICE; GSS_C_NT_ANONYMOUS;
   GSS_C_NT_EXPORT_NAME; GSS_C_NT_COMPOSITE_EXPORT; GSS_KRB5_NT_PRINCIPAL_NAME;
   GSS_KRB5_NT_PRINCIPAL_NAME].

Section names.
Context {XL : XdrLib} {W : Type} {AL : Alloc W} {NET : NetLib W} {GL : GssLib W} {SE : Strerror}.
Variable GP_SOCKET_NAME : string.
Variable fuel : nat.

Definition gpm_name_oid_to_static (name_type : option bytes) : Z * option bytes :=
  match list_find (fun b => gss_oid_equal name_type (Some b) = true) static_name_types with
  | Some (_, b) => (0, Some b)
  | None => (ENOENT, None)
  end.

Definition gpm_import_name (input_name_buffer input_name_type : option bytes) (output_name : bool)
  : M W (Z * Z * option gssx_name) :=
  match input_name_buffer, input_name_type with
  | Some buffer, Some type =>
      if negb output_name then mret (GSS_S_CALL_INACCESSIBLE_WRITE, 0, None) else
      let* ok := malloc in
      if negb ok then mret (GSS_S_FAILURE, ENOMEM, None) else
      let* '(ret, display) := gp_conv_buffer_to_gssx buffer in
      if negb (ret =? 0) then mret (GSS_S_FAILURE, ret, None) else
      let* '(ret, name_type) := gp_conv_oid_to_gssx (Some type) in
      if negb (ret =? 0) then mret (GSS_S_FAILURE, ret, None) else
      mret (GSS_S_COMPLETE, 0, Some (Mk_name display name_type [] [] [] []))
  | _, _ => mret (GSS_S_CALL_INACCESSIBLE_READ, 0, None)
  end.

Definition set_display (display name_type : bytes) (n : gssx_name) : gssx_name :=
  Mk_name display name_type (name_exported_name n) (name_exported_composite_name n)
    (name_name_attributes n) (name_extensions n).

(** the text, the type, and the name, which gets a display name when it had none *)
Definition gpm_display_name (in_name : option gssx_name) (output_name_buffer output_name_type : bool)
  : M W (Z * Z * (option bytes * option bytes * option gssx_name)) :=
  match in_name with
  | None => mret (GSS_S_CALL_INACCESSIBLE_READ, 0, (None, None, None))
  | Some name =>
      if negb output_name_buffer then mret (GSS_S_CALL_INACCESSIBLE_WRITE, 0, (None, None, in_name)) else
      if (len (name_display_name name) =? 0) && (len (name_exported_name name) =? 0)
      then mret (GSS_S_BAD_NAME, 0, (None, None, in_name)) else
      let* '(maj, min, shown) :=
        if len (name_display_name name) =? 0 then
          let* '(maj, min, output_name) := gpm_import_name
            (Some (gp_conv_gssx_to_buffer (name_exported_name name))) (Some GSS_C_NT_EXPORT_NAME) true in
          mret (maj, min, match output_name with
                          | Some o => set_display (name_display_name o) (name_name_type o) name
                          | None => name
                          end)
        else mret (GSS_S_COMPLETE, 0, name) in
      if negb (maj =? 0) then mret (maj, min, (None, None, Some shown)) else
      let* '(ret, (text, _)) := gp_copy_gssx_to_string_buffer (name_display_name shown) in
      if negb (ret =? 0) then mret (GSS_S_FAILURE, ret, (None, None, Some shown)) else
      if negb output_name_type then mret (GSS_S_COMPLETE, 0, (Some text, None, Some shown)) else
      let '(ret, type) := gpm_name_oid_to_static (Some (gp_conv_gssx_to_oid (Some (name_name_type shown)))) in
      mret (if negb (ret =? 0) then (GSS_S_FAILURE, ret, (None, None, Some shown))
            else (GSS_S_COMPLETE, 0, (Some text, type, Some shown)))
  end.

(** gpm_export_name and gpm_export_name_composite are the same function of two members *)
Definition export_member (member : gssx_name -> bytes) (input_name : option gssx_name)
  : M W (Z * Z * option bytes) :=
  match input_name with
  | None => mret (GSS_S_CALL_INACCESSIBLE_READ, 0, None)
  | Some name =>
      if len (member name) =? 0 then mret (GSS_S_NAME_NOT_MN, 0, None) else
      let* '(ret, exported) := gp_copy_gssx_to_buffer (member name) in
      mret (if negb (ret =? 0) then (GSS_S_FAILURE, ret, None)
            else (GSS_S_COMPLETE, 0, Some exported))
  end.
Definition gpm_export_name := export_member name_exported_name.
Definition gpm_export_name_composite := export_member name_exported_composite_name.

(** the minor status is only written on failure *)
Definition gpm_duplicate_name (input_name : gssx_name) : M W (Z * option Z * option gssx_name) :=
  let* '(ret, dest_name) := gp_copy_gssx_name_alloc input_name in
  mret (if negb (ret =? 0) then (GSS_S_FAILURE, Some ret, None)
        else (GSS_S_COMPLETE, None, dest_name)).

Definition zero_res_import_and_canon_name := Mk_res_import_and_canon_name zero_status None [].

(** what is stored through output_name: a name, or the value of the option *)
Definition gpm_int_canonicalize_name (input_name : option gssx_name) (mech_type : option bytes)
    (localname : bool) (output_name : bool) : Gp W (Z * Z * option (option gssx_name + bytes)) :=
  match input_name with
  | None => gret (GSS_S_CALL_INACCESSIBLE_READ, 0, None)
  | Some name =>
      if negb output_name then gret (GSS_S_CALL_INACCESSIBLE_WRITE, 0, None) else
      let failed ret := gret (GSS_S_FAILURE, ret, None) in
      do! '(ret, n) := lib (gp_copy_gssx_name name) in
      if negb (ret =? 0) then failed ret else
      do! '(ret, mech) := lib (gp_conv_oid_to_gssx mech_type) in
      if negb (ret =? 0) then failed ret else
      do! '(ret, options) := if localname then lib (gp_add_option [] (cstr LOCALNAME_OPTION) [])
                             else gret (0, []) in
      if negb (ret =? 0) then failed ret else
      do! '(ret, res) := make_call GP_SOCKET_NAME fuel GSSX_IMPORT_AND_CANON_NAME
        (arg_import_and_canon_name (Mk_arg_import_and_canon_name zero_call_ctx n mech [] options))
        (fun r => match r with res_import_and_canon_name r => Some r | _ => None end)
        zero_res_import_and_canon_name in
      if negb (ret =? 0) then failed ret else
      let status := res_import_and_canon_name_status res in
      let maj := u32 (status_major_status status) in
      let min := u32 (status_minor_status status) in
      if negb (status_major_status status =? 0) then
        do! _ := gpm_save_status status in gret (maj, min, None)
      else if negb localname then
        gret (maj, min, Some (inl (res_import_and_canon_name_output_name res)))
      else
      match find_option (res_import_and_canon_name_options res) LOCALNAME_OPTION with
      | None => failed ENOTSUP
      | Some val =>
          do! ok := lib malloc in
          if negb ok then failed ENOMEM else gret (maj, min, Some (inr (option_value val)))
      end
  end.

Definition gpm_canonicalize_name (input_name : option gssx_name) (mech_type : option bytes)
    (output_name : bool) : Gp W (Z * Z * option gssx_name) :=
  do! '(maj, min, out) := gpm_int_canonicalize_name input_name mech_type false output_name in
  gret (maj, min, match out with Some (inl name) => name | _ => None end).

Definition gpm_localname (input_name : option gssx_name) (mech_type : option bytes)
  : Gp W (Z * Z * option bytes) :=
  do! '(maj, min, out) := gpm_int_canonicalize_name input_name mech_type true true in
  if negb (maj =? 0) then gret (maj, min, None) else
  match out with
  | Some (inr value) => gret (GSS_S_COMPLETE, min, Some (gp_conv_gssx_to_buffer value))
  | _ => crash
  end.

(** the copies of the attributes' names; a failure is always reported as ENOMEM *)
Fixpoint attr_names (l : list gssx_name_attr) : M W (option (list bytes)) :=
  match l with
  | [] => mret (Some [])
  | a :: l =>
      let* '(ret, b) := gp_copy_gssx_to_buffer (name_attr_attr a) in
      if negb (ret =? 0) then mret None else
      let* r := attr_names l in mret (cons b <$> r)
  end.

Record inquired_name := InquiredName {
  in_is_MN : option Z; in_MN_mech : option bytes; in_attrs : option (option (list bytes)) }.

(** [attrs] is written without a test *)
Definition gpm_inquire_name (name : gssx_name) (name_is_MN MN_mech attrs : bool)
  : Gp W (Z * Z * inquired_name) :=
  let is_MN := if negb (len (name_exported_name name) =? 0) && name_is_MN then Some 1 else None in
  let '(ret, mech) := if MN_mech then gpm_name_oid_to_static (Some (gp_conv_gssx_to_oid (Some (name_name_type name))))
                      else (0, None) in
  if negb (ret =? 0) then gret (GSS_S_FAILURE, ret, InquiredName is_MN None None) else
  let failed := gret (GSS_S_FAILURE, ENOMEM, InquiredName is_MN mech None) in
  let filled xattrs := if attrs then gret (GSS_S_COMPLETE, 0, InquiredName is_MN mech (Some xattrs))
                       else crash in
  if len (name_name_attributes name) =? 0 then filled None else
  do! ok := lib malloc in
  if negb ok then failed else
  do! ok := lib malloc in
  if negb ok then failed else
  do! r := lib (attr_names (name_name_attributes name)) in
  match r with
  | None => failed
  | Some l => filled (Some l)
  end.

(** [c] is not zero when the lengths differ, when the texts differ, and when the types are
    equal; the int is the difference of two sizes cut to 32 bits *)
Definition gpm_compare_name (name1 name2 : option gssx_name)
  : M W (Z * Z * (Z * (option gssx_name * option gssx_name))) :=
  let* '(maj, min, (buf1, type1, name1)) := gpm_display_name name1 true true in
  if negb (maj =? 0) then mret (maj, min, (0, (name1, name2))) else
  let* '(maj, min, (buf2, type2, name2)) := gpm_display_name name2 true true in
  if negb (maj =? 0) then mret (maj, min, (0, (name1, name2))) else
  let c := if negb (s32 (len (default [] buf1) - len (default [] buf2)) =? 0) then true
           else if negb (bool_decide (buf1 = buf2)) then true
           else gss_oid_equal type1 type2 in
  mret (GSS_S_COMPLETE, 0, (if c then 1 else 0, (name1, name2))).
End names.
