(* ===== verification/GpmCreds.v ===== *)
(** * The procedures of the client on credentials and handles

    src/client/gpm_acquire_cred.c and src/client/gpm_release_handle.c. *)

From S2P Require Import Prelude Xdr RpcXdr GssxXdr RpcProcess World Util Conv Client Gpm GpmNames.

Section creds.
Context {XL : XdrLib} {W : Type} {AL : Alloc W} {NET : NetLib W} {GL : GssLib W} {SE : Strerror}.
Variable GP_SOCKET_NAME : string.
Variable fuel : nat.

(** copies that are made without a test of the length, until one fails *)
Definition gpmint_cred_to_actual_mechs (c : gssx_cred) : M W (Z * option (list bytes)) :=
  match cred_elements c with
  | [] => mret (0, None)
  | es =>
      let* ok := malloc in
      if negb ok then mret (ENOMEM, None) else
      let* ok := malloc in
      if negb ok then mret (ENOMEM, None) else
      let* r := memdup_all (map cred_element_mech es) in
      mret (match r with None => (ENOMEM, None) | Some l => (0, Some l) end)
  end.

Definition zero_res_acquire_cred := Mk_res_acquire_cred zero_status None [].

(** the set of mechanisms of a request; releasing one whose conversion failed half-way
    releases an array twice *)
Definition mechs_arg (desired : option (list bytes)) : Gp W (Z * list bytes) :=
  match desired with
  | None => gret (0, [])
  | Some l =>
      do! '(ret, out) := lib (gp_conv_oid_set_to_gssx l) in
      match out with
      | OidSet s => gret (ret, s)
      | Dangling true => crash
      | Dangling false => gret (ret, [])
      end
  end.

Record acquired := Acquired {
  aq_cred : option (option gssx_cred); aq_mechs : option (option (list bytes)); aq_time : option Z }.
Definition nothing_acquired : acquired := Acquired None None None.

(** the remaining lifetime that is reported: the smaller one of the first element *)
Definition first_time (c : gssx_cred) : Z :=
  match cred_elements c with
  | e :: _ => u32 (Z.min (cred_element_initiator_time_rec e) (cred_element_acceptor_time_rec e))
  | [] => 0
  end.

Definition gpm_acquire_cred (in_cred_handle : option gssx_cred) (desired_name : option gssx_name)
    (time_req : Z) (desired_mechs : option (list bytes)) (cred_usage : Z) (impersonate : bool)
    (output_cred_handle actual_mechs time_rec : bool) : Gp W (Z * Z * acquired) :=
  let failed ret := gret (GSS_S_FAILURE, ret, nothing_acquired) in
  if negb output_cred_handle then failed EINVAL else
  do! '(ret, mechs) := mechs_arg desired_mechs in
  if negb (ret =? 0) then failed ret else
  do! '(ret, options) :=
    if impersonate then lib (gp_add_option [] (cstr "acquire_type") (cstr "impersonate_name"))
    else gret (0, []) in
  if negb (ret =? 0) then failed ret else
  do! '(ret, res) := make_call GP_SOCKET_NAME fuel GSSX_ACQUIRE_CRED
    (arg_acquire_cred (Mk_arg_acquire_cred zero_call_ctx in_cred_handle false desired_name time_req
       mechs (gp_conv_cred_usage_to_gssx cred_usage) 0 0 options))
    (fun r => match r with res_acquire_cred r => Some r | _ => None end) zero_res_acquire_cred in
  if negb (ret =? 0) then failed ret else
  let status := res_acquire_cred_status res in
  if negb (status_major_status status =? 0) then
    do! _ := gpm_save_status status in
    gret (u32 (status_major_status status), u32 (status_minor_status status), nothing_acquired)
  else
  let output := res_acquire_cred_output_cred_handle res in
  do! '(ret, mechs) := if actual_mechs then do! c := deref output in lib (gpmint_cred_to_actual_mechs c)
                       else gret (0, None) in
  if negb (ret =? 0) then failed ret else
  do! time := if time_rec then do! c := deref output in gret (Some (first_time c)) else gret None in
  gret (GSS_S_COMPLETE, 0,
        Acquired (Some output) (if actual_mechs then Some mechs else None) time).

Record added := Added {
  ad_cred : option (option gssx_cred); ad_mechs : option (option (list bytes));
  ad_initiator : option Z; ad_acceptor : option Z }.
Definition nothing_added : added := Added None None None None.

(** The lifetime stored as the acceptor's is the initiator's.  The credential and the name
    of the caller are part of the argument when it is released. *)
Definition gpm_add_cred (input_cred_handle : option gssx_cred) (desired_name : option gssx_name)
    (desired_mech : option bytes) (cred_usage initiator_time_req acceptor_time_req : Z)
    (output_cred_handle actual_mechs initiator_time_rec acceptor_time_rec : bool)
  : Gp W (Z * Z * added) :=
  let failed ret := gret (GSS_S_FAILURE, ret, nothing_added) in
  do! '(ret, mechs) := mechs_arg (option_map (fun m => [m]) desired_mech) in
  if negb (ret =? 0) then failed ret else
  do! '(ret, res) := make_call GP_SOCKET_NAME fuel GSSX_ACQUIRE_CRED
    (arg_acquire_cred (Mk_arg_acquire_cred zero_call_ctx input_cred_handle output_cred_handle
       desired_name 0 mechs (gp_conv_cred_usage_to_gssx cred_usage) initiator_time_req
       acceptor_time_req []))
    (fun r => match r with res_acquire_cred r => Some r | _ => None end) zero_res_acquire_cred in
  if negb (ret =? 0) then failed ret else
  let status := res_acquire_cred_status res in
  if negb (status_major_status status =? 0) then
    do! _ := gpm_save_status status in
    gret (u32 (status_major_status status), u32 (status_minor_status status), nothing_added)
  else
  do! c := deref (res_acquire_cred_output_cred_handle res) in
  do! '(ret, mechs) := if actual_mechs then lib (gpmint_cred_to_actual_mechs c) else gret (0, None) in
  if negb (ret =? 0) then failed ret else
  let time := match cred_elements c with e :: _ => u32 (cred_element_initiator_time_rec e) | [] => 0 end in
  gret (GSS_S_COMPLETE, 0,
        Added (if output_cred_handle then Some (Some c) else None)
          (if actual_mechs then Some mechs else None)
          (if initiator_time_rec then Some time else None)
          (if acceptor_time_rec then Some time else None)).

(** ** Inquiries, which do not ask the daemon *)

(** the two switches over the usage of an element; [-1] is no usage yet *)
Definition join_usage (cu usage : Z) : Z :=
  if usage =? GSSX_C_INITIATE then
    if cu =? GSS_C_BOTH then cu else if cu =? GSS_C_ACCEPT then GSS_C_BOTH else GSS_C_INITIATE
  else if usage =? GSSX_C_ACCEPT then
    if cu =? GSS_C_BOTH then cu else if cu =? GSS_C_INITIATE then GSS_C_BOTH else GSS_C_ACCEPT
  else if usage =? GSSX_C_BOTH then GSS_C_BOTH
  else cu.

Definition less_time (life t : Z) : Z := if negb (t =? 0) && (t <? life) then t else life.

Definition join_life (life : Z) (e : gssx_cred_element) : Z :=
  let usage := cred_element_cred_usage e in
  if usage =? GSSX_C_INITIATE then less_time life (cred_element_initiator_time_rec e)
  else if usage =? GSSX_C_ACCEPT then less_time life (cred_element_acceptor_time_rec e)
  else if usage =? GSSX_C_BOTH then
    less_time (less_time life (cred_element_initiator_time_rec e)) (cred_element_acceptor_time_rec e)
  else life.

(** the loop over the elements; [mechs] is [None] when the mechanisms are not wanted *)
Fixpoint inquire_loop (es : list gssx_cred_element) (life cu min : Z) (mechs : option (list bytes))
  : M W (Z * Z * (Z * Z * option (list bytes))) :=
  match es with
  | [] => mret (GSS_S_COMPLETE, min, (life, cu, mechs))
  | e :: es =>
      let life := join_life life e in
      let cu := join_usage cu (cred_element_cred_usage e) in
      match mechs with
      | None => inquire_loop es life cu min None
      | Some set =>
          let* '(maj, min, set) :=
            gss_add_oid_set_member (gp_conv_gssx_to_oid (Some (cred_element_mech e))) set in
          if negb (maj =? 0) then mret (maj, min, (life, cu, None))
          else inquire_loop es life cu min (Some set)
      end
  end.

Record inquired_cred := InquiredCred {
  iq_name : option gssx_name; iq_lifetime : option Z; iq_usage : option Z;
  iq_mechs : option (list bytes) }.
Definition nothing_inquired : inquired_cred := InquiredCred None None None None.

(** the minor status is not written when the name cannot be copied *)
Definition gpm_inquire_cred (cred : option gssx_cred) (name lifetime cred_usage mechanisms : bool)
  : M W (Z * option Z * inquired_cred) :=
  match cred with
  | None => mret (GSS_S_CALL_INACCESSIBLE_READ, Some 0, nothing_inquired)
  | Some c =>
      if len (cred_elements c) =? 0 then mret (GSS_S_FAILURE, Some 0, nothing_inquired) else
      let* '(ret, dname) := if name then gp_copy_gssx_name_alloc (cred_desired_name c)
                            else mret (0, None) in
      if negb (ret =? 0) then mret (GSS_S_FAILURE, None, nothing_inquired) else
      let* '(maj, min, mechs) :=
        if mechanisms then
          let* '(maj, min, set) := gss_create_empty_oid_set in mret (maj, min, Some set)
        else mret (GSS_S_COMPLETE, 0, None) in
      if negb (maj =? 0) then mret (maj, Some min, nothing_inquired) else
      let* '(maj, min, (life, cu, mechs)) :=
        inquire_loop (cred_elements c) GSS_C_INDEFINITE (-1) min mechs in
      mret (if negb (maj =? 0) then (maj, Some min, nothing_inquired)
            else (GSS_S_COMPLETE, Some min,
                  InquiredCred (if name then dname else None) (if lifetime then Some life else None)
                    (if cred_usage then Some cu else None) mechs))
  end.

Record inquired_by_mech := InquiredByMech {
  im_name : option gssx_name; im_initiator : option Z; im_acceptor : option Z; im_usage : option Z }.

(** the first element of the mechanism; what does not belong to its usage is not written *)
Definition gpm_inquire_cred_by_mech (cred : option gssx_cred) (mech_type : option bytes)
    (name initiator_lifetime acceptor_lifetime cred_usage : bool) : M W (Z * Z * inquired_by_mech) :=
  let nothing := InquiredByMech None None None None in
  match cred with
  | None => mret (GSS_S_CALL_INACCESSIBLE_READ, 0, nothing)
  | Some c =>
      match list_find (fun e => gss_oid_equal (Some (gp_conv_gssx_to_oid (Some (cred_element_mech e))))
                                  mech_type = true) (cred_elements c) with
      | None => mret (GSS_S_FAILURE, 0, nothing)
      | Some (_, e) =>
          let u := cred_element_cred_usage e in
          let initiates := (u =? GSSX_C_INITIATE) || (u =? GSSX_C_BOTH) in
          let accepts := (u =? GSSX_C_ACCEPT) || (u =? GSSX_C_BOTH) in
          let out n := InquiredByMech n
            (if initiates && initiator_lifetime then Some (u32 (cred_element_initiator_time_rec e)) else None)
            (if accepts && acceptor_lifetime then Some (u32 (cred_element_acceptor_time_rec e)) else None)
            (if negb cred_usage then None else if u =? GSSX_C_BOTH then Some GSS_C_BOTH
             else if u =? GSSX_C_INITIATE then Some GSS_C_INITIATE
             else if u =? GSSX_C_ACCEPT then Some GSS_C_ACCEPT else None) in
          if negb name then mret (GSS_S_COMPLETE, 0, out None) else
          let* '(ret, dname) := gp_copy_gssx_name_alloc (cred_element_MN e) in
          mret (if negb (ret =? 0) then (GSS_S_FAILURE, ret, out None)
                else (GSS_S_COMPLETE, 0, out dname))
      end
  end.

(** ** Releasing handles *)

Definition zero_res_release_handle := Mk_res_release_handle zero_status.

(** the request both functions make; the status of a success is not stored *)
Definition release_handle (h : gssx_handle) : Gp W (Z * option Z) :=
  do! '(ret, res) := make_call GP_SOCKET_NAME fuel GSSX_RELEASE_HANDLE
    (arg_release_handle (Mk_arg_release_handle zero_call_ctx h))
    (fun r => match r with res_release_handle r => Some r | _ => None end) zero_res_release_handle in
  if negb (ret =? 0) then gret (GSS_S_FAILURE, Some ret) else
  let status := res_release_handle_status res in
  if negb (status_major_status status =? 0) then
    do! _ := gpm_save_status status in
    gret (u32 (status_major_status status), Some (u32 (status_minor_status status)))
  else gret (GSS_S_COMPLETE, None).

(** the handle is gone afterwards, whatever the daemon says *)
Definition gpm_release_cred (cred_handle : option gssx_cred) : Gp W (Z * option Z) :=
  match cred_handle with
  | None => gret (0, None)
  | Some r => if negb (cred_needs_release r) then gret (GSS_S_COMPLETE, None)
              else release_handle (HandleCred r)
  end.

Definition gpm_delete_sec_context (context_handle : option gssx_ctx) : Gp W (Z * option Z) :=
  match context_handle with
  | None => gret (0, None)
  | Some r => if negb (ctx_needs_release r) then gret (GSS_S_COMPLETE, None)
              else release_handle (HandleSecCtx r)
  end.
End creds.
