(* ===== verification/GpmContexts.v ===== *)
(** * The procedures of the client on security contexts

    src/client/gpm_init_sec_context.c, gpm_accept_sec_context.c, gpm_get_mic.c,
    gpm_verify_mic.c, gpm_wrap.c, gpm_unwrap.c, gpm_wrap_size_limit.c and
    gpm_inquire_context.c.  The context of the caller is returned as the procedure leaves it:
    [None] is a null context, whatever it was before having been released. *)

From S2P Require Import Prelude Xdr RpcXdr GssxXdr RpcProcess World Util Conv Client Gpm GpmNames.

Section contexts.
Context {XL : XdrLib} {W : Type} {AL : Alloc W} {NET : NetLib W} {GL : GssLib W} {SE : Strerror}.
Variable GP_SOCKET_NAME : string.
Variable fuel : nat.

Definition status_codes (s : gssx_status) : Z * Z :=
  (u32 (status_major_status s), u32 (status_minor_status s)).

(** ** Establishing a context *)

(** a credential that does not decode is ignored *)
Definition return_new_cred_handle (val : gssx_option) : M W (option gssx_cred) :=
  let* ok := malloc in
  mret (if ok then fst <$> xdec xdr_gssx_cred (option_value val) else None).

Definition zero_res_init_sec_context := Mk_res_init_sec_context zero_status None None [].

Record initiated := Initiated {
  is_context : option gssx_ctx; is_mech : option nat; is_token : option bytes;
  is_flags : option Z; is_time : option Z; is_cred : option gssx_cred }.

(** The end of gpm_init_sec_context: what is stored depends on the status, and the flags and
    the lifetime are read from the new context. *)
Definition init_done (maj min : Z) (ctx : option gssx_ctx) (mech : option nat) (outbuf : option bytes)
    (ret_flags time_rec : bool) (cred : option gssx_cred) : Gp W (Z * Z * initiated) :=
  if (maj =? GSS_S_COMPLETE) || (maj =? GSS_S_CONTINUE_NEEDED) then
    do! flags := if ret_flags then do! c := deref ctx in gret (Some (u32 (ctx_ctx_flags c))) else gret None in
    do! time := if time_rec then do! c := deref ctx in gret (Some (u32 (ctx_lifetime c))) else gret None in
    gret (maj, min, Initiated ctx mech outbuf flags time cred)
  else gret (maj, min, Initiated None mech None None None cred).

Definition gpm_init_sec_context (cred_handle : option gssx_cred) (context_handle : option gssx_ctx)
    (target_name : option gssx_name) (mech_type : option bytes) (req_flags time_req : Z)
    (input_cb : option channel_bindings) (input_token : option bytes)
    (actual_mech_type ret_flags time_rec out_cred_handle : bool) : Gp W (Z * Z * initiated) :=
  let failed ret mech := init_done GSS_S_FAILURE ret None mech None ret_flags time_rec in
  let reported ret mech cred := do! _ := gpm_save_internal_status ret (gp_strerror ret) in failed ret mech cred in
  do! '(_, options) := lib (gp_add_option [] (cstr "sync_modified_creds") (cstr "default")) in
  do! '(ret, mech) := lib (gp_conv_oid_to_gssx mech_type) in
  if negb (ret =? 0) then failed ret None None else
  do! '(ret, cb) := match input_cb with
                    | Some cb => lib (gp_conv_cb_to_gssx_alloc cb)
                    | None => gret (0, None)
                    end in
  if negb (ret =? 0) then failed ret None None else
  do! '(ret, token) := match input_token with
                       | Some t => lib (gp_conv_buffer_to_gssx_alloc t)
                       | None => gret (0, None)
                       end in
  if negb (ret =? 0) then failed ret None None else
  do! '(ret, res) := make_call GP_SOCKET_NAME fuel GSSX_INIT_SEC_CONTEXT
    (arg_init_sec_context (Mk_arg_init_sec_context zero_call_ctx context_handle cred_handle
       target_name mech req_flags time_req cb token options))
    (fun r => match r with res_init_sec_context r => Some r | _ => None end)
    zero_res_init_sec_context in
  if negb (ret =? 0) then reported ret None None else
  let status := res_init_sec_context_status res in
  do! '(ret, static) :=
    if actual_mech_type then gpm_mech_to_static GP_SOCKET_NAME fuel
                               (Some (gp_conv_gssx_to_oid (Some (status_mech status))))
    else gret (0, None) in
  if negb (ret =? 0) then reported ret None None else
  do! '(ret, outbuf) := match res_init_sec_context_output_token res with
                        | Some t => lib (gp_conv_gssx_to_buffer_alloc t)
                        | None => gret (0, None)
                        end in
  if negb (ret =? 0) then reported ret static None else
  do! cred := match (if out_cred_handle then find_option (res_init_sec_context_options res) "sync_creds"
                     else None) with
              | Some val => lib (return_new_cred_handle val)
              | None => gret None
              end in
  do! _ := gpm_save_status status in
  let '(maj, min) := status_codes status in
  init_done maj min (res_init_sec_context_context_handle res) static outbuf ret_flags time_rec cred.

Definition zero_res_accept_sec_context := Mk_res_accept_sec_context zero_status None None None [].

Record accepted := Accepted {
  as_context : option gssx_ctx; as_src_name : option gssx_name; as_mech : option nat;
  as_token : option bytes; as_flags : option Z; as_time : option Z; as_cred : option gssx_cred }.

(** A status of the daemon that is not zero, GSS_S_CONTINUE_NEEDED too, drops the context of
    the caller and whatever the reply holds; a failure on this side leaves it alone. *)
Definition gpm_accept_sec_context (context_handle : option gssx_ctx)
    (acceptor_cred_handle : option gssx_cred) (input_token_buffer : bytes)
    (input_chan_bindings : option channel_bindings)
    (src_name mech_type ret_flags time_rec delegated_cred_handle : bool) : Gp W (Z * Z * accepted) :=
  let failed ret mech := gret (GSS_S_FAILURE, ret, Accepted context_handle None mech None None None None) in
  do! '(ret, token) := lib (gp_conv_buffer_to_gssx input_token_buffer) in
  if negb (ret =? 0) then failed ret None else
  do! '(ret, cb) := match input_chan_bindings with
                    | Some cb => lib (gp_conv_cb_to_gssx_alloc cb)
                    | None => gret (0, None)
                    end in
  if negb (ret =? 0) then failed ret None else
  do! '(ret, res) := make_call GP_SOCKET_NAME fuel GSSX_ACCEPT_SEC_CONTEXT
    (arg_accept_sec_context (Mk_arg_accept_sec_context zero_call_ctx context_handle
       acceptor_cred_handle token cb delegated_cred_handle []))
    (fun r => match r with res_accept_sec_context r => Some r | _ => None end)
    zero_res_accept_sec_context in
  if negb (ret =? 0) then failed ret None else
  let status := res_accept_sec_context_status res in
  if negb (status_major_status status =? 0) then
    do! _ := gpm_save_status status in
    let '(maj, min) := status_codes status in
    gret (maj, min, Accepted None None None None None None None)
  else
  match res_accept_sec_context_context_handle res with
  | None => failed EINVAL None
  | Some c =>
      do! '(ret, name) := if src_name then lib (gp_copy_gssx_name_alloc (ctx_src_name c))
                          else gret (0, None) in
      if negb (ret =? 0) then failed ret None else
      do! t := deref (res_accept_sec_context_output_token res) in
      do! '(ret, outbuf) := lib (gp_conv_gssx_to_buffer_alloc t) in
      if negb (ret =? 0) then failed ret None else
      do! '(ret, static) :=
        if mech_type then gpm_mech_to_static GP_SOCKET_NAME fuel
                            (Some (gp_conv_gssx_to_oid (Some (status_mech status))))
        else gret (0, None) in
      if negb (ret =? 0) then failed ret None else
      gret (GSS_S_COMPLETE, 0,
            Accepted (Some c) name static outbuf
              (if ret_flags then Some (u32 (ctx_ctx_flags c)) else None)
              (if time_rec then Some (u32 (ctx_lifetime c)) else None)
              (if delegated_cred_handle then res_accept_sec_context_delegated_cred_handle res else None))
  end.

(** ** Messages

    The context of the reply, if there is one, replaces the one of the caller. *)

Definition steal_context (context_handle : gssx_ctx) (reply : option gssx_ctx) : gssx_ctx :=
  default context_handle reply.

Definition zero_res_get_mic := Mk_res_get_mic zero_status None [] None.

(** the statuses, the context, and the token *)
Definition gpm_get_mic (context_handle : option gssx_ctx) (qop_req : Z) (message_buffer : bytes)
  : Gp W (Z * option Z * (option gssx_ctx * option bytes)) :=
  match context_handle with
  | None => gret (GSS_S_CALL_INACCESSIBLE_READ, None, (None, None))
  | Some ctx =>
      do! '(ret, message) := lib (gp_conv_buffer_to_gssx message_buffer) in
      if negb (ret =? 0) then gret (GSS_S_FAILURE, Some ret, (Some ctx, None)) else
      do! '(ret, res) := make_call GP_SOCKET_NAME fuel GSSX_GET_MIC
        (arg_get_mic (Mk_arg_get_mic zero_call_ctx ctx qop_req message))
        (fun r => match r with res_get_mic r => Some r | _ => None end) zero_res_get_mic in
      let ctx := Some (steal_context ctx (res_get_mic_context_handle res)) in
      if negb (ret =? 0) then gret (GSS_S_FAILURE, Some ret, (ctx, None)) else
      let status := res_get_mic_status res in
      if negb (status_major_status status =? 0) then
        do! _ := gpm_save_status status in
        let '(maj, min) := status_codes status in gret (maj, Some min, (ctx, None))
      else
      do! '(ret, token) := lib (gp_copy_gssx_to_buffer (res_get_mic_token_buffer res)) in
      gret (if negb (ret =? 0) then (GSS_S_FAILURE, Some ret, (ctx, None))
            else (GSS_S_COMPLETE, Some 0, (ctx, Some token)))
  end.

Definition zero_res_verify_mic := Mk_res_verify_mic zero_status None None.

Definition gpm_verify_mic (context_handle : option gssx_ctx) (message_buffer message_token : bytes)
    (qop_state : bool) : Gp W (Z * option Z * (option gssx_ctx * option Z)) :=
  match context_handle with
  | None => gret (GSS_S_CALL_INACCESSIBLE_READ, None, (None, None))
  | Some ctx =>
      do! '(ret, message) := lib (gp_conv_buffer_to_gssx message_buffer) in
      if negb (ret =? 0) then gret (GSS_S_FAILURE, Some ret, (Some ctx, None)) else
      do! '(ret, token) := lib (gp_conv_buffer_to_gssx message_token) in
      if negb (ret =? 0) then gret (GSS_S_FAILURE, Some ret, (Some ctx, None)) else
      do! '(ret, res) := make_call GP_SOCKET_NAME fuel GSSX_VERIFY
        (arg_verify_mic (Mk_arg_verify_mic zero_call_ctx ctx message token))
        (fun r => match r with res_verify_mic r => Some r | _ => None end) zero_res_verify_mic in
      let ctx := Some (steal_context ctx (res_verify_mic_context_handle res)) in
      if negb (ret =? 0) then gret (GSS_S_FAILURE, Some ret, (ctx, None)) else
      let status := res_verify_mic_status res in
      if negb (status_major_status status =? 0) then
        do! _ := gpm_save_status status in
        let '(maj, min) := status_codes status in gret (maj, Some min, (ctx, None))
      else
      do! qop := if qop_state then do! q := deref (res_verify_mic_qop_state res) in gret (Some (u32 q))
                 else gret None in
      gret (GSS_S_COMPLETE, Some 0, (ctx, qop))
  end.

Definition zero_res_wrap := Mk_res_wrap zero_status None [] None None.

(** the confidentiality and the token; a reply without a token leaves the output buffer alone *)
Definition gpm_wrap (context_handle : option gssx_ctx) (conf_req_flag qop_req : Z)
    (input_message_buffer : bytes) (conf_state : bool)
  : Gp W (Z * option Z * (option gssx_ctx * option bool * option bytes)) :=
  match context_handle with
  | None => gret (GSS_S_CALL_INACCESSIBLE_READ, None, (None, None, None))
  | Some ctx =>
      do! '(ret, message) := lib (gp_conv_buffer_to_gssx input_message_buffer) in
      if negb (ret =? 0) then gret (GSS_S_FAILURE, Some ret, (Some ctx, None, None)) else
      do! ok := lib malloc in
      if negb ok then gret (GSS_S_FAILURE, Some ENOMEM, (Some ctx, None, None)) else
      do! '(ret, res) := make_call GP_SOCKET_NAME fuel GSSX_WRAP
        (arg_wrap (Mk_arg_wrap zero_call_ctx ctx (negb (conf_req_flag =? 0)) [message] qop_req))
        (fun r => match r with res_wrap r => Some r | _ => None end) zero_res_wrap in
      let ctx := Some (steal_context ctx (res_wrap_context_handle res)) in
      if negb (ret =? 0) then gret (GSS_S_FAILURE, Some ret, (ctx, None, None)) else
      let status := res_wrap_status res in
      if negb (status_major_status status =? 0) then
        do! _ := gpm_save_status status in
        let '(maj, min) := status_codes status in gret (maj, Some min, (ctx, None, None))
      else
      do! conf := if conf_state then do! c := deref (res_wrap_conf_state res) in gret (Some c)
                  else gret None in
      match res_wrap_token_buffer res with
      | [] => gret (GSS_S_COMPLETE, Some 0, (ctx, conf, None))
      | t :: _ =>
          do! '(ret, token) := lib (gp_copy_gssx_to_buffer t) in
          gret (if negb (ret =? 0) then (GSS_S_FAILURE, Some ret, (ctx, conf, None))
                else (GSS_S_COMPLETE, Some 0, (ctx, conf, Some token)))
      end
  end.

Definition zero_res_unwrap := Mk_res_unwrap zero_status None [] None None.

(** [qop_state] is what the out-pointer points to, which is sent *)
Definition gpm_unwrap (context_handle : option gssx_ctx) (input_message_buffer : bytes)
    (conf_state : bool) (qop_state : option Z)
  : Gp W (Z * option Z * (option gssx_ctx * option bool * option Z * option bytes)) :=
  match context_handle with
  | None => gret (GSS_S_CALL_INACCESSIBLE_READ, None, (None, None, None, None))
  | Some ctx =>
      do! '(ret, message) := lib (gp_conv_buffer_to_gssx input_message_buffer) in
      if negb (ret =? 0) then gret (GSS_S_FAILURE, Some ret, (Some ctx, None, None, None)) else
      do! ok := lib malloc in
      if negb ok then gret (GSS_S_FAILURE, Some ENOMEM, (Some ctx, None, None, None)) else
      do! '(ret, res) := make_call GP_SOCKET_NAME fuel GSSX_UNWRAP
        (arg_unwrap (Mk_arg_unwrap zero_call_ctx ctx [message] (default 0 qop_state)))
        (fun r => match r with res_unwrap r => Some r | _ => None end) zero_res_unwrap in
      let ctx := Some (steal_context ctx (res_unwrap_context_handle res)) in
      if negb (ret =? 0) then gret (GSS_S_FAILURE, Some ret, (ctx, None, None, None)) else
      let status := res_unwrap_status res in
      if negb (status_major_status status =? 0) then
        do! _ := gpm_save_status status in
        let '(maj, min) := status_codes status in gret (maj, Some min, (ctx, None, None, None))
      else
      do! conf := if conf_state then do! c := deref (res_unwrap_conf_state res) in gret (Some c)
                  else gret None in
      do! qop := match qop_state with
                 | Some _ => do! q := deref (res_unwrap_qop_state res) in gret (Some (u32 q))
                 | None => gret None
                 end in
      match res_unwrap_message_buffer res with
      | [] => gret (GSS_S_COMPLETE, Some 0, (ctx, conf, qop, None))
      | m :: _ =>
          do! '(ret, output) := lib (gp_copy_gssx_to_buffer m) in
          gret (if negb (ret =? 0) then (GSS_S_FAILURE, Some ret, (ctx, conf, qop, None))
                else (GSS_S_COMPLETE, Some 0, (ctx, conf, qop, Some output)))
      end
  end.

Definition zero_res_wrap_size_limit := Mk_res_wrap_size_limit zero_status 0.

Definition gpm_wrap_size_limit (context_handle : option gssx_ctx) (conf_req qop_req size_req : Z)
    (max_size : bool) : Gp W (Z * option Z * option Z) :=
  match context_handle with
  | None => gret (GSS_S_CALL_INACCESSIBLE_READ, None, None)
  | Some ctx =>
      do! '(ret, res) := make_call GP_SOCKET_NAME fuel GSSX_WRAP_SIZE_LIMIT
        (arg_wrap_size_limit (Mk_arg_wrap_size_limit zero_call_ctx ctx (negb (conf_req =? 0)) qop_req size_req))
        (fun r => match r with res_wrap_size_limit r => Some r | _ => None end)
        zero_res_wrap_size_limit in
      if negb (ret =? 0) then gret (GSS_S_FAILURE, Some ret, None) else
      let status := res_wrap_size_limit_status res in
      if negb (status_major_status status =? 0) then
        do! _ := gpm_save_status status in
        let '(maj, min) := status_codes status in gret (maj, Some min, None)
      else gret (GSS_S_COMPLETE, Some 0,
                 if max_size then Some (u32 (res_wrap_size_limit_max_input_size res)) else None)
  end.

(** ** Inquiry, which only asks the daemon for its mechanisms *)

Record inquired_context := InquiredContext {
  ic_src_name : option gssx_name; ic_targ_name : option gssx_name; ic_lifetime : option Z;
  ic_mech : option nat; ic_flags : option Z; ic_local : option Z; ic_open : option Z }.
Definition no_context : inquired_context := InquiredContext None None None None None None None.

Definition gpm_inquire_context (context_handle : option gssx_ctx)
    (src_name targ_name lifetime_rec mech_type ctx_flags locally_initiated open : bool)
  : Gp W (Z * Z * inquired_context) :=
  match context_handle with
  | None => gret (GSS_S_CALL_INACCESSIBLE_READ, 0, no_context)
  | Some c =>
      do! '(maj, min, src) := if src_name then lib (gpm_duplicate_name (ctx_src_name c))
                              else gret (GSS_S_COMPLETE, None, None) in
      if negb (maj =? 0) then gret (maj, default 0 min, no_context) else
      do! '(maj, min, targ) := if targ_name then lib (gpm_duplicate_name (ctx_targ_name c))
                               else gret (GSS_S_COMPLETE, None, None) in
      if negb (maj =? 0) then gret (maj, default 0 min, no_context) else
      let life := if lifetime_rec then Some (u32 (ctx_lifetime c)) else None in
      do! '(ret, mech) :=
        if mech_type then gpm_mech_to_static GP_SOCKET_NAME fuel
                            (Some (gp_conv_gssx_to_oid (Some (ctx_mech c))))
        else gret (0, None) in
      if negb (ret =? 0) then
        gret (GSS_S_FAILURE, ret, InquiredContext None None life None None None None)
      else
      gret (GSS_S_COMPLETE, 0,
            InquiredContext src targ life mech
              (if ctx_flags then Some (u32 (ctx_ctx_flags c)) else None)
              (if locally_initiated then Some (Z.b2z (ctx_locally_initiated c)) else None)
              (if open then Some (Z.b2z (ctx_open c)) else None))
  end.
End contexts.
