(* ===== verification/GpmRemote.v ===== *)
(** * What a procedure of the client gets from the daemon

    The theorems of this file put the two halves of the program together for the procedures
    on messages and contexts: when the reply on the wire is the one the dispatcher computes
    for the request the client sent, what the caller gets is what the procedure of the daemon
    returned for the caller's arguments. *)

From S2P Require Import Prelude Xdr RpcXdr GssxXdr RpcProcess RpcTable RpcReply World Util Conv.
From S2P Require Import Client ClientLogic ClientWire RemoteCall Gpm GpmLogic GpmContexts.

Section conv.
Context {W : Type} {AL : Alloc W}.

Lemma octet_string_mem v : mem_only (gp_conv_octet_string v).
Proof. unfold gp_conv_octet_string, gp_memdup. mem_only. Qed.
Lemma octet_string_alloc_mem v : mem_only (gp_conv_octet_string_alloc v).
Proof. pose proof octet_string_mem. unfold gp_conv_octet_string_alloc. mem_only. Qed.
Lemma conv_oid_mem o : mem_only (gp_conv_oid_to_gssx o).
Proof. pose proof octet_string_mem. destruct o; apply octet_string_mem. Qed.
Lemma conv_buffer_alloc_mem b : mem_only (gp_conv_gssx_to_buffer_alloc b).
Proof. unfold gp_conv_gssx_to_buffer_alloc, gp_memdup. mem_only. Qed.
Lemma copy_buffer_mem b : mem_only (gp_copy_gssx_to_buffer b).
Proof. unfold gp_copy_gssx_to_buffer, gp_memdup. mem_only. Qed.
Lemma add_option_mem o n v : mem_only (gp_add_option o n v).
Proof. unfold gp_add_option. mem_only. Qed.
Lemma conv_cb_mem cb : mem_only (gp_conv_cb_to_gssx_alloc cb).
Proof.
  pose proof octet_string_mem. unfold gp_conv_cb_to_gssx_alloc, gp_conv_cb_to_gssx, gp_conv_buffer_to_gssx.
  mem_only.
Qed.
Lemma copy_utf8_mem b : mem_only (gp_copy_utf8string b).
Proof. unfold gp_copy_utf8string, gp_memdup. mem_only. Qed.
Lemma copy_status_mem st : mem_only (gp_copy_gssx_status_alloc st).
Proof.
  pose proof octet_string_mem. pose proof copy_utf8_mem. unfold gp_copy_gssx_status_alloc, copy_if_any.
  mem_only.
Qed.
End conv.
#[export] Hint Resolve octet_string_mem octet_string_alloc_mem conv_oid_mem conv_buffer_alloc_mem
  copy_buffer_mem add_option_mem conv_cb_mem copy_utf8_mem copy_status_mem : gpm.
#[export] Hint Extern 1 (mem_only (gp_conv_buffer_to_gssx _)) => apply octet_string_mem : gpm.
#[export] Hint Extern 1 (mem_only (gp_conv_buffer_to_gssx_alloc _)) => apply octet_string_alloc_mem : gpm.

Section remote.
Context {XL : XdrLib} {LAWS : XdrLaws XL}.
Context {V : Type} {HD : RpcHandlers V} {TYPED : HandlersTyped V}.
Context {W : Type} {AL : Alloc W} {NET : NetLib W} {NW : NetWire W} {GL : GssLib W} {SE : Strerror}.
Variable GP_SOCKET_NAME : string.
Variable fuel : nat.

(** what is known of the connection before a call *)
Definition before (h : bytes * bytes) (z : Z) (s : gpm_ctx * W) : Prop :=
  at_hist h s /\ at_xid z s.

#[local] Instance wire_step_refl : Reflexive (wire_step (W := W)).
Proof. by intros w. Qed.
#[local] Instance wire_step_trans : Transitive (wire_step (W := W)).
Proof. unfold wire_step. intros w1 w2 w3 -> ->. done. Qed.

Lemma gkeeps_mem {A} I (m : M W A) : mem_only m ->
  (forall p c w w', wire_step w w' -> I p (c, w) -> I p (c, w')) -> gkeeps True True I (lib m).
Proof.
  intros Hm HI. apply gkeeps_lib. intros p. apply (keeps_respects _ _ wire_step).
  - apply Hm; try apply _. apply malloc_quiet.
  - apply HI.
Qed.

(** a step of a procedure that only allocates, with what is known of its result *)
Lemma gwp_mem {A B} (I : gpm_ctx * W -> Prop) (P : A -> Prop) (m : M W A) (k : A -> Gp W B) Q p s :
  mem_only m -> (forall c w w', wire_step w w' -> I (c, w) -> I (c, w')) ->
  (forall w, wp m (fun a _ => P a) w) -> I s ->
  (forall a s', P a -> I s' -> gwp True True (k a) Q p s') ->
  gwp True True (gbind (lib m) k) Q p s.
Proof.
  destruct s as [c w]. intros Hm HI HP Hs Hk. apply gwp_bind, gwp_lib. unfold wp in *.
  specialize (Hm wire_step _ _ malloc_quiet w). specialize (HP w). destruct (m w) as [a w'].
  apply Hk; [exact HP|]. by eapply HI.
Qed.

Lemma before_step h z c w w' : wire_step w w' -> before h z (c, w) -> before h z (c, w').
Proof. intros Hw [Hs Hx]. split; [by eapply at_hist_step|exact Hx]. Qed.

Lemma copy_buffer_cases b w :
  wp (gp_copy_gssx_to_buffer b) (fun r _ => r = (0, b) \/ r = (ENOMEM, [])) w.
Proof.
  unfold gp_copy_gssx_to_buffer. destruct (Z.eqb_spec (len b) 0) as [E|E].
  - apply wp_ret. left. by destruct b.
  - apply wp_bind. eapply wp_conseq; [apply memdup_cases|]. intros r w' [->| ->]; [by left|by right].
Qed.

(** one request of the procedure was answered with the result [r] *)
Definition served (p : Z) (arg : gp_rpc_arg) (h : bytes * bytes) (r : gp_rpc_res) (s : gpm_ctx * W) : Prop :=
  exists request reply, exchanged h request reply s /\
    forall v v', gp_rpc_process_call true v request = Some (0, reply, v') ->
      exists fs f, fn_set (W := V) p = Some fs /\ exec_fn fs = Some f /\ f v arg = (0, Some r, v').

Lemma served_step p arg h r c w w' : wire_step w w' -> served p arg h r (c, w) -> served p arg h r (c, w').
Proof.
  intros Hw (request & reply & (h0 & inp & ? & ? & ?) & Hf). exists request, reply. split; [|exact Hf].
  exists h0, inp. split_and!; try done. by eapply at_hist_step.
Qed.

Lemma make_call_served {R} num fs arg (out : gp_rpc_res -> option R) zero h z p s :
  GSSX_PROC_MIN <= num <= GSSX_PROC_MAX -> fn_set (W := V) num = Some fs -> xdom (arg_fn fs) arg ->
  in_s32 z -> before h z s ->
  gwp True True (make_call GP_SOCKET_NAME fuel num arg out zero) (fun '(ret, res) p' s' =>
    p' = p /\ (ret = 0 -> exists r, res = default zero (out r) /\ served num arg h r s')) p s.
Proof.
  intros Hp Hfs Ha Hz [Hs Hx]. apply gwp_bind, gwp_lift.
  eapply wpc_conseq; [apply (make_call_wire GP_SOCKET_NAME fuel num arg h z s Hs Hx)|].
  intros [ret res] s' H. apply gwp_ret. split; [done|]. simpl in H. intros E.
  destruct (H E) as (arg_fn' & res_fn' & request & reply & r & Hset & Hreq & Hex & Hdec & ->).
  exists r. split; [done|]. exists request, reply. split; [done|]. intros v v' Hproc.
  rewrite (client_table (V := V)) in Hset. unfold fn_set in Hfs. rewrite Hfs in Hset. injection Hset as <- <-.
  destruct (reply_decoded (xid_of z) num fs arg request v reply v' r) as (f & Hf & Hr); try done.
  { unfold xid_of, in_u32, in_s32 in *. destruct (Z.ltb_spec z 0); lia. }
  by exists fs, f.
Qed.

(** [f] of the daemon is what answered the call: when the reply on the wire is the one of the
    dispatcher, it is the one [f] computed for [a], and satisfies [P] *)
Definition answered {A R} (f : V -> A -> Z * option R * V) (a : A) (P : R -> Prop)
    (h : bytes * bytes) (s : gpm_ctx * W) : Prop :=
  exists request reply, exchanged h request reply s /\
    forall v v', gp_rpc_process_call true v request = Some (0, reply, v') ->
      exists r, f v a = (0, Some r, v') /\ P r.

Lemma answered_conseq {A R} (f : V -> A -> Z * option R * V) a (P P' : R -> Prop) h (s : gpm_ctx * W) :
  (forall r, P r -> P' r) -> answered f a P h s -> answered f a P' h s.
Proof.
  intros HP (request & reply & Hx & Hf). exists request, reply. split; [exact Hx|].
  intros v v' Hrun. destruct (Hf v v' Hrun) as (r & E & Hr). exists r. auto.
Qed.

Lemma served_answered {A R} num fs (out : gp_rpc_arg -> option A) (into : R -> gp_rpc_res) f arg a h r s
    (P : R -> Prop) :
  fn_set (W := V) num = Some fs -> exec_fn fs = Some (on_member out into f) -> out arg = Some a ->
  served num arg h r s -> (forall r', r = into r' -> P r') -> answered f a P h s.
Proof.
  intros Hfs Hex Ha (request & reply & Hw & Hf) HP. exists request, reply. split; [exact Hw|].
  intros v v' Hrun. destruct (Hf v v' Hrun) as (fs' & f' & Hfs' & Hex' & Hv).
  assert (fs' = fs) as -> by congruence. assert (f' = on_member out into f) as -> by congruence.
  unfold on_member in Hv. rewrite Ha in Hv. destruct (f v a) as [[ret [r'|]] v1]; simpl in Hv; [|done].
  injection Hv as -> <- ->. exists r'. split; [done|by apply HP].
Qed.

(** the start of a procedure, up to its call: every conversion succeeds or the procedure
    fails *)
Ltac converts lem :=
  eapply (gwp_mem (before _ _)); [by eauto with gpm|apply before_step|intros ?; apply lem|eassumption|];
  intros [? ?] ? [[= -> ->]|[= -> ->]] ?; cbn [Z.eqb negb]; [|by apply gwp_ret].

(** the call, and the status of its reply: what is left is the reply of a success *)
Ltac asks num fs :=
  apply gwp_bind; eapply gwp_conseq; [by eapply (make_call_served num fs)|];
  let ret := fresh "ret" in let res := fresh "res" in let Hr := fresh "Hr" in
  intros [ret res] ? ? [-> Hr];
  destruct (Z.eqb_spec ret 0) as [E|E]; cbn [negb]; [|by apply gwp_ret];
  destruct (Hr E) as (r & -> & Hv); clear Hr;
  match goal with |- context [status_major_status ?st =? 0] =>
    destruct (Z.eqb_spec (status_major_status st) 0) as [Es|Es]; cbn [negb];
    [|apply gwp_bind, gwp_any; intros _ ? ?; by apply gwp_ret] end.

(** a result copied for the caller *)
Ltac copies lem :=
  eapply (gwp_mem (served _ _ _ _)); [by eauto with gpm|apply served_step|intros ?; apply lem|eassumption|];
  intros [? ?] ? [[= -> ->]|[= -> ->]] ?; cbn [Z.eqb negb]; [|by apply gwp_ret].

Ltac served_by num fs :=
  eapply (served_answered num fs); [done|done| |eassumption|]; [reflexivity|]; intros ? ->;
  repeat match goal with H : status_major_status _ = 0 |- _ => simpl in H end; simpl; auto.

(** ** Messages *)

(** C13. A signature the caller got is the token gp_get_mic made for the caller's message, quality
    of protection and context, and the context the caller has is the one it sent back. *)
Theorem get_mic_remote ctx qop message p s min ctx' token p' s' :
  in_s32 (g_next_xid s.1) ->
  xdom xdr_gssx_arg_get_mic (Mk_arg_get_mic zero_call_ctx ctx qop (truncate32 message)) ->
  gpm_get_mic GP_SOCKET_NAME fuel (Some ctx) qop message p s =
    Some (Some ((GSS_S_COMPLETE, min, (ctx', Some token)), p'), s') ->
  answered (A := gssx_arg_get_mic) gp_get_mic (Mk_arg_get_mic zero_call_ctx ctx qop (truncate32 message))
    (fun r => status_major_status (res_get_mic_status r) = 0 /\
       token = res_get_mic_token_buffer r /\
       ctx' = Some (default ctx (res_get_mic_context_handle r))) (hist s) s'.
Proof.
  intros Hz Ha Hrun. set (h := hist s). set (arg := Mk_arg_get_mic _ _ _ _) in *.
  assert (Hb : before h (g_next_xid s.1) s) by done.
  refine (gwp_run _ _ _ (fun '(maj, _, (ctx', token)) _ s' => forall t, maj = GSS_S_COMPLETE ->
    token = Some t -> answered gp_get_mic arg (fun r => status_major_status (res_get_mic_status r) = 0 /\
       t = res_get_mic_token_buffer r /\
       ctx' = Some (default ctx (res_get_mic_context_handle r))) h s') _ _ _ _ _ Hrun _ _ eq_refl eq_refl).
  cbn [gpm_get_mic]. converts @octet_string_cases. asks GSSX_GET_MIC set_get_mic.
  copies @copy_buffer_cases. apply gwp_ret. intros t _ [= <-]. simpl. served_by GSSX_GET_MIC set_get_mic.
Qed.

(** A signature the caller was told is good, with its quality of protection, is one
    gp_verify_mic found good. *)
Theorem verify_mic_remote ctx message token p s min ctx' qop p' s' :
  in_s32 (g_next_xid s.1) ->
  xdom xdr_gssx_arg_verify_mic
    (Mk_arg_verify_mic zero_call_ctx ctx (truncate32 message) (truncate32 token)) ->
  gpm_verify_mic GP_SOCKET_NAME fuel (Some ctx) message token true p s =
    Some (Some ((GSS_S_COMPLETE, min, (ctx', Some qop)), p'), s') ->
  answered (A := gssx_arg_verify_mic) gp_verify_mic
    (Mk_arg_verify_mic zero_call_ctx ctx (truncate32 message) (truncate32 token))
    (fun r => status_major_status (res_verify_mic_status r) = 0 /\
       u32 <$> res_verify_mic_qop_state r = Some qop /\
       ctx' = Some (default ctx (res_verify_mic_context_handle r))) (hist s) s'.
Proof.
  intros Hz Ha Hrun. set (h := hist s). set (arg := Mk_arg_verify_mic _ _ _ _) in *.
  assert (Hb : before h (g_next_xid s.1) s) by done.
  refine (gwp_run _ _ _ (fun '(maj, _, (ctx', qop)) _ s' => forall q, maj = GSS_S_COMPLETE -> qop = Some q ->
    answered gp_verify_mic arg (fun r => status_major_status (res_verify_mic_status r) = 0 /\
       u32 <$> res_verify_mic_qop_state r = Some q /\
       ctx' = Some (default ctx (res_verify_mic_context_handle r))) h s') _ _ _ _ _ Hrun _ _ eq_refl eq_refl).
  cbn [gpm_verify_mic]. converts @octet_string_cases. converts @octet_string_cases.
  asks GSSX_VERIFY set_verify_mic. apply gwp_bind, gwp_bind, gwp_deref; [done|]. intros q Hq.
  do 2 apply gwp_ret. intros ? _ [= <-]. served_by GSSX_VERIFY set_verify_mic. split; [|split]; auto.
  simpl in Hq. by rewrite Hq.
Qed.

(** A wrapped message the caller got is the first token gp_wrap made for the caller's message. *)
Theorem wrap_remote ctx conf qop message want p s min ctx' cs token p' s' :
  in_s32 (g_next_xid s.1) ->
  xdom xdr_gssx_arg_wrap
    (Mk_arg_wrap zero_call_ctx ctx (negb (conf =? 0)) [truncate32 message] qop) ->
  gpm_wrap GP_SOCKET_NAME fuel (Some ctx) conf qop message want p s =
    Some (Some ((GSS_S_COMPLETE, min, (ctx', cs, Some token)), p'), s') ->
  answered (A := gssx_arg_wrap) gp_wrap
    (Mk_arg_wrap zero_call_ctx ctx (negb (conf =? 0)) [truncate32 message] qop)
    (fun r => status_major_status (res_wrap_status r) = 0 /\
       head (res_wrap_token_buffer r) = Some token /\
       (want = true -> cs = res_wrap_conf_state r) /\
       ctx' = Some (default ctx (res_wrap_context_handle r))) (hist s) s'.
Proof.
  intros Hz Ha Hrun. set (h := hist s). set (arg := Mk_arg_wrap _ _ _ _ _) in *.
  assert (Hb : before h (g_next_xid s.1) s) by done.
  refine (gwp_run _ _ _ (fun '(maj, _, (ctx', cs, token)) _ s' => forall t, maj = GSS_S_COMPLETE ->
    token = Some t -> answered gp_wrap arg (fun r => status_major_status (res_wrap_status r) = 0 /\
       head (res_wrap_token_buffer r) = Some t /\
       (want = true -> cs = res_wrap_conf_state r) /\
       ctx' = Some (default ctx (res_wrap_context_handle r))) h s') _ _ _ _ _ Hrun _ _ eq_refl eq_refl).
  cbn [gpm_wrap]. converts @octet_string_cases.
  eapply (gwp_mem (before h (g_next_xid s.1)) (fun _ => True)); [by eauto with gpm|apply before_step|
    intros ?; by apply wp_any|eassumption|]. intros [] ? _ ?; cbn [negb]; [|by apply gwp_ret].
  asks GSSX_WRAP set_wrap. apply gwp_bind.
  eapply (gwp_conseq _ _ _ (fun cs p' s' => (want = true -> cs = res_wrap_conf_state _) /\
    served GSSX_WRAP (arg_wrap arg) h r s')).
  { destruct want; [|by apply gwp_ret]. apply gwp_bind, gwp_deref; [done|]. intros c Hc.
    apply gwp_ret. split; [|exact Hv]. intros _. symmetry. exact Hc. }
  clear Hv. intros cs' p3 s3 [Hcs Hv].
  destruct (res_wrap_token_buffer _) as [|t l] eqn:Et; [by apply gwp_ret|].
  copies @copy_buffer_cases. apply gwp_ret. intros ? _ [= <-]. served_by GSSX_WRAP set_wrap.
  simpl in *. rewrite Et. auto.
Qed.

(** A message the caller got is the first one gp_unwrap took out of the caller's token. *)
Theorem unwrap_remote ctx wrapped want qop p s min ctx' cs qs message p' s' :
  in_s32 (g_next_xid s.1) ->
  xdom xdr_gssx_arg_unwrap (Mk_arg_unwrap zero_call_ctx ctx [truncate32 wrapped] (default 0 qop)) ->
  gpm_unwrap GP_SOCKET_NAME fuel (Some ctx) wrapped want qop p s =
    Some (Some ((GSS_S_COMPLETE, min, (ctx', cs, qs, Some message)), p'), s') ->
  answered (A := gssx_arg_unwrap) gp_unwrap
    (Mk_arg_unwrap zero_call_ctx ctx [truncate32 wrapped] (default 0 qop))
    (fun r => status_major_status (res_unwrap_status r) = 0 /\
       head (res_unwrap_message_buffer r) = Some message /\
       ctx' = Some (default ctx (res_unwrap_context_handle r))) (hist s) s'.
Proof.
  intros Hz Ha Hrun. set (h := hist s). set (arg := Mk_arg_unwrap _ _ _ _) in *.
  assert (Hb : before h (g_next_xid s.1) s) by done.
  refine (gwp_run _ _ _ (fun '(maj, _, (ctx', _, _, message)) _ s' => forall m, maj = GSS_S_COMPLETE ->
    message = Some m -> answered gp_unwrap arg (fun r => status_major_status (res_unwrap_status r) = 0 /\
       head (res_unwrap_message_buffer r) = Some m /\
       ctx' = Some (default ctx (res_unwrap_context_handle r))) h s') _ _ _ _ _ Hrun _ _ eq_refl eq_refl).
  cbn [gpm_unwrap]. converts @octet_string_cases.
  eapply (gwp_mem (before h (g_next_xid s.1)) (fun _ => True)); [by eauto with gpm|apply before_step|
    intros ?; by apply wp_any|eassumption|]. intros [] ? _ ?; cbn [negb]; [|by apply gwp_ret].
  asks GSSX_UNWRAP set_unwrap.
  do 2 (eapply (gwp_keeps _ _ (fun _ => served GSSX_UNWRAP (arg_unwrap arg) h r)); [gkeep|exact Hv|];
    clear Hv; intros ? ? ? Hv).
  destruct (res_unwrap_message_buffer _) as [|t l] eqn:Et; [by apply gwp_ret|].
  copies @copy_buffer_cases. apply gwp_ret. intros ? _ [= <-]. served_by GSSX_UNWRAP set_unwrap.
  simpl in *. rewrite Et. auto.
Qed.

(** ** Contexts *)

(** the search in a table that is there leaves everything as it is *)
Lemma static_ready (I : gpm_ctx * W -> Prop) (o : option bytes) p s :
  table_ready p -> I s -> gwp True True (gpm_mech_to_static GP_SOCKET_NAME fuel o) (fun _ _ s' => I s') p s.
Proof.
  intros Hp Hs. apply gwp_bind, init_ready; [done|]. simpl.
  apply gwp_bind, gwp_getp, gwp_bind, gwp_deref; [done|]. intros set _.
  by destruct (equal_mech o set); apply gwp_ret.
Qed.

Lemma save_status_keeps I st : (forall p f s, I p s -> I (f p) s) ->
  (forall p c w w', wire_step w w' -> I p (c, w) -> I p (c, w')) ->
  gkeeps True True I (gpm_save_status (W := W) st).
Proof.
  intros Hp Hw. unfold gpm_save_status. apply gkeeps_bind; [apply gkeeps_setp; auto|intros _].
  apply gkeeps_bind; [apply gkeeps_mem; [by eauto with gpm|exact Hw]|]. intros [ret st'].
  destruct (ret =? 0); [apply gkeeps_setp; auto|apply gkeeps_ret].
Qed.

Lemma string_alloc_cases v w : wp (gp_conv_octet_string_alloc v) (fun r _ =>
  r = (0, Some (truncate32 v)) \/ r = (ENOMEM, None)) w.
Proof.
  unfold gp_conv_octet_string_alloc. apply wp_bind, wp_any. intros [] w1; simpl; [|by right].
  apply wp_bind. eapply wp_conseq; [apply octet_string_cases|]. intros r w2 [->| ->]; [by left|by right].
Qed.

(** what is sent of channel bindings *)
Definition cb_to_gssx (cb : channel_bindings) : gssx_cb :=
  Mk_cb (cbi_addrtype cb) (truncate32 (cbi_address cb)) (cba_addrtype cb)
    (truncate32 (cba_address cb)) (truncate32 (cb_data cb)).

Lemma conv_cb_cases cb w : wp (gp_conv_cb_to_gssx_alloc cb) (fun r _ =>
  r = (0, Some (cb_to_gssx cb)) \/ r = (ENOMEM, None)) w.
Proof.
  unfold gp_conv_cb_to_gssx_alloc, gp_conv_cb_to_gssx, gp_conv_buffer_to_gssx.
  apply wp_bind, wp_any. intros [] w1; simpl; [|by right].
  apply wp_bind, wp_bind. eapply wp_conseq; [apply octet_string_cases|].
  intros r w2 [->| ->]; [|apply wp_ret; by right].
  apply wp_bind. eapply wp_conseq; [apply octet_string_cases|].
  intros r w3 [->| ->]; [|apply wp_ret; by right].
  apply wp_bind. eapply wp_conseq; [apply octet_string_cases|].
  intros r w4 [->| ->]; [by left|apply wp_ret; by right].
Qed.

Lemma conv_buffer_alloc_cases b w : wp (gp_conv_gssx_to_buffer_alloc b) (fun r _ =>
  (r.1 = 0 /\ default [] r.2 = b) \/ r = (ENOMEM, None)) w.
Proof.
  unfold gp_conv_gssx_to_buffer_alloc. destruct (Z.eqb_spec (len b) 0) as [E|E].
  { apply wp_ret. left. by destruct b. }
  apply wp_bind, wp_any. intros [] w1; simpl; [|by right].
  apply wp_bind. eapply wp_conseq; [apply memdup_cases|]. intros r w2 [->| ->]; [by left|by right].
Qed.

(** an optional argument, converted when it is there *)
Lemma gwp_opt {X Y B} (I : gpm_ctx * W -> Prop) (f : X -> Y) (m : X -> M W (Z * option Y)) o
    (k : Z * option Y -> Gp W B) Q p s :
  (forall x, mem_only (m x)) -> (forall c w w', wire_step w w' -> I (c, w) -> I (c, w')) ->
  (forall x w, wp (m x) (fun r _ => r = (0, Some (f x)) \/ r = (ENOMEM, None)) w) -> I s ->
  (forall s', I s' -> gwp True True (k (0, f <$> o)) Q p s') ->
  (forall s', gwp True True (k (ENOMEM, None)) Q p s') ->
  gwp True True (gbind (match o with Some x => lib (m x) | None => gret (0, None) end) k) Q p s.
Proof.
  intros Hm HI Hc Hs Hk Hf. destruct o as [x|]; [|by apply gwp_bind, gwp_ret, Hk].
  eapply gwp_mem; [apply Hm|exact HI|apply Hc|exact Hs|]. intros r s' [->| ->] H'; [by apply Hk|by apply Hf].
Qed.

Definition sync_option : gssx_option :=
  Mk_option (truncate32 (cstr "sync_modified_creds")) (truncate32 (cstr "default")).

Section init.
Variables (cred : option gssx_cred) (ctx : option gssx_ctx) (target : option gssx_name).
Variables (mech : option bytes) (flags time : Z) (cb : option channel_bindings) (token : option bytes).
Variables (want_mech want_flags want_time want_cred : bool).

(** the request: its option is left out when there is no memory for it *)
Definition init_arg (options : list gssx_option) : gssx_arg_init_sec_context :=
  Mk_arg_init_sec_context zero_call_ctx ctx cred target (truncate32 (default [] mech)) flags time
    (cb_to_gssx <$> cb) (truncate32 <$> token) options.

(** what the caller is given of a result of a step that was taken *)
Definition init_out (maj : Z) (out : initiated) (r : gssx_res_init_sec_context) : Prop :=
  u32 (status_major_status (res_init_sec_context_status r)) = maj /\
  is_context out = res_init_sec_context_context_handle r /\
  default [] (is_token out) = default [] (res_init_sec_context_output_token r) /\
  (want_flags = true ->
     is_flags out = (fun c => u32 (ctx_ctx_flags c)) <$> res_init_sec_context_context_handle r) /\
  (want_time = true ->
     is_time out = (fun c => u32 (ctx_lifetime c)) <$> res_init_sec_context_context_handle r).

Definition established (maj : Z) : Prop := maj = GSS_S_COMPLETE \/ maj = GSS_S_CONTINUE_NEEDED.
#[local] Instance established_dec maj : Decision (established maj).
Proof. unfold established. apply _. Defined.

(** nothing of a context: a null handle, no token, no flags and no lifetime *)
Definition no_context (out : initiated) : Prop :=
  is_context out = None /\ is_token out = None /\ is_flags out = None /\ is_time out = None.

(** what the caller is given of a result: both of its codes, and the step when one was taken *)
Definition init_result (maj min : Z) (out : initiated) (r : gssx_res_init_sec_context) : Prop :=
  u32 (status_major_status (res_init_sec_context_status r)) = maj /\
  u32 (status_minor_status (res_init_sec_context_status r)) = min /\
  if decide (established maj) then init_out maj out r else no_context out.

(** the errors of the procedure itself: no memory, the error of its call, with the caller's
    arguments, or the one of the search for the mechanism of the reply *)
Inductive own_error (h : bytes * bytes) (z : Z) : Z -> Prop :=
| error_memory : own_error h z ENOMEM
| error_call options p s min res p' s' : before h z s -> options = [] \/ options = [sync_option] ->
    make_call GP_SOCKET_NAME fuel GSSX_INIT_SEC_CONTEXT (arg_init_sec_context (init_arg options))
      (fun r => match r with res_init_sec_context r => Some r | _ => None end)
      zero_res_init_sec_context p s = Some (Some ((min, res), p'), s') -> min <> 0 -> own_error h z min
| error_mech o p s min i p' s' : gpm_mech_to_static GP_SOCKET_NAME fuel o p s = Some (Some ((min, i), p'), s') ->
    min <> 0 -> own_error h z min.

(** what the caller can get: a failure of the procedure itself, or an answer of the daemon *)
Definition init_outcome (h : bytes * bytes) (z : Z) (r : Z * Z * initiated) (_ : gpm_proc) (s' : gpm_ctx * W) : Prop :=
  let '(maj, min, out) := r in
  (maj = GSS_S_FAILURE /\ own_error h z min /\ no_context out) \/
  exists options, (options = [] \/ options = [sync_option]) /\
    answered gp_init_sec_context (init_arg options) (init_result maj min out) h s'.

Lemma init_done_out I maj min ctx' static outbuf cred' p s : I s ->
  gwp (W := W) True True (init_done maj min ctx' static outbuf want_flags want_time cred')
    (fun '(maj', min', out) p' s' => maj' = maj /\ min' = min /\ I s' /\
       if decide (established maj) then is_context out = ctx' /\ is_token out = outbuf /\
         (want_flags = true -> is_flags out = (fun c => u32 (ctx_ctx_flags c)) <$> ctx') /\
         (want_time = true -> is_time out = (fun c => u32 (ctx_lifetime c)) <$> ctx')
       else no_context out) p s.
Proof.
  intros Hs. unfold init_done.
  assert (Hest : established maj <-> (maj =? GSS_S_COMPLETE) || (maj =? GSS_S_CONTINUE_NEEDED) = true)
    by (by rewrite orb_true_iff, !Z.eqb_eq).
  destruct (decide (established maj)) as [He|Hne], (_ || _); try by (exfalso; naive_solver).
  2: by apply gwp_ret.
  apply gwp_bind. eapply (gwp_conseq _ _ _ (fun f p' s' => I s' /\
    (want_flags = true -> f = (fun c => u32 (ctx_ctx_flags c)) <$> ctx'))).
  { destruct want_flags; [|by apply gwp_ret].
    apply gwp_bind, gwp_deref; [done|]. intros c ->. by apply gwp_ret. }
  intros f p1 s1 [Hs1 Hf]. apply gwp_bind. eapply (gwp_conseq _ _ _ (fun t p' s' => I s' /\
    (want_time = true -> t = (fun c => u32 (ctx_lifetime c)) <$> ctx'))).
  { destruct want_time; [|by apply gwp_ret].
    apply gwp_bind, gwp_deref; [done|]. intros c ->. by apply gwp_ret. }
  intros t p2 s2 [Hs2 Ht]. by apply gwp_ret.
Qed.

(** the failures of the procedure itself *)
Lemma init_failed h z ret static cred' p s : own_error h z ret ->
  gwp (W := W) True True (init_done GSS_S_FAILURE ret None static None want_flags want_time cred')
    (init_outcome h z) p s.
Proof. intros He. apply gwp_ret. by left. Qed.

Lemma init_reported h z ret static cred' p s : own_error h z ret ->
  gwp (W := W) True True (do! _ := gpm_save_internal_status ret (gp_strerror ret) in
      init_done GSS_S_FAILURE ret None static None want_flags want_time cred') (init_outcome h z) p s.
Proof. intros He. apply gwp_bind, gwp_any. intros _ p1 s1. by apply init_failed. Qed.

(** The part of the procedure after its call. *)
Lemma init_after_call options h z p s r : options = [] \/ options = [sync_option] ->
  want_mech = false \/ table_ready p ->
  served GSSX_INIT_SEC_CONTEXT (arg_init_sec_context (init_arg options)) h r s ->
  let res := default zero_res_init_sec_context (match r with res_init_sec_context r => Some r | _ => None end) in
  gwp True True
    (do! '(ret, static) :=
       if want_mech then gpm_mech_to_static GP_SOCKET_NAME fuel
                           (Some (gp_conv_gssx_to_oid (Some (status_mech (res_init_sec_context_status res)))))
       else gret (0, None) in
     if negb (ret =? 0) then
       do! _ := gpm_save_internal_status ret (gp_strerror ret) in
       init_done GSS_S_FAILURE ret None None None want_flags want_time None
     else
     do! '(ret, outbuf) := match res_init_sec_context_output_token res with
                           | Some t => lib (gp_conv_gssx_to_buffer_alloc t)
                           | None => gret (0, None)
                           end in
     if negb (ret =? 0) then
       do! _ := gpm_save_internal_status ret (gp_strerror ret) in
       init_done GSS_S_FAILURE ret None static None want_flags want_time None
     else
     do! cred := match (if want_cred then find_option (res_init_sec_context_options res) "sync_creds"
                        else None) with
                 | Some val => lib (return_new_cred_handle val)
                 | None => gret None
                 end in
     do! _ := gpm_save_status (res_init_sec_context_status res) in
     let '(maj, min) := status_codes (res_init_sec_context_status res) in
     init_done maj min (res_init_sec_context_context_handle res) static outbuf want_flags want_time cred)
    (init_outcome h z) p s.
Proof.
  intros Hopt Hm Hv res. set (I := fun s => served GSSX_INIT_SEC_CONTEXT (arg_init_sec_context (init_arg options)) h r s).
  assert (HI : forall c w w', wire_step w w' -> I (c, w) -> I (c, w')) by (intros ???; apply served_step).
  apply gwp_step. intros [ret static] p0 s0 Hrun.
  assert (Hs0 : I s0).
  { refine (gwp_run True True _ (fun _ _ s' => I s') _ _ _ _ _ Hrun _). destruct want_mech; [|by apply gwp_ret].
    destruct Hm as [?|Hready]; [done|]. apply static_ready; [exact Hready|done]. }
  destruct (Z.eqb_spec ret 0) as [->|Hne]; cbn [negb].
  2: { apply init_reported. destruct want_mech; [by eapply error_mech|]. injection Hrun as E _ _ _. by destruct Hne. }
  clear Hrun. apply gwp_bind. eapply (gwp_conseq _ _ _ (fun '(ret, o) p' s' => I s' /\
    (ret = 0 /\ default [] o = default [] (res_init_sec_context_output_token res) \/ ret = ENOMEM))).
  { destruct (res_init_sec_context_output_token res) as [t|]; [|apply gwp_ret; split; [done|by left]].
    destruct s0 as [c w]. apply gwp_lib. pose proof (conv_buffer_alloc_mem t wire_step _ _ malloc_quiet w) as Hw.
    pose proof (conv_buffer_alloc_cases t w) as Hc. unfold wp in *.
    destruct (gp_conv_gssx_to_buffer_alloc t w) as [[ret' o] w']. split; [by eapply HI|].
    destruct Hc as [[? Ho]|[= -> ->]]; [by left|by right]. }
  intros [ret o] p1 s1 [H1 [[-> Ho]| ->]]; cbn [Z.eqb negb]; [|apply init_reported, error_memory].
  eapply (gwp_keeps _ _ (fun _ s => I s)); [|exact H1|].
  { destruct (if want_cred then _ else _) as [val|]; [|by eauto with gpm].
    apply gkeeps_mem; [unfold return_new_cred_handle; mem_only|intros _; exact HI]. }
  clear p1 s1 H1. intros cr p1 s1 H1.
  eapply (gwp_keeps _ _ (fun _ s => I s)); [apply save_status_keeps; [done|intros _; exact HI]|exact H1|].
  clear p1 s1 H1. intros _ p1 s1 H1. cbn [status_codes].
  eapply gwp_conseq; [by apply init_done_out|]. intros [[maj min] out] p2 s2 (-> & -> & H2 & H).
  right. exists options. split; [exact Hopt|].
  eapply (served_answered GSSX_INIT_SEC_CONTEXT set_init_sec_context); [done|done| |exact H2|]; [reflexivity|].
  intros r' ->. unfold init_result. split; [done|]. split; [done|]. simpl in H. simpl res in *.
  destruct (decide _); [|exact H]. destruct H as (Hc & Ht & Hf & Hl). unfold init_out. rewrite Hc, Ht. cbn in *. done.
Qed.

(** the run of the procedure, whichever way it went *)
Lemma init_sec_context_outcome p s :
  in_s32 (g_next_xid s.1) -> want_mech = false \/ table_ready p ->
  (forall options, options = [] \/ options = [sync_option] ->
     xdom xdr_gssx_arg_init_sec_context (init_arg options)) ->
  gwp True True (gpm_init_sec_context GP_SOCKET_NAME fuel cred ctx target mech flags time cb token
    want_mech want_flags want_time want_cred) (init_outcome (hist s) (g_next_xid s.1)) p s.
Proof.
  intros Hz Hm Ha. set (h := hist s). set (z := g_next_xid s.1).
  assert (Hb : before h z s) by done.
  unfold gpm_init_sec_context.
  eapply (gwp_mem (before h z)); [by eauto with gpm|apply before_step|
    intros ?; apply gp_add_option_cases|exact Hb|]. clear Hb.
  intros [ret0 options] s1 Hopt Hb.
  assert (Ho : options = [] \/ options = [sync_option])
    by (destruct Hopt as [[= -> ->]|[= -> ->]]; [by left|by right]). clear Hopt.
  eapply (gwp_mem (before h z) (fun r => r = (0, truncate32 (default [] mech)) \/ r = (ENOMEM, [])));
    [by eauto with gpm|apply before_step|intros ?; destruct mech; apply octet_string_cases|exact Hb|].
  intros [? ?] s2 [[= -> ->]|[= -> ->]] Hb2; cbn [Z.eqb negb]; [|apply init_failed, error_memory].
  eapply (gwp_opt (before h z) cb_to_gssx gp_conv_cb_to_gssx_alloc);
    [by eauto with gpm|apply before_step|apply conv_cb_cases|exact Hb2| |intros ?; apply init_failed, error_memory].
  intros s3 Hb3. cbn [Z.eqb negb].
  eapply (gwp_opt (before h z) truncate32 gp_conv_buffer_to_gssx_alloc);
    [by eauto with gpm|apply before_step|apply string_alloc_cases|exact Hb3| |intros ?; apply init_failed, error_memory].
  intros s4 Hb4. cbn [Z.eqb negb]. apply gwp_step. intros [ret res] p5 s5 Hcall.
  assert (Hd : xdom (arg_fn (set_init_sec_context (W := V))) (arg_init_sec_context (init_arg options)))
    by (split; [by apply Ha|done]).
  pose proof (gwp_run _ _ _ _ _ _ _ _ _ Hcall (make_call_served GSSX_INIT_SEC_CONTEXT set_init_sec_context
    (arg_init_sec_context (init_arg options)) _ _ h z p s4 ltac:(done) eq_refl Hd Hz Hb4)) as [-> Hr].
  destruct (Z.eqb_spec ret 0) as [E|E]; cbn [negb]; [|by eapply init_reported, error_call].
  destruct (Hr E) as (r & -> & Hv). by apply (init_after_call options h z p s5 r).
Qed.

(** a step that is reported is one of the daemon *)
Lemma init_sec_context_wp p s :
  in_s32 (g_next_xid s.1) -> want_mech = false \/ table_ready p ->
  (forall options, options = [] \/ options = [sync_option] ->
     xdom xdr_gssx_arg_init_sec_context (init_arg options)) ->
  gwp True True (gpm_init_sec_context GP_SOCKET_NAME fuel cred ctx target mech flags time cb token
    want_mech want_flags want_time want_cred) (fun '(maj, _, out) _ s' =>
    established maj -> exists options, (options = [] \/ options = [sync_option]) /\
      answered gp_init_sec_context (init_arg options) (init_out maj out) (hist s) s') p s.
Proof.
  intros Hz Hm Ha. eapply gwp_conseq; [by apply init_sec_context_outcome|].
  intros [[maj min] out] p' s' [(-> & _)|(options & Ho & H)] He; [by destruct He|].
  exists options. split; [exact Ho|]. eapply answered_conseq; [|exact H]. intros r (_ & _ & Hr).
  by rewrite decide_True in Hr.
Qed.

(** C7. What a caller of gpm_init_sec_context gets.  Either the call of the procedure was answered
    and, when the answer is the dispatcher's of the daemon, both status codes are those of the
    result gp_init_sec_context computed there for the caller's arguments; when these say that
    a step was taken, complete or to be continued, the context, the token, the flags and the
    lifetime are those of that result, and else there is no context and nothing of one.
    Or it is GSS_S_FAILURE with an error of the procedure itself, and again nothing of a
    context. *)
Theorem init_sec_context_remote p s maj min out p' s' :
  in_s32 (g_next_xid s.1) -> want_mech = false \/ table_ready p ->
  (forall options, options = [] \/ options = [sync_option] ->
     xdom xdr_gssx_arg_init_sec_context (init_arg options)) ->
  gpm_init_sec_context GP_SOCKET_NAME fuel cred ctx target mech flags time cb token
    want_mech want_flags want_time want_cred p s = Some (Some ((maj, min, out), p'), s') ->
  (maj = GSS_S_FAILURE /\ own_error (hist s) (g_next_xid s.1) min /\ no_context out) \/
  exists options, (options = [] \/ options = [sync_option]) /\
    answered gp_init_sec_context (init_arg options) (init_result maj min out) (hist s) s'.
Proof.
  intros Hz Hm Ha Hrun.
  exact (gwp_run _ _ _ _ _ _ _ _ _ Hrun (init_sec_context_outcome p s Hz Hm Ha)).
Qed.
End init.
End remote.
