(* ===== verification/GpmProps.v ===== *)
(** * What the procedures of the client promise

    The status that is displayed, the comparison of names, the summary of a credential, the
    choice of mechanisms by attributes, and the table of mechanisms, whose elements a caller
    may keep. *)

From S2P Require Import Prelude Xdr RpcXdr GssxXdr RpcProcess World Util Conv Client ClientLogic.
From S2P Require Import Gpm GpmLogic GpmNames GpmCreds GpmContexts.

Section status.
Context {W : Type} {AL : Alloc W} {NET : NetLib W} {GL : GssLib W} {SE : Strerror}.

(** the codes of a status, and the text that goes with each *)
Definition code_text (type : Z) (st : gssx_status) : Z * bytes :=
  if type =? GSS_C_GSS_CODE then (status_major_status st, status_major_status_string st)
  else (status_minor_status st, status_minor_status_string st).

Lemma copy_string_cases b w : wp (copy_if_any gp_copy_utf8string b) (fun r _ =>
  r = (0, b) \/ r = (ENOMEM, [])) w.
Proof.
  unfold copy_if_any, gp_copy_utf8string. destruct (Z.eqb_spec (len b) 0) as [E|E].
  - apply wp_ret. left. by destruct b.
  - apply wp_bind. eapply wp_conseq; [apply memdup_cases|]. intros r w' [->| ->]; [by left|by right].
Qed.

Lemma copy_status_cases st w : wp (gp_copy_gssx_status_alloc st) (fun '(ret, o) _ => ret = 0 ->
  exists st', o = Some st' /\ code_text GSS_C_GSS_CODE st' = code_text GSS_C_GSS_CODE st /\
    code_text GSS_C_MECH_CODE st' = code_text GSS_C_MECH_CODE st) w.
Proof.
  unfold gp_copy_gssx_status_alloc. apply wp_bind, wp_any. intros [] w1; simpl; [|by apply wp_ret].
  apply wp_bind, wp_any. intros [ret mech] w2. destruct (Z.eqb_spec ret 0); simpl; [|by apply wp_ret].
  apply wp_bind. eapply wp_conseq; [apply copy_string_cases|]. intros r w3 [->| ->]; simpl; [|by apply wp_ret].
  apply wp_bind. eapply wp_conseq; [apply copy_string_cases|]. intros r w4 [->| ->]; simpl; [|by apply wp_ret].
  apply wp_bind, wp_any. intros [ret2 sctx] w5. destruct (Z.eqb_spec ret2 0); simpl; [|by apply wp_ret].
  apply wp_ret. intros _. by eexists.
Qed.

(** The status of a call is what gpm_display_status describes after it: each code gets the
    text the daemon sent with it, or there was no memory for one of the two copies. *)
Theorem status_displayed st type p c w :
  type = GSS_C_GSS_CODE \/ type = GSS_C_MECH_CODE -> (code_text type st).2 <> [] ->
  gwp False False (do! _ := gpm_save_status st in gpm_display_status (W := W) (code_text type st).1 type 0)
    (fun r _ _ => r = (GSS_S_COMPLETE, Some 0, Some (code_text type st).2) \/
       r = (GSS_S_FAILURE, Some ENOMEM, None) \/ r = (GSS_S_UNAVAILABLE, None, None)) p (c, w).
Proof.
  intros Ht Hn. apply gwp_bind, gwp_bind, gwp_setp, gwp_bind, gwp_lib.
  eapply wp_conseq; [apply copy_status_cases|]. intros [ret o] w1 Hc. 
  destruct (Z.eqb_spec ret 0) as [E|E].
  2: { apply gwp_ret. unfold gpm_display_status. apply gwp_bind, gwp_getp. simpl.
       destruct Ht as [->| ->]; apply gwp_ret; by right; right. }
  destruct (Hc E) as (st' & -> & Hmaj & Hmin). apply gwp_setp. unfold gpm_display_status.
  apply gwp_bind, gwp_getp. simpl.
  assert (Hcopy : forall b c w1, gwp False False (do! '(ret, tmp) := lib (gp_copy_utf8string b) in
    gret (if negb (ret =? 0) then (GSS_S_FAILURE, Some ret, None) else (GSS_S_COMPLETE, Some 0, Some tmp)))
    (fun r _ _ => r = (GSS_S_COMPLETE, Some 0, Some b) \/
       r = (GSS_S_FAILURE, Some ENOMEM, None) \/ r = (GSS_S_UNAVAILABLE, None, None))
    (set_last_status (Some st') (set_last_status None p)) (c, w1)).
  { intros b c' w2. apply gwp_bind, gwp_lib, wp_bind. eapply wp_conseq; [apply memdup_cases|].
    intros r w3 [->| ->]; apply wp_ret, gwp_ret; simpl; auto. }
  assert (Hlen : forall b : bytes, b <> [] -> (len b =? 0) = false) by (intros [|? ?] ?; done).
  destruct Ht as [->| ->]; unfold code_text in *; simpl in *.
  - injection Hmaj as -> ->. rewrite Z.eqb_refl, Hlen by done. apply Hcopy.
  - injection Hmin as -> ->. rewrite Z.eqb_refl, Hlen by done. apply Hcopy.
Qed.
End status.

(** ** Credentials *)

(** the lifetimes an element counts with; zero is no lifetime *)
Definition element_times (e : gssx_cred_element) : list Z :=
  filter (fun t => t <> 0)
    ((if decide (cred_element_cred_usage e ∈ [GSSX_C_INITIATE; GSSX_C_BOTH])
      then [cred_element_initiator_time_rec e] else []) ++
     (if decide (cred_element_cred_usage e ∈ [GSSX_C_ACCEPT; GSSX_C_BOTH])
      then [cred_element_acceptor_time_rec e] else [])).

(** the shortest lifetime, unlimited when there is none *)
Definition shortest (ts : list Z) : Z := foldr Z.min GSS_C_INDEFINITE ts.

Definition uses (u : Z) (es : list gssx_cred_element) : bool :=
  existsb (fun e => cred_element_cred_usage e =? u) es.

(** what a credential can be used for; [-1] for nothing known *)
Definition usage_of (es : list gssx_cred_element) : Z :=
  if uses GSSX_C_BOTH es || (uses GSSX_C_INITIATE es && uses GSSX_C_ACCEPT es) then GSS_C_BOTH
  else if uses GSSX_C_INITIATE es then GSS_C_INITIATE
  else if uses GSSX_C_ACCEPT es then GSS_C_ACCEPT
  else -1.

Lemma less_time_min life t :
  less_time life t = foldr Z.min life (filter (fun t => t <> 0) [t]).
Proof.
  unfold less_time. rewrite filter_cons. destruct (Z.eqb_spec t 0) as [->|Ht]; [by rewrite decide_False by auto|].
  rewrite decide_True by done. cbn [negb andb]. simpl. destruct (Z.ltb_spec t life); lia.
Qed.

Lemma foldr_min_init life ts : foldr Z.min life ts = Z.min life (foldr Z.min life ts).
Proof. induction ts as [|t ts IH]; simpl; lia. Qed.

Lemma foldr_min_app life ts ts' :
  foldr Z.min life (ts ++ ts') = foldr Z.min (foldr Z.min life ts) ts'.
Proof.
  rewrite foldr_app. induction ts as [|t ts IH]; simpl; [done|]. rewrite IH.
  clear IH. induction ts' as [|t' ts' IH]; simpl; lia.
Qed.

Lemma join_life_min life e : join_life life e = foldr Z.min life (element_times e).
Proof.
  unfold join_life, element_times.
  destruct (Z.eqb_spec (cred_element_cred_usage e) GSSX_C_INITIATE) as [->|H1];
    [rewrite app_nil_r; apply less_time_min|].
  destruct (Z.eqb_spec (cred_element_cred_usage e) GSSX_C_ACCEPT) as [->|H2]; [apply less_time_min|].
  destruct (Z.eqb_spec (cred_element_cred_usage e) GSSX_C_BOTH) as [->|H3].
  - rewrite !less_time_min, <- foldr_min_app, <- filter_app. done.
  - rewrite !decide_False; [done| |]; rewrite !elem_of_cons; intros [?|[?|?%not_elem_of_nil]]; done.
Qed.

(** the state of the two switches after some elements *)
Definition usage_after (cu : Z) (es : list gssx_cred_element) : Z :=
  fold_left (fun cu e => join_usage cu (cred_element_cred_usage e)) es cu.
Definition life_after (life : Z) (es : list gssx_cred_element) : Z := fold_left join_life es life.

Lemma life_after_spec life es : life_after life es = foldr Z.min life (concat (map element_times es)).
Proof.
  revert life. induction es as [|e es IH]; intros life; [done|].
  cbn [life_after fold_left map concat]. fold (life_after (join_life life e) es).
  by rewrite IH, join_life_min, foldr_min_app.
Qed.

Lemma usage_after_snoc cu es e :
  usage_after cu (es ++ [e]) = join_usage (usage_after cu es) (cred_element_cred_usage e).
Proof. unfold usage_after. by rewrite fold_left_app. Qed.

Lemma uses_snoc u es e : uses u (es ++ [e]) = uses u es || (cred_element_cred_usage e =? u).
Proof. unfold uses. rewrite existsb_app. simpl. by rewrite orb_false_r. Qed.

Lemma usage_after_spec es : usage_after (-1) es = usage_of es.
Proof.
  induction es as [|e es IH] using rev_ind; [done|].
  rewrite usage_after_snoc, IH. unfold usage_of. rewrite !uses_snoc. unfold join_usage.
  generalize (cred_element_cred_usage e) as u. intros u.
  unfold GSSX_C_BOTH, GSSX_C_INITIATE, GSSX_C_ACCEPT.
  destruct (uses 3 es), (uses 1 es), (uses 2 es), (Z.eqb_spec u 1), (Z.eqb_spec u 2), (Z.eqb_spec u 3);
    try lia; done.
Qed.

Section creds.
Context {W : Type} {AL : Alloc W} {NET : NetLib W} {GL : GssLib W}.

Lemma inquire_loop_spec es life cu min mechs (w : W) : wp (inquire_loop es life cu min mechs)
  (fun '(maj, _, (life', cu', _)) _ => maj = GSS_S_COMPLETE ->
     life' = life_after life es /\ cu' = usage_after cu es) w.
Proof.
  revert life cu min mechs w. induction es as [|e es IH]; intros life cu min mechs w; [done|].
  cbn [inquire_loop]. destruct mechs as [set|]; [|apply IH].
  apply wp_bind, wp_any. intros [[maj m] set'] w'.
  destruct (Z.eqb_spec maj 0) as [E|E]; simpl; [apply IH|by apply wp_ret].
Qed.

(** C14. A credential is described by the shortest of the lifetimes of its elements, each counted
    for the usages of its element, and by all its usages together. *)
Theorem inquire_cred_summary c name lifetime cred_usage mechanisms (w : W) :
  wp (gpm_inquire_cred (Some c) name lifetime cred_usage mechanisms) (fun '(maj, _, q) _ =>
    maj = GSS_S_COMPLETE -> cred_elements c <> [] /\
      iq_lifetime q = (if lifetime then Some (shortest (concat (map element_times (cred_elements c)))) else None) /\
      iq_usage q = (if cred_usage then Some (usage_of (cred_elements c)) else None)) w.
Proof.
  unfold gpm_inquire_cred. destruct (Z.eqb_spec (len (cred_elements c)) 0) as [E|E]; [by apply wp_ret|].
  assert (Hne : cred_elements c <> []) by (intros Hc; by rewrite Hc in E).
  apply wp_bind, wp_any. intros [ret dname] w1. destruct (ret =? 0); simpl; [|by apply wp_ret].
  apply wp_bind, wp_any. intros [[maj min] mechs] w2.
  destruct (Z.eqb_spec maj 0) as [E2|E2]; simpl; [|by apply wp_ret].
  apply wp_bind. eapply wp_conseq; [apply inquire_loop_spec|].
  intros [[maj2 min2] [[life cu] mechs2]] w3 H. apply wp_ret.
  destruct (Z.eqb_spec maj2 0) as [E3|E3]; simpl; [|done]. destruct (H E3) as [-> ->]. intros _.
  rewrite life_after_spec, usage_after_spec. done.
Qed.
End creds.

(** ** Names *)

Section names.
Context {W : Type} {AL : Alloc W} {NET : NetLib W} {GL : GssLib W}.

(** the type of a name, when it is one of those the library defines *)
Definition static_type (n : gssx_name) : option bytes :=
  (gpm_name_oid_to_static (GL := GL) (Some (name_name_type n))).2.

Lemma display_name_spec n (w : W) : name_display_name n <> [] ->
  wp (gpm_display_name (Some n) true true) (fun '(maj, _, (text, type, n')) _ =>
    n' = Some n /\ (maj = GSS_S_COMPLETE -> text = Some (name_display_name n) /\ type = static_type n)) w.
Proof.
  intros Hn. unfold gpm_display_name. assert (E : (len (name_display_name n) =? 0) = false)
    by (by destruct (name_display_name n)). rewrite E. cbn [andb negb].
  apply wp_bind, wp_ret. cbn [Z.eqb negb].
  unfold gp_copy_gssx_to_string_buffer. rewrite E. apply wp_bind, wp_bind, wp_any.
  intros [] w1; apply wp_ret; cbn [negb Z.eqb ENOMEM]; [|by apply wp_ret].
  unfold static_type, gp_conv_gssx_to_oid. cbn [default].
  destruct (gpm_name_oid_to_static _) as [ret type]. apply wp_ret. by destruct (ret =? 0).
Qed.

(** Two names are compared by their texts first: names with different texts are reported
    equal, names with the same text are equal when their types are. *)
Theorem compare_name_result n1 n2 (w : W) :
  name_display_name n1 <> [] -> name_display_name n2 <> [] ->
  wp (gpm_compare_name (Some n1) (Some n2)) (fun '(maj, _, (equal, names)) _ =>
    names = (Some n1, Some n2) /\ (maj = GSS_S_COMPLETE ->
      equal = if decide (name_display_name n1 = name_display_name n2)
              then Z.b2z (gss_oid_equal (static_type n1) (static_type n2)) else 1)) w.
Proof.
  intros H1 H2. unfold gpm_compare_name. apply wp_bind.
  eapply wp_conseq; [by apply display_name_spec|]. intros [[maj min] [[b1 t1] n1']] w1 [-> Hd1].
  destruct (Z.eqb_spec maj 0) as [E|E]; simpl; [|by apply wp_ret]. destruct (Hd1 E) as [-> ->].
  apply wp_bind. eapply wp_conseq; [by apply display_name_spec|].
  intros [[maj2 min2] [[b2 t2] n2']] w2 [-> Hd2].
  destruct (Z.eqb_spec maj2 0) as [E2|E2]; simpl; [|by apply wp_ret]. destruct (Hd2 E2) as [-> ->].
  apply wp_ret. split; [done|]. intros _.
  destruct (decide (name_display_name n1 = name_display_name n2)) as [->|Hne].
  - rewrite Z.sub_diag. change (s32 0 =? 0) with true. cbn [negb].
    rewrite bool_decide_eq_true_2 by done. cbn [negb]. by destruct (gss_oid_equal _ _).
  - destruct (negb (s32 _ =? 0)); [done|]. by rewrite bool_decide_eq_false_2 by congruence.
Qed.
End names.

(** ** Mechanisms by attributes *)

(** sets of OIDs in the library: tests do not fail, and additions add *)
Class OidSets (W : Type) {GL : GssLib W} : Prop := {
  test_member_law m set (w : W) : wp (gss_test_oid_set_member m set) (fun '(maj, _, present) _ =>
    maj = GSS_S_COMPLETE /\ present = bool_decide (m ∈ set)) w;
  create_empty_law (w : W) : wp gss_create_empty_oid_set (fun '(maj, _, set) _ =>
    maj = GSS_S_COMPLETE -> set = []) w;
  add_member_law m set (w : W) : wp (gss_add_oid_set_member m set) (fun '(maj, _, set') _ =>
    maj = GSS_S_COMPLETE -> forall x, x ∈ set' <-> x ∈ set \/ x = m) w;
}.

Section by_attrs.
Context {XL : XdrLib} {W : Type} {AL : Alloc W} {NET : NetLib W} {GL : GssLib W} {OS : OidSets W}.
Variable GP_SOCKET_NAME : string.
Variable fuel : nat.

(** a set that may be null has a member *)
Definition has (set : option (list bytes)) (a : bytes) : Prop := exists l, set = Some l /\ a ∈ l.

#[local] Instance has_dec set a : Decision (has set a).
Proof.
  destruct set as [l|]; [|right; by intros (? & ? & _)].
  destruct (decide (a ∈ l)) as [H|H]; [left; by exists l|right; by intros (? & [= <-] & ?)].
Defined.

Lemma test_member_spec a set (w : W) : wp (test_member a set) (fun '(maj, _, present) _ =>
  (maj = 0 /\ present = true <-> has set a) /\ (maj <> 0 -> ~ has set a)) w.
Proof.
  destruct set as [l|]; simpl.
  - eapply wp_conseq; [apply test_member_law|]. intros [[maj min] present] w' [-> ->].
    rewrite bool_decide_eq_true. split; [|done]. split; [intros [_ H]; by exists l|].
    by intros (l' & [= <-] & ?).
  - apply wp_ret. split; [|by intros _ (? & ? & _)]. split; [by intros [? _]|by intros (? & ? & _)].
Qed.

Lemma all_present_spec attrs set maj min (w : W) :
  wp (all_present attrs set maj min) (fun '(b, _, _) _ => b = true <-> Forall (has set) attrs) w.
Proof.
  revert maj min w. induction attrs as [|a attrs IH]; intros maj min w; cbn [all_present]; [by apply wp_ret|].
  apply wp_bind. eapply wp_conseq; [apply test_member_spec|]. intros [[maj' min'] present] w' [H1 H2].
  destruct (Z.eqb_spec maj' 0) as [->|E]; cbn [negb].
  - destruct present; cbn [negb].
    + eapply wp_conseq; [apply IH|]. intros [[b ?] ?] w2 ->. rewrite Forall_cons. tauto.
    + apply wp_ret. split; [done|]. intros [Ha _]%Forall_cons. apply H1 in Ha as [_ ?]. done.
  - apply wp_ret. split; [done|]. intros [Ha _]%Forall_cons. by apply H2 in Ha.
Qed.

Lemma none_present_spec attrs set maj min (w : W) :
  wp (none_present attrs set maj min) (fun '(b, _, _) _ => b = true <-> ~ Exists (has set) attrs) w.
Proof.
  revert maj min w. induction attrs as [|a attrs IH]; intros maj min w; cbn [none_present].
  { apply wp_ret. split; [|done]. intros _ H. inversion H. }
  apply wp_bind. eapply wp_conseq; [apply test_member_spec|]. intros [[maj' min'] present] w' [H1 H2].
  destruct (Z.eqb_spec maj' 0) as [->|E]; cbn [negb].
  - destruct present.
    + apply wp_ret. split; [done|]. intros H. exfalso. apply H. left. by apply H1.
    + eapply wp_conseq; [apply IH|]. intros [[b ?] ?] w2 ->. rewrite Exists_cons.
      assert (~ has set a) by (intros Ha; by apply H1 in Ha as [_ ?]). tauto.
  - eapply wp_conseq; [apply IH|]. intros [[b ?] ?] w2 ->. rewrite Exists_cons. specialize (H2 E). tauto.
Qed.

(** what the function looks for: every desired attribute, every critical attribute among the
    known ones, and, when there is a list of excepted ones, at least one of them, where its
    comment says none *)
Definition chosen (desired except critical : option (list bytes)) (gi : gpm_mech_info) : Prop :=
  Forall (has (gi_mech_attrs gi)) (default [] desired) /\
  (forall l, except = Some l -> Exists (has (gi_mech_attrs gi)) l) /\
  Forall (has (gi_known_mech_attrs gi)) (default [] critical).

Lemma mechs_by_attrs_spec desired except critical l maj min set (w : W) :
  wp (mechs_by_attrs desired except critical l maj min set) (fun '(maj', _, set') _ =>
    maj' = 0 -> forall m, m ∈ set' <-> m ∈ set \/
      exists gi, gi ∈ l /\ chosen desired except critical gi /\ m = default [] (gi_mech gi)) w.
Proof.
  revert maj min set w. induction l as [|gi l IH]; intros maj min set w; cbn [mechs_by_attrs].
  { apply wp_ret. intros _ m. split; [by left|]. intros [?|(gi & ?%not_elem_of_nil & _)]; done. }
  assert (Hskip : ~ chosen desired except critical gi -> forall maj min w,
    wp (mechs_by_attrs desired except critical l maj min set) (fun '(maj', _, set') _ =>
    maj' = 0 -> forall m, m ∈ set' <-> m ∈ set \/
      exists g, g ∈ gi :: l /\ chosen desired except critical g /\ m = default [] (gi_mech g)) w).
  { intros Hn maj1 min1 w1. eapply wp_conseq; [apply IH|]. intros [[maj2 ?] set2] w2 H E m.
    rewrite (H E m). setoid_rewrite elem_of_cons. split; [|naive_solver].
    intros [?|(g & ? & ?)]; [by left|right]. exists g. by split; [right|]. }
  apply wp_bind. eapply (wp_conseq _ (fun '(b, _, _) _ => b = true <->
    Forall (has (gi_mech_attrs gi)) (default [] desired))).
  { destruct desired; [apply all_present_spec|by apply wp_ret]. }
  intros [[b1 maj1] min1] w1 H1. destruct b1; cbn [negb].
  2: { apply Hskip. intros [H _]. by apply H1 in H. }
  apply wp_bind. eapply (wp_conseq _ (fun '(b, _, _) _ => b = false <->
    (forall l, except = Some l -> Exists (has (gi_mech_attrs gi)) l))).
  { destruct except as [ex|]; [|by apply wp_ret]. eapply wp_conseq; [apply none_present_spec|].
    intros [[b ?] ?] w' H. destruct b; split; try done.
    - intros HE. exfalso. by apply H, HE.
    - intros _ l' [= <-]. destruct (decide (Exists (has (gi_mech_attrs gi)) ex)) as [|Hn]; [done|].
      by apply H in Hn. }
  intros [[b2 maj2] min2] w2 H2. destruct b2.
  { apply Hskip. intros (_ & H & _). by apply H2 in H. }
  apply wp_bind. eapply (wp_conseq _ (fun '(b, _, _) _ => b = true <->
    Forall (has (gi_known_mech_attrs gi)) (default [] critical))).
  { destruct critical; [apply all_present_spec|by apply wp_ret]. }
  intros [[b3 maj3] min3] w3 H3. destruct b3; cbn [negb].
  2: { apply Hskip. intros (_ & _ & H). by apply H3 in H. }
  assert (Hc : chosen desired except critical gi).
  { split; [by apply H1|]. split; [by apply H2|by apply H3]. }
  apply wp_bind. eapply wp_conseq; [apply add_member_law|]. intros [[maj4 min4] set4] w4 H4.
  destruct (Z.eqb_spec maj4 0) as [E|E]; cbn [negb]; [|by apply wp_ret].
  eapply wp_conseq; [apply IH|]. intros [[maj5 ?] set5] w5 H E5 m. rewrite (H E5 m), (H4 E m).
  setoid_rewrite elem_of_cons. naive_solver.
Qed.

Lemma indicate_by_attrs_spec desired except critical p c (w : W) : table_ready p ->
  gwp False True (gpm_indicate_mechs_by_attrs GP_SOCKET_NAME fuel desired except critical true)
    (fun '(maj, _, out) p' _ => p' = p /\ (maj = GSS_S_COMPLETE -> exists set, out = Some set /\
       forall m, m ∈ set <-> exists gi, gi ∈ infos (p_mechs p) /\
         chosen desired except critical gi /\ m = default [] (gi_mech gi))) p (c, w).
Proof.
  intros Hp. unfold gpm_indicate_mechs_by_attrs. cbn [negb].
  apply gwp_bind, init_ready; [done|]. cbn [Z.eqb negb]. apply gwp_bind, gwp_lib.
  eapply wp_conseq; [apply create_empty_law|]. intros [[maj min] set] w1 H1.
  destruct (Z.eqb_spec maj 0) as [E|E]; cbn [negb]; [|by apply gwp_ret].
  rewrite (H1 E). apply gwp_bind, gwp_getp, gwp_bind, gwp_lib.
  eapply wp_conseq; [apply mechs_by_attrs_spec|]. intros [[maj2 min2] set2] w2 H2.
  apply gwp_ret. destruct (Z.eqb_spec maj2 0) as [E2|E2]; cbn [negb]; [|done].
  split; [done|]. intros _. exists set2. split; [done|]. intros m. rewrite (H2 E2 m).
  split; [intros [?%not_elem_of_nil|?]; done|by right].
Qed.

(** C15. A caller of gpm_indicate_mechs_by_attrs that gives no list of excepted attributes gets the
    mechanisms of the table that have every desired attribute and know every critical one, and
    no other. *)
Theorem indicate_by_attrs_chosen desired critical p c (w : W) : table_ready p ->
  gwp False True (gpm_indicate_mechs_by_attrs GP_SOCKET_NAME fuel desired None critical true)
    (fun '(maj, _, out) p' _ => p' = p /\ (maj = GSS_S_COMPLETE -> exists set, out = Some set /\
       forall m, m ∈ set <-> exists gi, gi ∈ infos (p_mechs p) /\
         Forall (has (gi_mech_attrs gi)) (default [] desired) /\
         Forall (has (gi_known_mech_attrs gi)) (default [] critical) /\
         m = default [] (gi_mech gi))) p (c, w).
Proof.
  intros Hp. eapply gwp_conseq; [by apply indicate_by_attrs_spec|]. intros [[maj min] out] p' s' [-> H].
  split; [done|]. intros Hm. destruct (H Hm) as (set & -> & Hset). exists set. split; [done|]. intros m.
  rewrite Hset. unfold chosen. naive_solver.
Qed.
End by_attrs.

(** ** The mechanisms a caller was given *)

(** the calls a process may make *)
Inductive gpm_request :=
| ReqDisplayStatus (value type ctx : Z)
| ReqMechToStatic (mech : option bytes)
| ReqIndicateMechs (out : bool)
| ReqNamesForMech (mech : option bytes) (out : bool)
| ReqMechsForName (name : option gssx_name) (out : bool)
| ReqAttrsForMech (mech : option bytes) (out known : bool)
| ReqSaslname (mech : option bytes) (outs : bool)
| ReqMechAttr (attr : option bytes) (outs : bool)
| ReqByAttrs (desired except critical : option (list bytes)) (out : bool)
| ReqCanonicalize (name : option gssx_name) (mech : option bytes) (out : bool)
| ReqLocalname (name : option gssx_name) (mech : option bytes)
| ReqInquireName (name : gssx_name) (mn mech attrs : bool)
| ReqAcquireCred (cred : option gssx_cred) (name : option gssx_name) (time : Z)
    (mechs : option (list bytes)) (usage : Z) (impersonate out actual rec : bool)
| ReqAddCred (cred : option gssx_cred) (name : option gssx_name) (mech : option bytes)
    (usage itime atime : Z) (out actual irec arec : bool)
| ReqReleaseCred (cred : option gssx_cred)
| ReqDeleteContext (ctx : option gssx_ctx)
| ReqInitContext (cred : option gssx_cred) (ctx : option gssx_ctx) (target : option gssx_name)
    (mech : option bytes) (flags time : Z) (cb : option channel_bindings) (token : option bytes)
    (actual rflags rtime rcred : bool)
| ReqAcceptContext (ctx : option gssx_ctx) (cred : option gssx_cred) (token : bytes)
    (cb : option channel_bindings) (src mech rflags rtime deleg : bool)
| ReqGetMic (ctx : option gssx_ctx) (qop : Z) (message : bytes)
| ReqVerifyMic (ctx : option gssx_ctx) (message token : bytes) (qop : bool)
| ReqWrap (ctx : option gssx_ctx) (conf qop : Z) (message : bytes) (state : bool)
| ReqUnwrap (ctx : option gssx_ctx) (message : bytes) (conf : bool) (qop : option Z)
| ReqSizeLimit (ctx : option gssx_ctx) (conf qop size : Z) (out : bool)
| ReqInquireContext (ctx : option gssx_ctx) (src targ life mech flags local open : bool).

Section table.
Context {XL : XdrLib} {W : Type} {AL : Alloc W} {NET : NetLib W} {GL : GssLib W} {SE : Strerror}.
Variable GP : string.
Variable fuel : nat.

Definition ignore {A} (m : Gp W A) : Gp W unit := do! _ := m in gret tt.

Definition perform (r : gpm_request) : Gp W unit :=
  match r with
  | ReqDisplayStatus v t c => ignore (gpm_display_status v t c)
  | ReqMechToStatic m => ignore (gpm_mech_to_static GP fuel m)
  | ReqIndicateMechs o => ignore (gpm_indicate_mechs GP fuel o)
  | ReqNamesForMech m o => ignore (gpm_inquire_names_for_mech GP fuel m o)
  | ReqMechsForName n o => ignore (gpm_inquire_mechs_for_name GP fuel n o)
  | ReqAttrsForMech m o k => ignore (gpm_inquire_attrs_for_mech GP fuel m o k)
  | ReqSaslname m o => ignore (gpm_inquire_saslname_for_mech GP fuel m o)
  | ReqMechAttr a o => ignore (gpm_display_mech_attr GP fuel a o)
  | ReqByAttrs d e c o => ignore (gpm_indicate_mechs_by_attrs GP fuel d e c o)
  | ReqCanonicalize n m o => ignore (gpm_canonicalize_name GP fuel n m o)
  | ReqLocalname n m => ignore (gpm_localname GP fuel n m)
  | ReqInquireName n a b c => ignore (gpm_inquire_name n a b c)
  | ReqAcquireCred c n t m u i o a r => ignore (gpm_acquire_cred GP fuel c n t m u i o a r)
  | ReqAddCred c n m u it at' o a ir ar => ignore (gpm_add_cred GP fuel c n m u it at' o a ir ar)
  | ReqReleaseCred c => ignore (gpm_release_cred GP fuel c)
  | ReqDeleteContext c => ignore (gpm_delete_sec_context GP fuel c)
  | ReqInitContext c x t m f ti cb tok a rf rt rc =>
      ignore (gpm_init_sec_context GP fuel c x t m f ti cb tok a rf rt rc)
  | ReqAcceptContext x c tok cb s m rf rt d =>
      ignore (gpm_accept_sec_context GP fuel x c tok cb s m rf rt d)
  | ReqGetMic x q m => ignore (gpm_get_mic GP fuel x q m)
  | ReqVerifyMic x m t q => ignore (gpm_verify_mic GP fuel x m t q)
  | ReqWrap x c q m s => ignore (gpm_wrap GP fuel x c q m s)
  | ReqUnwrap x m c q => ignore (gpm_unwrap GP fuel x m c q)
  | ReqSizeLimit x c q z o => ignore (gpm_wrap_size_limit GP fuel x c q z o)
  | ReqInquireContext x a b c d e f g => ignore (gpm_inquire_context GP fuel x a b c d e f g)
  end.

Fixpoint performs (l : list gpm_request) : Gp W unit :=
  match l with
  | [] => gret tt
  | r :: l => do! _ := perform r in performs l
  end.

(** the element of the table an index stands for *)
Definition static_mech (p : gpm_proc) (i : nat) : option bytes :=
  l ← gm_mech_set (p_mechs p); l !! i.

(** the table [g] is there to stay *)
Definition tabled (g : gpm_mechs) (p : gpm_proc) (_ : gpm_ctx * W) : Prop :=
  table_ready p /\ p_mechs p = g.

Lemma tabled_net g {A} (m : Cl W A) : gkeeps True True (tabled g) (lift m).
Proof. apply gkeeps_lift. intros p s Hs. by apply wpc_any. Qed.
Lemma tabled_lib g {A} (m : M W A) : gkeeps True True (tabled g) (lib m).
Proof. apply tabled_net. Qed.
Lemma tabled_last_status g st : gkeeps (W := W) True True (tabled g) (setp (set_last_status st)).
Proof. by apply gkeeps_setp. Qed.
Lemma tabled_init g : gkeeps True True (tabled g) (gpmint_init_global_mechs GP fuel).
Proof. intros p s Hs. by apply init_ready; [apply Hs|]. Qed.
Hint Resolve tabled_net tabled_lib tabled_last_status tabled_init : gpm.

Lemma tabled_save_status g st : gkeeps True True (tabled g) (gpm_save_status (W := W) st).
Proof. unfold gpm_save_status. gkeep. Qed.
Lemma tabled_internal_status g e b : gkeeps True True (tabled g) (gpm_save_internal_status (W := W) e b).
Proof. pose proof tabled_save_status. unfold gpm_save_internal_status. gkeep. Qed.
Lemma tabled_call g {R} num arg (out : gp_rpc_res -> option R) zero :
  gkeeps True True (tabled g) (make_call GP fuel num arg out zero).
Proof. unfold make_call. gkeep. Qed.
Lemma tabled_to_static g m : gkeeps True True (tabled g) (gpm_mech_to_static GP fuel m).
Proof. unfold gpm_mech_to_static. gkeep. Qed.
Lemma tabled_copy_set g o : gkeeps True True (tabled g) (gpm_copy_gss_OID_set (W := W) o).
Proof.
  unfold gpm_copy_gss_OID_set. apply gkeeps_bind; [gkeep|]. intros [[maj min] n].
  destruct (negb _); [gkeep|]. apply gkeeps_bind; [gkeep|]. intros l. revert n.
  induction l as [|m l IH]; intros n; [gkeep|]. gkeep.
Qed.
Hint Resolve tabled_save_status tabled_internal_status tabled_call tabled_to_static tabled_copy_set : gpm.

Lemma tabled_init_done g maj min x m o rf rt c :
  gkeeps True True (tabled g) (init_done (W := W) maj min x m o rf rt c).
Proof. unfold init_done. gkeep. Qed.
Lemma tabled_canonicalize g n m l o :
  gkeeps True True (tabled g) (gpm_int_canonicalize_name GP fuel n m l o).
Proof. unfold gpm_int_canonicalize_name. gkeep. Qed.
Lemma tabled_mechs_arg g o : gkeeps True True (tabled g) (mechs_arg (W := W) o).
Proof. unfold mechs_arg. gkeep. Qed.
Lemma tabled_release g h : gkeeps True True (tabled g) (release_handle GP fuel h).
Proof. unfold release_handle. gkeep. Qed.
Hint Resolve tabled_init_done tabled_canonicalize tabled_mechs_arg tabled_release : gpm.

Lemma tabled_perform g r : gkeeps True True (tabled g) (perform r).
Proof.
  destruct r; apply gkeeps_bind; try (intros; apply gkeeps_ret).
  all: unfold gpm_display_status, gpm_indicate_mechs, gpm_inquire_names_for_mech,
    gpm_inquire_mechs_for_name, gpm_inquire_attrs_for_mech, gpm_inquire_saslname_for_mech,
    gpm_display_mech_attr, gpm_indicate_mechs_by_attrs, gpm_canonicalize_name, gpm_localname,
    gpm_inquire_name, gpm_acquire_cred, gpm_add_cred, gpm_release_cred, gpm_delete_sec_context,
    gpm_init_sec_context, gpm_accept_sec_context, gpm_get_mic, gpm_verify_mic, gpm_wrap, gpm_unwrap,
    gpm_wrap_size_limit, gpm_inquire_context; cbv zeta; gkeep.
Qed.

Lemma tabled_performs g l : gkeeps True True (tabled g) (performs l).
Proof. induction l as [|r l IH]; cbn [performs]; [gkeep|]. apply gkeeps_bind; [apply tabled_perform|auto]. Qed.

Lemma once_indicate : gkeeps True True (fun p _ => p_once p = true) (gpmint_indicate_mechs GP fuel).
Proof.
  set (I := fun (p : gpm_proc) (_ : gpm_ctx * W) => p_once p = true).
  assert (Hnet : forall A (m : Cl W A), gkeeps True True I (lift m)).
  { intros A m. apply gkeeps_lift. intros p s Hs. by apply wpc_any. }
  assert (Hlib : forall A (m : M W A), gkeeps True True I (lib m)) by (intros; apply Hnet).
  assert (Hset : forall g, gkeeps True True I (setp (set_mechs g))) by (intros; by apply gkeeps_setp).
  assert (Hlast : forall st, gkeeps True True I (setp (set_last_status st))) by (intros; by apply gkeeps_setp).
  unfold gpmint_indicate_mechs, gpmint_release, gpm_save_status, make_call. gkeep.
Qed.

Lemma equal_mech_lookup mech set i : equal_mech mech set = Some i ->
  exists m, set !! i = Some m /\ gss_oid_equal (Some m) mech = true.
Proof.
  revert i. induction set as [|m set IH]; intros i; cbn [equal_mech]; [done|].
  destruct (gss_oid_equal (Some m) mech) eqn:E; [intros [= <-]; by exists m|].
  destruct (equal_mech mech set) as [j|]; [|done]. intros [= <-]. by apply IH.
Qed.

(** A mechanism gpm_mech_to_static gave is equal to the one asked for, and keeps its place:
    no later call of the process moves it. *)
Theorem static_mech_stays mech i l p s p1 s1 :
  gpm_mech_to_static GP fuel mech p s = Some (Some ((0, Some i), p1), s1) ->
  gwp True True (performs l) (fun _ p2 _ => exists m, gss_oid_equal (Some m) mech = true /\
    static_mech p1 i = Some m /\ static_mech p2 i = Some m) p1 s1.
Proof.
  intros Hrun.
  assert (H1 : gwp True True (gpm_mech_to_static GP fuel mech) (fun '(ret, o) p _ => ret = 0 ->
    table_ready p /\ forall i, o = Some i -> exists m, gss_oid_equal (Some m) mech = true /\ static_mech p i = Some m) p s).
  { apply gwp_bind. apply (gwp_conseq _ _ _ (fun ret p _ => ret = 0 -> table_ready p)).
    - apply gwp_bind, gwp_getp, gwp_bind.
      apply (gwp_conseq _ _ _ (fun _ p _ => p_once p = true)).
      { destruct (p_once p) eqn:E; [by apply gwp_ret|]. apply gwp_bind, gwp_any. intros. by apply gwp_setp. }
      intros _ p2 s2 Ho. apply gwp_bind, gwp_getp. destruct (gm_initialized (p_mechs p2)) eqn:E; [by apply gwp_ret|].
      eapply (gwp_keeps _ _ (fun p _ => p_once p = true)); [apply once_indicate|exact Ho|].
      clear E p2 s2 Ho. intros _ p2 s2 Ho. apply gwp_bind, gwp_getp, gwp_ret.
      destruct (gm_initialized (p_mechs p2)) eqn:E; [done|discriminate].
    - intros ret p2 s2 Hr. destruct (Z.eqb_spec ret 0) as [E|E]; cbn [negb]; [|by apply gwp_ret].
      apply gwp_bind, gwp_getp, gwp_bind, gwp_deref; [done|]. intros set Hset.
      destruct (equal_mech mech set) as [j|] eqn:Ej; apply gwp_ret; [|done]. intros _. split; [by apply Hr|].
      intros i' [= <-]. unfold static_mech. rewrite Hset. simpl.
      apply equal_mech_lookup in Ej as (m & ? & ?). eauto. }
  destruct (gwp_run _ _ _ _ _ _ _ _ _ Hrun H1 eq_refl) as [Hready Hm].
  destruct (Hm i eq_refl) as (m & He & Hi).
  eapply gwp_conseq; [apply (tabled_performs (p_mechs p1)); by split|]. intros _ p2 s2 [_ Hg].
  exists m. split_and!; [done|done|]. unfold static_mech in *. by rewrite Hg.
Qed.
End table.
