(* ===== verification/GpmExamples.v ===== *)
(** * Concrete procedures of the client

    The procedures of the client over the network of ClientExamples.v, a daemon whose
    procedures give constant results, and a library in which only sets of OIDs work. *)

From S2P Require Import Prelude Xdr Rfc4506 RpcXdr GssxXdr RpcProcess RpcTable RpcReply RpcExamples.
From S2P Require Import Socket Accept World Util Conv Client ClientLogic ClientFds ClientWire RemoteCall ClientExamples.
From S2P Require Import Gpm GpmLogic GpmNames GpmCreds GpmContexts GpmRemote GpmProps.

Definition refuse {W A} (a : A) : M W (Z * Z * A) := mret (GSS_S_UNAVAILABLE, 0, a).

#[export] Instance set_gss {W} : GssLib W := {|
  gss_name := unit; gss_cred := unit; gss_ctx := unit;
  gss_oid_equal a b := match a, b with Some a, Some b => bool_decide (a = b) | _, _ => false end;
  gss_create_empty_oid_set := mret (GSS_S_COMPLETE, 0, []);
  gss_add_oid_set_member m s := mret (GSS_S_COMPLETE, 0, if decide (m ∈ s) then s else s ++ [m]);
  gss_test_oid_set_member m s := mret (GSS_S_COMPLETE, 0, bool_decide (m ∈ s));
  gss_import_name _ _ := refuse None; gss_display_name _ := refuse ([], None);
  gss_export_name _ := refuse []; gss_export_name_composite _ := refuse [];
  gss_canonicalize_name _ _ := refuse None; gss_compare_name _ _ := refuse false;
  gss_localname _ _ := refuse []; gss_release_name _ := mret tt;
  gss_display_status _ _ _ _ := refuse (0, []); gss_max_messages := 1%nat;
  gss_inquire_cred _ _ := refuse (CredInfo None 0 0 []);
  gss_inquire_cred_by_mech _ _ _ := refuse (CredByMech None 0 0 0);
  gss_acquire_cred_from _ _ _ _ := refuse (None, []);
  gss_acquire_cred_impersonate_name _ _ _ := refuse (None, []);
  gss_release_cred _ := mret tt; gss_export_cred _ := refuse []; gss_import_cred _ := refuse None;
  gss_inquire_cred_by_oid _ _ := refuse []; gss_store_cred_into _ _ _ := mret (GSS_S_UNAVAILABLE, 0);
  gss_krb5_set_allowable_enctypes _ _ := mret (GSS_S_UNAVAILABLE, 0);
  gss_set_cred_option _ _ _ := mret (GSS_S_UNAVAILABLE, 0);
  gss_init_sec_context _ _ _ _ _ _ _ _ := refuse (None, None, []);
  gss_accept_sec_context _ _ _ _ _ _ := refuse (None, None, None, [], 0, None);
  gss_delete_sec_context _ := mret tt;
  gss_inquire_context _ := refuse (ContextInfo None None 0 None 0 false false);
  gss_export_sec_context _ := refuse (None, []);
  gss_krb5_export_lucid_sec_context _ _ := refuse (None, Lucid 0 0 0 0 0 (LucidKey 0 []) 0 (LucidKey 0 []) (LucidKey 0 []));
  gss_import_sec_context _ := refuse None;
  gss_get_mic _ _ _ := refuse []; gss_verify_mic _ _ _ := refuse 0; gss_wrap _ _ _ _ := refuse (0, []);
  gss_unwrap _ _ := refuse ([], 0, 0); gss_wrap_size_limit _ _ _ _ := refuse 0;
  gss_indicate_mechs := refuse []; gss_inquire_names_for_mech _ := refuse [];
  gss_inquire_attrs_for_mech _ := refuse ([], []); gss_inquire_saslname_for_mech _ := refuse ([], [], []);
  gss_display_mech_attr _ := refuse ([], [], []);
|}.

#[export] Instance set_gss_sets {W} : OidSets W.
Proof.
  split; intros; unfold wp; simpl; [done|done|]. intros _ x.
  destruct (decide _) as [H|H]; [naive_solver|]. rewrite elem_of_app, list_elem_of_singleton. done.
Qed.

#[export] Instance plain_strerror : Strerror := fun _ => None.

(** ** The daemon *)

Definition d_ctx (t : bytes) : gssx_ctx := Mk_ctx t [] false gss_mech_krb5 empty_name empty_name 0 2 true true [].
Definition d_status : gssx_status := Mk_status 0 gss_mech_krb5 0 [] [] [] [].
Definition d_token : bytes := [Byte.x0a; Byte.x0b].
Definition d_mech (m : bytes) : gssx_mech_info := Mk_mech_info m [m] [[Byte.x01]] [[Byte.x01]; [Byte.x02]] [] [] [] [] [] [].

#[export] Instance signing_handlers : RpcHandlers Z := {|
  gp_indicate_mechs w _ := (0, Some (Mk_res_indicate_mechs zero_status
     [d_mech gss_mech_krb5; d_mech [Byte.x2a]] [Mk_mech_attr [Byte.x01] [] [] [] []] [] []), w + 1);
  gp_import_and_canon_name w _ := (0, Some w_res_import_and_canon_name, w + 1);
  gp_acquire_cred w _ := (0, Some w_res_acquire_cred, w + 1);
  gp_init_sec_context w _ := (0, Some (Mk_res_init_sec_context d_status (Some (d_ctx [Byte.x07])) (Some d_token) []), w + 1);
  gp_accept_sec_context w _ := (0, Some w_res_accept_sec_context, w + 1);
  gp_release_handle w _ := (0, Some w_res_release_handle, w + 1);
  gp_get_mic w _ := (0, Some (Mk_res_get_mic d_status (Some (d_ctx [Byte.x08])) d_token None), w + 1);
  gp_verify_mic w _ := (0, Some (Mk_res_verify_mic d_status None (Some 3)), w + 1);
  gp_wrap w _ := (0, Some (Mk_res_wrap d_status None [d_token] (Some true) None), w + 1);
  gp_unwrap w _ := (0, Some (Mk_res_unwrap d_status None [d_token] (Some true) None), w + 1);
  gp_wrap_size_limit w _ := (0, Some w_res_wrap_size_limit, w + 1);
|}.

(** ** Values the routines encode *)

Lemma short_dom b : len b <= 1000 -> xdom xdr_octet_string b.
Proof. intros H. pose proof (len_nonneg b). split; [|split]; unfold MAXCOUNT; lia. Qed.

Lemma short_array {A} elsize (c : codec A) l : 0 < elsize <= 1000 -> len l <= 1000 ->
  Forall (xdom c) l -> xdom (xdr_array MAXCOUNT elsize c) l.
Proof. intros He Hl H. pose proof (len_nonneg l). split; [exact H|]. unfold MAXCOUNT. split; nia. Qed.

Ltac constant_dom :=
  repeat lazymatch goal with
  | |- xdom xdr_gssx_status zero_status => exact zero_status_dom
  | |- xdom xdr_gssx_uint64 _ => apply uint64_dom; done
  | |- xdom xdr_gssx_qop _ => apply uint64_dom; done
  | |- xdom xdr_gssx_time _ => apply uint64_dom; done
  | |- xdom gp_xdr_uint64_t _ => apply uint64_dom; done
  | |- xdom xdr_gssx_buffer _ => apply short_dom; done
  | |- xdom xdr_gssx_OID _ => apply short_dom; done
  | |- xdom xdr_utf8string _ => apply short_dom; done
  | |- xdom xdr_octet_string _ => apply short_dom; done
  | |- xdom xdr_gssx_OID_set _ => apply short_array; [done|done|]
  | |- xdom (xdr_array _ _ _) _ => apply short_array; [done|done|]
  | |- xdom (xdr_pointer ?c) ?o =>
      let o' := eval hnf in o in
      match o' with None => apply none_dom | Some ?a => change (xdom c a) end
  | |- Forall _ (_ :: _) => apply Forall_cons; split
  | |- Forall _ [] => apply Forall_nil
  | |- Forall ?P ?l => let l' := eval hnf in l in change (Forall P l')
  | |- _ => first [split | exact I | reflexivity]
  end.

Lemma d_status_dom : xdom xdr_gssx_status d_status.
Proof. constant_dom. Qed.
Lemma d_ctx_dom t : len t <= 1000 -> xdom xdr_gssx_ctx (d_ctx t).
Proof. intros Ht. constant_dom. Qed.

#[export] Instance signing_typed : HandlersTyped (HD := signing_handlers) Z.
Proof. split; intros w a r [= <-]; constant_dom. Qed.

(** ** Runs *)

#[local] Abbreviation sock := "/run/gssproxy".

(** what a procedure returned *)
Definition returned {A} (o : option (option (A * gpm_proc) * (gpm_ctx * net))) : option (option A) :=
  match o with
  | Some (Some (a, _), _) => Some (Some a)
  | Some (None, _) => Some None
  | None => None
  end.

Lemma returned_run {A} o (a : A) : returned o = Some (Some a) ->
  exists p' s', o = Some (Some (a, p'), s').
Proof. destruct o as [[[[a' p']|] s']|]; intros [= ->]; eauto. Qed.

Definition calm : gpm_ctx * net := net_with signing_handlers 1 [].
Definition message : bytes := [Byte.x68; Byte.x69].

Lemma signed : returned (gpm_get_mic sock 100 (Some (d_ctx [])) 5 message gpm_start calm) =
  Some (Some (GSS_S_COMPLETE, Some 0, (Some (d_ctx [Byte.x08]), Some d_token))).
Proof. by vm_compute. Qed.

Lemma verified : returned (gpm_verify_mic sock 100 (Some (d_ctx [])) message d_token true gpm_start calm) =
  Some (Some (GSS_S_COMPLETE, Some 0, (Some (d_ctx []), Some 3))).
Proof. by vm_compute. Qed.

Lemma wrapped : returned (gpm_wrap sock 100 (Some (d_ctx [])) 1 0 message true gpm_start calm) =
  Some (Some (GSS_S_COMPLETE, Some 0, (Some (d_ctx []), Some true, Some d_token))).
Proof. by vm_compute. Qed.

Lemma unwrapped : returned (gpm_unwrap sock 100 (Some (d_ctx [])) message true None gpm_start calm) =
  Some (Some (GSS_S_COMPLETE, Some 0, (Some (d_ctx []), Some true, None, Some d_token))).
Proof. by vm_compute. Qed.

Lemma initiated_once : returned (gpm_init_sec_context sock 100 None None None (Some gss_mech_krb5)
    2 0 None None false true true true gpm_start calm) =
  Some (Some (GSS_S_COMPLETE, 0, Initiated (Some (d_ctx [Byte.x07])) None (Some d_token) (Some 2) (Some 0) None)).
Proof. by vm_compute. Qed.

(** A reply that reports success and has no context makes the client read through a null
    pointer when the flags of the context are asked for. *)
Example init_null_context : returned (gpm_init_sec_context sock 100 None None None (Some gss_mech_krb5)
    2 0 None None false true true true gpm_start (net_start 0 [])) = Some None.
Proof. by vm_compute. Qed.

(** Memory runs out while the descriptions of the attributes are copied, and again at the
    second attempt: the second clean-up goes over an array that is gone. *)
Example indicate_retry_crashes : returned (gpm_indicate_mechs sock 100 true gpm_start
    (net_with signing_handlers 0 (repeat true 28 ++ [false; false]))) = Some None.
Proof. vm_compute. reflexivity. Qed.
Example indicate_works : returned (gpm_indicate_mechs sock 100 true gpm_start calm) =
  Some (Some (GSS_S_COMPLETE, 0, Some [gss_mech_krb5; [Byte.x2a]])).
Proof. by vm_compute. Qed.

(** ** The theorems, applied *)

Lemma calm_xid : in_s32 (g_next_xid calm.1).
Proof. done. Qed.

Lemma mic_arg_dom : xdom xdr_gssx_arg_get_mic
  (Mk_arg_get_mic zero_call_ctx (d_ctx []) 5 (truncate32 message)).
Proof. constant_dom. Qed.
Lemma verify_arg_dom : xdom xdr_gssx_arg_verify_mic
  (Mk_arg_verify_mic zero_call_ctx (d_ctx []) (truncate32 message) (truncate32 d_token)).
Proof. constant_dom. Qed.
Lemma wrap_arg_dom : xdom xdr_gssx_arg_wrap
  (Mk_arg_wrap zero_call_ctx (d_ctx []) (negb (1 =? 0)) [truncate32 message] 0).
Proof. constant_dom. Qed.
Lemma unwrap_arg_dom : xdom xdr_gssx_arg_unwrap
  (Mk_arg_unwrap zero_call_ctx (d_ctx []) [truncate32 message] (default 0 None)).
Proof. constant_dom. Qed.
Lemma init_arg_dom options : options = [] \/ options = [sync_option] ->
  xdom xdr_gssx_arg_init_sec_context
    (init_arg None None None (Some gss_mech_krb5) 2 0 None None options).
Proof. intros [->| ->]; constant_dom. Qed.

#[local] Abbreviation V := Z (only parsing).

Lemma get_mic_remote_witness : exists s', answered (V := V) (A := gssx_arg_get_mic) gp_get_mic
  (Mk_arg_get_mic zero_call_ctx (d_ctx []) 5 (truncate32 message))
  (fun r => status_major_status (res_get_mic_status r) = 0 /\ d_token = res_get_mic_token_buffer r /\
     Some (d_ctx [Byte.x08]) = Some (default (d_ctx []) (res_get_mic_context_handle r))) (hist calm) s'.
Proof.
  destruct (returned_run _ _ signed) as (p' & s' & E). exists s'.
  exact (get_mic_remote sock 100 _ _ _ _ _ _ _ _ _ _ calm_xid mic_arg_dom E).
Defined.

Lemma verify_mic_remote_witness : exists s', answered (V := V) (A := gssx_arg_verify_mic) gp_verify_mic
  (Mk_arg_verify_mic zero_call_ctx (d_ctx []) (truncate32 message) (truncate32 d_token))
  (fun r => status_major_status (res_verify_mic_status r) = 0 /\
     u32 <$> res_verify_mic_qop_state r = Some 3 /\
     Some (d_ctx []) = Some (default (d_ctx []) (res_verify_mic_context_handle r))) (hist calm) s'.
Proof.
  destruct (returned_run _ _ verified) as (p' & s' & E). exists s'.
  exact (verify_mic_remote sock 100 _ _ _ _ _ _ _ _ _ _ calm_xid verify_arg_dom E).
Defined.

Lemma wrap_remote_witness : exists s', answered (V := V) (A := gssx_arg_wrap) gp_wrap
  (Mk_arg_wrap zero_call_ctx (d_ctx []) (negb (1 =? 0)) [truncate32 message] 0)
  (fun r => status_major_status (res_wrap_status r) = 0 /\ head (res_wrap_token_buffer r) = Some d_token /\
     (true = true -> Some true = res_wrap_conf_state r) /\
     Some (d_ctx []) = Some (default (d_ctx []) (res_wrap_context_handle r))) (hist calm) s'.
Proof.
  destruct (returned_run _ _ wrapped) as (p' & s' & E). exists s'.
  exact (wrap_remote sock 100 _ _ _ _ _ _ _ _ _ _ _ _ _ calm_xid wrap_arg_dom E).
Defined.

Lemma unwrap_remote_witness : exists s', answered (V := V) (A := gssx_arg_unwrap) gp_unwrap
  (Mk_arg_unwrap zero_call_ctx (d_ctx []) [truncate32 message] (default 0 None))
  (fun r => status_major_status (res_unwrap_status r) = 0 /\ head (res_unwrap_message_buffer r) = Some d_token /\
     Some (d_ctx []) = Some (default (d_ctx []) (res_unwrap_context_handle r))) (hist calm) s'.
Proof.
  destruct (returned_run _ _ unwrapped) as (p' & s' & E). exists s'.
  exact (unwrap_remote sock 100 _ _ _ _ _ _ _ _ _ _ _ _ _ calm_xid unwrap_arg_dom E).
Defined.

Lemma init_sec_context_remote_witness : exists s' options, (options = [] \/ options = [sync_option]) /\
  answered (V := V) (A := gssx_arg_init_sec_context) gp_init_sec_context
    (init_arg None None None (Some gss_mech_krb5) 2 0 None None options)
    (init_result true true GSS_S_COMPLETE 0
       (Initiated (Some (d_ctx [Byte.x07])) None (Some d_token) (Some 2) (Some 0) None)) (hist calm) s'.
Proof.
  destruct (returned_run _ _ initiated_once) as (p' & s' & E). exists s'.
  destruct (init_sec_context_remote sock 100 _ _ _ _ _ _ _ _ _ _ _ _ _ _ _ _ _ _ _ calm_xid
    (or_introl eq_refl) init_arg_dom E) as [[H _]|H]; [discriminate H|exact H].
Defined.

Lemma status_displayed_witness :
  gwp False False (do! _ := gpm_save_status (Mk_status 7 [] 0 message [] [] []) in
      gpm_display_status (W := net) 7 GSS_C_GSS_CODE 0)
    (fun r _ _ => r = (GSS_S_COMPLETE, Some 0, Some message) \/
       r = (GSS_S_FAILURE, Some ENOMEM, None) \/ r = (GSS_S_UNAVAILABLE, None, None)) gpm_start calm.
Proof.
  exact (status_displayed (Mk_status 7 [] 0 message [] [] []) GSS_C_GSS_CODE gpm_start calm.1 calm.2
    (or_introl eq_refl) ltac:(done)).
Defined.

(** Names of different text are told to be equal. *)
Lemma compare_name_result_witness :
  let n1 := Mk_name message GSS_C_NT_ANONYMOUS [] [] [] [] in
  let n2 := Mk_name d_token GSS_C_NT_ANONYMOUS [] [] [] [] in
  (gpm_compare_name (Some n1) (Some n2) calm.2).1 = (GSS_S_COMPLETE, 0, (1, (Some n1, Some n2))) /\
  wp (gpm_compare_name (Some n1) (Some n2)) (fun '(maj, _, (equal, names)) _ =>
    names = (Some n1, Some n2) /\ (maj = GSS_S_COMPLETE ->
      equal = if decide (name_display_name n1 = name_display_name n2)
              then Z.b2z (gss_oid_equal (W := net) (static_type (W := net) n1) (static_type (W := net) n2)) else 1)) calm.2.
Proof. split; [by vm_compute|]. by apply compare_name_result. Defined.

(** ** Mechanisms *)

Definition info_krb5 : gpm_mech_info :=
  MechInfo (Some gss_mech_krb5) None (Some [[Byte.x01]]) None None None None None None.
Definition table : gpm_mechs := GpmMechs true (Some [gss_mech_krb5]) 1 (Some [info_krb5]) 0 (Some []).
Definition with_table : gpm_proc := GpmProc None table true.

Lemma indicate_by_attrs_chosen_witness :
  gwp False True (gpm_indicate_mechs_by_attrs (W := net) sock 100 (Some [[Byte.x01]]) None None true)
    (fun '(maj, _, out) p' _ => p' = with_table /\ (maj = GSS_S_COMPLETE -> exists set, out = Some set /\
       forall m, m ∈ set <-> exists gi, gi ∈ infos (p_mechs with_table) /\
         Forall (has (gi_mech_attrs gi)) [[Byte.x01]] /\ Forall (has (gi_known_mech_attrs gi)) [] /\
         m = default [] (gi_mech gi))) with_table calm.
Proof. by apply (indicate_by_attrs_chosen sock 100 (Some [[Byte.x01]]) None with_table calm.1 calm.2). Defined.

(** a mechanism without an excepted attribute is left out, one with it is returned *)
Example except_is_required :
  returned (gpm_indicate_mechs_by_attrs sock 100 None (Some [[Byte.x02]]) None true with_table calm) =
    Some (Some (GSS_S_COMPLETE, 0, Some [])) /\
  returned (gpm_indicate_mechs_by_attrs sock 100 None (Some [[Byte.x01]]) None true with_table calm) =
    Some (Some (GSS_S_COMPLETE, 0, Some [gss_mech_krb5])).
Proof. by vm_compute. Qed.

(** a set that is empty is null in the table, and copied without a test *)
Example empty_names_crash :
  returned (gpm_inquire_names_for_mech sock 100 (Some gss_mech_krb5) true with_table calm) = Some None.
Proof. by vm_compute. Qed.

Lemma to_static_krb5 : returned (gpm_mech_to_static sock 100 (Some gss_mech_krb5) gpm_start calm) =
  Some (Some (0, Some 0%nat)).
Proof. by vm_compute. Qed.

Lemma static_mech_stays_witness : exists p1 s1,
  gwp (W := net) True True (performs sock 100 [ReqIndicateMechs true]) (fun _ p2 _ => exists m,
    gss_oid_equal (W := net) (Some m) (Some gss_mech_krb5) = true /\
    static_mech p1 0 = Some m /\ static_mech p2 0 = Some m) p1 s1.
Proof.
  destruct (returned_run _ _ to_static_krb5) as (p1 & s1 & E). exists p1, s1.
  exact (static_mech_stays sock 100 _ _ _ _ _ _ _ E).
Defined.
