(* ===== verification/Plugin.v ===== *)
(** * The mechglue plugin: what its functions share

    src/mechglue/gss_plugin.c, gpm_mech_is_static of src/client/gpm_indicate_mechs.c and
    gpp_is_krb5_oid.

    The plugin interposes the Kerberos mechanisms: an application that asks for krb5 gets
    the plugin, and the plugin reaches the library's own krb5 through a "special" OID, the
    OID of the plugin followed by the OID of the mechanism.  The special OIDs it made are
    kept in a list that only grows, [special_mechs]: the items in the order they were
    allocated, an address being an index, and the head.  A pointer to an OID is a [gss_OID],
    since gssi_internal_release_oid compares addresses.

    A computation [Pp] works on this state on top of the one of the client library. *)

From S2P Require Import Prelude Xdr RpcXdr GssxXdr World Util Conv Client Gpm GpmNames.

(** ** Data *)

Inductive gpp_behavior :=
| GPP_UNINITIALIZED | GPP_LOCAL_ONLY | GPP_LOCAL_FIRST | GPP_REMOTE_FIRST | GPP_REMOTE_ONLY.

#[export] Instance gpp_behavior_eq : EqDecision gpp_behavior.
Proof. solve_decision. Defined.

Record gpp_special_oid_list := SpecialOid {
  regular_oid : bytes; special_oid : bytes; next : option nat; next_is_set : bool }.

Record special_mechs := SpecialMechs {
  s_items : list gpp_special_oid_list;
  gpp_s_mechs : option nat; gpp_s_mechs_is_set : bool }.

Record gpp_proc := GppProc { gpp_behavior_is : gpp_behavior; gpp_mechs : special_mechs }.

Definition no_special_mechs : special_mechs := SpecialMechs [] None false.
Definition gpp_start : gpp_proc := GppProc GPP_UNINITIALIZED no_special_mechs.

(** Where an OID is: in the plugin, in an item of the list, in the table of mechanisms of the
    client library, or somewhere else, with its bytes. *)
Inductive gss_OID :=
| GSS_C_NO_OID
| OidInterposer
| OidRegular (item : nat)
| OidSpecial (item : nat)
| OidStatic (i : nat)
| OidAt (address : Z) (oid : bytes).

(** ** The monad *)

Definition Pp (W A : Type) : Type := gpp_proc -> Gp W (A * gpp_proc).
Definition pret {W A} (a : A) : Pp W A := fun s => gret (a, s).
Definition pbind {W A B} (m : Pp W A) (k : A -> Pp W B) : Pp W B := fun s =>
  do! '(a, s) := m s in k a s.
Definition client {W A} (m : Gp W A) : Pp W A := fun s => do! a := m in gret (a, s).
Definition plib {W A} (m : M W A) : Pp W A := client (lib m).
Definition pcrash {W A} : Pp W A := fun _ => crash.
Definition pderef {W A} (o : option A) : Pp W A := client (deref o).
Definition pget {W} : Pp W gpp_proc := fun s => gret (s, s).
Definition pset {W} (f : gpp_proc -> gpp_proc) : Pp W unit := fun s => gret (tt, f s).

Notation "'do+' x ':=' m 'in' k" := (pbind m (fun x => k))
  (at level 10, x binder, m at level 100, k at level 200).
Notation "'do+' ' p ':=' m 'in' k" := (pbind m (fun x => match x with p => k end))
  (at level 10, p pattern, m at level 100, k at level 200, only parsing).

Definition set_behavior (b : gpp_behavior) (s : gpp_proc) : gpp_proc := GppProc b (gpp_mechs s).
Definition set_special (h : special_mechs) (s : gpp_proc) : gpp_proc := GppProc (gpp_behavior_is s) h.

(** ** The list of special OIDs *)

(** 2.16.840.1.113730.3.8.15.1 *)
Definition gssproxy_mech_interposer : bytes :=
  map byte_of [96; 134; 72; 1; 134; 248; 66; 3; 8; 15; 1].
Definition gpoid_krb5 : bytes := map byte_of [42; 134; 72; 134; 247; 18; 1; 2; 2].
Definition gpoid_krb5_old : bytes := map byte_of [43; 5; 1; 5; 2].
Definition gpoid_krb5_wrong : bytes := map byte_of [42; 134; 72; 130; 247; 18; 1; 2; 2].
Definition gpoid_iakerb : bytes := map byte_of [43; 6; 1; 5; 2; 5].

Definition gpp_is_special_oid (mech_type : option bytes) : bool :=
  match mech_type with
  | Some m => (len gssproxy_mech_interposer <=? len m) &&
              bool_decide (take (length gssproxy_mech_interposer) m = gssproxy_mech_interposer)
  | None => false
  end.

(** the difference of the lengths is a 32-bit one *)
Definition gpp_special_equal (s n : bytes) : bool :=
  let base_len := length gssproxy_mech_interposer in
  (u32 (len s - Z.of_nat base_len) =? len n) &&
  bool_decide (take (length n) (drop base_len s) = n).

Definition gpp_get_special_oids (h : special_mechs) : option nat :=
  if gpp_s_mechs_is_set h then gpp_s_mechs h else None.

Definition gpp_next_special_oids (item : gpp_special_oid_list) : option nat :=
  if next_is_set item then next item else None.

(** The loop over the list, up to an item that passes the test.  [None] is a read through an
    address where no item is, or a list that does not end. *)
Fixpoint walk (fuel : nat) (items : list gpp_special_oid_list)
    (test : gpp_special_oid_list -> bool) (item : option nat) : option (option nat) :=
  match item, fuel with
  | None, _ => Some None
  | Some i, O => None
  | Some i, S fuel =>
      it ← items !! i;
      if test it then Some (Some i) else walk fuel items test (gpp_next_special_oids it)
  end.

Fixpoint gpp_last_special_oids (fuel : nat) (items : list gpp_special_oid_list) (i : nat)
  : option (option nat) :=
  match fuel with
  | O => None
  | S fuel =>
      it ← items !! i;
      if negb (next_is_set it) then Some (Some i) else
      match next it with
      | Some j => gpp_last_special_oids fuel items j
      | None => Some None
      end
  end.

(** an item can be met once *)
Definition walk_fuel (h : special_mechs) : nat := S (length (s_items h)).

Definition link (j : nat) (it : gpp_special_oid_list) : gpp_special_oid_list :=
  SpecialOid (regular_oid it) (special_oid it) (Some j) (next_is_set it).
Definition publish (it : gpp_special_oid_list) : gpp_special_oid_list :=
  SpecialOid (regular_oid it) (special_oid it) (next it) true.

Definition gpp_add_special_oids (item : nat) (h : special_mechs) : option special_mechs :=
  match gpp_get_special_oids h with
  | None => Some (SpecialMechs (s_items h) (Some item) true)
  | Some list =>
      last ← gpp_last_special_oids (walk_fuel h) (s_items h) list;
      i ← last;
      Some (SpecialMechs (alter (fun it => publish (link item it)) i (s_items h))
              (gpp_s_mechs h) (gpp_s_mechs_is_set h))
  end.

Section plugin.
Context {XL : XdrLib} {W : Type} {AL : Alloc W} {NET : NetLib W} {GL : GssLib W} {SE : Strerror}.
(** build options *)
Variable GPP_DEFAULT_BEHAVIOR : gpp_behavior.
Variable GSS_ALWAYS_INTERPOSE : bool.

(** ** Behaviour *)

Definition behavior_named (envval : string) : gpp_behavior :=
  if bool_decide (envval = "LOCAL_ONLY"%string) then GPP_LOCAL_ONLY
  else if bool_decide (envval = "LOCAL_FIRST"%string) then GPP_LOCAL_FIRST
  else if bool_decide (envval = "REMOTE_FIRST"%string) then GPP_REMOTE_FIRST
  else if bool_decide (envval = "REMOTE_ONLY"%string) then GPP_REMOTE_ONLY
  else GPP_DEFAULT_BEHAVIOR.

Definition gpp_get_behavior : Pp W gpp_behavior :=
  do+ s := pget in
  match gpp_behavior_is s with
  | GPP_UNINITIALIZED =>
      do+ envval := plib (gp_getenv "GSSPROXY_BEHAVIOR") in
      let behavior := match envval with Some v => behavior_named v | None => GPP_DEFAULT_BEHAVIOR end in
      do+ _ := pset (set_behavior behavior) in
      pret behavior
  | behavior => pret behavior
  end.

Definition enabled : Pp W bool :=
  do+ envval := plib (gp_getenv "GSS_USE_PROXY") in
  pret (match envval with Some v => gp_boolean_is_true v | None => GSS_ALWAYS_INTERPOSE end).

(** ** Special OIDs *)

(** the OID behind a pointer that is not null *)
Definition oid_of (p : gss_OID) : Pp W bytes :=
  match p with
  | GSS_C_NO_OID => pcrash
  | OidInterposer => pret gssproxy_mech_interposer
  | OidRegular i => do+ s := pget in do+ it := pderef (s_items (gpp_mechs s) !! i) in pret (regular_oid it)
  | OidSpecial i => do+ s := pget in do+ it := pderef (s_items (gpp_mechs s) !! i) in pret (special_oid it)
  | OidStatic i =>
      do+ p := client getp in do+ set := pderef (gm_mech_set (p_mechs p)) in pderef (set !! i)
  | OidAt _ b => pret b
  end.

(** the same, for a pointer that may be null *)
Definition oid_at (p : gss_OID) : Pp W (option bytes) :=
  match p with
  | GSS_C_NO_OID => pret None
  | p => do+ b := oid_of p in pret (Some b)
  end.

(** The length of the special OID is a 32-bit one: the copy of an OID that makes it wrap
    writes past what was allocated. *)
Definition gpp_new_special_mech (n : bytes) : Pp W gss_OID :=
  do+ ok := plib malloc in
  if negb ok then pret GSS_C_NO_OID else
  do+ regular := plib malloc in
  do+ special := plib malloc in
  if negb regular || negb special then pret GSS_C_NO_OID else
  if 2 ^ 32 <=? len gssproxy_mech_interposer + len n then pcrash else
  do+ s := pget in
  let h := gpp_mechs s in
  let i := length (s_items h) in
  let item := SpecialOid n (gssproxy_mech_interposer ++ n) None false in
  do+ h := pderef (gpp_add_special_oids i
    (SpecialMechs (s_items h ++ [item]) (gpp_s_mechs h) (gpp_s_mechs_is_set h))) in
  do+ _ := pset (set_special h) in
  pret (OidSpecial i).

(** the loops of the lookups *)
Definition search (test : gpp_special_oid_list -> bool) : Pp W (option nat) :=
  do+ s := pget in
  let h := gpp_mechs s in
  pderef (walk (walk_fuel h) (s_items h) test (gpp_get_special_oids h)).

Definition gpp_special_mech (mech_type : gss_OID) : Pp W gss_OID :=
  do+ m := oid_at mech_type in
  if gpp_is_special_oid m then pret mech_type else
  match m with
  | None =>
      do+ s := pget in
      pret (match gpp_get_special_oids (gpp_mechs s) with Some i => OidSpecial i | None => GSS_C_NO_OID end)
  | Some m =>
      do+ item := search (fun it => gpp_special_equal (special_oid it) m) in
      match item with
      | Some i => pret (OidSpecial i)
      | None => gpp_new_special_mech m
      end
  end.

Definition gpp_unspecial_mech (mech_type : gss_OID) : Pp W gss_OID :=
  do+ m := oid_at mech_type in
  if negb (gpp_is_special_oid m) then pret mech_type else
  do+ item := search (fun it => gss_oid_equal (Some (special_oid it)) m) in
  pret (match item with Some i => OidRegular i | None => mech_type end).

(** The test for an OID that is special already is inside the loop over the list: it is not
    made when the list is empty.  An item the loop stopped at is there for one of the two
    reasons, the first one first. *)
Fixpoint special_available (mechs amechs : list bytes) : Pp W (Z * list bytes) :=
  match mechs with
  | [] => pret (GSS_S_COMPLETE, amechs)
  | m :: mechs =>
      let special := gpp_is_special_oid (Some m) in
      do+ item := search (fun it => special || gpp_special_equal (special_oid it) m) in
      do+ n := match item with
               | Some i => if special then pret (Some m)
                           else do+ b := oid_of (OidSpecial i) in pret (Some b)
               | None =>
                   do+ n := gpp_new_special_mech m in
                   match n with
                   | GSS_C_NO_OID => pret None
                   | n => do+ b := oid_of n in pret (Some b)
                   end
               end in
      match n with
      | None => pret (GSS_S_FAILURE, amechs)
      | Some b =>
          do+ '(maj, _, amechs) := plib (gss_add_oid_set_member b amechs) in
          if negb (maj =? 0) then pret (maj, amechs) else special_available mechs amechs
      end
  end.

Definition gpp_special_available_mechs (mechs : list bytes) : Pp W (option (list bytes)) :=
  do+ '(maj, _, amechs) := plib gss_create_empty_oid_set in
  if negb (maj =? 0) then pret None else
  do+ '(maj, amechs) := special_available mechs amechs in
  pret (if negb (maj =? 0) || (len amechs =? 0) then None else Some amechs).

Fixpoint gpp_init_special_available_mechs (mechs : list bytes) : Pp W unit :=
  match mechs with
  | [] => pret tt
  | m :: mechs =>
      do+ item := search (fun it => gpp_is_special_oid (Some m) || gpp_special_equal (special_oid it) m) in
      do+ _ := match item with
               | Some _ => pret GSS_C_NO_OID
               | None => gpp_new_special_mech m
               end in
      gpp_init_special_available_mechs mechs
  end.

(** [None] is GSS_C_NO_OID_SET *)
Definition gss_mech_interposer (mech_type : option bytes) : Pp W (option (list bytes)) :=
  do+ on := enabled in
  if negb on then pret None else
  if negb (gss_oid_equal (Some gssproxy_mech_interposer) mech_type) then pret None else
  do+ '(maj, _, set) := plib gss_create_empty_oid_set in
  if negb (maj =? 0) then pret None else
  do+ '(maj, _, set) := plib (gss_add_oid_set_member gpoid_krb5 set) in
  if negb (maj =? 0) then pret None else
  do+ '(maj, _, set) := plib (gss_add_oid_set_member gpoid_krb5_old set) in
  if negb (maj =? 0) then pret None else
  do+ '(maj, _, set) := plib (gss_add_oid_set_member gpoid_krb5_wrong set) in
  if negb (maj =? 0) then pret None else
  do+ '(maj, _, set) := plib (gss_add_oid_set_member gpoid_iakerb set) in
  if negb (maj =? 0) then pret None else
  do+ _ := gpp_init_special_available_mechs set in
  pret (Some set).

(** ** Releasing an OID *)

(** two pointers into the table of the client library *)
Definition gpm_mech_is_static (mech_type : gss_OID) : Gp W bool :=
  do! p := getp in
  gret (match gm_mech_set (p_mechs p), mech_type with
        | Some set, OidStatic i => Nat.ltb i (length set)
        | _, _ => false
        end).

(** the item whose regular or special OID the pointer points to *)
Definition points_into (oid : gss_OID) : option nat :=
  match oid with OidRegular i | OidSpecial i => Some i | _ => None end.

(** the loop compares addresses: it looks for the item with an address *)
Fixpoint in_list (fuel : nat) (items : list gpp_special_oid_list) (a : nat) (item : option nat)
  : option bool :=
  match item, fuel with
  | None, _ => Some false
  | Some i, O => None
  | Some i, S fuel =>
      if Nat.eqb i a then Some true else
      it ← items !! i; in_list fuel items a (gpp_next_special_oids it)
  end.

(** the status, and the pointer as it is left *)
Definition gssi_internal_release_oid (oid : gss_OID) : Pp W (Z * gss_OID) :=
  match oid with
  | OidInterposer => pret (GSS_S_COMPLETE, GSS_C_NO_OID)
  | _ =>
      do+ s := pget in
      let h := gpp_mechs s in
      do+ listed := match points_into oid with
                    | Some a => pderef (in_list (walk_fuel h) (s_items h) a (gpp_get_special_oids h))
                    | None => pret false
                    end in
      if listed : bool then pret (GSS_S_COMPLETE, GSS_C_NO_OID) else
      do+ static := client (gpm_mech_is_static oid) in
      pret (if static : bool then (GSS_S_COMPLETE, GSS_C_NO_OID) else (GSS_S_CONTINUE_NEEDED, oid))
  end.

(** ** Minor statuses *)

Definition MAP_ERROR_BASE := 0x04200000.

Definition gpp_map_error (err : Z) : Z :=
  if negb (err =? 0) then u32 (err + MAP_ERROR_BASE) else err.
Definition gpp_unmap_error (err : Z) : Z :=
  if negb (err =? 0) then u32 (err - MAP_ERROR_BASE) else err.

Definition gpp_copy_oid (oid : bytes) : M W (Z * Z * option bytes) :=
  let* ok := malloc in
  if negb ok then mret (GSS_S_FAILURE, ENOMEM, None) else
  let* ok := malloc in
  if negb ok then mret (GSS_S_FAILURE, ENOMEM, None) else
  mret (GSS_S_COMPLETE, 0, Some oid).

Definition gpp_is_krb5_oid (mech : option bytes) : bool :=
  gss_oid_equal (Some gpoid_krb5) mech || gss_oid_equal (Some gpoid_krb5_old) mech ||
  gss_oid_equal (Some gpoid_krb5_wrong) mech || gss_oid_equal (Some gpoid_iakerb) mech.
End plugin.
