(* ===== verification/Glue.v ===== *)
(** * The mechglue, as the plugin calls it

    The plugin is called by the mechglue of the GSSAPI library and calls it back, with the
    special OID of a mechanism or with handles of the local mechanism, to reach what is
    behind the plugin.  Functions whose form in [GssLib] is all the plugin uses are taken
    from there; the class adds the calls the daemon does not make and those the plugin makes
    with more arguments or with pointers that may be null.  A status is a major and a minor
    code; what is stored through a null out-pointer is left out by the caller.

    The handles the plugin gives to the application are pairs of a handle of the daemon and
    one of the local mechanism. *)

From S2P Require Import Prelude Xdr RpcXdr GssxXdr World Util Conv Client Gpm GpmNames Plugin.

(** an element of a gss_iov_buffer array: type and buffer *)
Definition iov_buffer : Type := Z * bytes.

Class MechGlue (W : Type) {GL : GssLib W} := {
  gss_any : Type;

  (* without an output name the function changes the name it is given *)
  glue_canonicalize_name : option gss_name -> option bytes -> M W (Z * Z * option gss_name);
  glue_duplicate_name : option gss_name -> M W (Z * Z * option gss_name);
  (* whether it is a mechanism name, of which mechanism, the names of the attributes *)
  glue_inquire_name : option gss_name -> M W (Z * Z * (Z * option bytes * option (list bytes)));
  glue_display_name_ext : option gss_name -> option bytes -> M W (Z * Z * bytes);
  (* name, attribute, more; authenticated, complete, value, display value, more *)
  glue_get_name_attribute : option gss_name -> bytes -> Z ->
    M W (Z * Z * (Z * Z * bytes * bytes * Z));
  glue_set_name_attribute : option gss_name -> Z -> bytes -> bytes -> M W (Z * Z * option gss_name);
  glue_delete_name_attribute : option gss_name -> bytes -> M W (Z * Z * option gss_name);
  glue_release_name : option gss_name -> M W (Z * Z);
  glue_authorize_localname : option gss_name -> option gss_name -> M W (Z * Z);
  glue_map_name_to_any : option gss_name -> Z -> bytes -> M W (Z * Z * option gss_any);
  glue_release_any_name_mapping : option gss_name -> bytes -> option gss_any -> M W (Z * Z);

  (* a null mechanism is the default one *)
  glue_inquire_names_for_mech : option bytes -> M W (Z * Z * option (list bytes));
  glue_inquire_attrs_for_mech : option bytes ->
    M W (Z * Z * (option (list bytes) * option (list bytes)));
  glue_inquire_saslname_for_mech : option bytes -> M W (Z * Z * option (bytes * bytes * bytes));
  gssspi_mech_invoke : option bytes -> option bytes -> bytes -> M W (Z * Z * bytes);

  (* name, time, mechanisms, usage, store; the credential, the mechanisms, the time *)
  glue_acquire_cred_from : option gss_name -> Z -> option (list bytes) -> Z -> list kv_element ->
    M W (Z * Z * (option gss_cred * option (list bytes) * Z));
  glue_acquire_cred_impersonate_name : option gss_cred -> option gss_name -> Z ->
    option (list bytes) -> Z -> M W (Z * Z * (option gss_cred * option (list bytes) * Z));
  (* with a password *)
  glue_acquire_cred_with_password : option gss_name -> bytes -> Z -> option (list bytes) -> Z ->
    M W (Z * Z * (option gss_cred * option (list bytes) * Z));
  glue_inquire_cred_by_mech : option gss_cred -> option bytes -> bool ->
    M W (Z * Z * cred_by_mech gss_name);
  (* credential, usage, mechanism, overwrite, default, store; mechanisms and usage stored *)
  glue_store_cred_into : option gss_cred -> Z -> option bytes -> Z -> Z -> option (list kv_element) ->
    M W (Z * Z * (option (list bytes) * Z));
  glue_set_cred_option : option gss_cred -> option bytes -> bytes -> M W (Z * Z * option gss_cred);
  glue_release_cred : option gss_cred -> M W (Z * Z);

  (* credential, context, target, mechanism, flags, time, bindings, token; context, mechanism,
     token, flags, time *)
  glue_init_sec_context : option gss_cred -> option gss_ctx -> option gss_name -> option bytes ->
    Z -> Z -> option channel_bindings -> option bytes ->
    M W (Z * Z * (option gss_ctx * option bytes * option bytes * Z * Z));
  (* context, credential, token, bindings, whether the source name and a delegated credential
     are wanted; context, source, mechanism, token, flags, time, delegated credential *)
  glue_accept_sec_context : option gss_ctx -> option gss_cred -> bytes -> option channel_bindings ->
    bool -> bool ->
    M W (Z * Z * (option gss_ctx * option gss_name * option bytes * option bytes * Z * Z * option gss_cred));
  glue_delete_sec_context : option gss_ctx -> M W (Z * Z);
  gss_process_context_token : option gss_ctx -> bytes -> M W (Z * Z);
  gss_context_time : option gss_ctx -> M W (Z * Z * Z);
  gss_inquire_sec_context_by_oid : option gss_ctx -> option bytes -> M W (Z * Z * list bytes);
  gss_set_sec_context_option : option gss_ctx -> option bytes -> bytes -> M W (Z * Z * option gss_ctx);
  gss_pseudo_random : option gss_ctx -> Z -> bytes -> Z -> M W (Z * Z * bytes);
  gss_wrap_iov : option gss_ctx -> Z -> Z -> list iov_buffer -> M W (Z * Z * (Z * list iov_buffer));
  gss_wrap_iov_length : option gss_ctx -> Z -> Z -> list iov_buffer -> M W (Z * Z * (Z * list iov_buffer));
  gss_unwrap_iov : option gss_ctx -> list iov_buffer -> M W (Z * Z * (Z * Z * list iov_buffer));
  (* the associated data, then the payload *)
  gss_wrap_aead : option gss_ctx -> Z -> Z -> bytes -> bytes -> M W (Z * Z * (Z * bytes));
  (* the message, then the associated data *)
  gss_unwrap_aead : option gss_ctx -> bytes -> bytes -> M W (Z * Z * (bytes * Z * Z));
}.

(** ** The handles of the plugin *)

Section handles.
Context {W : Type} {GL : GssLib W}.

Record gpp_cred_handle := CredHandle {
  cred_remote : option gssx_cred; cred_store : list kv_element;
  default_creds : bool; cred_local : option gss_cred }.

Record gpp_context_handle := ContextHandle {
  ctx_remote : option gssx_ctx; ctx_local : option gss_ctx }.

(** the mechanism is a copy the handle owns *)
Record gpp_name_handle := NameHandle {
  name_mech_type : option bytes; name_remote : option gssx_name; name_local : option gss_name }.

Definition set_cred_remote (r : option gssx_cred) (h : gpp_cred_handle) : gpp_cred_handle :=
  CredHandle r (cred_store h) (default_creds h) (cred_local h).
Definition set_cred_local (l : option gss_cred) (h : gpp_cred_handle) : gpp_cred_handle :=
  CredHandle (cred_remote h) (cred_store h) (default_creds h) l.
Definition set_name_local (l : option gss_name) (n : gpp_name_handle) : gpp_name_handle :=
  NameHandle (name_mech_type n) (name_remote n) l.
Definition set_name_remote (r : option gssx_name) (n : gpp_name_handle) : gpp_name_handle :=
  NameHandle (name_mech_type n) r (name_local n).
End handles.
Arguments gpp_cred_handle W {GL}.
Arguments gpp_context_handle W {GL}.
Arguments gpp_name_handle W {GL}.

(** ** The mechglue plugin: local and remote contexts and names

    The second half of src/mechglue/gss_plugin.c: a context of the daemon becomes one of the
    local mechanism by importing its token under the special OID; names go both ways by
    their text.  The library that is called here is the mechglue, which leads to the
    mechanism of the special OID. *)

Section conversions.
Context {XL : XdrLib} {W : Type} {AL : Alloc W} {NET : NetLib W} {GL : GssLib W}
  {MG : MechGlue W} {SE : Strerror}.

(** the layout of the tokens of the mechglue: length of the OID, OID, token *)
Definition wrap_token (oid token : bytes) : bytes := be_bytes 4 (len oid) ++ oid ++ token.

(** the minor status is never written *)
Definition gpp_wrap_sec_ctx_token (mech_type : gss_OID) (token : bytes) : Pp W (Z * option bytes) :=
  do+ spmech := gpp_special_mech mech_type in
  match spmech with
  | GSS_C_NO_OID => pret (GSS_S_FAILURE, None)
  | p =>
      do+ oid := oid_of p in
      do+ ok := plib malloc in
      pret (if negb ok then (GSS_S_FAILURE, None) else (GSS_S_COMPLETE, Some (wrap_token oid token)))
  end.

(** The OID of the token is in the function's own memory, at an address nobody compares.  The
    length of the header is a 32-bit one: for a length of 2^32 - 4 and above it wraps, and
    the copy of the OID reads past the token.  The minor status is the one of the import,
    and is not written when there was none.  The remote context is gone after the import,
    whatever came of it. *)
Definition gpp_remote_to_local_ctx (remote_ctx : gssx_ctx)
  : Pp W (Z * option Z * option gssx_ctx * option gss_ctx) :=
  let failed := pret (GSS_S_FAILURE, None, Some remote_ctx, None) in
  let token := gp_conv_gssx_to_buffer (ctx_exported_context_token remote_ctx) in
  if len token <=? 4 then failed else
  let mech_len := be_val (take 4 token) in
  let hlen := u32 (4 + mech_len) in
  if len token <=? hlen then failed else
  do+ ok := plib malloc in
  if negb ok then failed else
  if len token <? 4 + mech_len then pcrash else
  let mech := take (Z.to_nat mech_len) (drop 4 token) in
  do+ '(maj, wrapped) := gpp_wrap_sec_ctx_token (OidAt 0 mech) (drop (Z.to_nat hlen) token) in
  match wrapped with
  | None => pret (maj, None, Some remote_ctx, None)
  | Some wrapped =>
      do+ '(maj, min, local) := plib (gss_import_sec_context wrapped) in
      pret (maj, Some min, None, local)
  end.

(** the local name, and the remote name, to which a display name may have been added *)
Definition gpp_name_to_local (name : gssx_name) (mech_type : gss_OID)
  : Pp W (Z * Z * option gss_name * gssx_name) :=
  do+ '(maj, min, (text, type, name')) := plib (gpm_display_name (Some name) true true) in
  let name := default name name' in
  if negb (maj =? 0) then pret (maj, min, None, name) else
  do+ '(maj, min, tmpname) := plib (gss_import_name text type) in
  if negb (maj =? 0) then pret (maj, min, None, name) else
  match mech_type with
  | GSS_C_NO_OID => pret (maj, min, tmpname, name)
  | mech_type =>
      do+ spmech := gpp_special_mech mech_type in
      do+ special := oid_at spmech in
      do+ '(maj, min, tmpname) := plib (glue_canonicalize_name tmpname special) in
      pret (maj, min, tmpname, name)
  end.

Definition gpp_local_to_name (local_name : option gss_name) : M W (Z * Z * option gssx_name) :=
  let* '(maj, min, (text, type)) := gss_display_name local_name in
  if negb (maj =? 0) then mret (maj, min, None) else
  gpm_import_name (Some text) type true.
End conversions.
