(* ===== verification/GppContext.v ===== *)
(** * The plugin: operations on a security context

    src/mechglue/gpp_priv_integ.c and gpp_context.c, but for gssi_export_sec_context, which
    takes the address of the application's variable for the handle in it, and reads past it.

    A context handle of the plugin is a context of the daemon, one of the local mechanism, or
    both; an operation that needs the key turns the first into the second.  The handle is
    returned as the function leaves it.  A minor status that is [None] was never written, or
    written with a variable nobody had set. *)

From S2P Require Import Prelude Xdr RpcXdr GssxXdr World Util Conv Client Gpm GpmNames GpmCreds GpmContexts.
From S2P Require Import Plugin Glue.

Definition GSS_S_CONTEXT_EXPIRED := 12 * 2 ^ 16.

Section contexts.
Context {XL : XdrLib} {W : Type} {AL : Alloc W} {NET : NetLib W} {GL : GssLib W}
  {MG : MechGlue W} {SE : Strerror}.
Variable GP_SOCKET_NAME : string.
Variable fuel : nat.

(** "for now we have support only for some specific known mechanisms": a context only the
    daemon has is imported.  The status and the minor one, and the handle. *)
Definition localize (ctx : gpp_context_handle W) : Pp W (Z * option Z * gpp_context_handle W) :=
  match ctx_remote ctx, ctx_local ctx with
  | Some remote, None =>
      do+ '(maj, min, remote, local) := gpp_remote_to_local_ctx remote in
      pret (maj, gpp_map_error <$> min, ContextHandle remote local)
  | _, _ => pret (GSS_S_COMPLETE, None, ctx)
  end.

(** The body all the operations of gpp_priv_integ.c share: a null handle is refused, the
    context is made local, and the operation of the local mechanism ends the function. *)
Definition reenter {A} (ctx : option (gpp_context_handle W)) (op : option gss_ctx -> M W (Z * Z * A))
  : Pp W (Z * option Z * option (gpp_context_handle W) * option A) :=
  match ctx with
  | None => pret (GSS_S_CALL_INACCESSIBLE_READ, None, None, None)
  | Some ctx =>
      do+ '(maj, min, ctx) := localize ctx in
      if negb (maj =? 0) then pret (maj, min, Some ctx, None) else
      do+ '(maj, min, out) := plib (op (ctx_local ctx)) in
      pret (maj, Some min, Some ctx, Some out)
  end.

Definition status_only (m : M W (Z * Z)) : M W (Z * Z * unit) :=
  let* '(maj, min) := m in mret (maj, min, tt).

(** ** Messages *)

Definition gssi_wrap ctx (conf_req_flag qop_req : Z) (message : bytes) :=
  reenter ctx (fun local => gss_wrap local conf_req_flag qop_req message).
Definition gssi_wrap_size_limit ctx (conf_req_flag qop_req req_output_size : Z) :=
  reenter ctx (fun local => gss_wrap_size_limit local conf_req_flag qop_req req_output_size).
Definition gssi_wrap_iov ctx (conf_req_flag qop_req : Z) (iov : list iov_buffer) :=
  reenter ctx (fun local => gss_wrap_iov local conf_req_flag qop_req iov).
Definition gssi_wrap_iov_length ctx (conf_req_flag qop_req : Z) (iov : list iov_buffer) :=
  reenter ctx (fun local => gss_wrap_iov_length local conf_req_flag qop_req iov).
Definition gssi_wrap_aead ctx (conf_req_flag qop_req : Z) (assoc payload : bytes) :=
  reenter ctx (fun local => gss_wrap_aead local conf_req_flag qop_req assoc payload).
Definition gssi_unwrap ctx (message : bytes) := reenter ctx (fun local => gss_unwrap local message).
Definition gssi_unwrap_iov ctx (iov : list iov_buffer) := reenter ctx (fun local => gss_unwrap_iov local iov).
Definition gssi_unwrap_aead ctx (message assoc : bytes) :=
  reenter ctx (fun local => gss_unwrap_aead local message assoc).
Definition gssi_get_mic ctx (qop_req : Z) (message : bytes) :=
  reenter ctx (fun local => gss_get_mic local qop_req message).
Definition gssi_verify_mic ctx (message token : bytes) :=
  reenter ctx (fun local => gss_verify_mic local message token).

(** ** Contexts *)

Definition gssi_process_context_token ctx (token : bytes) :=
  reenter ctx (fun local => status_only (gss_process_context_token local token)).
Definition gssi_pseudo_random ctx (prf_key : Z) (prf_in : bytes) (desired_output_len : Z) :=
  reenter ctx (fun local => gss_pseudo_random local prf_key prf_in desired_output_len).

Definition gssi_inquire_sec_context_by_oid ctx (desired_object : gss_OID) :=
  do+ oid := oid_at desired_object in
  reenter ctx (fun local => gss_inquire_sec_context_by_oid local oid).

(** a context without any handle has expired, so to say *)
Definition gssi_context_time (ctx : option (gpp_context_handle W)) : Pp W (Z * option Z * option Z) :=
  match ctx with
  | None => pret (GSS_S_CALL_INACCESSIBLE_READ, Some 0, None)
  | Some ctx =>
      match ctx_remote ctx, ctx_local ctx with
      | Some remote, _ =>
          do+ '(maj, min, out) := client (gpm_inquire_context GP_SOCKET_NAME fuel (Some remote)
            false false true false false false false) in
          if negb (maj =? 0) then pret (maj, Some (gpp_map_error min), None) else
          let lifetime := default 0 (ic_lifetime out) in
          pret (if 0 <? lifetime then (GSS_S_COMPLETE, Some 0, Some lifetime)
                else (GSS_S_CONTEXT_EXPIRED, Some 0, Some 0))
      | None, Some local =>
          do+ '(maj, min, time) := plib (gss_context_time (Some local)) in
          pret (maj, Some min, Some time)
      | None, None => pret (GSS_S_NO_CONTEXT, Some 0, None)
      end
  end.

(** the source, the target, lifetime, mechanism, flags, initiated here, open *)
Record gssi_context := GssiContext {
  gx_src : option (gpp_name_handle W); gx_targ : option (gpp_name_handle W); gx_lifetime : Z;
  gx_mech : gss_OID; gx_flags : Z; gx_local : Z; gx_open : Z }.

(** a name handle that is wanted is allocated, and gets a copy of the mechanism *)
Definition new_name (wanted : bool) : M W bool := if wanted then malloc else mret true.

Definition named (wanted : bool) (remote : option gssx_name) (local : option gss_name) (mech : gss_OID)
  : Pp W (Z * Z * option (gpp_name_handle W)) :=
  if negb wanted then pret (GSS_S_COMPLETE, 0, None) else
  do+ oid := oid_of mech in
  do+ '(maj, min, copy) := plib (gpp_copy_oid oid) in
  pret (maj, min, if negb (maj =? 0) then None else Some (NameHandle copy remote local)).

(** The end of a failure releases the OID of the mechanism, a variable that was never set
    when the names could not be allocated, or when the daemon's side failed before it looked
    for the mechanism. *)
Definition gssi_inquire_context (ctx : option (gpp_context_handle W)) (src_name targ_name : bool)
  : Pp W (Z * option Z * option gssi_context) :=
  match ctx with
  | None => pret (GSS_S_CALL_INACCESSIBLE_READ, None, None)
  | Some ctx =>
      if match ctx_local ctx, ctx_remote ctx with None, None => true | _, _ => false end
      then pret (GSS_S_CALL_INACCESSIBLE_READ, None, None) else
      do+ ok := plib (new_name src_name) in
      if negb ok then pcrash else
      do+ ok := plib (new_name targ_name) in
      if negb ok then pcrash else
      do+ '(maj, min, src, targ, (life, mech, flags, here, open)) :=
        match ctx_local ctx with
        | Some local =>
            do+ '(maj, min, i) := plib (gss_inquire_context (Some local)) in
            pret (maj, min, (None, xi_src i), (None, xi_targ i),
                  (xi_lifetime i, match xi_mech i with Some m => OidAt 0 m | None => GSS_C_NO_OID end,
                   xi_flags i, Z.b2z (xi_local i), Z.b2z (xi_open i)))
        | None =>
            do+ '(maj, min, i) := client (gpm_inquire_context GP_SOCKET_NAME fuel (ctx_remote ctx)
              src_name targ_name true true true true true) in
            if negb (maj =? 0) && negb (min =? ENOENT) then pcrash else
            pret (maj, min, (ic_src_name i, None), (ic_targ_name i, None),
                  (default 0 (ic_lifetime i), match ic_mech i with Some k => OidStatic k | None => GSS_C_NO_OID end,
                   default 0 (ic_flags i), default 0 (ic_local i), default 0 (ic_open i)))
        end in
      let failed maj min := pret (maj, Some (gpp_map_error min), None) in
      if negb (maj =? 0) then failed maj min else
      do+ '(maj, min', s_name) := named src_name (fst src) (snd src) mech in
      let min := if src_name then min' else min in
      if negb (maj =? 0) then failed maj min else
      do+ '(maj, min', t_name) := named targ_name (fst targ) (snd targ) mech in
      let min := if targ_name then min' else min in
      if negb (maj =? 0) then failed maj min else
      pret (maj, Some (gpp_map_error min), Some (GssiContext s_name t_name life mech flags here open))
  end.

(** the minor status is only written on failure *)
Definition gssi_delete_sec_context (context_handle : option (gpp_context_handle W)) : Pp W (Z * option Z) :=
  match context_handle with
  | None => pret (GSS_S_COMPLETE, Some 0)
  | Some ctx =>
      do+ '(rmaj, rmin) :=
        match ctx_local ctx with
        | Some local =>
            do+ '(maj, min) := plib (glue_delete_sec_context (Some local)) in
            pret (if negb (maj =? 0) then (maj, Some (gpp_map_error min)) else (GSS_S_COMPLETE, None))
        | None => pret (GSS_S_COMPLETE, None)
        end in
      match ctx_remote ctx with
      | Some remote =>
          do+ '(maj, min) := client (gpm_delete_sec_context GP_SOCKET_NAME fuel (Some remote)) in
          pret (if negb (maj =? 0) && (rmaj =? 0) then (maj, gpp_map_error <$> min) else (rmaj, rmin))
      | None => pret (rmaj, rmin)
      end
  end.

(** a failure deletes the context *)
Definition gssi_set_sec_context_option (context_handle : option (gpp_context_handle W))
    (desired_object : gss_OID) (value : bytes)
  : Pp W (Z * option Z * option (gpp_context_handle W)) :=
  do+ oid := oid_at desired_object in
  do+ ok := match context_handle with None => plib malloc | Some _ => pret true end in
  if negb ok then pret (GSS_S_FAILURE, Some 0, None) else
  do+ '(maj, min, ctx) := localize (default (ContextHandle None None) context_handle) in
  do+ '(maj, min, ctx) :=
    if negb (maj =? 0) then pret (maj, min, ctx) else
    do+ '(maj, min, local) := plib (gss_set_sec_context_option (ctx_local ctx) oid value) in
    pret (maj, Some min, ContextHandle (ctx_remote ctx) local) in
  if negb (maj =? 0) then
    do+ _ := gssi_delete_sec_context (Some ctx) in pret (maj, min, None)
  else pret (maj, min, Some ctx).

Definition gssi_import_sec_context : Z := GSS_S_UNAVAILABLE.

Definition gssi_import_sec_context_by_mech (mech_type : gss_OID) (token : bytes)
  : Pp W (Z * Z * option (gpp_context_handle W)) :=
  do+ ok := plib malloc in
  if negb ok then pret (GSS_S_FAILURE, 0, None) else
  do+ '(maj, wrapped) := gpp_wrap_sec_ctx_token mech_type token in
  match wrapped with
  | None => pret (maj, gpp_map_error 0, None)
  | Some wrapped =>
      do+ '(maj, min, local) := plib (gss_import_sec_context wrapped) in
      pret (maj, gpp_map_error min, if maj =? 0 then Some (ContextHandle None local) else None)
  end.
End contexts.
