(* ===== verification/GppNames.v ===== *)
(** * The plugin: names, mechanisms and statuses

    src/mechglue/gpp_import_and_canon_name.c, gpp_misc.c, gpp_indicate_mechs.c and
    gpp_display_status.c.

    A name handle is a name of the daemon, one of the local mechanism, or both; where both
    are there, most operations take the local one.  Handles are returned as the functions
    leave them.  A minor status that is [None] was not written. *)

From S2P Require Import Prelude Xdr RpcXdr GssxXdr World Util Conv Client Gpm GpmNames Plugin Glue.

Section names.
Context {XL : XdrLib} {W : Type} {AL : Alloc W} {NET : NetLib W} {GL : GssLib W}
  {MG : MechGlue W} {SE : Strerror}.
Variable GP_SOCKET_NAME : string.
Variable fuel : nat.
Variable GPP_DEFAULT_BEHAVIOR : gpp_behavior.

Definition no_handle (n : gpp_name_handle W) : bool :=
  match name_local n, name_remote n with None, None => true | _, _ => false end.

Definition mech_of (n : gpp_name_handle W) : gss_OID :=
  match name_mech_type n with Some m => OidAt 0 m | None => GSS_C_NO_OID end.

(** the name of the daemon is imported locally, for the mechanism *)
Definition make_local (n : gpp_name_handle W) (remote : gssx_name) (mech : gss_OID)
  : Pp W (Z * Z * gpp_name_handle W) :=
  do+ '(maj, min, local, remote) := gpp_name_to_local remote mech in
  pret (maj, min, NameHandle (name_mech_type n) (Some remote) local).

(** ** Names *)

Definition gssi_display_name (name : gpp_name_handle W) (output_name_type : bool)
  : Pp W (Z * option Z * (option bytes * option bytes) * gpp_name_handle W) :=
  match name_local name, name_remote name with
  | None, None => pret (GSS_S_BAD_NAME, None, (None, None), name)
  | Some local, _ =>
      do+ '(maj, min, (text, type)) := plib (gss_display_name (Some local)) in
      pret (maj, Some (gpp_map_error min), (Some text, type), name)
  | None, remote =>
      do+ '(maj, min, (text, type, remote)) := plib (gpm_display_name remote true output_name_type) in
      pret (maj, Some (gpp_map_error min), (text, type), set_name_remote remote name)
  end.

Definition gssi_display_name_ext (name : gpp_name_handle W) (display_as : option bytes)
  : Pp W (Z * option Z * option bytes) :=
  match name_local name, name_remote name with
  | None, None => pret (GSS_S_BAD_NAME, None, None)
  | Some local, _ =>
      do+ '(maj, min, text) := plib (glue_display_name_ext (Some local) display_as) in
      pret (maj, Some (gpp_map_error min), Some text)
  | None, Some _ => pret (GSS_S_UNAVAILABLE, Some 0, None)
  end.

Definition gssi_import_name : Z := GSS_S_UNAVAILABLE.

(** The name stays one of the daemon: importing it locally would lose its type. *)
Definition gssi_import_name_by_mech (mech_type : gss_OID) (buffer input_name_type : option bytes)
  : Pp W (Z * option Z * option (gpp_name_handle W)) :=
  match mech_type with
  | GSS_C_NO_OID => pret (GSS_S_CALL_INACCESSIBLE_READ, None, None)
  | mech_type =>
      do+ oid := oid_of mech_type in
      do+ ok := plib malloc in
      if negb ok then pret (GSS_S_FAILURE, Some (gpp_map_error ENOMEM), None) else
      do+ '(maj, min, copy) := plib (gpp_copy_oid oid) in
      if negb (maj =? 0) then pret (maj, Some (gpp_map_error min), None) else
      do+ '(maj, min, remote) := plib (gpm_import_name buffer input_name_type true) in
      pret (maj, Some (gpp_map_error min),
            if negb (maj =? 0) then None else Some (NameHandle copy remote None))
  end.

(** a copy of the name of the daemon when there is one, of the local name otherwise *)
Definition gssi_duplicate_name (in_name : gpp_name_handle W)
  : Pp W (Z * option Z * option (gpp_name_handle W)) :=
  if no_handle in_name then pret (GSS_S_BAD_NAME, None, None) else
  do+ ok := plib malloc in
  if negb ok then pret (GSS_S_FAILURE, Some (gpp_map_error ENOMEM), None) else
  do+ '(maj, min, mech) := match name_mech_type in_name with
                           | Some m => plib (gpp_copy_oid m)
                           | None => pret (GSS_S_COMPLETE, 0, None)
                           end in
  if negb (maj =? 0) then pret (maj, Some (gpp_map_error min), None) else
  do+ '(maj, min, remote, local) :=
    match name_remote in_name with
    | Some n =>
        do+ '(maj, min', remote) := plib (gpm_duplicate_name n) in
        pret (maj, default min min', remote, None)
    | None =>
        do+ '(maj, min, local) := plib (glue_duplicate_name (name_local in_name)) in
        pret (maj, min, None, local)
    end in
  pret (maj, Some (gpp_map_error min),
        if negb (maj =? 0) then None else Some (NameHandle mech remote local)).

Definition gssi_inquire_name (name : gpp_name_handle W) (name_is_MN MN_mech attrs : bool)
  : Pp W (Z * option Z * (option Z * option bytes * option (option (list bytes)))) :=
  match name_local name, name_remote name with
  | None, None => pret (GSS_S_BAD_NAME, None, (None, None, None))
  | Some local, _ =>
      do+ '(maj, min, (mn, mech, names)) := plib (glue_inquire_name (Some local)) in
      pret (maj, Some (gpp_map_error min), (Some mn, mech, Some names))
  | None, Some remote =>
      do+ '(maj, min, i) := client (gpm_inquire_name remote name_is_MN MN_mech attrs) in
      pret (maj, Some (gpp_map_error min), (in_is_MN i, in_MN_mech i, in_attrs i))
  end.

(** gpm_release_name cannot fail; a name without handles is not released *)
Definition gssi_release_name (name : option (gpp_name_handle W)) : Pp W (Z * option Z) :=
  match name with
  | None => pret (GSS_S_BAD_NAME, None)
  | Some n =>
      if no_handle n then pret (GSS_S_BAD_NAME, None) else
      match name_local n with
      | Some local =>
          do+ '(maj, min) := plib (glue_release_name (Some local)) in
          pret (maj, Some (gpp_map_error min))
      | None => pret (GSS_S_COMPLETE, Some 0)
      end
  end.

(** A name without a local handle gets one, from the name of the daemon; [None] is a name with
    neither. *)
Definition compared_name (n : gpp_name_handle W) : Pp W (option (Z * Z * gpp_name_handle W)) :=
  match name_local n, name_remote n with
  | Some _, _ => pret (Some (GSS_S_COMPLETE, 0, n))
  | None, Some remote => do+ r := make_local n remote (mech_of n) in pret (Some r)
  | None, None => pret None
  end.

Definition gssi_compare_name (name1 name2 : gpp_name_handle W)
  : Pp W (Z * option Z * option Z * gpp_name_handle W * gpp_name_handle W) :=
  match name_local name1, name_local name2 with
  | None, None =>
      match name_remote name1, name_remote name2 with
      | None, None => pret (GSS_S_CALL_INACCESSIBLE_READ, None, None, name1, name2)
      | r1, r2 =>
          do+ '(maj, min, (equal, (r1, r2))) := plib (gpm_compare_name r1 r2) in
          pret (maj, Some (gpp_map_error min), Some equal, set_name_remote r1 name1, set_name_remote r2 name2)
      end
  | _, _ =>
      do+ r := compared_name name1 in
      match r with
      | None => pret (GSS_S_CALL_INACCESSIBLE_READ, None, None, name1, name2)
      | Some (maj, min, name1) =>
          if negb (maj =? 0) then pret (maj, Some (gpp_map_error min), None, name1, name2) else
          do+ r := compared_name name2 in
          match r with
          | None => pret (GSS_S_CALL_INACCESSIBLE_READ, None, None, name1, name2)
          | Some (maj, min, name2) =>
              if negb (maj =? 0) then pret (maj, Some (gpp_map_error min), None, name1, name2) else
              do+ '(maj, min, equal) := plib (gss_compare_name (name_local name1) (name_local name2)) in
              pret (maj, Some (gpp_map_error min), Some (Z.b2z equal), name1, name2)
          end
      end
  end.

(** attributes are those of the local name *)
Definition on_local_name {A} (name : gpp_name_handle W) (op : option gss_name -> M W (Z * Z * A))
  : Pp W (Z * option Z * option A) :=
  match name_local name, name_remote name with
  | None, None => pret (GSS_S_BAD_NAME, None, None)
  | Some local, _ =>
      do+ '(maj, min, out) := plib (op (Some local)) in
      pret (maj, Some (gpp_map_error min), Some out)
  | None, Some _ => pret (GSS_S_UNAVAILABLE, Some 0, None)
  end.

Definition gssi_get_name_attribute name (attr : bytes) (more : Z) :=
  on_local_name name (fun n => glue_get_name_attribute n attr more).
Definition gssi_set_name_attribute name (complete : Z) (attr value : bytes) :=
  on_local_name name (fun n => glue_set_name_attribute n complete attr value).
Definition gssi_delete_name_attribute name (attr : bytes) :=
  on_local_name name (fun n => glue_delete_name_attribute n attr).

(** ** Local names (gpp_misc.c) *)

Definition gssi_mech_invoke (desired_mech desired_object : gss_OID) (value : bytes) : Pp W (Z * Z * bytes) :=
  do+ object := oid_at desired_object in
  do+ special := gpp_special_mech desired_mech in
  do+ mech := oid_at special in
  do+ '(maj, min, value) := plib (gssspi_mech_invoke mech object value) in
  pret (maj, gpp_map_error min, value).

(** The daemon is asked first; when it does not support the request the name is made local.
    Any other failure of the daemon is forgotten when there is a local name. *)
Definition gssi_localname (name : option (gpp_name_handle W)) (mech_type : gss_OID)
  : Pp W (Z * Z * option bytes * option (gpp_name_handle W)) :=
  match name with
  | None => pret (GSS_S_CALL_INACCESSIBLE_READ, 0, None, None)
  | Some n =>
      if no_handle n then pret (GSS_S_CALL_INACCESSIBLE_READ, 0, None, name) else
      do+ mech := oid_at mech_type in
      do+ '(finished, maj, min, text, n) :=
        match name_remote n with
        | None => pret (false, GSS_S_COMPLETE, 0, None, n)
        | Some remote =>
            do+ '(maj, min, text) := client (gpm_localname GP_SOCKET_NAME fuel (Some remote) mech) in
            if maj =? GSS_S_COMPLETE then pret (true, maj, min, text, n)
            else if (maj =? GSS_S_FAILURE) && (min =? ENOTSUP) then
              match name_local n with
              | Some _ => pret (false, maj, min, None, n)
              | None =>
                  do+ '(maj, min, n) := make_local n remote mech_type in
                  pret (negb (maj =? 0), maj, min, None, n)
              end
            else pret (false, maj, min, None, n)
        end in
      if finished : bool then pret (maj, gpp_map_error min, text, Some n) else
      match name_local n with
      | None => pret (maj, gpp_map_error min, None, Some n)
      | Some local =>
          do+ special := gpp_special_mech mech_type in
          do+ spmech := oid_at special in
          do+ '(maj, min, text) := plib (gss_localname (Some local) spmech) in
          pret (maj, gpp_map_error min, Some text, Some n)
      end
  end.

(** "Only local for now" *)
Definition gssi_authorize_localname (name : option (gpp_name_handle W))
    (local_user local_nametype : option bytes) : Pp W (Z * Z * option (gpp_name_handle W)) :=
  match name with
  | None => pret (GSS_S_CALL_INACCESSIBLE_READ, 0, None)
  | Some n =>
      do+ '(maj, min, n) :=
        match name_remote n, name_local n with
        | Some remote, None => make_local n remote (mech_of n)
        | _, _ => pret (GSS_S_COMPLETE, 0, n)
        end in
      if negb (maj =? 0) then pret (maj, gpp_map_error min, Some n) else
      do+ '(maj, min, username) := plib (gss_import_name local_user local_nametype) in
      if negb (maj =? 0) then pret (maj, gpp_map_error min, Some n) else
      do+ '(maj, min) := plib (glue_authorize_localname (name_local n) username) in
      pret (maj, gpp_map_error min, Some n)
  end.

Definition gssi_map_name_to_any (name : option (gpp_name_handle W)) (authenticated : Z) (type_id : bytes)
  : Pp W (Z * Z * option gss_any * option (gpp_name_handle W)) :=
  match name with
  | None => pret (GSS_S_CALL_INACCESSIBLE_READ, 0, None, None)
  | Some n =>
      do+ '(maj, min, n) :=
        match name_remote n, name_local n with
        | Some remote, None => make_local n remote (mech_of n)
        | _, _ => pret (GSS_S_COMPLETE, 0, n)
        end in
      if negb (maj =? 0) then pret (maj, gpp_map_error min, None, Some n) else
      do+ '(maj, min, any) := plib (glue_map_name_to_any (name_local n) authenticated type_id) in
      pret (maj, gpp_map_error min, any, Some n)
  end.

Definition gssi_release_any_name_mapping (name : option (gpp_name_handle W)) (type_id : bytes)
    (input : option gss_any) : Pp W (Z * Z) :=
  match name with
  | None => pret (GSS_S_CALL_INACCESSIBLE_READ, 0)
  | Some n =>
      match name_local n with
      | None => pret (GSS_S_UNAVAILABLE, 0)
      | Some local =>
          do+ '(maj, min) := plib (glue_release_any_name_mapping (Some local) type_id input) in
          pret (maj, gpp_map_error min)
      end
  end.

(** ** Where a question about a mechanism goes (gpp_indicate_mechs.c) *)

(** What gssi_inquire_names_for_mech and the two functions after it have in common: the
    behaviour decides who is asked first, and who is asked when that fails.  A failed local
    answer before the daemon's is the one that is reported when everything fails. *)
Definition ask_policy {A} (local remote : Pp W (Z * Z * A)) : Pp W (Z * Z * A) :=
  do+ behavior := gpp_get_behavior GPP_DEFAULT_BEHAVIOR in
  let then_remote tmaj tmin :=
    do+ '(maj, min, out) := remote in
    do+ '(maj, min, out) :=
      if (maj =? GSS_S_COMPLETE) || bool_decide (behavior = GPP_REMOTE_ONLY) then pret (maj, min, out)
      else local in
    let '(maj, min) := if negb (maj =? 0) && negb (tmaj =? 0) then (tmaj, tmin) else (maj, min) in
    pret (maj, gpp_map_error min, out) in
  if bool_decide (behavior = GPP_LOCAL_ONLY \/ behavior = GPP_LOCAL_FIRST) then
    do+ '(maj, min, out) := local in
    if (maj =? GSS_S_COMPLETE) || bool_decide (behavior = GPP_LOCAL_ONLY)
    then pret (maj, gpp_map_error min, out)
    else then_remote maj min
  else then_remote GSS_S_COMPLETE 0.

(** a question to the local mechanism goes under its special OID *)
Definition specially {A} (mech : gss_OID) (op : option bytes -> M W (Z * Z * A)) : Pp W (Z * Z * A) :=
  do+ special := gpp_special_mech mech in do+ oid := oid_at special in plib (op oid).

Definition gssi_indicate_mechs : Z * Z := (GSS_S_FAILURE, 0).

Definition gssi_inquire_names_for_mech (mech_type : gss_OID) (mech_names : bool)
  : Pp W (Z * Z * option (list bytes)) :=
  ask_policy (specially mech_type glue_inquire_names_for_mech)
    (do+ oid := oid_at mech_type in
     client (gpm_inquire_names_for_mech GP_SOCKET_NAME fuel oid mech_names)).

Definition gssi_inquire_attrs_for_mech (mech : gss_OID) (mech_attrs known_mech_attrs : bool)
  : Pp W (Z * Z * (option (list bytes) * option (list bytes))) :=
  ask_policy (specially mech glue_inquire_attrs_for_mech)
    (do+ oid := oid_at mech in
     client (gpm_inquire_attrs_for_mech GP_SOCKET_NAME fuel oid mech_attrs known_mech_attrs)).

Definition gssi_inquire_saslname_for_mech (desired_mech : gss_OID) (outs : bool)
  : Pp W (Z * Z * option (bytes * bytes * bytes)) :=
  ask_policy (specially desired_mech glue_inquire_saslname_for_mech)
    (do+ oid := oid_at desired_mech in
     client (gpm_inquire_saslname_for_mech GP_SOCKET_NAME fuel oid outs)).

Definition gssi_inquire_mech_for_saslname : Z := GSS_S_UNAVAILABLE.

(** ** Statuses (gpp_display_status.c) *)

(** only for minor statuses; the library is asked for those the daemon did not send *)
Definition gssi_display_status (status_value status_type message_context : Z)
  : Pp W (Z * option Z * option bytes) :=
  if negb (status_type =? GSS_C_MECH_CODE) then pret (GSS_S_BAD_STATUS, None, None) else
  let val := gpp_unmap_error status_value in
  do+ '(maj, min, text) := client (gpm_display_status val GSS_C_MECH_CODE message_context) in
  if maj =? GSS_S_UNAVAILABLE then
    do+ '(maj, min, (_, text)) := plib (gss_display_status val GSS_C_MECH_CODE None message_context) in
    pret (maj, Some min, Some text)
  else pret (maj, min, text).
End names.
