(* ===== verification/GppCreds.v ===== *)
(** * The plugin: credentials

    The first half of src/mechglue/gpp_creds.c: handles, the cache, default credentials.

    A credential of the daemon is an encrypted blob; the plugin keeps it in the user's
    credential cache, as the ticket of a made-up service, and finds it there the next time.
    A credential handle is returned as the functions leave it. *)

From S2P Require Import Prelude Xdr RpcXdr GssxXdr RpcProcess World Util Conv Creds Client Gpm GpmNames.
From S2P Require Import GpmCreds Plugin Glue.

(** ** The credential cache (libkrb5)

    A context of the library holds the name of the default cache, which is the argument of
    the calls that depend on it; [None] is the one of the configuration. *)
Class CacheLib (W : Type) := {
  cc_handle : Type;
  principal : Type;
  glue_init_context : M W Z;
  krb5_parse_name : bytes -> M W (Z * option principal);
  krb5_cc_set_default_name : option bytes -> M W Z;
  krb5_cc_default_name : option bytes -> M W bytes;
  krb5_cc_default : option bytes -> M W (Z * option cc_handle);
  glue_cc_resolve : bytes -> M W (Z * option cc_handle);
  krb5_cc_initialize : option cc_handle -> option principal -> M W Z;
  (* client, server, ticket *)
  krb5_cc_store_cred : option cc_handle -> option principal * option principal * bytes -> M W Z;
  krb5_cc_cache_match : option principal -> M W (Z * option cc_handle);
  krb5_cc_new_unique : bytes -> M W (Z * option cc_handle);
  krb5_cc_switch : option cc_handle -> M W Z;
  krb5_cc_get_principal : option cc_handle -> M W (Z * option principal);
  (* client and server; the ticket *)
  krb5_cc_retrieve_cred : option cc_handle -> option principal * option principal -> M W (Z * bytes);
}.

Definition GPKRB_SRV_NAME : bytes := String.list_byte_of_string "Encrypted/Credentials/v1@X-GSSPROXY:".
Definition colon : Byte.byte := Byte.x3a.

Section creds.
Context {XL : XdrLib} {W : Type} {AL : Alloc W} {NET : NetLib W} {GL : GssLib W}
  {MG : MechGlue W} {CL : CacheLib W} {SE : Strerror}.
Variable GP_SOCKET_NAME : string.
Variable fuel : nat.
Variable GPP_DEFAULT_BEHAVIOR : gpp_behavior.
Variable GSS_ALWAYS_INTERPOSE : bool.

(** ** Handles *)

(** the cache of a handle, when it has one, is the only element of its store *)
Definition gpp_cred_handle_init (defcred : bool) (ccache : option bytes)
  : M W (Z * Z * option (gpp_cred_handle W)) :=
  let failed := mret (GSS_S_FAILURE, ENOMEM, None) in
  let* ok := malloc in
  if negb ok then failed else
  match ccache with
  | None => mret (GSS_S_COMPLETE, 0, Some (CredHandle None [] defcred None))
  | Some cc =>
      let* ok := malloc in
      if negb ok then failed else
      let* ok := malloc in
      if negb ok then failed else
      let* ok := malloc in
      if negb ok then failed else
      mret (GSS_S_COMPLETE, 0, Some (CredHandle None [KV "ccache" (Some cc)] defcred None))
  end.

Definition gpp_cred_handle_free (handle : option (gpp_cred_handle W)) : M W (Z * Z) :=
  match handle with
  | Some h => match cred_local h with
              | Some local => glue_release_cred (Some local)
              | None => mret (GSS_S_COMPLETE, 0)
              end
  | None => mret (GSS_S_COMPLETE, 0)
  end.

(** an empty buffer is one without bytes *)
Definition gpp_creds_are_equal (a b : option gssx_cred) : bool :=
  match a, b with
  | None, None => true
  | Some a, Some b =>
      bool_decide (name_display_name (cred_desired_name a) = name_display_name (cred_desired_name b)) &&
      (len (cred_elements a) =? len (cred_elements b)) &&
      bool_decide (cred_cred_handle_reference a = cred_cred_handle_reference b)
  | _, _ => false
  end.

(** ** The credentials of the daemon in the user's cache *)

(** client, server and ticket; without memory for the ticket the encoder writes to a null
    pointer, [None] *)
Definition gpp_construct_cred (creds : gssx_cred)
  : M W (option (Z * (option principal * option principal * bytes))) :=
  let* '(ret, client) := krb5_parse_name (to_nul (name_display_name (cred_desired_name creds))) in
  if negb (ret =? 0) then mret (Some (ret, (client, None, []))) else
  let* '(ret, server) := krb5_parse_name GPKRB_SRV_NAME in
  if negb (ret =? 0) then mret (Some (ret, (client, server, []))) else
  let* ok := malloc in
  if negb ok then mret None else
  mret (Some match xenc xdr_gssx_cred creds (xdrmem_create GPKRB_MAX_CRED_SIZE) with
             | None => (ENOSPC, (client, server, []))
             | Some s => (0, (client, server, xdr_buffer s))
             end).

(** the cache the store names, set as the default one *)
Fixpoint set_default_cache (cred_store : list kv_element) : M W (Z * option bytes) :=
  match cred_store with
  | [] => mret (0, None)
  | e :: store =>
      if String.eqb (kv_key e) "ccache" then
        let* ret := krb5_cc_set_default_name (kv_value e) in mret (ret, kv_value e)
      else set_default_cache store
  end.

(** a FILE cache cannot replace one credential: it is emptied *)
Definition is_file (cc_name : bytes) : bool :=
  bool_decide (take 5 cc_name = String.list_byte_of_string "FILE:") || negb (bool_decide (colon ∈ cc_name)).

(** the type of a cache is its name up to the colon *)
Fixpoint up_to_colon (cc_name : bytes) : bytes :=
  match cc_name with
  | [] => []
  | c :: rest => if bool_decide (c = colon) then [] else c :: up_to_colon rest
  end.

(** [None] is a crash *)
Definition gpp_store_remote_creds (store_as_default_cred : bool) (cred_store : option (list kv_element))
    (creds : gssx_cred) : M W (option (Z * Z)) :=
  let done ret := mret (Some (if negb (ret =? 0) then GSS_S_FAILURE else GSS_S_COMPLETE, u32 ret)) in
  let* ret := glue_init_context in
  if negb (ret =? 0) then done ret else
  let* r := gpp_construct_cred creds in
  match r with
  | None => mret None
  | Some (ret, (client, server, ticket)) =>
      if negb (ret =? 0) then done ret else
      let* '(ret, name) := set_default_cache (default [] cred_store) in
      if negb (ret =? 0) then done ret else
      let* cc_name := krb5_cc_default_name name in
      if is_file cc_name then
        let* '(ret, ccache) := krb5_cc_default name in
        if negb (ret =? 0) then done ret else
        let* ret := krb5_cc_initialize ccache client in
        if negb (ret =? 0) then done ret else
        let* ret := krb5_cc_store_cred ccache (client, server, ticket) in
        done ret
      else
        let* '(ret, ccache) := krb5_cc_cache_match client in
        let* '(ret, ccache) :=
          if ret =? KRB5_CC_NOTFOUND then
            let* ok := malloc in
            if negb ok then mret (ENOMEM, None) else
            let* '(ret, ccache) := krb5_cc_new_unique (up_to_colon cc_name) in
            if negb (ret =? 0) then mret (ret, ccache) else
            let* ret := krb5_cc_initialize ccache client in mret (ret, ccache)
          else mret (ret, ccache) in
        if negb (ret =? 0) then done ret else
        let* ret := krb5_cc_store_cred ccache (client, server, ticket) in
        if negb (ret =? 0) then done ret else
        if store_as_default_cred then let* ret := krb5_cc_switch ccache in done ret else done 0
  end.

Definition gppint_retrieve_remote_creds (ccache_name : option bytes) (name : option gssx_name)
  : M W (Z * Z * option gssx_cred) :=
  let failed ret := mret (GSS_S_FAILURE, u32 ret, None) in
  let* ret := glue_init_context in
  if negb (ret =? 0) then failed ret else
  let* '(ret, ccache) := match ccache_name with
                         | Some n => glue_cc_resolve n
                         | None => krb5_cc_default None
                         end in
  if negb (ret =? 0) then failed ret else
  let* '(ret, client) := match name with
                         | Some n => krb5_parse_name (to_nul (name_display_name n))
                         | None => krb5_cc_get_principal ccache
                         end in
  if negb (ret =? 0) then failed ret else
  let* '(ret, server) := krb5_parse_name GPKRB_SRV_NAME in
  if negb (ret =? 0) then failed ret else
  let* '(ret, ticket) := krb5_cc_retrieve_cred ccache (client, server) in
  if negb (ret =? 0) then failed ret else
  match xdec xdr_gssx_cred ticket with
  | Some (creds, _) => mret (GSS_S_COMPLETE, 0, Some creds)
  | None => failed EIO
  end.

(** ** Releasing *)

(** The daemon is told first.  The remote credential is gone after that, whatever it said. *)
Definition gssi_release_cred (cred_handle : option (gpp_cred_handle W)) : Pp W (Z * Z) :=
  do+ '(tmaj, tmin) := client (gpm_release_cred GP_SOCKET_NAME fuel (cred_handle ≫= cred_remote)) in
  do+ '(maj, min) := plib (gpp_cred_handle_free (set_cred_remote None <$> cred_handle)) in
  pret (if negb (tmaj =? 0) && (maj =? GSS_S_COMPLETE) then (tmaj, default 0 tmin) else (maj, min)).

(** ** Default credentials *)

(** the handle with the local credential, which is written when the library is asked *)
Definition get_local_def_creds (name : option (gpp_name_handle W)) (cred_usage : Z)
    (cred : gpp_cred_handle W) : Pp W (Z * Z * gpp_cred_handle W) :=
  do+ interposed := gss_mech_interposer GSS_ALWAYS_INTERPOSE (Some gssproxy_mech_interposer) in
  match interposed with
  | None => pret (GSS_S_FAILURE, 0, cred)
  | Some interposed =>
      do+ special := gpp_special_available_mechs interposed in
      match special with
      | None => pret (GSS_S_FAILURE, 0, cred)
      | Some special =>
          do+ '(maj, min, (local, _, _)) := plib (glue_acquire_cred_from (name ≫= name_local) 0
            (Some special) cred_usage []) in
          pret (maj, min, set_cred_local local cred)
      end
  end.

(** the daemon's side: a credential of the user's cache goes with the request, and what comes
    back is stored when it is another one; the remote credential as it is left *)
Definition get_remote_def_creds (name : option (gpp_name_handle W)) (cred_usage : Z)
    (cred : gpp_cred_handle W) : Pp W (Z * Z * gpp_cred_handle W) :=
  do+ '(_, _, premote) := plib (gppint_retrieve_remote_creds None (name ≫= name_remote)) in
  do+ '(maj, min, out) := client (gpm_acquire_cred GP_SOCKET_NAME fuel premote None 0 None cred_usage
    false true false false) in
  let cred := match aq_cred out with Some r => set_cred_remote r cred | None => cred end in
  if negb (maj =? 0) then pret (maj, min, cred) else
  match premote with
  | None => pret (maj, min, cred)
  | Some _ =>
      if gpp_creds_are_equal premote (cred_remote cred) then pret (maj, min, cred) else
      do+ c := pderef (cred_remote cred) in
      do+ r := plib (gpp_store_remote_creds (default_creds cred) (Some (cred_store cred)) c) in
      do+ '(maj, min) := pderef r in
      pret (maj, min, cred)
  end.

(** Local first, the daemon first, or one only.  A handle that was given is kept when all
    fails; a new one is released. *)
Definition gppint_get_def_creds (behavior : gpp_behavior) (name : option (gpp_name_handle W))
    (cred_usage : Z) (cred_handle : option (gpp_cred_handle W))
  : Pp W (Z * Z * option (gpp_cred_handle W)) :=
  do+ '(maj, min, cred) := match cred_handle with
                           | Some c => pret (GSS_S_COMPLETE, 0, Some c)
                           | None => plib (gpp_cred_handle_init true None)
                           end in
  match cred with
  | None => pret (maj, min, cred_handle)
  | Some cred =>
      let finish tmaj tmin maj min cred :=
        let '(maj, min) := if negb (maj =? 0) && negb (tmaj =? 0) then (tmaj, tmin) else (maj, min) in
        match cred_handle with
        | None => if maj =? 0 then pret (maj, min, Some cred) else
                  do+ _ := gssi_release_cred (Some cred) in pret (maj, min, None)
        | Some _ => pret (maj, min, Some cred)
        end in
      let remotely tmaj tmin cred :=
        do+ '(maj, min, cred) := get_remote_def_creds name cred_usage cred in
        if (maj =? 0) || negb (bool_decide (behavior = GPP_REMOTE_FIRST)) then finish tmaj tmin maj min cred else
        do+ '(maj, min, cred) := get_local_def_creds name cred_usage cred in
        finish tmaj tmin maj min cred in
      if bool_decide (behavior = GPP_LOCAL_ONLY \/ behavior = GPP_LOCAL_FIRST) then
        do+ '(maj, min, cred) := get_local_def_creds name cred_usage cred in
        if (maj =? 0) || bool_decide (behavior = GPP_LOCAL_ONLY) then finish GSS_S_COMPLETE 0 maj min cred
        else remotely maj min cred
      else remotely GSS_S_COMPLETE 0 cred
  end.
End creds.
