(* ===== verification/GppCredOps.v ===== *)
(** * The plugin: operations on a credential

    The second half of src/mechglue/gpp_creds.c.  A minor status that is [None] was not
    written. *)

From S2P Require Import Prelude Xdr RpcXdr GssxXdr World Util Conv Export Creds Client Gpm GpmNames GpmCreds.
From S2P Require Import Plugin Glue GppCreds.

(** the OID of the first option, and the structure its value points to *)
Definition gpp_allowed_enctypes_oid : bytes := map byte_of [42; 134; 72; 134; 247; 18; 1; 2; 2; 5; 4].
Record gpp_allowable_enctypes := AllowableEnctypes { ae_ktypes : list Z }.

(** what a value points to: the array of encryption types, or plain bytes *)
Inductive option_value := Enctypes (ae : gpp_allowable_enctypes) | Plain (b : bytes).
Definition plain_value (v : option_value) : bytes := match v with Plain b => b | Enctypes _ => [] end.

Section operations.
Context {XL : XdrLib} {W : Type} {AL : Alloc W} {NET : NetLib W} {GL : GssLib W}
  {MG : MechGlue W} {CL : CacheLib W} {SE : Strerror}.
Variable GP_SOCKET_NAME : string.
Variable fuel : nat.
Variable GPP_DEFAULT_BEHAVIOR : gpp_behavior.
Variable GSS_ALWAYS_INTERPOSE : bool.

(** ** Inquiries

    Both inquiries take the default credential when there is none, ask the side that has the
    credential, and release what they acquired. *)
Definition with_cred {A} (cred_handle : option (gpp_cred_handle W)) (name : bool)
    (ask : gpp_cred_handle W -> Pp W (Z * Z * A)) : Pp W (Z * Z * option A) :=
  do+ '(maj, min, cred) :=
    match cred_handle with
    | Some c => pret (GSS_S_COMPLETE, 0, Some c)
    | None =>
        do+ behavior := gpp_get_behavior GPP_DEFAULT_BEHAVIOR in
        gppint_get_def_creds GP_SOCKET_NAME fuel GSS_ALWAYS_INTERPOSE behavior None GSS_C_INITIATE None
    end in
  do+ '(maj, min, out) :=
    if negb (maj =? 0) then pret (maj, min, None) else
    do+ ok := plib (if name then malloc else mret true) in
    if negb ok then pret (GSS_S_FAILURE, ENOMEM, None) else
    do+ c := pderef cred in
    do+ '(maj, min, out) := ask c in
    pret (maj, min, Some out) in
  do+ _ := match cred_handle with
           | None => do+ _ := gssi_release_cred GP_SOCKET_NAME fuel cred in pret tt
           | Some _ => pret tt
           end in
  pret (maj, gpp_map_error min, if maj =? GSS_S_COMPLETE then out else None).

Record gssi_cred := GssiCred {
  gq_name : option (gpp_name_handle W); gq_lifetime : Z; gq_usage : Z; gq_mechs : list bytes }.

Definition gssi_inquire_cred (cred_handle : option (gpp_cred_handle W)) (name : bool)
  : Pp W (Z * Z * option gssi_cred) :=
  with_cred cred_handle name (fun c =>
    match cred_local c, cred_remote c with
    | Some local, _ =>
        do+ '(maj, min, i) := plib (gss_inquire_cred (Some local) name) in
        pret (maj, min, GssiCred (if name then Some (NameHandle None None (ci_name i)) else None)
                          (ci_lifetime i) (ci_usage i) (ci_mechs i))
    | None, Some remote =>
        do+ '(maj, min, i) := plib (gpm_inquire_cred (Some remote) name true true true) in
        pret (maj, default 0 min,
              GssiCred (if name then Some (NameHandle None (iq_name i) None) else None)
                (default 0 (iq_lifetime i)) (default 0 (iq_usage i)) (default [] (iq_mechs i)))
    | None, None => pret (GSS_S_FAILURE, 0, GssiCred None 0 0 [])
    end).

Record gssi_cred_by_mech := GssiCredByMech {
  gm_name : option (gpp_name_handle W); gm_initiator : option Z; gm_acceptor : option Z;
  gm_usage : option Z }.

(** the local side is asked under the special OID, the daemon's under the regular one *)
Definition gssi_inquire_cred_by_mech (cred_handle : option (gpp_cred_handle W)) (mech_type : gss_OID)
    (name : bool) : Pp W (Z * Z * option gssi_cred_by_mech) :=
  with_cred cred_handle name (fun c =>
    match cred_local c, cred_remote c with
    | Some local, _ =>
        do+ special := gpp_special_mech mech_type in
        do+ mech := oid_at special in
        do+ '(maj, min, i) := plib (glue_inquire_cred_by_mech (Some local) mech name) in
        pret (maj, min, GssiCredByMech (if name then Some (NameHandle None None (cm_name i)) else None)
                          (Some (cm_initiator i)) (Some (cm_acceptor i)) (Some (cm_usage i)))
    | None, Some remote =>
        do+ regular := gpp_unspecial_mech mech_type in
        do+ mech := oid_at regular in
        do+ '(maj, min, i) := plib (gpm_inquire_cred_by_mech (Some remote) mech name true true true) in
        pret (maj, min, GssiCredByMech (if name then Some (NameHandle None (im_name i) None) else None)
                          (im_initiator i) (im_acceptor i) (im_usage i))
    | None, None => pret (GSS_S_FAILURE, 0, GssiCredByMech None None None None)
    end).

Definition gssi_inquire_cred_by_oid (cred_handle : option (gpp_cred_handle W)) (desired_object : bytes)
  : Pp W (Z * Z * option (list bytes)) :=
  match cred_handle with
  | None => pret (GSS_S_CALL_INACCESSIBLE_READ, 0, None)
  | Some c =>
      match cred_local c with
      | None => pret (GSS_S_UNAVAILABLE, 0, None)
      | Some local =>
          do+ '(maj, min, data) := plib (gss_inquire_cred_by_oid (Some local) desired_object) in
          pret (maj, gpp_map_error min, Some data)
      end
  end.

(** ** Options *)

(** an array of 32-bit integers in memory, the low byte first *)
Definition enctypes_image (ae : gpp_allowable_enctypes) : bytes := flat_map (le_bytes 4) (ae_ktypes ae).

Definition set_element_options (e : gssx_cred_element) (o : list gssx_option) : gssx_cred_element :=
  Mk_cred_element (cred_element_MN e) (cred_element_mech e) (cred_element_cred_usage e)
    (cred_element_initiator_time_rec e) (cred_element_acceptor_time_rec e) o.

(** the option is added to the first element of a krb5 mechanism *)
Fixpoint add_krb5_option (name value : bytes) (es : list gssx_cred_element)
  : M W (Z * list gssx_cred_element) :=
  match es with
  | [] => mret (EINVAL, [])
  | e :: es =>
      if gpp_is_krb5_oid (Some (gp_conv_gssx_to_oid (Some (cred_element_mech e)))) then
        let* '(ret, options) := gp_add_option (cred_element_options e) name value in
        mret (ret, set_element_options e options :: es)
      else
        let* '(ret, es) := add_krb5_option name value es in mret (ret, e :: es)
  end.

Definition set_cred_elements (c : gssx_cred) (es : list gssx_cred_element) : gssx_cred :=
  Mk_cred (cred_desired_name c) es (cred_cred_handle_reference c) (cred_needs_release c).

Definition set_krb5_option (name value : bytes) (cred : gssx_cred) : M W (Z * Z * gssx_cred) :=
  let* '(ret, es) := add_krb5_option name value (cred_elements cred) in
  mret (if negb (ret =? 0) then GSS_S_FAILURE else GSS_S_COMPLETE, ret, set_cred_elements cred es).

(** A value of another shape is read as one of this shape: [None]. *)
Definition gpp_set_opt_allowable_entypes (cred : gssx_cred) (value : option_value)
  : option (M W (Z * Z * gssx_cred)) :=
  match value with
  | Enctypes ae => Some (set_krb5_option (cstr "krb5_set_allowed_enctype_values") (enctypes_image ae) cred)
  | Plain _ => None
  end.
Definition gpp_set_no_ci_flags (cred : gssx_cred) : M W (Z * Z * gssx_cred) :=
  set_krb5_option (cstr "krb5_set_no_ci_flags") [] cred.

(** the minor status of an option that is not known is not written *)
Definition gpp_remote_options (cred : gssx_cred) (desired_object : option bytes) (value : option_value)
  : Pp W (Z * option Z * gssx_cred) :=
  if gss_oid_equal (Some gpp_allowed_enctypes_oid) desired_object then
    do+ m := pderef (gpp_set_opt_allowable_entypes cred value) in
    do+ '(maj, min, cred) := plib m in pret (maj, Some min, cred)
  else if gss_oid_equal (Some GSS_KRB5_CRED_NO_CI_FLAGS_X) desired_object then
    do+ '(maj, min, cred) := plib (gpp_set_no_ci_flags cred) in pret (maj, Some min, cred)
  else pret (GSS_S_UNAVAILABLE, None, cred).

Definition gssi_set_cred_option (cred_handle : option (gpp_cred_handle W)) (desired_object : option bytes)
    (value : option_value) : Pp W (Z * Z * option (gpp_cred_handle W)) :=
  match cred_handle with
  | None => pret (GSS_S_CALL_INACCESSIBLE_READ, 0, None)
  | Some c =>
      match cred_remote c, cred_local c with
      | Some remote, _ =>
          do+ '(maj, min, remote) := gpp_remote_options remote desired_object value in
          pret (maj, default 0 min, Some (set_cred_remote (Some remote) c))
      | None, None => pret (GSS_S_UNAVAILABLE, 0, cred_handle)
      | None, Some local =>
          do+ '(maj, min, local) := plib (glue_set_cred_option (Some local) desired_object (plain_value value)) in
          pret (maj, gpp_map_error min, Some (set_cred_local local c))
      end
  end.

(** ** Storing, exporting and importing *)

(** a credential of the daemon goes to the user's cache *)
Definition gssi_store_cred_into (input_cred_handle : option (gpp_cred_handle W)) (input_usage : Z)
    (desired_mech : gss_OID) (overwrite_cred default_cred : Z) (cred_store : option (list kv_element))
  : Pp W (Z * Z * option (option (list bytes) * Z)) :=
  match input_cred_handle with
  | None => pret (GSS_S_CALL_INACCESSIBLE_READ, 0, None)
  | Some c =>
      match cred_remote c with
      | Some remote =>
          do+ r := plib (gpp_store_remote_creds (negb (default_cred =? 0)) cred_store remote) in
          do+ '(maj, min) := pderef r in
          pret (maj, gpp_map_error min, None)
      | None =>
          do+ special := gpp_special_mech desired_mech in
          do+ mech := oid_at special in
          do+ '(maj, min, out) := plib (glue_store_cred_into (cred_local c) input_usage mech
            overwrite_cred default_cred cred_store) in
          pret (maj, gpp_map_error min, Some out)
      end
  end.

Definition gssi_store_cred input_cred_handle input_usage desired_mech overwrite_cred default_cred :=
  gssi_store_cred_into input_cred_handle input_usage desired_mech overwrite_cred default_cred None.

Definition gssi_export_cred (cred_handle : option (gpp_cred_handle W)) : Pp W (Z * option Z * option bytes) :=
  match cred_handle with
  | None => pret (GSS_S_CALL_INACCESSIBLE_READ, None, None)
  | Some c =>
      match cred_local c with
      | None => pret (GSS_S_CRED_UNAVAIL, None, None)
      | Some local =>
          do+ '(maj, min, token) := plib (gss_export_cred (Some local)) in
          pret (maj, Some min, Some token)
      end
  end.

Definition gssi_import_cred : Z := GSS_S_UNAVAILABLE.

(** The first four bytes are the length of the whole token, where gpp_wrap_sec_ctx_token
    has the length of the OID. *)
Definition gssi_import_cred_by_mech (mech_type : gss_OID) (token : bytes)
  : Pp W (Z * Z * option (gpp_cred_handle W)) :=
  do+ '(maj, min, cred) := plib (gpp_cred_handle_init false None) in
  match cred with
  | None => pret (maj, min, None)
  | Some cred =>
      do+ spmech := gpp_special_mech mech_type in
      match spmech with
      | GSS_C_NO_OID => pret (GSS_S_FAILURE, gpp_map_error 0, None)
      | p =>
          do+ oid := oid_of p in
          do+ ok := plib malloc in
          if negb ok then pret (GSS_S_FAILURE, gpp_map_error 0, None) else
          let wrapped := be_bytes 4 (4 + len oid + len token) ++ oid ++ token in
          do+ '(maj, min, local) := plib (gss_import_cred wrapped) in
          if maj =? GSS_S_COMPLETE then pret (maj, gpp_map_error min, Some (set_cred_local local cred)) else
          do+ _ := plib (gpp_cred_handle_free (Some (set_cred_local local cred))) in
          pret (maj, gpp_map_error min, None)
      end
  end.
End operations.
