(* ===== verification/GppAcquire.v ===== *)
(** * The plugin: acquiring credentials

    src/mechglue/gpp_acquire_cred.c.  Name handles are returned as the functions leave them.  *)

From S2P Require Import Prelude Xdr RpcXdr GssxXdr World Util Conv Creds Client Gpm GpmNames GpmCreds Plugin.
From S2P Require Import Glue GppNames GppCreds.

Section acquire.
Context {XL : XdrLib} {W : Type} {AL : Alloc W} {NET : NetLib W} {GL : GssLib W}
  {MG : MechGlue W} {CL : CacheLib W} {SE : Strerror}.
Variable GP_SOCKET_NAME : string.
Variable fuel : nat.
Variable GPP_DEFAULT_BEHAVIOR : gpp_behavior.

(** the credential that is made, the name it is for, and what is reported of it *)
Record acquisition := Acquisition {
  ao_cred : gpp_cred_handle W; ao_name : option (gpp_name_handle W);
  ao_mechs : option (option (list bytes)); ao_time : option Z }.

Definition set_ao_name (n : option (gpp_name_handle W)) (a : acquisition) : acquisition :=
  Acquisition (ao_cred a) n (ao_mechs a) (ao_time a).

(** A null set of mechanisms is read without a test.  The name is made local for its
    mechanism; an impersonator gives its local credential. *)
Definition acquire_local (imp_cred_handle : option (gpp_cred_handle W)) (time_req : Z)
    (desired_mechs : option (list bytes)) (cred_usage : Z) (cred_store : option (list kv_element))
    (a : acquisition) : Pp W (Z * Z * acquisition) :=
  do+ mechs := pderef desired_mechs in
  do+ special := gpp_special_available_mechs mechs in
  match special with
  | None => pret (GSS_S_BAD_MECH, 0, a)
  | Some special =>
      do+ '(maj, min, name) :=
        match ao_name a with
        | Some n =>
            match name_remote n, name_local n with
            | Some remote, None => do+ '(maj, min, n) := make_local n remote (mech_of n) in pret (maj, min, Some n)
            | _, _ => pret (GSS_S_COMPLETE, 0, Some n)
            end
        | None => pret (GSS_S_COMPLETE, 0, None)
        end in
      if negb (maj =? 0) then pret (maj, min, set_ao_name name a) else
      do+ '(maj, min, (cred, mechs, time)) :=
        plib (match imp_cred_handle with
              | Some imp => glue_acquire_cred_impersonate_name (cred_local imp) (name ≫= name_local)
                              time_req (Some special) cred_usage
              | None => glue_acquire_cred_from (name ≫= name_local) time_req (Some special) cred_usage
                          (default [] cred_store)
              end) in
      pret (maj, min, Acquisition (set_cred_local cred (ao_cred a)) name (Some mechs) (Some time))
  end.

(** a local name gets a name of the daemon *)
Definition make_remote (name : option (gpp_name_handle W)) : M W (Z * Z * option (gpp_name_handle W)) :=
  match name with
  | Some n =>
      match name_local n, name_remote n with
      | Some local, None =>
          let* '(maj, min, remote) := gpp_local_to_name (Some local) in
          mret (maj, min, Some (set_name_remote remote n))
      | _, _ => mret (GSS_S_COMPLETE, 0, name)
      end
  | None => mret (GSS_S_COMPLETE, 0, None)
  end.

(** asking the daemon *)
Definition acquire_remote (in_cred : option gssx_cred) (time_req : Z) (desired_mechs : option (list bytes))
    (cred_usage : Z) (impersonate actual_mechs time_rec : bool) (a : acquisition)
  : Pp W (Z * Z * acquisition) :=
  do+ '(maj, min, out) := client (gpm_acquire_cred GP_SOCKET_NAME fuel in_cred (ao_name a ≫= name_remote)
    time_req desired_mechs cred_usage impersonate true actual_mechs time_rec) in
  pret (maj, min, if maj =? GSS_S_COMPLETE then
                    Acquisition (match aq_cred out with Some r => set_cred_remote r (ao_cred a) | None => ao_cred a end)
                      (ao_name a) (aq_mechs out) (aq_time out)
                  else a).

(** the cache a store names *)
Fixpoint cache_of (store : list kv_element) : option bytes :=
  match store with
  | [] => None
  | e :: store => if String.eqb (kv_key e) "ccache" then kv_value e else cache_of store
  end.

(** the first failure that counts is the one that is reported *)
Definition worst (tmaj tmin maj min : Z) : Z * Z :=
  if negb (maj =? GSS_S_COMPLETE) && negb (maj =? GSS_S_CONTINUE_NEEDED) && negb (tmaj =? GSS_S_COMPLETE)
  then (tmaj, tmin) else (maj, min).

(** what a function of this file ends with; the handle of a failure is released *)
Definition acquired_or_not (tmaj tmin maj min : Z) (a : acquisition)
  : M W (Z * Z * option acquisition * option (gpp_name_handle W)) :=
  let '(maj, min) := worst tmaj tmin maj min in
  if maj =? GSS_S_COMPLETE then mret (maj, gpp_map_error min, Some a, ao_name a) else
  let* _ := gpp_cred_handle_free (Some (ao_cred a)) in
  mret (maj, gpp_map_error min, None, ao_name a).

(** The cache is looked at first: a credential of the daemon found there makes the daemon the
    first to be asked, whatever the behaviour but LOCAL_ONLY, and none in a cache the caller
    named makes it the second. *)
Definition gssi_acquire_cred_from (desired_name : option (gpp_name_handle W)) (time_req : Z)
    (desired_mechs : option (list bytes)) (cred_usage : Z) (cred_store : option (list kv_element))
    (output_cred_handle actual_mechs time_rec : bool)
  : Pp W (Z * Z * option acquisition * option (gpp_name_handle W)) :=
  if negb output_cred_handle then pret (GSS_S_FAILURE, gpp_map_error EINVAL, None, desired_name) else
  do+ behavior := gpp_get_behavior GPP_DEFAULT_BEHAVIOR in
  let ccache_name := cache_of (default [] cred_store) in
  do+ '(maj, min, out) := plib (gpp_cred_handle_init (negb (bool_decide (is_Some ccache_name))) ccache_name) in
  match out with
  | None => pret (maj, gpp_map_error min, None, desired_name)
  | Some out =>
      let a := Acquisition out desired_name None None in
      do+ '(ok, behavior, in_cred) :=
        if bool_decide (behavior = GPP_LOCAL_ONLY) then pret (true, behavior, None) else
        do+ ok := plib malloc in
        if negb ok then pret (false, behavior, None) else
        do+ '(maj, _, found) := plib (gppint_retrieve_remote_creds ccache_name None) in
        pret (true,
              if maj =? GSS_S_COMPLETE then GPP_REMOTE_FIRST
              else if bool_decide (is_Some ccache_name) then GPP_LOCAL_FIRST else behavior,
              if maj =? GSS_S_COMPLETE then found else None) in
      if negb ok then plib (acquired_or_not GSS_S_COMPLETE 0 GSS_S_FAILURE ENOMEM a) else
      let local := acquire_local None time_req desired_mechs cred_usage cred_store in
      let remotely tmaj tmin a :=
        do+ '(maj, min, name) := plib (make_remote (ao_name a)) in
        let a := set_ao_name name a in
        if negb (maj =? 0) then plib (acquired_or_not tmaj tmin maj min a) else
        do+ '(maj, min, a) := acquire_remote in_cred time_req desired_mechs cred_usage false actual_mechs time_rec a in
        if maj =? GSS_S_COMPLETE then
          match cred_remote (ao_cred a) with
          | Some c =>
              if gpp_creds_are_equal in_cred (Some c) then plib (acquired_or_not tmaj tmin maj min a) else
              do+ r := plib (gpp_store_remote_creds (default_creds (ao_cred a)) (Some (Glue.cred_store (ao_cred a))) c) in
              do+ '(tmaj, tmin) := pderef r in
              plib (acquired_or_not tmaj tmin (if negb (tmaj =? 0) then tmaj else maj) min a)
          | None => plib (acquired_or_not tmaj tmin maj min a)
          end
        else if bool_decide (behavior = GPP_REMOTE_FIRST) then
          let '(tmaj, tmin) := (maj, min) in
          do+ '(maj, min, a) := local a in plib (acquired_or_not tmaj tmin maj min a)
        else plib (acquired_or_not tmaj tmin maj min a) in
      if bool_decide (behavior = GPP_LOCAL_ONLY \/ behavior = GPP_LOCAL_FIRST) then
        do+ '(maj, min, a) := local a in
        if (maj =? GSS_S_COMPLETE) || bool_decide (behavior = GPP_LOCAL_ONLY)
        then plib (acquired_or_not GSS_S_COMPLETE 0 maj min a)
        else remotely maj min a
      else remotely GSS_S_COMPLETE 0 a
  end.

Definition gssi_acquire_cred desired_name time_req desired_mechs cred_usage :=
  gssi_acquire_cred_from desired_name time_req desired_mechs cred_usage None.

(** One lifetime is asked for and stands for both.  The store of the caller is not passed
    on, and its credential is not looked at. *)
Definition gssi_add_cred_from (input_cred_handle : option (gpp_cred_handle W))
    (desired_name : option (gpp_name_handle W)) (desired_mech : option bytes) (cred_usage : Z)
    (initiator_time_req acceptor_time_req : Z) (cred_store : option (list kv_element))
    (output_cred_handle actual_mechs : bool)
  : Pp W (Z * option Z * option (acquisition * option Z * option Z) * option (gpp_name_handle W)) :=
  if negb output_cred_handle then pret (GSS_S_CALL_INACCESSIBLE_WRITE, None, None, desired_name) else
  do+ '(maj, min, mechs) :=
    match desired_mech with
    | None => pret (GSS_S_COMPLETE, 0, None)
    | Some m =>
        do+ '(maj, min, set) := plib gss_create_empty_oid_set in
        if negb (maj =? 0) then pret (maj, min, None) else
        do+ '(maj, min, set) := plib (gss_add_oid_set_member m set) in
        pret (maj, min, Some set)
    end in
  if negb (maj =? 0) then pret (maj, Some (gpp_map_error min), None, desired_name) else
  let time_req := if cred_usage =? GSS_C_ACCEPT then acceptor_time_req
                  else if cred_usage =? GSS_C_INITIATE then initiator_time_req
                  else if cred_usage =? GSS_C_BOTH then
                    (if initiator_time_req <? acceptor_time_req then acceptor_time_req else initiator_time_req)
                  else 0 in
  do+ '(maj, min, a, name) := gssi_acquire_cred_from desired_name time_req mechs cred_usage None true
    actual_mechs true in
  pret (maj, Some min,
        a' ← a;
        let time := ao_time a' in
        Some (a',
              if (cred_usage =? GSS_C_INITIATE) || (cred_usage =? GSS_C_BOTH) then time else None,
              if (cred_usage =? GSS_C_ACCEPT) || (cred_usage =? GSS_C_BOTH) then time else None), name).

Definition gssi_add_cred input_cred_handle desired_name desired_mech cred_usage itime atime :=
  gssi_add_cred_from input_cred_handle desired_name desired_mech cred_usage itime atime None.

(** With REMOTE_ONLY the set that is released at the end was never set. *)
Definition gssi_acquire_cred_with_password (desired_name : option (gpp_name_handle W)) (password : bytes)
    (time_req : Z) (desired_mechs : option (list bytes)) (cred_usage : Z) (output_cred_handle : bool)
  : Pp W (Z * option Z * option acquisition * option (gpp_name_handle W)) :=
  match desired_name with
  | None => pret (GSS_S_BAD_NAME, Some (gpp_map_error EINVAL), None, None)
  | Some name =>
      if negb output_cred_handle then pret (GSS_S_FAILURE, Some (gpp_map_error EINVAL), None, desired_name) else
      match desired_mechs with
      | None => pret (GSS_S_CALL_INACCESSIBLE_READ, None, None, desired_name)
      | Some mechs =>
          do+ behavior := gpp_get_behavior GPP_DEFAULT_BEHAVIOR in
          do+ '(maj, min, out) := plib (gpp_cred_handle_init false None) in
          match out with
          | None => pret (maj, Some (gpp_map_error min), None, desired_name)
          | Some out =>
              if bool_decide (behavior = GPP_REMOTE_ONLY \/ behavior = GPP_UNINITIALIZED) then pcrash else
              do+ special := gpp_special_available_mechs mechs in
              match special with
              | None => pret (GSS_S_FAILURE, Some (gpp_map_error EINVAL), None, desired_name)
              | Some special =>
                  do+ '(maj, min, name) := match name_remote name, name_local name with
                                           | Some remote, None => make_local name remote (mech_of name)
                                           | _, _ => pret (GSS_S_COMPLETE, 0, name)
                                           end in
                  if negb (maj =? 0) then pret (maj, Some (gpp_map_error min), None, Some name) else
                  do+ '(maj, min, (cred, mechs, time)) := plib (glue_acquire_cred_with_password
                    (name_local name) password time_req (Some special) cred_usage) in
                  pret (maj, Some (gpp_map_error min),
                        if maj =? GSS_S_COMPLETE then
                          Some (Acquisition (set_cred_local cred out) (Some name) (Some mechs) (Some time))
                        else None, Some name)
              end
          end
      end
  end.

Definition gssi_acquire_cred_impersonate_name (imp_cred_handle : option (gpp_cred_handle W))
    (desired_name : option (gpp_name_handle W)) (time_req : Z) (desired_mechs : option (list bytes))
    (cred_usage : Z) (output_cred_handle actual_mechs time_rec : bool)
  : Pp W (Z * Z * option acquisition * option (gpp_name_handle W)) :=
  match imp_cred_handle with
  | None => pret (GSS_S_NO_CRED, gpp_map_error EINVAL, None, desired_name)
  | Some imp =>
      if negb output_cred_handle then pret (GSS_S_FAILURE, gpp_map_error EINVAL, None, desired_name) else
      do+ '(maj, min, out) := plib (gpp_cred_handle_init false None) in
      match out with
      | None => pret (maj, gpp_map_error min, None, desired_name)
      | Some out =>
          let a := Acquisition out desired_name None None in
          let finish tmaj tmin maj min a :=
            let '(maj, min) := worst tmaj tmin maj min in
            pret (maj, gpp_map_error min, if maj =? GSS_S_COMPLETE then Some a else None, ao_name a) in
          do+ behavior := gpp_get_behavior GPP_DEFAULT_BEHAVIOR in
          let local := acquire_local (Some imp) time_req desired_mechs cred_usage None in
          let remotely tmaj tmin a :=
            do+ '(maj, min, name) := plib (make_remote (ao_name a)) in
            let a := set_ao_name name a in
            if negb (maj =? 0) then finish tmaj tmin maj min a else
            do+ '(maj, min, a) := acquire_remote (cred_remote imp) time_req desired_mechs cred_usage true
              actual_mechs time_rec a in
            if (maj =? GSS_S_COMPLETE) || negb (bool_decide (behavior = GPP_REMOTE_FIRST))
            then finish tmaj tmin maj min a
            else do+ '(maj, min, a) := local a in finish tmaj tmin maj min a in
          if bool_decide (behavior = GPP_LOCAL_ONLY \/ behavior = GPP_LOCAL_FIRST) then
            do+ '(maj, min, a) := local a in
            if (maj =? GSS_S_COMPLETE) || bool_decide (behavior = GPP_LOCAL_ONLY)
            then finish GSS_S_COMPLETE 0 maj min a
            else remotely maj min a
          else remotely GSS_S_COMPLETE 0 a
      end
  end.
End acquire.
