(* ===== verification/GppInit.v ===== *)
(** * The plugin: establishing a context

    src/mechglue/gpp_init_sec_context.c and gpp_accept_sec_context.c.  The handles of the
    caller are returned as the functions leave them. *)

From S2P Require Import Prelude Xdr RpcXdr GssxXdr World Util Conv Creds Client Gpm GpmNames GpmCreds.
From S2P Require Import GpmContexts Plugin Glue GppContext GppNames GppCreds GppAcquire.

Section establish.
Context {XL : XdrLib} {W : Type} {AL : Alloc W} {NET : NetLib W} {GL : GssLib W}
  {MG : MechGlue W} {CL : CacheLib W} {SE : Strerror}.
Variable GP_SOCKET_NAME : string.
Variable fuel : nat.
Variable GPP_DEFAULT_BEHAVIOR : gpp_behavior.
Variable GSS_ALWAYS_INTERPOSE : bool.

Definition is_established (maj : Z) : bool := (maj =? GSS_S_COMPLETE) || (maj =? GSS_S_CONTINUE_NEEDED).

(** a context handle that holds nothing is freed when the function fails *)
Definition kept_context (ctx : gpp_context_handle W) : option (gpp_context_handle W) :=
  match ctx_local ctx, ctx_remote ctx with None, None => None | _, _ => Some ctx end.

(** ** Initiating *)

(** what the caller asks for, and which results besides the token *)
Record init_request := InitRequest {
  iq_mech : gss_OID; iq_flags : Z; iq_time : Z; iq_cb : option channel_bindings;
  iq_token : option bytes; iq_want_mech : bool; iq_want_flags : bool; iq_want_time : bool }.

(** what has been stored for the caller so far *)
Record init_answer := InitAnswer {
  ia_mech : gss_OID; ia_token : option bytes; ia_flags : option Z; ia_time : option Z }.

Record init_state := InitState {
  in_cred : gpp_cred_handle W; in_ctx : gpp_context_handle W; in_name : gpp_name_handle W;
  in_answer : init_answer }.

Definition set_in_name (n : gpp_name_handle W) (st : init_state) : init_state :=
  InitState (in_cred st) (in_ctx st) n (in_answer st).
Definition set_in_cred (c : gpp_cred_handle W) (st : init_state) : init_state :=
  InitState c (in_ctx st) (in_name st) (in_answer st).

(** the name is made local, and the mechanism behind the special OID goes on *)
Definition init_ctx_local (q : init_request) (st : init_state) : Pp W (Z * Z * init_state) :=
  do+ '(maj, min, name) := match name_remote (in_name st), name_local (in_name st) with
                           | Some remote, None => make_local (in_name st) remote (iq_mech q)
                           | _, _ => pret (GSS_S_COMPLETE, 0, in_name st)
                           end in
  if negb (maj =? 0) then pret (maj, min, set_in_name name st) else
  do+ spmech := gpp_special_mech (iq_mech q) in
  do+ special := oid_at spmech in
  do+ '(maj, min, (ctx, mech, token, flags, time)) := plib (glue_init_sec_context
    (cred_local (in_cred st)) (ctx_local (in_ctx st)) (name_local name) special
    (iq_flags q) (iq_time q) (iq_cb q) (iq_token q)) in
  pret (maj, min, InitState (in_cred st) (ContextHandle (ctx_remote (in_ctx st)) ctx) name
                    (InitAnswer (match mech with Some m => OidAt 0 m | None => GSS_C_NO_OID end)
                       token (Some flags) (Some time))).

(** what the procedure of the client stores over what was there *)
Definition answer_of (out : initiated) (a : init_answer) : init_answer :=
  InitAnswer (match is_mech out with Some k => OidStatic k | None => ia_mech a end)
    (match is_token out with Some t => Some t | None => ia_token a end)
    (match is_flags out with Some f => Some f | None => ia_flags a end)
    (match is_time out with Some t => Some t | None => ia_time a end).

(** The daemon's side, after the name has been made one of the daemon.  A credential it sends
    along replaces the one it was asked with and is stored in the cache; that this or the
    search for a default credential fails is not looked at. *)
Definition init_ctx_remote (q : init_request) (st : init_state) : Pp W (Z * Z * init_state) :=
  do+ cred := match cred_remote (in_cred st) with
              | Some _ => pret (in_cred st)
              | None =>
                  do+ '(_, _, cred) := gppint_get_def_creds GP_SOCKET_NAME fuel GSS_ALWAYS_INTERPOSE
                    GPP_REMOTE_ONLY None GSS_C_INITIATE (Some (in_cred st)) in
                  pret (default (in_cred st) cred)
              end in
  do+ mech := oid_at (iq_mech q) in
  do+ '(maj, min, out) := client (gpm_init_sec_context GP_SOCKET_NAME fuel (cred_remote cred)
    (ctx_remote (in_ctx st)) (name_remote (in_name st)) mech
    (iq_flags q) (iq_time q) (iq_cb q) (iq_token q) (iq_want_mech q) (iq_want_flags q)
    (iq_want_time q) true) in
  let st := InitState cred (ContextHandle (is_context out) (ctx_local (in_ctx st))) (in_name st)
              (answer_of out (in_answer st)) in
  if negb (is_established maj) then pret (maj, min, st) else
  match is_cred out with
  | None => pret (maj, min, st)
  | Some new =>
      let cred := set_cred_remote (Some new) cred in
      do+ r := plib (gpp_store_remote_creds (default_creds cred) (Some (Glue.cred_store cred)) new) in
      do+ _ := pderef r in
      pret (maj, min, set_in_cred cred st)
  end.

(** the statuses, the context and the credential of the caller, the name, what was stored *)
Definition init_result : Type :=
  Z * Z * option (gpp_context_handle W) * option (gpp_cred_handle W) * option (gpp_name_handle W) *
  init_answer.

(** the end: the error of an attempt before wins, a minor status is only given on failure, and
    the handle made for a caller without a credential is freed *)
Definition init_end (tmaj tmin maj min : Z) (claimant : bool) (st : init_state) : Pp W init_result :=
  let '(maj, min) := worst tmaj tmin maj min in
  do+ _ := if claimant then pret (GSS_S_COMPLETE, 0) else plib (gpp_cred_handle_free (Some (in_cred st))) in
  pret (maj, if is_established maj then 0 else gpp_map_error min,
        if is_established maj then Some (in_ctx st) else kept_context (in_ctx st),
        if claimant then Some (in_cred st) else None, Some (in_name st), in_answer st).

(** Who is asked first: the local mechanism alone when it has the context or the credential,
    else the behaviour. *)
Definition init_behavior (ctx : gpp_context_handle W) (claimant : option (gpp_cred_handle W))
  : option (Pp W gpp_behavior) :=
  let local := bool_decide (is_Some (ctx_local ctx)) in
  match claimant with
  | Some c => if bool_decide (is_Some (cred_local c)) then Some (pret GPP_LOCAL_ONLY)
              else if local then None else Some (gpp_get_behavior GPP_DEFAULT_BEHAVIOR)
  | None => Some (if local then pret GPP_LOCAL_ONLY else gpp_get_behavior GPP_DEFAULT_BEHAVIOR)
  end.

Definition nothing_stored : init_answer := InitAnswer GSS_C_NO_OID None None None.

Definition gssi_init_sec_context (claimant_cred_handle : option (gpp_cred_handle W))
    (context_handle : option (gpp_context_handle W)) (target_name : option (gpp_name_handle W))
    (q : init_request) : Pp W init_result :=
  let refused maj := pret (maj, 0, context_handle, claimant_cred_handle, target_name, nothing_stored) in
  match target_name with
  | None => refused GSS_S_CALL_INACCESSIBLE_READ
  | Some name =>
      do+ mech := oid_at (iq_mech q) in
      if bool_decide (mech = None) || gpp_is_special_oid mech then refused GSS_S_BAD_MECH else
      do+ ok := match context_handle with Some _ => pret true | None => plib malloc end in
      if negb ok then
        pret (GSS_S_FAILURE, gpp_map_error ENOMEM, None, claimant_cred_handle, target_name, nothing_stored) else
      let ctx := default (ContextHandle None None) context_handle in
      let claimant := bool_decide (is_Some claimant_cred_handle) in
      match init_behavior ctx claimant_cred_handle with
      | None => pret (GSS_S_DEFECTIVE_CREDENTIAL, gpp_map_error 0, kept_context ctx, claimant_cred_handle,
                      target_name, nothing_stored)
      | Some behavior =>
          do+ '(maj, min, cred) := match claimant_cred_handle with
                                   | Some c => pret (GSS_S_COMPLETE, 0, Some c)
                                   | None => plib (gpp_cred_handle_init true None)
                                   end in
          match cred with
          | None => pret (maj, gpp_map_error min, kept_context ctx, None, target_name, nothing_stored)
          | Some cred =>
              do+ behavior := behavior in
              let st := InitState cred ctx name nothing_stored in
              let remotely tmaj tmin st :=
                do+ '(maj, min, name) := plib (make_remote (Some (in_name st))) in
                let st := set_in_name (default (in_name st) name) st in
                if negb (maj =? 0) then init_end tmaj tmin maj min claimant st else
                do+ '(maj, min, st) := init_ctx_remote q st in
                if is_established maj || negb (bool_decide (behavior = GPP_REMOTE_FIRST))
                then init_end tmaj tmin maj min claimant st
                else do+ '(maj, min, st) := init_ctx_local q st in init_end tmaj tmin maj min claimant st in
              if bool_decide (behavior = GPP_LOCAL_ONLY \/ behavior = GPP_LOCAL_FIRST) then
                do+ '(maj, min, st) := init_ctx_local q st in
                if is_established maj || bool_decide (behavior = GPP_LOCAL_ONLY)
                then init_end GSS_S_COMPLETE 0 maj min claimant st
                else remotely maj min st
              else remotely GSS_S_COMPLETE 0 st
          end
      end
  end.
(** ** Accepting *)

(** what is stored for the caller *)
Record accept_answer := AcceptAnswer {
  aa_src : option (gpp_name_handle W); aa_mech : gss_OID; aa_token : option bytes;
  aa_flags : option Z; aa_time : option Z; aa_deleg : option (gpp_cred_handle W) }.

Definition nothing_accepted : accept_answer := AcceptAnswer None GSS_C_NO_OID None None None None.

(** the handles only go out with a context *)
Definition handed_out (maj : Z) (a : accept_answer) : accept_answer :=
  if is_established maj then a
  else AcceptAnswer None (aa_mech a) (aa_token a) (aa_flags a) (aa_time a) None.

(** a credential says who is asked, unless the context says otherwise *)
Definition accept_behavior (behavior : gpp_behavior) (cred : gpp_cred_handle W) : option gpp_behavior :=
  match cred_local cred, cred_remote cred with
  | Some _, _ => if bool_decide (behavior = GPP_REMOTE_ONLY) then None else Some GPP_LOCAL_ONLY
  | None, Some _ => if bool_decide (behavior = GPP_LOCAL_ONLY) then None else Some GPP_REMOTE_ONLY
  | None, None => Some behavior
  end.

(** the statuses, the context, and what was stored *)
Definition gssi_accept_sec_context (context_handle : option (gpp_context_handle W))
    (acceptor_cred_handle : option (gpp_cred_handle W)) (input_token_buffer : bytes)
    (input_chan_bindings : option channel_bindings)
    (src_name mech_type ret_flags time_rec delegated_cred_handle : bool)
  : Pp W (Z * Z * option (gpp_context_handle W) * accept_answer) :=
  let finish maj min ctx cred out :=
    do+ _ := match acceptor_cred_handle with
             | Some _ => pret (GSS_S_COMPLETE, 0)
             | None => gssi_release_cred GP_SOCKET_NAME fuel cred
             end in
    pret (maj, gpp_map_error min, if is_established maj then Some ctx else kept_context ctx, handed_out maj out) in
  do+ behavior := gpp_get_behavior GPP_DEFAULT_BEHAVIOR in
  do+ ok := match context_handle with Some _ => pret true | None => plib malloc end in
  let ctx := default (ContextHandle None None) context_handle in
  if negb ok then finish GSS_S_FAILURE ENOMEM ctx None nothing_accepted else
  let behavior := match ctx_local ctx, ctx_remote ctx with
                  | Some _, _ => GPP_LOCAL_ONLY
                  | None, Some _ => GPP_REMOTE_ONLY
                  | None, None => behavior
                  end in
  do+ '(maj, min, cred) := match acceptor_cred_handle with
                           | Some c => pret (GSS_S_COMPLETE, 0, Some c)
                           | None => gppint_get_def_creds GP_SOCKET_NAME fuel GSS_ALWAYS_INTERPOSE
                                       behavior None GSS_C_ACCEPT None
                           end in
  if negb (maj =? GSS_S_COMPLETE) then finish maj min ctx cred nothing_accepted else
  do+ cred' := pderef cred in
  match accept_behavior behavior cred' with
  | None => finish GSS_S_DEFECTIVE_CREDENTIAL 0 ctx cred nothing_accepted
  | Some behavior =>
      do+ ok := plib (new_name src_name) in
      if negb ok then finish GSS_S_FAILURE ENOMEM ctx cred nothing_accepted else
      do+ '(maj, min, deleg) := if delegated_cred_handle then plib (gpp_cred_handle_init false None)
                                else pret (GSS_S_COMPLETE, 0, None) in
      if negb (maj =? GSS_S_COMPLETE) then finish maj min ctx cred nothing_accepted else
      match behavior with
      | GPP_LOCAL_ONLY =>
          do+ '(maj, min, (local, src, mech, token, flags, time, dcred)) := plib (glue_accept_sec_context
            (ctx_local ctx) (cred_local cred') input_token_buffer input_chan_bindings src_name
            delegated_cred_handle) in
          finish maj min (ContextHandle (ctx_remote ctx) local) cred
            (AcceptAnswer (if src_name then Some (NameHandle None None src) else None)
               (match mech with Some m => OidAt 0 m | None => GSS_C_NO_OID end) token
               (Some flags) (Some time) (set_cred_local dcred <$> deleg))
      | GPP_REMOTE_ONLY =>
          do+ '(maj, min, out) := client (gpm_accept_sec_context GP_SOCKET_NAME fuel (ctx_remote ctx)
            (cred_remote cred') input_token_buffer input_chan_bindings src_name mech_type ret_flags
            time_rec delegated_cred_handle) in
          finish maj min (ContextHandle (as_context out) (ctx_local ctx)) cred
            (AcceptAnswer (if src_name then Some (NameHandle None (as_src_name out) None) else None)
               (match as_mech out with Some k => OidStatic k | None => GSS_C_NO_OID end) (as_token out)
               (as_flags out) (as_time out) (set_cred_remote (as_cred out) <$> deleg))
      | _ => finish GSS_S_FAILURE 0 ctx cred nothing_accepted
      end
  end.
End establish.
