(* ===== verification/SpecialList.v ===== *)
(** * The list of special OIDs: its invariant, and what one thread does to it

    Pure facts on the list of Plugin.v.  [sound] is the invariant: every pointer leads to an
    item, a flag that is set has a pointer behind it, an item holds the special OID of its
    regular one, and the pointers do not lead in circles.  [listed h l] says that [l] are
    the items a traversal meets. *)

From S2P Require Import Prelude Xdr RpcXdr GssxXdr World Util Conv Client Gpm GpmNames Plugin.

(** ** The invariant *)

Definition item_ok (n : nat) (it : gpp_special_oid_list) : Prop :=
  special_oid it = gssproxy_mech_interposer ++ regular_oid it /\
  len (special_oid it) < 2 ^ 32 /\
  (next_is_set it = true -> is_Some (next it)) /\
  (forall j, next it = Some j -> (j < n)%nat).

(** later items of the list have a higher rank *)
Definition ranked (f : nat -> nat) (items : list gpp_special_oid_list) : Prop :=
  forall i it j, items !! i = Some it -> next it = Some j -> (f i < f j)%nat.

Record sound (h : special_mechs) : Prop := Sound {
  sound_set : gpp_s_mechs_is_set h = true -> is_Some (gpp_s_mechs h);
  sound_head : forall i, gpp_s_mechs h = Some i -> (i < length (s_items h))%nat;
  sound_items : Forall (item_ok (length (s_items h))) (s_items h);
  sound_ranked : exists f, ranked f (s_items h) }.

Lemma no_special_mechs_sound : sound no_special_mechs.
Proof. split; [done|done|constructor|]. exists id. by intros ? ? ? ?. Qed.

Lemma sound_item h i it : sound h -> s_items h !! i = Some it -> item_ok (length (s_items h)) it.
Proof. intros Hs Hi. by eapply Forall_lookup_1; [apply Hs|]. Qed.

Lemma special_equal_app n m :
  len (gssproxy_mech_interposer ++ n) < 2 ^ 32 ->
  gpp_special_equal (gssproxy_mech_interposer ++ n) m = true <-> n = m.
Proof.
  intros Hn. unfold gpp_special_equal. cbv zeta. rewrite drop_app_length.
  rewrite andb_true_iff, bool_decide_eq_true, Z.eqb_eq.
  unfold len in *. rewrite length_app, Nat2Z.inj_add in *.
  rewrite u32_id by (unfold in_u32; lia).
  split; [|intros ->; rewrite firstn_all; split; [lia|done]].
  intros [Hl <-]. symmetry. apply take_ge. lia.
Qed.

(** ** Chains *)

(** [l] are the items after [i], up to the end *)
Fixpoint chain (items : list gpp_special_oid_list) (i : nat) (l : list nat) : Prop :=
  exists it, items !! i = Some it /\
    match l with
    | [] => gpp_next_special_oids it = None
    | j :: l => gpp_next_special_oids it = Some j /\ chain items j l
    end.

Definition listed (h : special_mechs) (l : list nat) : Prop :=
  match gpp_get_special_oids h, l with
  | None, [] => True
  | Some i, j :: l => i = j /\ chain (s_items h) i l
  | _, _ => False
  end.

Lemma next_cases n it : item_ok n it ->
  (gpp_next_special_oids it = None /\ next_is_set it = false) \/
  (exists j, gpp_next_special_oids it = Some j /\ next_is_set it = true /\ next it = Some j /\ (j < n)%nat).
Proof.
  intros (_ & _ & Hset & Hn). unfold gpp_next_special_oids.
  destruct (next_is_set it); [right|by left]. destruct (Hset eq_refl) as [j Hj]. exists j. auto.
Qed.

Lemma chain_lt items i l : chain items i l -> Forall (fun j => (j < length items)%nat) (i :: l).
Proof.
  revert i. induction l as [|j l IH]; intros i (it & Hi & H).
  - apply lookup_lt_Some in Hi. by repeat constructor.
  - destruct H as [_ H]. apply lookup_lt_Some in Hi. constructor; [done|by apply IH].
Qed.

Lemma chain_det items i l l' : chain items i l -> chain items i l' -> l = l'.
Proof.
  revert i l'. induction l as [|j l IH]; intros i [|j' l'] (it & Hi & H) (it' & Hi' & H'); [done| | |].
  - destruct H' as [H' _]. congruence.
  - destruct H as [H _]. congruence.
  - destruct H as [Hj H], H' as [Hj' H']. assert (it' = it) as -> by congruence.
    assert (j' = j) as -> by congruence. f_equal. by eapply IH.
Qed.

Lemma chain_suffix items i l1 j l2 : chain items i (l1 ++ j :: l2) -> chain items j l2.
Proof.
  revert i. induction l1 as [|k l1 IH]; intros i (it & _ & H); [by destruct H|].
  destruct H as [_ H]. by eapply IH.
Qed.

Lemma last_cons (k : nat) l i : List.last (k :: l) i = List.last l k.
Proof.
  revert k. induction l as [|x l IH]; intros k; [done|].
  change (List.last (k :: x :: l) i) with (List.last (x :: l) i). rewrite IH.
  change (List.last (x :: l) k) with (match l with [] => x | _ => List.last l k end).
  destruct l as [|y l]; [done|]. clear. revert y. induction l as [|z l IH]; intros y; [done|]. apply (IH z).
Qed.

(** no item is met twice *)
Lemma chain_nodup items i l : chain items i l -> NoDup (i :: l).
Proof.
  revert i. induction l as [|j l IH]; intros i Hc; [apply NoDup_singleton|].
  pose proof Hc as (it & Hi & Hj & Hl). constructor; [|by apply IH].
  intros (l1 & l2 & E)%list_elem_of_split. rewrite E in Hc. pose proof (chain_suffix _ _ _ _ _ Hc) as Hs.
  pose proof (chain_det _ _ _ _ Hc Hs) as E'. apply (f_equal length) in E'.
  rewrite length_app in E'. simpl in E'. lia.
Qed.

Lemma chain_length items i l : chain items i l -> (length l < length items)%nat.
Proof.
  intros Hc. pose proof (chain_nodup _ _ _ Hc) as Hn. pose proof (chain_lt _ _ _ Hc) as Hl.
  assert (Hs : (i :: l) ⊆+ seq 0 (length items)).
  { apply NoDup_submseteq; [done|]. intros j Hj. rewrite elem_of_seq.
    rewrite Forall_forall in Hl. specialize (Hl j Hj). lia. }
  apply submseteq_length in Hs. rewrite length_seq in Hs. simpl in Hs. lia.
Qed.

(** from every item a traversal comes to an end *)
Lemma chain_exists h i : sound h -> (i < length (s_items h))%nat -> exists l, chain (s_items h) i l.
Proof.
  intros Hs Hi. destruct (sound_ranked _ Hs) as [f Hf].
  remember (foldr Nat.max 0%nat (f <$> seq 0 (length (s_items h)))) as b eqn:Eb.
  assert (Hb : forall j, (j < length (s_items h))%nat -> (f j <= b)%nat).
  { intros j Hj. assert (j ∈ seq 0 (length (s_items h))) as Hin by (apply elem_of_seq; lia).
    subst b. clear Hj. induction (seq 0 _) as [|k l IH]; [by apply not_elem_of_nil in Hin|].
    rewrite fmap_cons. cbn [foldr]. apply elem_of_cons in Hin as [->|Hin]; [lia|].
    specialize (IH Hin). lia. }
  assert (Hk : exists k, (b - f i <= k)%nat) by (by eexists). destruct Hk as [k Hk].
  clear Eb. revert i Hi Hk. induction k as [k IH] using lt_wf_ind. intros i Hi Hk.
  destruct (lookup_lt_is_Some_2 _ _ Hi) as [it Hit].
  destruct (next_cases _ _ (sound_item _ _ _ Hs Hit)) as [[Hn _]|(j & Hn & _ & Hj & Hlt)].
  - exists [], it. by split.
  - pose proof (Hf _ _ _ Hit Hj). pose proof (Hb _ Hlt). pose proof (Hb _ Hi).
    destruct (IH (b - f j)%nat ltac:(lia) j Hlt (le_n _)) as [l Hl].
    exists (j :: l), it. by split.
Qed.

Lemma listed_exists h : sound h -> exists l, listed h l.
Proof.
  intros Hs. unfold listed, gpp_get_special_oids.
  destruct (gpp_s_mechs_is_set h) eqn:E; [|by exists []].
  destruct (gpp_s_mechs h) as [i|] eqn:Ei; [|by exists []].
  destruct (chain_exists h i Hs (sound_head _ Hs _ Ei)) as [l Hl]. by exists (i :: l).
Qed.

(** ** Traversals *)

Definition passes (items : list gpp_special_oid_list) (test : gpp_special_oid_list -> bool) (j : nat) : Prop :=
  exists it, items !! j = Some it /\ test it = true.

Lemma walk_chain items test i l fuel : chain items i l -> (length l < fuel)%nat ->
  (exists j, walk fuel items test (Some i) = Some (Some j) /\ j ∈ i :: l /\ passes items test j) \/
  (walk fuel items test (Some i) = Some None /\ forall j, j ∈ i :: l -> ~ passes items test j).
Proof.
  revert i fuel. induction l as [|k l IH]; intros i [|fuel] (it & Hi & H) Hf; try (simpl in Hf; lia);
    cbn [walk]; rewrite Hi; cbn [mbind option_bind];
    (destruct (test it) eqn:E; [left; exists i; split; [done|split; [by left|by exists it]]|]).
  - right. rewrite H. split; [by destruct fuel|].
    intros j ->%list_elem_of_singleton (it' & Hi' & E'). congruence.
  - destruct H as [Hk H]. rewrite Hk.
    destruct (IH k fuel H ltac:(simpl in Hf; lia)) as [(j & -> & Hin & Hp)|[-> Hn]].
    + left. exists j. split; [done|]. split; [by right|done].
    + right. split; [done|]. intros j [->|Hj]%elem_of_cons; [|by apply Hn].
      intros (it' & Hi' & E'). congruence.
Qed.

(** a lookup neither fails nor runs for ever: it gives an item that passes, or none does *)
Lemma walk_listed h test l : listed h l ->
  (exists j, walk (walk_fuel h) (s_items h) test (gpp_get_special_oids h) = Some (Some j) /\
     j ∈ l /\ passes (s_items h) test j) \/
  (walk (walk_fuel h) (s_items h) test (gpp_get_special_oids h) = Some None /\
     forall j, j ∈ l -> ~ passes (s_items h) test j).
Proof.
  unfold listed. destruct (gpp_get_special_oids h) as [i|], l as [|j l]; try done.
  - intros [<- Hc]. apply walk_chain; [done|]. unfold walk_fuel. apply chain_length in Hc. lia.
  - intros _. right. split; [done|]. by intros j ?%not_elem_of_nil.
Qed.

Lemma last_chain items i l fuel n : chain items i l -> (length l < fuel)%nat ->
  (forall j it, items !! j = Some it -> item_ok n it) ->
  gpp_last_special_oids fuel items i = Some (Some (List.last l i)).
Proof.
  intros Hc Hf Hok. revert i fuel Hc Hf. induction l as [|k l IH]; intros i [|fuel] (it & Hi & H) Hf;
    try (simpl in Hf; lia); cbn [gpp_last_special_oids]; rewrite Hi; cbn [mbind option_bind].
  - destruct (next_cases _ _ (Hok _ _ Hi)) as [[_ ->]|(j & Hn & _)]; [done|congruence].
  - destruct H as [Hk H].
    destruct (next_cases _ _ (Hok _ _ Hi)) as [[Hn _]|(j & Hn & -> & Hj & _)]; [congruence|].
    cbn [negb]. rewrite Hj. assert (j = k) as -> by congruence.
    rewrite (IH k fuel H) by (simpl in Hf; lia). by rewrite last_cons.
Qed.

(** the address of an item is found when it is in the list *)
Lemma in_list_chain items i l fuel a : chain items i l -> (length l < fuel)%nat ->
  in_list fuel items a (Some i) = Some (bool_decide (a ∈ i :: l)).
Proof.
  revert i fuel. induction l as [|k l IH]; intros i [|fuel] (it & Hi & H) Hf; try (simpl in Hf; lia);
    cbn [in_list]; rewrite Hi; cbn [mbind option_bind];
    (destruct (Nat.eqb_spec i a) as [->|Hne]; [by rewrite bool_decide_eq_true_2 by (by left)|]).
  - rewrite H. rewrite bool_decide_eq_false_2; [by destruct fuel|]. by intros ->%list_elem_of_singleton.
  - destruct H as [Hk H]. rewrite Hk, (IH k fuel H) by (simpl in Hf; lia). f_equal.
    apply bool_decide_ext. rewrite (elem_of_cons (k :: l)). split; [by right|]. intros [->|?]; done.
Qed.

(** ** A new item *)

Definition with_item (n : bytes) (h : special_mechs) : special_mechs :=
  SpecialMechs (s_items h ++ [SpecialOid n (gssproxy_mech_interposer ++ n) None false])
    (gpp_s_mechs h) (gpp_s_mechs_is_set h).

Lemma item_ok_le n n' it : (n <= n')%nat -> item_ok n it -> item_ok n' it.
Proof. intros Hn (H1 & H2 & H3 & H4). split_and!; try done. intros j Hj. specialize (H4 j Hj). lia. Qed.

Lemma lookup_with_item n h i it : s_items (with_item n h) !! i = Some it ->
  s_items h !! i = Some it \/
  (i = length (s_items h) /\ it = SpecialOid n (gssproxy_mech_interposer ++ n) None false).
Proof.
  unfold with_item. simpl. intros [H|[Hl H]]%lookup_app_Some; [by left|right].
  destruct (i - length (s_items h))%nat eqn:E; [|done]. injection H as <-. split; [lia|done].
Qed.

Lemma with_item_sound n h : len (gssproxy_mech_interposer ++ n) < 2 ^ 32 -> sound h -> sound (with_item n h).
Proof.
  intros Hn Hs. split.
  - apply Hs.
  - intros i Hi. unfold with_item. simpl. rewrite length_app. apply (sound_head _ Hs) in Hi. simpl. lia.
  - apply Forall_lookup_2. intros i it [Hi|[-> ->]]%lookup_with_item.
    + eapply item_ok_le; [|by eapply sound_item]. simpl. rewrite length_app. lia.
    + split_and!; done.
  - destruct (sound_ranked _ Hs) as [f Hf]. exists f. intros i it j [Hi|[-> ->]]%lookup_with_item Hj; [by eapply Hf|done].
Qed.

(** a chain of the items there were is one of the items there are *)
Lemma chain_items items items' i l :
  (forall j it, items !! j = Some it -> exists it', items' !! j = Some it' /\
     gpp_next_special_oids it' = gpp_next_special_oids it) ->
  chain items i l -> chain items' i l.
Proof.
  intros Hi. revert i. induction l as [|k l IH]; intros i (it & H & Hn);
    destruct (Hi _ _ H) as (it' & H' & E); exists it'; rewrite E; [done|].
  destruct Hn as [Hk Hn]. split_and!; [done|done|by apply IH].
Qed.

Lemma listed_with_item n h l : listed h l -> listed (with_item n h) l.
Proof.
  unfold listed. destruct h as [items head set]. unfold gpp_get_special_oids, with_item. simpl.
  destruct (if set then head else None) as [i|], l as [|j l]; try done. intros [<- Hc]. split; [done|].
  eapply chain_items; [|done]. intros k it Hk. exists it. split; [by apply lookup_app_l_Some|done].
Qed.

(** The end of a chain is linked to the last item. *)
Lemma chain_linked items i l n it :
  chain items i l -> items !! n = Some it -> gpp_next_special_oids it = None -> n ∉ i :: l ->
  chain (alter (fun it => publish (link n it)) (List.last l i) items) i (l ++ [n]).
Proof.
  revert i. induction l as [|k l IH]; intros i Hc Hn Hend Hout.
  - destruct Hc as (it0 & Hi & H0). simpl. exists (publish (link n it0)).
    rewrite list_lookup_alter, decide_True by done. rewrite Hi. split; [done|]. split; [done|].
    exists it. rewrite list_lookup_alter, decide_False; [done|]. intros ->. by apply Hout; left.
  - pose proof (chain_nodup _ _ _ Hc) as Hnd. destruct Hc as (it0 & Hi & Hk & Hc).
    rewrite last_cons. simpl. exists it0. rewrite list_lookup_alter, decide_False.
    2:{ intros E'. apply NoDup_cons in Hnd as [Hnd _]. apply Hnd. rewrite <- E'.
        destruct l as [|x l _] using rev_ind; [by left|]. rewrite List.last_last.
        right. apply elem_of_app. right. by left. }
    split; [done|]. split; [done|]. apply IH; [done|done|done|]. intros H. apply Hout. by right.
Qed.

(** ** Writes to the list *)

(** the OIDs of the items are never written again *)
Definition same_oids (items items' : list gpp_special_oid_list) : Prop :=
  forall i it, items !! i = Some it -> exists it', items' !! i = Some it' /\
    regular_oid it' = regular_oid it /\ special_oid it' = special_oid it.

Lemma same_oids_refl items : same_oids items items.
Proof. intros i it H. by exists it. Qed.

Lemma same_oids_alter f c items :
  (forall it, regular_oid (f it) = regular_oid it /\ special_oid (f it) = special_oid it) ->
  same_oids items (alter f c items).
Proof.
  intros Hf i it Hi. rewrite list_lookup_alter.
  destruct (decide (c = i)) as [->|]; [|by exists it]. rewrite Hi. by exists (f it).
Qed.

Lemma lookup_alter_cases {A} (f : A -> A) c (l : list A) i x : alter f c l !! i = Some x ->
  (i = c /\ exists y, l !! i = Some y /\ x = f y) \/ (i <> c /\ l !! i = Some x).
Proof.
  rewrite list_lookup_alter. destruct (decide (c = i)) as [->|Hne]; [|by right].
  destruct (l !! i) as [y|]; [|done]. intros [= <-]. left. eauto.
Qed.

Lemma alter_alter {A} (f g : A -> A) c (l : list A) :
  alter f c (alter g c l) = alter (fun x => f (g x)) c l.
Proof.
  apply list_eq. intros i. rewrite !list_lookup_alter. destruct (decide (c = i)) as [->|]; [|done].
  rewrite decide_True by done. by destruct (l !! i).
Qed.

(** an item nobody points to, and that points nowhere, can be linked to any other *)
Lemma sound_link h c n : sound h -> c <> n -> (n < length (s_items h))%nat ->
  (forall it, s_items h !! n = Some it -> next it = None) ->
  (forall i it, s_items h !! i = Some it -> next it <> Some n) ->
  sound (SpecialMechs (alter (link n) c (s_items h)) (gpp_s_mechs h) (gpp_s_mechs_is_set h)).
Proof.
  intros Hs Hcn Hn Hend Hfree. split; simpl.
  - apply Hs.
  - intros i. rewrite length_alter. apply Hs.
  - rewrite length_alter. apply Forall_lookup_2. intros i it [[-> (y & Hi & ->)]|[_ Hi]]%lookup_alter_cases.
    + destruct (sound_item _ _ _ Hs Hi) as (H1 & H2 & _). split_and!; [done|done|by exists n|].
      by intros j [= <-].
    + by eapply sound_item.
  - destruct (sound_ranked _ Hs) as [f Hf]. exists (fun i => if decide (i = n) then S (f c) else f i).
    intros i it j [[-> (y & Hi & ->)]|[Hne Hi]]%lookup_alter_cases Hj.
    + injection Hj as <-. rewrite decide_False, decide_True by done. lia.
    + rewrite decide_False by (intros ->; by rewrite (Hend _ Hi) in Hj).
      rewrite decide_False by (intros ->; by apply (Hfree _ _ Hi)). by eapply Hf.
Qed.

Lemma sound_publish h c : sound h ->
  (forall it, s_items h !! c = Some it -> is_Some (next it)) ->
  sound (SpecialMechs (alter publish c (s_items h)) (gpp_s_mechs h) (gpp_s_mechs_is_set h)).
Proof.
  intros Hs Hc. split; simpl.
  - apply Hs.
  - intros i. rewrite length_alter. apply Hs.
  - rewrite length_alter. apply Forall_lookup_2. intros i it [[-> (y & Hi & ->)]|[_ Hi]]%lookup_alter_cases.
    + destruct (sound_item _ _ _ Hs Hi) as (H1 & H2 & _ & H4). split_and!; [done|done| |done].
      intros _. exact (Hc y Hi).
    + by eapply sound_item.
  - destruct (sound_ranked _ Hs) as [f Hf]. exists f.
    intros i it j [[-> (y & Hi & ->)]|[_ Hi]]%lookup_alter_cases Hj; by eapply Hf.
Qed.

Lemma sound_head_set h n : sound h -> (n < length (s_items h))%nat ->
  forall set, sound (SpecialMechs (s_items h) (Some n) set).
Proof. intros Hs Hn set. split; simpl; [by eexists|by intros i [= <-]|apply Hs|apply Hs]. Qed.

(** ** What one thread that adds an item does *)

Lemma with_item_last n h : s_items (with_item n h) !! length (s_items h) =
  Some (SpecialOid n (gssproxy_mech_interposer ++ n) None false).
Proof. unfold with_item. simpl. by rewrite list_lookup_middle. Qed.

Lemma with_item_free n h i it : sound h -> s_items (with_item n h) !! i = Some it ->
  next it <> Some (length (s_items h)).
Proof.
  intros Hs [Hj|[-> ->]]%lookup_with_item Hn; [|done].
  apply (sound_item _ _ _ Hs) in Hj as (_ & _ & _ & Hj). specialize (Hj _ Hn). lia.
Qed.

Lemma last_in (l : list nat) i : List.last l i ∈ i :: l.
Proof.
  destruct l as [|x l _] using rev_ind; [by left|]. rewrite List.last_last.
  right. apply elem_of_app. right. by left.
Qed.

Lemma linked_sound n h c : sound h -> len (gssproxy_mech_interposer ++ n) < 2 ^ 32 ->
  c <> length (s_items h) ->
  sound (SpecialMechs (alter (fun it => publish (link (length (s_items h)) it)) c (s_items (with_item n h)))
    (gpp_s_mechs h) (gpp_s_mechs_is_set h)).
Proof.
  intros Hs Hlen Hc.
  assert (Hl : sound (SpecialMechs (alter (link (length (s_items h))) c (s_items (with_item n h)))
    (gpp_s_mechs h) (gpp_s_mechs_is_set h))).
  { apply (sound_link (with_item n h)); [by apply with_item_sound|done| | |].
    - by eapply lookup_lt_Some, with_item_last.
    - intros it. rewrite with_item_last. by intros [= <-].
    - intros i it. by apply with_item_free. }
  apply (sound_publish _ c) in Hl; simpl in *.
  - by rewrite alter_alter in Hl.
  - intros it [[_ (y & _ & ->)]|[? _]]%lookup_alter_cases; [by eexists|done].
Qed.

(** Adding an item while no other thread does appends it to the items a traversal meets. *)
Lemma add_listed n h l : sound h -> len (gssproxy_mech_interposer ++ n) < 2 ^ 32 -> listed h l ->
  exists h', gpp_add_special_oids (length (s_items h)) (with_item n h) = Some h' /\ sound h' /\
    listed h' (l ++ [length (s_items h)]) /\ same_oids (s_items (with_item n h)) (s_items h').
Proof.
  intros Hs Hlen Hl. pose proof (with_item_sound _ _ Hlen Hs) as Hs1.
  pose proof (listed_with_item n _ _ Hl) as Hl1. pose proof (with_item_last n h) as Hk.
  unfold gpp_add_special_oids, listed in *.
  change (gpp_get_special_oids (with_item n h)) with (gpp_get_special_oids h) in *.
  destruct (gpp_get_special_oids h) as [i|] eqn:Eg, l as [|j l]; try done.
  - destruct Hl as [<- Hc], Hl1 as [_ Hc1].
    assert (Hout : length (s_items h) ∉ i :: l).
    { pose proof (chain_lt _ _ _ Hc) as Hlts. rewrite Forall_forall in Hlts. intros Hin%Hlts. lia. }
    rewrite (last_chain _ _ _ _ (length (s_items (with_item n h))) Hc1).
    2:{ apply chain_length in Hc1. unfold walk_fuel. lia. }
    2:{ intros. by eapply sound_item. }
    eexists. split; [done|]. split_and!.
    + apply (linked_sound n h); [done|done|]. intros E. apply Hout. rewrite <- E. apply last_in.
    + unfold gpp_get_special_oids in *. simpl. rewrite Eg. split; [done|].
      by apply (chain_linked _ _ _ _ _ Hc1 Hk).
    + by apply same_oids_alter.
  - eexists. split; [done|]. split_and!; [|simpl; split; [done|by eexists]|apply same_oids_refl].
    apply (sound_head_set (with_item n h)); [done|]. by eapply lookup_lt_Some.
Qed.
