(* ===== verification/SpecialConc.v ===== *)
(** * The list of special OIDs under concurrent use

    Threads of an application look up special OIDs and add missing ones without a lock
    (gpp_get_special_oids, gpp_next_special_oids, gpp_last_special_oids and
    gpp_add_special_oids of src/mechglue/gss_plugin.c).  A thread is what it is about to do,
    each step is one access to the shared memory, and the accesses of all threads interleave
    in any order; the order is that of the program, which is what the code's
    __sync_synchronize calls are for (the one traversal without them,
    gpp_last_special_oids, is taken to keep its order too). *)

From S2P Require Import Prelude Xdr RpcXdr GssxXdr World Util Conv Client Gpm GpmNames Plugin SpecialList.

(** ** Threads *)

(** [it] is the item a thread adds, [cur] the item a traversal is at *)
Inductive thread :=
| AddStart (it : nat)          (* about to read gpp_s_mechs_is_set *)
| AddHead (it : nat)           (* it was set: about to read gpp_s_mechs *)
| AddFirst (it : nat)          (* it was not: about to write gpp_s_mechs *)
| AddFirstSet                  (* about to write gpp_s_mechs_is_set *)
| AddTest (it cur : nat)       (* about to read cur->next_is_set *)
| AddNext (it cur : nat)       (* it was set: about to read cur->next *)
| AddLink (it cur : nat)       (* it was not: about to write cur->next *)
| AddPublish (cur : nat)       (* about to write cur->next_is_set *)
| ReadStart | ReadHead
| ReadTest (cur : nat) | ReadNext (cur : nat)
| Done.

Definition with_items (items : list gpp_special_oid_list) (h : special_mechs) : special_mechs :=
  SpecialMechs items (gpp_s_mechs h) (gpp_s_mechs_is_set h).

(** One access.  [None] is one through a null pointer.  A null pointer where the code stops
    ends a reader; gpp_add_special_oids goes through the one gpp_last_special_oids gave. *)
Definition thread_step (h : special_mechs) (t : thread) : option (special_mechs * thread) :=
  match t with
  | AddStart it => Some (h, if gpp_s_mechs_is_set h then AddHead it else AddFirst it)
  | AddHead it =>
      match gpp_s_mechs h with Some i => Some (h, AddTest it i) | None => Some (h, AddFirst it) end
  | AddFirst it => Some (SpecialMechs (s_items h) (Some it) (gpp_s_mechs_is_set h), AddFirstSet)
  | AddFirstSet => Some (SpecialMechs (s_items h) (gpp_s_mechs h) true, Done)
  | AddTest it cur =>
      c ← s_items h !! cur; Some (h, if next_is_set c then AddNext it cur else AddLink it cur)
  | AddNext it cur => c ← s_items h !! cur; j ← next c; Some (h, AddTest it j)
  | AddLink it cur =>
      _ ← s_items h !! cur; Some (with_items (alter (link it) cur (s_items h)) h, AddPublish cur)
  | AddPublish cur =>
      _ ← s_items h !! cur; Some (with_items (alter publish cur (s_items h)) h, Done)
  | ReadStart => Some (h, if gpp_s_mechs_is_set h then ReadHead else Done)
  | ReadHead =>
      Some (h, match gpp_s_mechs h with Some i => ReadTest i | None => Done end)
  | ReadTest cur =>
      c ← s_items h !! cur; Some (h, if next_is_set c then ReadNext cur else Done)
  | ReadNext cur =>
      c ← s_items h !! cur; Some (h, match next c with Some j => ReadTest j | None => Done end)
  | Done => None
  end.

Record conc := Conc { c_list : special_mechs; c_threads : list thread }.

(** Threads step; a reader stops at an item that is the one it looks for; a thread that has
    allocated and filled in an item starts to add it; a reader starts. *)
Inductive conc_step : conc -> conc -> Prop :=
| step_thread h ts k t h' t' :
    ts !! k = Some t -> thread_step h t = Some (h', t') ->
    conc_step (Conc h ts) (Conc h' (<[k := t']> ts))
| step_found h ts k cur :
    ts !! k = Some (ReadTest cur) -> conc_step (Conc h ts) (Conc h (<[k := Done]> ts))
| step_adder h ts n :
    len (gssproxy_mech_interposer ++ n) < 2 ^ 32 ->
    conc_step (Conc h ts) (Conc (with_item n h) (ts ++ [AddStart (length (s_items h))]))
| step_reader h ts : conc_step (Conc h ts) (Conc h (ts ++ [ReadStart])).

Definition conc_reachable : conc -> Prop := rtc conc_step (Conc no_special_mechs []).

(** ** The invariant *)

(** the item a thread has not linked yet *)
Definition owns (t : thread) : option nat :=
  match t with
  | AddStart it | AddHead it | AddFirst it | AddTest it _ | AddNext it _ | AddLink it _ => Some it
  | _ => None
  end.

(** where a traversal is *)
Definition cursor (t : thread) : option nat :=
  match t with
  | AddTest _ c | AddNext _ c | AddLink _ c | AddPublish c | ReadTest c | ReadNext c => Some c
  | _ => None
  end.

(** an item only its thread knows of *)
Record private (h : special_mechs) (j : nat) : Prop := Private {
  private_lt : (j < length (s_items h))%nat;
  private_end : forall it, s_items h !! j = Some it -> next it = None;
  private_free : forall i it, s_items h !! i = Some it -> next it <> Some j;
  private_head : gpp_s_mechs h <> Some j }.

(** what a thread has seen stays true *)
Definition seen (h : special_mechs) (t : thread) : Prop :=
  match t with
  | AddFirstSet => is_Some (gpp_s_mechs h)
  | AddNext _ c | AddPublish c => forall it, s_items h !! c = Some it -> is_Some (next it)
  | _ => True
  end.

Definition disjoint_from (t t' : thread) : Prop :=
  forall j, owns t = Some j -> owns t' <> Some j.

Record conc_ok (c : conc) : Prop := ConcOk {
  ok_sound : sound (c_list c);
  ok_private k t j : c_threads c !! k = Some t -> owns t = Some j -> private (c_list c) j;
  ok_owners k k' t t' : c_threads c !! k = Some t -> c_threads c !! k' = Some t' -> k <> k' -> disjoint_from t t';
  ok_cursors k t i : c_threads c !! k = Some t -> cursor t = Some i -> (i < length (s_items (c_list c)))%nat;
  ok_unshared k k' t t' j : c_threads c !! k = Some t -> c_threads c !! k' = Some t' -> owns t = Some j -> cursor t' <> Some j;
  ok_seen k t : c_threads c !! k = Some t -> seen (c_list c) t }.

(** what the shared memory keeps under every step *)
Record grows (h h' : special_mechs) : Prop := Grows {
  grows_head : is_Some (gpp_s_mechs h) -> is_Some (gpp_s_mechs h');
  grows_length : (length (s_items h) <= length (s_items h'))%nat;
  grows_next i it' : s_items h' !! i = Some it' -> (i < length (s_items h))%nat ->
    exists it, s_items h !! i = Some it /\ (is_Some (next it) -> is_Some (next it')) }.

Lemma grows_refl h : grows h h.
Proof. split; [done|done|]. intros i it H _. by exists it. Qed.

Lemma seen_grows h h' t : grows h h' -> (forall i, cursor t = Some i -> (i < length (s_items h))%nat) ->
  seen h t -> seen h' t.
Proof.
  intros Hg Hc Hs. destruct t; simpl in *; try done; [by apply Hg| |];
    intros it' Hi; destruct (grows_next _ _ Hg _ _ Hi (Hc _ eq_refl)) as (x & Hx & Hn); by apply Hn, Hs.
Qed.

Lemma grows_alter f c h : (forall it, is_Some (next it) -> is_Some (next (f it))) ->
  grows h (with_items (alter f c (s_items h)) h).
Proof.
  intros Hf. split; [done|by simpl; rewrite length_alter|].
  simpl. intros i it' [[-> (y & Hi & ->)]|[_ Hi]]%lookup_alter_cases _; eauto.
Qed.

Lemma grows_with_item n h : grows h (with_item n h).
Proof.
  split; [done|unfold with_item; simpl; rewrite length_app; simpl; lia|].
  intros i it' [Hi|[-> _]]%lookup_with_item Hl; [by exists it'|lia].
Qed.

(** ** One access keeps the invariant *)

Lemma private_alter f c h j : private h j -> c <> j ->
  (forall it, next (f it) = next it \/ exists i, next (f it) = Some i /\ i <> j) ->
  private (with_items (alter f c (s_items h)) h) j.
Proof.
  intros Hp Hc Hf. split; simpl; [by rewrite length_alter; apply Hp| | |by apply Hp].
  - intros it [[-> _]|[_ Hi]]%lookup_alter_cases; [done|by eapply private_end].
  - intros i it [[-> (y & Hi & ->)]|[_ Hi]]%lookup_alter_cases; [|by eapply private_free].
    pose proof (private_free _ _ Hp _ _ Hi). destruct (Hf y) as [->|(k & -> & Hk)]; congruence.
Qed.

(** what a step of a thread does, given that the thread keeps the rules *)
Record step_ok (h : special_mechs) (t : thread) (h' : special_mechs) (t' : thread) : Prop := StepOk {
  st_sound : sound h';
  st_grows : grows h h';
  st_owns j : owns t' = Some j -> owns t = Some j;
  st_private j : private h j -> (owns t' = Some j \/ owns t <> Some j) -> cursor t <> Some j ->
    private h' j /\ cursor t' <> Some j;
  st_cursor i : cursor t' = Some i -> (i < length (s_items h'))%nat;
  st_seen : seen h' t' }.

(** a step that writes nothing and goes where the memory points *)
Lemma quiet_step h t t' : sound h ->
  (forall j, owns t' = Some j -> owns t = Some j) ->
  (forall i, cursor t' = Some i -> cursor t = Some i \/ gpp_s_mechs h = Some i \/
     exists c it, s_items h !! c = Some it /\ next it = Some i) ->
  (forall i, cursor t = Some i -> (i < length (s_items h))%nat) ->
  seen h t' -> step_ok h t h t'.
Proof.
  intros Hs Ho Hc Ht Hseen. split; [done|apply grows_refl|done| | |done].
  - intros j Hp _ Hj. split; [done|]. intros [E|[E|(c & it & Hi & E)]]%Hc; [done| |].
    + by apply (private_head _ _ Hp).
    + by apply (private_free _ _ Hp _ _ Hi).
  - intros i [E|[E|(c & it & Hi & E)]]%Hc; [by apply Ht|by apply Hs|].
    by apply (sound_item _ _ _ Hs) in Hi as (_ & _ & _ & Hi); apply Hi.
Qed.

Lemma thread_step_ok h t h' t' : sound h ->
  (forall j, owns t = Some j -> private h j) ->
  (forall i, cursor t = Some i -> (i < length (s_items h))%nat) ->
  (forall j, owns t = Some j -> cursor t <> Some j) ->
  seen h t -> thread_step h t = Some (h', t') -> step_ok h t h' t'.
Proof.
  intros Hs Hown Hcur Hself Hseen Hstep.
  assert (Hnext : forall c it i, s_items h !! c = Some it -> next it = Some i ->
    gpp_s_mechs h = Some i \/ exists c it, s_items h !! c = Some it /\ next it = Some i) by eauto.
  destruct t as [it|it|it| |it c|it c|it c|c| | |c|c|]; simpl in Hstep, Hown, Hcur, Hself, Hseen;
    repeat match type of Hstep with (?x ≫= _) = _ => destruct x as [?|] eqn:?; simpl in Hstep; [|done] end;
    try (injection Hstep as <- <-).
  - apply quiet_step; try done; by destruct (gpp_s_mechs_is_set h).
  - destruct (gpp_s_mechs h) as [i|] eqn:E; injection Hstep as <- <-; apply quiet_step; try done.
    intros ? [= <-]. auto.
  - destruct (Hown it eq_refl) as [Hlt _ _ _]. split; simpl; try done.
    + by apply sound_head_set.
    + split; simpl; [by eexists|done|]. intros i it' Hi _. by exists it'.
    + intros j Hp [?|Hj] _; [done|]. split; [|done]. destruct Hp as [? ? ? ?]. split; try done.
  - split; simpl; try done.
    + split; simpl; [done|apply Hs..].
    + split; simpl; [done|done|]. intros i it' Hi _. by exists it'.
    + intros j [? ? ? ?] _ _. split; [|done]. by split.
  - pose proof (sound_item _ _ _ Hs Heqo) as (_ & _ & Hset & _).
    apply quiet_step; try done; destruct (next_is_set g); try done; simpl; auto.
    intros it0 Hit0. assert (it0 = g) as -> by congruence. auto.
  - apply quiet_step; try done. simpl. intros i [= <-]. eauto.
  - split; simpl; try done.
    + destruct (Hown it eq_refl) as [Hlt Hend Hfree _]. apply sound_link; try done.
      intros ->. by eapply Hself.
    + apply grows_alter. by eexists.
    + intros j Hp [?|Hj] Hc; [done|]. split; [|done]. apply private_alter; [done|congruence|].
      intros x. right. exists it. split; [done|congruence].
    + intros i [= <-]. rewrite length_alter. by apply Hcur.
    + intros x [[_ (y & _ & ->)]|[? _]]%lookup_alter_cases; [by eexists|done].
  - split; simpl; try done.
    + apply sound_publish; [done|by rewrite Heqo].
    + by apply grows_alter.
    + intros j Hp _ Hc. split; [|done]. apply private_alter; [done|congruence|]. by left.
  - apply quiet_step; try done; by destruct (gpp_s_mechs_is_set h).
  - destruct (gpp_s_mechs h) as [i|] eqn:E; apply quiet_step; try done. simpl. intros ? [= <-]. auto.
  - apply quiet_step; try done; destruct (next_is_set g); try done; simpl; auto.
  - destruct (next g) as [i|] eqn:E; apply quiet_step; try done. simpl. intros ? [= <-]. eauto.
  - done.
Qed.

Lemma lookup_snoc_cases {A} (l : list A) x k y : (l ++ [x]) !! k = Some y ->
  l !! k = Some y \/ (k = length l /\ y = x).
Proof.
  intros [H|[Hl H]]%lookup_app_Some; [by left|right].
  destruct (k - length l)%nat eqn:E; [|done]. injection H as <-. split; [lia|done].
Qed.

Lemma private_with_item n h j : private h j -> private (with_item n h) j.
Proof.
  intros Hp. destruct Hp as [Hl He Hf Hh]. split.
  - unfold with_item. simpl. rewrite length_app. simpl. lia.
  - intros it [Hi|[-> _]]%lookup_with_item; [by apply He|lia].
  - intros i it [Hi|[_ ->]]%lookup_with_item; [by eapply Hf|done].
  - done.
Qed.

Lemma thread_keeps h ts k t h' t' : conc_ok (Conc h ts) -> ts !! k = Some t ->
  step_ok h t h' t' -> conc_ok (Conc h' (<[k := t']> ts)).
Proof.
  intros [Hs Hp Ho Hc Hu Hn] Hk [Ss Sg So Sp Sc Sn]. simpl in *.
  pose proof (lookup_lt_Some _ _ _ Hk) as Hlt.
  assert (Hcase : forall k' u, <[k := t']> ts !! k' = Some u ->
    (k' = k /\ u = t') \/ (k' <> k /\ ts !! k' = Some u)).
  { intros k' u H. destruct (decide (k' = k)) as [->|Hne].
    - rewrite list_lookup_insert_eq in H by done. left. split; congruence.
    - rewrite list_lookup_insert_ne in H by done. by right. }
  assert (Hother : forall k' u j, k' <> k -> ts !! k' = Some u -> owns u = Some j ->
    private h' j /\ cursor t' <> Some j).
  { intros k' u j Hne Hu' Hj. apply Sp; [by eapply Hp| |by eapply Hu].
    right. by eapply (Ho k' k u t). }
  assert (Hself : forall j, owns t' = Some j -> private h' j /\ cursor t' <> Some j).
  { intros j Hj. pose proof (So _ Hj) as Hj'. apply Sp; [by eapply Hp|by left|by eapply Hu]. }
  split; simpl.
  - done.
  - intros k' u j [[-> ->]|[Hne Hu']]%Hcase Hj; [by apply Hself|by eapply Hother].
  - intros k1 k2 u1 u2 [[-> ->]|[Hne1 H1]]%Hcase [[-> ->]|[Hne2 H2]]%Hcase Hne j Hj1 Hj2; [done| | |].
    + by eapply (Ho k k2 t u2 Hk H2); [done|by apply So|].
    + by eapply (Ho k1 k u1 t H1 Hk); [done|done|by apply So].
    + by eapply (Ho k1 k2 u1 u2).
  - intros k' u i [[-> ->]|[Hne Hu']]%Hcase Hi; [by apply Sc|].
    eapply Nat.lt_le_trans; [by eapply Hc|apply Sg].
  - intros k1 k2 u1 u2 j [[-> ->]|[Hne1 H1]]%Hcase [[-> ->]|[Hne2 H2]]%Hcase Hj.
    + by apply Hself.
    + by eapply (Hu k k2 t u2), So.
    + by eapply Hother.
    + by eapply (Hu k1 k2 u1 u2).
  - intros k' u [[-> ->]|[Hne Hu']]%Hcase; [done|]. eapply seen_grows; [done| |by eapply Hn].
    intros i. by eapply Hc.
Qed.

Lemma spawn_keeps h ts t h' : conc_ok (Conc h ts) -> sound h' -> grows h h' ->
  (forall j, private h j -> private h' j) -> cursor t = None -> seen h' t ->
  (forall j, owns t = Some j -> private h' j /\ (length (s_items h) <= j)%nat) ->
  conc_ok (Conc h' (ts ++ [t])).
Proof.
  intros [Hs Hp Ho Hc Hu Hn] Hs' Hg Hpriv Hcur Hseen Hown. simpl in *.
  assert (Hold : forall k u j, ts !! k = Some u -> owns u = Some j -> (j < length (s_items h))%nat).
  { intros k u j Hk Hj. by apply (Hp k u j). }
  split; simpl.
  - done.
  - intros k u j [Hk|[_ ->]]%lookup_snoc_cases Hj; [by eapply Hpriv, Hp|by apply Hown].
  - intros k1 k2 u1 u2 [H1|[-> ->]]%lookup_snoc_cases [H2|[-> ->]]%lookup_snoc_cases Hne j Hj1 Hj2.
    + by eapply (Ho k1 k2 u1 u2).
    + pose proof (Hold _ _ _ H1 Hj1). apply Hown in Hj2 as [_ ?]. lia.
    + pose proof (Hold _ _ _ H2 Hj2). apply Hown in Hj1 as [_ ?]. lia.
    + done.
  - intros k u i [Hk|[_ ->]]%lookup_snoc_cases Hi; [|congruence].
    eapply Nat.lt_le_trans; [by eapply Hc|apply Hg].
  - intros k1 k2 u1 u2 j [H1|[-> ->]]%lookup_snoc_cases [H2|[-> ->]]%lookup_snoc_cases Hj; try congruence.
    + by eapply (Hu k1 k2 u1 u2).
    + intros Hi. apply Hown in Hj as [_ ?]. pose proof (Hc _ _ _ H2 Hi). lia.
  - intros k u [Hk|[_ ->]]%lookup_snoc_cases; [|done]. eapply seen_grows; [done| |by eapply Hn].
    intros i. by eapply Hc.
Qed.

Lemma conc_step_ok c c' : conc_step c c' -> conc_ok c -> conc_ok c'.
Proof.
  intros Hstep Hok. destruct Hstep as [h ts k t h' t' Hk Ht|h ts k cur Hk|h ts n Hn|h ts].
  - eapply thread_keeps; [done|done|]. destruct Hok as [Hs Hp Ho Hc Hu Hseen]; simpl in *.
    eapply thread_step_ok; [done|by eauto|by eauto| |by eapply Hseen|done]. intros j Hj. by eapply Hu.
  - eapply thread_keeps; [done|done|]. apply quiet_step; [apply Hok|done|done| |done].
    intros i. by apply (ok_cursors _ Hok k).
  - assert (Hs : sound h) by apply Hok. eapply spawn_keeps; [done|by apply with_item_sound|apply grows_with_item| |done|done|].
    + intros j. apply private_with_item.
    + intros j [= <-]. split; [|done]. split.
      * by eapply lookup_lt_Some, with_item_last.
      * intros it. rewrite with_item_last. by intros [= <-].
      * intros i it. by apply with_item_free.
      * simpl. intros E. apply (sound_head _ Hs) in E. lia.
  - assert (Hs : sound h) by apply Hok. by eapply spawn_keeps; [done|done|apply grows_refl| | | |].
Qed.

Lemma conc_reachable_ok c : conc_reachable c -> conc_ok c.
Proof.
  intros Hr. assert (Hstart : conc_ok (Conc no_special_mechs [])).
  { split; simpl; try done. apply no_special_mechs_sound. }
  revert Hstart. induction Hr as [|? ? ? H _ IH]; [done|]. intros Hx. apply IH. by eapply conc_step_ok.
Qed.

(** ** What holds under every interleaving *)

Lemma thread_progress h t : sound h -> seen h t ->
  (forall i, cursor t = Some i -> (i < length (s_items h))%nat) ->
  t = Done \/ exists h' t', thread_step h t = Some (h', t').
Proof.
  intros Hs Hseen Hc.
  assert (Hat : forall c, (forall i, Some c = Some i -> (i < length (s_items h))%nat) ->
    exists it, s_items h !! c = Some it).
  { intros c Hlt. apply lookup_lt_is_Some_2. by apply Hlt. }
  destruct t as [it|it|it| |it c|it c|it c|c| | |c|c|]; simpl in *;
    try (destruct (Hat c Hc) as [x Hx]; rewrite Hx); try (by right; eauto); try (by left); right.
  - destruct (gpp_s_mechs h); eauto.
  - destruct (Hseen x Hx) as [j Hj]. simpl. rewrite Hj. simpl. eauto.
Qed.

(** C9. No thread goes through a null pointer, and the item a traversal is at is complete: its
    special OID is the one of its regular OID. *)
Theorem special_list_safe c k t : conc_reachable c -> c_threads c !! k = Some t ->
  (t = Done \/ exists h' t', thread_step (c_list c) t = Some (h', t')) /\
  (forall i, cursor t = Some i -> exists it, s_items (c_list c) !! i = Some it /\
     special_oid it = gssproxy_mech_interposer ++ regular_oid it).
Proof.
  intros Hok%conc_reachable_ok Hk. split.
  - apply thread_progress; [apply Hok|by eapply ok_seen|]. intros i. by eapply ok_cursors.
  - intros i Hi. pose proof (ok_cursors _ Hok _ _ _ Hk Hi) as Hlt.
    destruct (lookup_lt_is_Some_2 _ _ Hlt) as [it Hit]. exists it. split; [done|].
    by apply (sound_item _ _ _ (ok_sound _ Hok)) in Hit as [? _].
Qed.

(** the accesses of one thread while the others do nothing *)
Fixpoint run_alone (n : nat) (h : special_mechs) (t : thread) : option (special_mechs * thread) :=
  match n, t with
  | O, _ | _, Done => Some (h, t)
  | S n, t => '(h, t) ← thread_step h t; run_alone n h t
  end.

Lemma run_done n h : run_alone n h Done = Some (h, Done).
Proof. by destruct n. Qed.

Lemma run_read h i l n : chain (s_items h) i l -> (2 * length l + 1 <= n)%nat -> sound h ->
  run_alone n h (ReadTest i) = Some (h, Done).
Proof.
  revert i n. induction l as [|j l IH]; intros i n (it & Hi & Hl) Hn Hs;
    destruct (next_cases _ _ (sound_item _ _ _ Hs Hi)) as [[Hx Hset]|(k & Hx & Hset & Hk & _)].
  - destruct n as [|n]; [simpl in Hn; lia|]. cbn [run_alone thread_step]. rewrite Hi. simpl.
    rewrite Hset. apply run_done.
  - congruence.
  - destruct Hl as [Hl _]. congruence.
  - destruct Hl as [Hl Hc]. assert (k = j) as -> by congruence.
    destruct n as [|[|n]]; [simpl in Hn; lia..|]. cbn [run_alone thread_step]. rewrite Hi. simpl.
    rewrite Hset. cbn [run_alone thread_step]. rewrite Hi. simpl. rewrite Hk.
    apply IH; [done|simpl in Hn; lia|done].
Qed.

Lemma run_link h it i n : (i < length (s_items h))%nat -> (2 <= n)%nat ->
  exists h', run_alone n h (AddLink it i) = Some (h', Done).
Proof.
  intros [x Hx]%lookup_lt_is_Some_2 Hn. destruct n as [|[|n]]; [lia..|]. cbn [run_alone thread_step].
  rewrite Hx. cbn [mbind option_bind run_alone thread_step with_items s_items].
  rewrite list_lookup_alter, decide_True, Hx by done. simpl. rewrite run_done. by eexists.
Qed.

Lemma run_add h it i l n : chain (s_items h) i l -> (2 * length l + 3 <= n)%nat -> sound h ->
  exists h', run_alone n h (AddTest it i) = Some (h', Done).
Proof.
  revert i n. induction l as [|j l IH]; intros i n (x & Hi & Hl) Hn Hs;
    destruct (next_cases _ _ (sound_item _ _ _ Hs Hi)) as [[Hx Hset]|(k & Hx & Hset & Hk & _)].
  - destruct n as [|n]; [simpl in Hn; lia|]. cbn [run_alone thread_step]. rewrite Hi. simpl.
    rewrite Hset. apply run_link; [by eapply lookup_lt_Some|simpl in Hn; lia].
  - congruence.
  - destruct Hl as [Hl _]. congruence.
  - destruct Hl as [Hl Hc]. assert (k = j) as -> by congruence.
    destruct n as [|[|n]]; [simpl in Hn; lia..|]. cbn [run_alone thread_step]. rewrite Hi. simpl.
    rewrite Hset. cbn [run_alone thread_step]. rewrite Hi. simpl. rewrite Hk. simpl.
    apply IH; [done|simpl in Hn; lia|done].
Qed.

(** [t] finishes within [n] accesses when it is left alone *)
Definition finishes (n : nat) (h : special_mechs) (t : thread) : Prop :=
  exists h', run_alone n h t = Some (h', Done).

Lemma finishes_step n h t h1 t1 : thread_step h t = Some (h1, t1) -> finishes n h1 t1 -> finishes (S n) h t.
Proof.
  intros Ht [h' H]. exists h'. destruct t; cbn [run_alone]; try (rewrite Ht; exact H). done.
Qed.

Lemma finishes_done n h : finishes n h Done.
Proof. exists h. apply run_done. Qed.

Lemma finishes_add n h it i : sound h -> (i < length (s_items h))%nat ->
  (2 * length (s_items h) + 1 <= n)%nat -> finishes n h (AddTest it i).
Proof.
  intros Hs Hi Hn. destruct (chain_exists h i Hs Hi) as [l Hl]. pose proof (chain_length _ _ _ Hl).
  apply (run_add h it i l); [done|lia|done].
Qed.

Lemma finishes_read n h i : sound h -> (i < length (s_items h))%nat ->
  (2 * length (s_items h) <= n)%nat -> finishes n h (ReadTest i).
Proof.
  intros Hs Hi Hn. destruct (chain_exists h i Hs Hi) as [l Hl]. pose proof (chain_length _ _ _ Hl).
  exists h. apply (run_read h i l); [done|lia|done].
Qed.

Lemma finishes_first n h it : finishes (S (S n)) h (AddFirst it).
Proof. do 2 (eapply finishes_step; [done|]). apply finishes_done. Qed.

Lemma finishes_head n h it : sound h -> (2 * length (s_items h) + 3 <= n)%nat -> finishes n h (AddHead it).
Proof.
  intros Hs Hn. destruct n as [|[|[|n]]]; [lia..|]. destruct (gpp_s_mechs h) as [i|] eqn:E.
  - eapply finishes_step; [simpl; by rewrite E|]. apply finishes_add; [done|by apply Hs|lia].
  - eapply finishes_step; [simpl; by rewrite E|]. apply finishes_first.
Qed.

(** Whatever the other threads have done, a thread that is left alone finishes: a lookup or an
    addition that has not finished needs at most two accesses per item of the list, and four
    more. *)
Theorem traversal_ends c k t : conc_reachable c -> c_threads c !! k = Some t ->
  finishes (2 * length (s_items (c_list c)) + 4) (c_list c) t.
Proof.
  intros Hok%conc_reachable_ok Hk. pose proof (ok_sound _ Hok) as Hs.
  pose proof (ok_cursors _ Hok k t) as Hcur. pose proof (ok_seen _ Hok k t Hk) as Hseen.
  destruct c as [h ts]. cbn [c_list c_threads] in *. clear Hok.
  replace (2 * length (s_items h) + 4)%nat with (S (2 * length (s_items h) + 3)) by lia.
  assert (Hnext : forall i x j, s_items h !! i = Some x -> next x = Some j -> (j < length (s_items h))%nat).
  { intros i x j Hi Hj. by apply (sound_item _ _ _ Hs) in Hi as (_ & _ & _ & Hi); apply Hi. }
  destruct (thread_progress h t Hs Hseen) as [->|(h1 & t1 & H1)]; [by intros i; apply Hcur|apply finishes_done|].
  destruct t as [it|it|it| |it i|it i|it i|i| | |i|i|]; simpl in Hcur;
    try (pose proof (Hcur i Hk eq_refl) as Hi); try done.
  - eapply finishes_step; [reflexivity|]. destruct (gpp_s_mechs_is_set h); [apply finishes_head; [done|lia]|].
    destruct (_ + 3)%nat as [|[|n]] eqn:E; [lia..|]. apply finishes_first.
  - apply finishes_head; [done|lia].
  - destruct (_ + 3)%nat as [|n] eqn:E; [lia|]. apply finishes_first.
  - eapply finishes_step; [reflexivity|]. apply finishes_done.
  - apply finishes_add; [done|done|lia].
  - eapply finishes_step; [done|]. simpl in H1. destruct (s_items h !! i) as [x|] eqn:Ex; [|done].
    simpl in H1. destruct (next x) as [j|] eqn:Ej; [|done]. injection H1 as <- <-.
    apply finishes_add; [done|by eapply Hnext|lia].
  - by apply run_link; [|lia].
  - eapply finishes_step; [done|]. simpl in H1. destruct (s_items h !! i); [|done].
    injection H1 as <- <-. apply finishes_done.
  - eapply finishes_step; [reflexivity|]. destruct (gpp_s_mechs_is_set h); [|apply finishes_done].
    destruct (_ + 3)%nat as [|n] eqn:E; [lia|]. eapply finishes_step; [reflexivity|].
    destruct (gpp_s_mechs h) as [i|] eqn:Ei; [|apply finishes_done].
    apply finishes_read; [done|by apply Hs|lia].
  - eapply finishes_step; [reflexivity|]. destruct (gpp_s_mechs h) as [i|] eqn:Ei; [|apply finishes_done].
    apply finishes_read; [done|by apply Hs|lia].
  - apply finishes_read; [done|done|lia].
  - eapply finishes_step; [done|]. simpl in H1. destruct (s_items h !! i) as [x|] eqn:Ex; [|done].
    injection H1 as <- <-. destruct (next x) as [j|] eqn:Ej; [|apply finishes_done].
    apply finishes_read; [done|by eapply Hnext|lia].
Qed.
