(* ===== verification/PluginProps.v ===== *)
(** * A program logic for the plugin, and its special OIDs

    Weakest preconditions of the computations of Plugin.v, on top of those of GpmLogic.v, and
    the rules of the functions on special OIDs; what one thread gets from these, and the token
    of a context. *)

From S2P Require Import Prelude Xdr RpcXdr GssxXdr World Util Conv Client ClientLogic Gpm GpmLogic GpmNames.
From S2P Require Import Plugin Glue SpecialList.

Section logic.
Context {W : Type}.
Implicit Types (g : gpp_proc) (p : gpm_proc) (s : gpm_ctx * W).

Definition pwp {A} (stop cr : Prop) (m : Pp W A) (Q : A -> gpp_proc -> gpm_proc -> gpm_ctx * W -> Prop)
    g p s : Prop :=
  gwp stop cr (m g) (fun '(a, g') => Q a g') p s.

Lemma pwp_ret {A} stop cr (a : A) Q g p s : Q a g p s -> pwp stop cr (pret a) Q g p s.
Proof. done. Qed.

Lemma pwp_conseq {A} (stop cr : Prop) (m : Pp W A) (Q Q' : A -> gpp_proc -> gpm_proc -> gpm_ctx * W -> Prop) g p s :
  pwp stop cr m Q g p s -> (forall a g' p' s', Q a g' p' s' -> Q' a g' p' s') -> pwp stop cr m Q' g p s.
Proof. intros H HQ. eapply gwp_conseq; [exact H|]. intros [a g'] p' s'. apply HQ. Qed.

Lemma pwp_bind {A B} stop cr (m : Pp W A) (k : A -> Pp W B) Q g p s :
  pwp stop cr m (fun a => pwp stop cr (k a) Q) g p s -> pwp stop cr (pbind m k) Q g p s.
Proof. intros H. apply gwp_bind. eapply gwp_conseq; [exact H|]. by intros [a g'] p' s'. Qed.

Lemma pwp_client {A} stop cr (m : Gp W A) Q g p s :
  gwp stop cr m (fun a p' s' => Q a g p' s') p s -> pwp stop cr (client m) Q g p s.
Proof. intros H. apply gwp_bind. eapply gwp_conseq; [exact H|]. intros a p' s' H'. by apply gwp_ret. Qed.

Lemma pwp_lib {A} stop cr (m : M W A) Q g p c (w : W) :
  wp m (fun a w' => Q a g p (c, w')) w -> pwp stop cr (plib m) Q g p (c, w).
Proof. intros H. by apply pwp_client, gwp_lib. Qed.

Lemma pwp_lib_any {A} stop cr (m : M W A) Q g p s :
  (forall a w', Q a g p (s.1, w')) -> pwp stop cr (plib m) Q g p s.
Proof. destruct s as [c w]. intros H. apply pwp_lib, wp_any. intros a w'. apply H. Qed.

Lemma pwp_deref {A} stop (cr : Prop) (o : option A) Q g p s :
  (o = None -> cr) -> (forall a, o = Some a -> Q a g p s) -> pwp stop cr (pderef o) Q g p s.
Proof. intros H1 H2. apply pwp_client. by apply gwp_deref. Qed.

Lemma pwp_get stop cr Q g p s : Q g g p s -> pwp stop cr pget Q g p s.
Proof. done. Qed.

Lemma pwp_set stop cr f Q g p s : Q tt (f g) p s -> pwp stop cr (pset f) Q g p s.
Proof. done. Qed.

Lemma pwp_any {A} (m : Pp W A) (Q : A -> gpp_proc -> gpm_proc -> gpm_ctx * W -> Prop) g p s :
  (forall a g' p' s', Q a g' p' s') -> pwp True True m Q g p s.
Proof. intros HQ. apply gwp_any. intros [a g'] p' s'. apply HQ. Qed.

(** a run that ended is one the precondition speaks about *)
Lemma pwp_run {A} stop cr (m : Pp W A) Q g p s a g' p' s' :
  m g p s = Some (Some ((a, g'), p'), s') -> pwp stop cr m Q g p s -> Q a g' p' s'.
Proof. intros Hr H. exact (gwp_run _ _ _ _ _ _ _ _ _ Hr H). Qed.
End logic.

(** RFC 2743: OIDs are equal when their bytes are *)
Class OidEqual (W : Type) {GL : GssLib W} : Prop :=
  oid_equal_law a b : gss_oid_equal (Some a) (Some b) = true <-> a = b.

(** ** Special OIDs *)

Section special.
Context {XL : XdrLib} {W : Type} {AL : Alloc W} {NET : NetLib W} {GL : GssLib W} {SE : Strerror}.

Lemma is_special_app n : gpp_is_special_oid (Some (gssproxy_mech_interposer ++ n)) = true.
Proof.
  unfold gpp_is_special_oid. rewrite take_app_length, bool_decide_eq_true_2 by done.
  rewrite andb_true_r. apply Z.leb_le. unfold len. rewrite length_app. lia.
Qed.

Lemma is_special_spec m : gpp_is_special_oid (Some m) = true <-> exists n, m = gssproxy_mech_interposer ++ n.
Proof.
  split; [|intros [n ->]; apply is_special_app]. unfold gpp_is_special_oid.
  intros [_ H%bool_decide_eq_true]%andb_true_iff. exists (drop (length gssproxy_mech_interposer) m).
  rewrite <- H at 1. by rewrite take_drop.
Qed.

(** a lookup meets an item that passes, or there is none *)
Lemma pwp_search test l (Q : option nat -> gpp_proc -> gpm_proc -> gpm_ctx * W -> Prop) g p s stop :
  listed (gpp_mechs g) l ->
  (forall j it, j ∈ l -> s_items (gpp_mechs g) !! j = Some it -> test it = true -> Q (Some j) g p s) ->
  ((forall j it, j ∈ l -> s_items (gpp_mechs g) !! j = Some it -> test it <> true) -> Q None g p s) ->
  pwp stop False (search test) Q g p s.
Proof.
  intros Hl H1 H2. apply pwp_bind, pwp_get. cbv beta zeta.
  destruct (walk_listed _ test _ Hl) as [(j & -> & Hj & it & Hi & Ht)|[-> Hn]];
    apply pwp_deref; try done; intros ? [= <-]; [by eapply H1|].
  apply H2. intros j it Hj Hi Ht. apply (Hn j Hj). by exists it.
Qed.

(** The plugin's state is well formed; [l] are the items, and the special OID of [m] is that
    of item [j]. *)
Definition special_of (g : gpp_proc) (l : list nat) (m : bytes) (j : nat) : Prop :=
  sound (gpp_mechs g) /\ listed (gpp_mechs g) l /\ j ∈ l /\
  exists it, s_items (gpp_mechs g) !! j = Some it /\ regular_oid it = m /\
    special_oid it = gssproxy_mech_interposer ++ m.

(** a new special OID becomes the last item *)
Lemma pwp_new_special n l (Q : gss_OID -> gpp_proc -> gpm_proc -> gpm_ctx * W -> Prop) g p s stop :
  sound (gpp_mechs g) -> listed (gpp_mechs g) l -> len gssproxy_mech_interposer + len n < 2 ^ 32 ->
  (forall w', Q GSS_C_NO_OID g p (s.1, w')) ->
  (forall h' j w', h' = set_special (gpp_mechs h') g -> j ∉ l -> special_of h' (l ++ [j]) n j ->
     same_oids (s_items (gpp_mechs g)) (s_items (gpp_mechs h')) -> Q (OidSpecial j) h' p (s.1, w')) ->
  pwp stop False (gpp_new_special_mech n) Q g p s.
Proof.
  intros Hs Hl Hn Hnone Hnew. unfold gpp_new_special_mech.
  apply pwp_bind, pwp_lib_any. intros [] w1; cbn [negb]; [|by apply pwp_ret].
  apply pwp_bind, pwp_lib_any. intros a w2. apply pwp_bind, pwp_lib_any. intros b w3.
  destruct (negb a || negb b); [by apply pwp_ret|].
  rewrite (proj2 (Z.leb_gt _ _)) by lia. apply pwp_bind, pwp_get.
  assert (Hlen : len (gssproxy_mech_interposer ++ n) < 2 ^ 32) by (unfold len in *; rewrite length_app; lia).
  destruct (add_listed n _ l Hs Hlen Hl) as (h' & E & Hs' & Hl' & Hsame).
  apply pwp_bind, pwp_deref; fold (with_item n (gpp_mechs g)); rewrite E; [done|]. intros ? [= <-].
  apply pwp_bind, pwp_set, pwp_ret. apply Hnew; [by destruct g| | |].
  - intros Hin. destruct l as [|i l]; [by apply not_elem_of_nil in Hin|]. unfold listed in Hl.
    destruct (gpp_get_special_oids _) as [k|]; [|done]. destruct Hl as [-> Hc].
    apply chain_lt in Hc. rewrite Forall_forall in Hc. specialize (Hc _ Hin). lia.
  - split_and!; [done|done|apply elem_of_app; right; by left|].
    destruct (Hsame _ _ (with_item_last n (gpp_mechs g))) as (it & Hi & Hr & Hsp). simpl in *. by exists it.
  - intros i it Hi. apply Hsame. unfold with_item. simpl. by apply lookup_app_l_Some.
Qed.
End special.

(** ** The plugin's special OIDs and context tokens

    What one thread gets from gpp_special_mech and gpp_unspecial_mech, and the token under
    which a context of the daemon becomes a local one. *)

Section props.
Context {XL : XdrLib} {W : Type} {AL : Alloc W} {NET : NetLib W} {GL : GssLib W} {MG : MechGlue W}
  {SE : Strerror} {OE : OidEqual W}.

(** a computation that gives [a] and changes nothing *)
Definition reads {A} (g : gpp_proc) (p : gpm_proc) (s : gpm_ctx * W) (m : Pp W A) (a : A) : Prop :=
  m g p s = Some (Some ((a, g), p), s).

Lemma reads_bind {A B} g p s (m : Pp W A) (k : A -> Pp W B) a b :
  reads g p s m a -> reads g p s (k a) b -> reads g p s (pbind m k) b.
Proof. unfold reads, pbind, gbind, cbind. by intros ->. Qed.

Lemma reads_special g p s j it : s_items (gpp_mechs g) !! j = Some it ->
  reads g p s (oid_at (OidSpecial j)) (Some (special_oid it)).
Proof.
  intros Hj. unfold oid_at. eapply reads_bind; [|done]. unfold oid_of. eapply reads_bind; [done|].
  eapply reads_bind; [|done]. rewrite Hj. done.
Qed.

Lemma reads_regular g p s j it : s_items (gpp_mechs g) !! j = Some it ->
  reads g p s (oid_at (OidRegular j)) (Some (regular_oid it)).
Proof.
  intros Hj. unfold oid_at. eapply reads_bind; [|done]. unfold oid_of. eapply reads_bind; [done|].
  eapply reads_bind; [|done]. rewrite Hj. done.
Qed.

Lemma reads_search g p s test l j it : listed (gpp_mechs g) l -> j ∈ l ->
  s_items (gpp_mechs g) !! j = Some it -> test it = true ->
  exists j' it', s_items (gpp_mechs g) !! j' = Some it' /\ test it' = true /\
    reads g p s (search test) (Some j').
Proof.
  intros Hl Hj Hi Ht. destruct (walk_listed _ test _ Hl) as [(j' & E & _ & it' & Hi' & Ht')|[_ Hn]].
  - exists j', it'. split_and!; [done|done|]. unfold search. eapply reads_bind; [done|].
    cbv beta zeta. by rewrite E.
  - exfalso. apply (Hn j Hj). by exists it.
Qed.

(** once there is an item for [m], asking for its special OID adds nothing *)
Lemma special_again g p s l m j a : special_of g l m j -> gpp_is_special_oid (Some m) = false ->
  exists r, reads g p s (gpp_special_mech (OidAt a m)) r /\
    reads g p s (oid_at r) (Some (gssproxy_mech_interposer ++ m)).
Proof.
  intros (Hs & Hl & Hj & it & Hi & Hr & Hsp) Hm.
  destruct (reads_search g p s (fun it => gpp_special_equal (special_oid it) m) l j it)
    as (j' & it' & Hi' & Ht' & Hsearch); [done|done|done| |].
  { destruct (sound_item _ _ _ Hs Hi) as (_ & Hlen & _). rewrite Hsp in *. by apply special_equal_app. }
  exists (OidSpecial j'). destruct (sound_item _ _ _ Hs Hi') as (E & Hlen & _).
  rewrite E in Ht', Hlen. apply special_equal_app in Ht'; [|done]. split.
  - unfold gpp_special_mech. eapply reads_bind; [done|]. rewrite Hm. by eapply reads_bind.
  - rewrite <- Ht', <- E. by apply reads_special.
Qed.

Lemma unspecial_special g p s l m j : special_of g l m j ->
  exists u, reads g p s (gpp_unspecial_mech (OidSpecial j)) u /\ reads g p s (oid_at u) (Some m).
Proof.
  intros (Hs & Hl & Hj & it & Hi & Hr & Hsp).
  destruct (reads_search g p s
    (fun it => gss_oid_equal (Some (special_oid it)) (Some (gssproxy_mech_interposer ++ m))) l j it)
    as (j' & it' & Hi' & Ht' & Hsearch); [done|done|done|by apply oid_equal_law|].
  exists (OidRegular j'). split.
  - unfold gpp_unspecial_mech. eapply reads_bind; [by apply reads_special|]. rewrite Hsp, is_special_app.
    cbn [negb]. by eapply reads_bind.
  - apply oid_equal_law in Ht'. destruct (sound_item _ _ _ Hs Hi') as (E & _).
    rewrite E in Ht'. apply app_inv_head in Ht'. rewrite <- Ht'. by apply reads_regular.
Qed.

(** what gpp_special_mech gives for the OID of a mechanism *)
Lemma pwp_special_mech stop a m l (Q : gss_OID -> gpp_proc -> gpm_proc -> gpm_ctx * W -> Prop) g p s :
  sound (gpp_mechs g) -> listed (gpp_mechs g) l -> gpp_is_special_oid (Some m) = false ->
  len gssproxy_mech_interposer + len m < 2 ^ 32 ->
  (forall w', Q GSS_C_NO_OID g p (s.1, w')) ->
  (forall h j l' w', special_of h l' m j -> same_oids (s_items (gpp_mechs g)) (s_items (gpp_mechs h)) ->
     gpp_behavior_is h = gpp_behavior_is g -> Q (OidSpecial j) h p (s.1, w')) ->
  pwp stop False (gpp_special_mech (OidAt a m)) Q g p s.
Proof.
  intros Hs Hl Hm Hn Hnone Hsome. unfold gpp_special_mech. apply pwp_bind, pwp_bind, pwp_ret, pwp_ret.
  rewrite Hm. apply pwp_bind. eapply pwp_search; [done| |].
  - intros j it Hj Hi Ht. apply pwp_ret. destruct (sound_item _ _ _ Hs Hi) as (E & Hlen & _).
    rewrite E in Ht, Hlen. apply special_equal_app in Ht; [|done]. destruct s as [c w]. apply (Hsome g j l w); [|apply same_oids_refl|done].
    split_and!; [done|done|done|]. exists it. split_and!; [done|done|]. by rewrite E, Ht.
  - intros _. eapply pwp_new_special; [done|done|done|done|]. intros h j w' Hb _ Hof Hsame.
    apply (Hsome h j (l ++ [j]) w'); [done|done|by rewrite Hb].
Qed.

(** C12. The special OID of a mechanism is the OID of the plugin followed by the OID of the
    mechanism, asking for it again adds nothing, gpp_unspecial_mech leads back to the
    mechanism, and the OIDs handed out before stay what they are. *)
Theorem special_mech_roundtrip a m g p s :
  sound (gpp_mechs g) -> gpp_is_special_oid (Some m) = false ->
  len gssproxy_mech_interposer + len m < 2 ^ 32 ->
  pwp False False (gpp_special_mech (OidAt a m)) (fun r g' p' s' =>
    sound (gpp_mechs g') /\ same_oids (s_items (gpp_mechs g)) (s_items (gpp_mechs g')) /\
    (r = GSS_C_NO_OID \/
     reads g' p' s' (oid_at r) (Some (gssproxy_mech_interposer ++ m)) /\
     (exists r', reads g' p' s' (gpp_special_mech (OidAt a m)) r' /\
        reads g' p' s' (oid_at r') (Some (gssproxy_mech_interposer ++ m))) /\
     (exists u, reads g' p' s' (gpp_unspecial_mech r) u /\ reads g' p' s' (oid_at u) (Some m)))) g p s.
Proof.
  intros Hs Hm Hn. destruct (listed_exists _ Hs) as [l Hl].
  eapply pwp_special_mech; [done|done|done|done| |].
  - intros w'. split_and!; [done|apply same_oids_refl|by left].
  - intros h j l' w' Hof Hsame _. split_and!; [apply Hof|done|]. right. split_and!.
    + destruct Hof as (_ & _ & _ & it & Hi & _ & <-). by apply reads_special.
    + by eapply special_again.
    + by eapply unspecial_special.
Qed.

(** ** The token of a context *)

Lemma wrap_token_parts m t : len m < 2 ^ 32 ->
  be_val (take 4 (wrap_token m t)) = len m /\ drop 4 (wrap_token m t) = m ++ t /\
  len (wrap_token m t) = 4 + len m + len t.
Proof.
  intros Hm. unfold wrap_token.
  rewrite (take_app_length' (be_bytes 4 (len m))), (drop_app_length' (be_bytes 4 (len m)))
    by (by rewrite length_be_bytes).
  rewrite be_val_bytes. split_and!; [|done|].
  - apply Z.mod_small. pose proof (len_nonneg m). change (256 ^ Z.of_nat 4) with (2 ^ 32). lia.
  - unfold len. rewrite !length_app, length_be_bytes. lia.
Qed.

(** A context of the daemon, exported under the OID of a mechanism, is imported from the same
    token under the special OID, and what the import gave is the local context; or memory was
    short and the context of the daemon is still there. *)
Theorem remote_to_local_imports ctx m t g p s :
  sound (gpp_mechs g) -> gpp_is_special_oid (Some m) = false -> len m < 2 ^ 32 - 15 -> t <> [] ->
  ctx_exported_context_token ctx = wrap_token m t ->
  pwp False False (gpp_remote_to_local_ctx ctx) (fun r g' p' s' => sound (gpp_mechs g') /\ p' = p /\
    (r = (GSS_S_FAILURE, None, Some ctx, None) \/
     exists w, let '((maj, min, local), w') :=
       gss_import_sec_context (wrap_token (gssproxy_mech_interposer ++ m) t) w in
       r = (maj, Some min, None, local) /\ s' = (s.1, w'))) g p s.
Proof.
  intros Hs Hm Hn Ht Hctx. destruct (wrap_token_parts m t ltac:(lia)) as (Hlen & Hdrop & Htot).
  pose proof (len_nonneg m). assert (0 < len t) by (unfold len; destruct t; [done|simpl; lia]).
  unfold gpp_remote_to_local_ctx. rewrite Hctx. unfold gp_conv_gssx_to_buffer. cbv zeta.
  rewrite Htot, Hlen, u32_id by (unfold in_u32; lia).
  rewrite !(proj2 (Z.leb_gt _ _)), (proj2 (Z.ltb_ge _ _)) by lia.
  destruct s as [c w]. apply pwp_bind, pwp_lib, wp_any. intros [] w1; cbn [negb]; [|by apply pwp_ret; auto].
  rewrite Hdrop. replace (Z.to_nat (len m)) with (length m) by (unfold len; lia). rewrite take_app_length.
  replace (drop (Z.to_nat (4 + len m)) (wrap_token m t)) with t.
  2:{ replace (Z.to_nat (4 + len m)) with (4 + length m)%nat by (unfold len; lia).
      by rewrite <- drop_drop, Hdrop, drop_app_length. }
  destruct (listed_exists _ Hs) as [l Hl]. apply pwp_bind, pwp_bind.
  eapply pwp_special_mech; [done|done|done| | |].
  - change (len gssproxy_mech_interposer) with 11. lia.
  - intros w2. apply pwp_ret, pwp_ret. auto.
  - intros h j l' w2 (Hs' & Hl' & Hj & it & Hi & Hr & Hsp) _ _. apply pwp_bind, pwp_bind, pwp_get.
    apply pwp_bind, pwp_deref; rewrite Hi; [done|]. intros ? [= <-]. apply pwp_ret.
    apply pwp_bind, pwp_lib, wp_any. intros [] w3; apply pwp_ret; cbn [negb]; [|by apply pwp_ret; auto].
    apply pwp_bind, pwp_lib. unfold wp. rewrite Hsp.
    destruct (gss_import_sec_context _ w3) as [[[maj min] local] w4] eqn:E. apply pwp_ret.
    split_and!; [done|done|]. right. exists w3. rewrite E. done.
Qed.
End props.

(** ** Minor statuses *)

(** A minor status of the daemon or of a mechanism comes back from gpp_unmap_error as it went
    into gpp_map_error, but for one: the status that becomes 0, which stands for no error and
    is not mapped back. *)
Theorem map_error_roundtrip e : in_u32 e ->
  in_u32 (gpp_map_error e) /\
  (gpp_unmap_error (gpp_map_error e) = e <-> e <> 2 ^ 32 - MAP_ERROR_BASE).
Proof.
  unfold in_u32, gpp_map_error, gpp_unmap_error, MAP_ERROR_BASE. intros He.
  destruct (Z.eqb_spec e 0) as [->|Hn]; cbn [negb]; [by split; [|split]|].
  assert (E : u32 (e + 69206016) = if decide (e < 2 ^ 32 - 69206016) then e + 69206016 else e + 69206016 - 2 ^ 32).
  { unfold u32. destruct (decide _); [apply Z.mod_small; lia|].
    symmetry. apply (Z.mod_unique _ _ 1); [left; lia|lia]. }
  rewrite E. destruct (decide _) as [Hl|Hl].
  - split; [lia|]. destruct (Z.eqb_spec (e + 69206016) 0); [lia|]. cbn [negb].
    replace (e + 69206016 - 69206016) with e by lia. rewrite u32_id by done. lia.
  - split; [lia|]. destruct (Z.eqb_spec (e + 69206016 - 2 ^ 32) 0); cbn [negb]; [lia|].
    unfold u32. rewrite <- (Z.mod_unique (e + 69206016 - 2 ^ 32 - 69206016) (2 ^ 32) (-1) e); lia.
Qed.
