(* ===== verification/GppInitProps.v ===== *)
(** * The plugin: what establishing a context does

    Which side is asked, which error is reported, and the context of the daemon. *)

From S2P Require Import Prelude Xdr RpcXdr GssxXdr World Util Conv Creds Client ClientLogic Gpm GpmLogic.
From S2P Require Import GpmNames Plugin Glue GppNames GppCreds GppAcquire GppInit SpecialList PluginProps.

Section init.
Context {XL : XdrLib} {W : Type} {AL : Alloc W} {NET : NetLib W} {GL : GssLib W} {MG : MechGlue W}
  {CL : CacheLib W} {SE : Strerror} {OE : OidEqual W}.
Variable GP_SOCKET_NAME : string.
Variable fuel : nat.
Variable GPP_DEFAULT_BEHAVIOR : gpp_behavior.
Variable GSS_ALWAYS_INTERPOSE : bool.
Variables (a : Z) (m : bytes).
Hypothesis Hregular : gpp_is_special_oid (Some m) = false.
Hypothesis Hshort : len gssproxy_mech_interposer + len m < 2 ^ 32.

(** ** The local mechanism alone *)

(** a function that does not talk to the daemon: the connection and the state of the client
    are what they were, and the list of special OIDs stays well formed *)
Definition offline (g : gpp_proc) (p : gpm_proc) (s : gpm_ctx * W) (g' : gpp_proc) (p' : gpm_proc)
    (s' : gpm_ctx * W) : Prop :=
  p' = p /\ s'.1 = s.1 /\ sound (gpp_mechs g') /\ gpp_behavior_is g' = gpp_behavior_is g.

Lemma offline_trans g p s g1 p1 s1 g2 p2 s2 :
  offline g p s g1 p1 s1 -> offline g1 p1 s1 g2 p2 s2 -> offline g p s g2 p2 s2.
Proof.
  intros (Hp1 & Hs1 & _ & Hb1) (Hp2 & Hs2 & H & Hb2).
  split_and!; [by rewrite Hp2|by rewrite Hs2|done|by rewrite Hb2].
Qed.

(** the special OID of the mechanism, read *)
Lemma special_offline {B} (k : option bytes -> Pp W B) Q g p s : sound (gpp_mechs g) ->
  (forall o g' p' s', offline g p s g' p' s' -> pwp False False (k o) Q g' p' s') ->
  pwp False False (do+ spmech := gpp_special_mech (OidAt a m) in do+ o := oid_at spmech in k o) Q g p s.
Proof.
  intros Hs Hk. destruct (listed_exists _ Hs) as [l Hl]. apply pwp_bind.
  eapply pwp_special_mech; [done|done|done|done| |].
  - intros w. apply pwp_bind, pwp_ret. by apply Hk.
  - intros h j l' w Hof _ Hb. apply pwp_bind. pose proof Hof as (Hh & _ & _ & it & Hi & _ & _).
    unfold pwp, gwp, wpc. rewrite (reads_special h p (s.1, w) j it Hi). by apply Hk.
Qed.

Lemma make_local_offline n remote g p s : sound (gpp_mechs g) ->
  pwp False False (make_local n remote (OidAt a m)) (fun _ => offline g p s) g p s.
Proof.
  intros Hs. unfold make_local, gpp_name_to_local. apply pwp_bind, pwp_bind, pwp_lib_any.
  intros [[maj min] [[text type] name']] w1. destruct (negb (maj =? 0)); [by do 2 apply pwp_ret|].
  apply pwp_bind, pwp_lib_any. intros [[maj' min'] tmp] w2.
  destruct (negb (maj' =? 0)); [by do 2 apply pwp_ret|].
  apply special_offline; [done|]. intros o g' p' s' H.
  apply pwp_bind, pwp_lib_any. intros [[? ?] ?] w3. do 2 apply pwp_ret. exact H.
Qed.

Lemma init_ctx_local_offline q st g p s : iq_mech q = OidAt a m -> sound (gpp_mechs g) ->
  pwp False False (init_ctx_local q st) (fun '(_, _, st') g' p' s' =>
    offline g p s g' p' s' /\ in_cred st' = in_cred st /\ ctx_remote (in_ctx st') = ctx_remote (in_ctx st)) g p s.
Proof.
  intros Hq Hs. unfold init_ctx_local. rewrite Hq. apply pwp_bind.
  eapply (pwp_conseq _ _ _ (fun _ => offline g p s)).
  { destruct (name_remote (in_name st)), (name_local (in_name st)); try by apply pwp_ret. by apply make_local_offline. }
  intros [[maj min] name] g1 p1 s1 H1. destruct (negb (maj =? 0)); [by apply pwp_ret|].
  apply special_offline; [apply H1|]. intros o g2 p2 s2 H2. pose proof (offline_trans _ _ _ _ _ _ _ _ _ H1 H2).
  apply pwp_bind, pwp_lib_any. intros [[maj' min'] [[[[ctx mech] token] flags] time]] w3.
  by apply pwp_ret.
Qed.

(** the caller, or the administrator, has settled for the local mechanism *)
Definition settled_local (cred : option (gpp_cred_handle W)) (ctx : option (gpp_context_handle W))
    (g : gpp_proc) : Prop :=
  gpp_behavior_is g = GPP_LOCAL_ONLY \/ is_Some (cred ≫= cred_local) \/
  (cred = None /\ is_Some (ctx ≫= ctx_local)).

Lemma settled_behavior ctx cred g p s : settled_local cred (Some ctx) g ->
  match init_behavior GPP_DEFAULT_BEHAVIOR ctx cred with
  | None => True
  | Some b => reads g p s b GPP_LOCAL_ONLY
  end.
Proof.
  intros H. unfold init_behavior.
  assert (Hb : gpp_behavior_is g = GPP_LOCAL_ONLY ->
    reads g p s (gpp_get_behavior GPP_DEFAULT_BEHAVIOR) GPP_LOCAL_ONLY).
  { intros E. unfold gpp_get_behavior. eapply reads_bind; [done|]. by rewrite E. }
  destruct cred as [c|]; repeat case_bool_decide; try done; apply Hb;
    destruct H as [H|[H|[? H]]]; done || (by destruct H).
Qed.

Lemma pwp_reads {A B} g p s (b : Pp W A) x (k : A -> Pp W B) Q stop cr :
  reads g p s b x -> pwp stop cr (k x) Q g p s -> pwp stop cr (pbind b k) Q g p s.
Proof.
  intros Hr Hk. apply pwp_bind. unfold pwp at 1, gwp, wpc. by rewrite Hr.
Qed.

Lemma init_end_offline tmaj tmin maj min (claimant : bool) (st : init_state)
    (Q : init_result (W := W) -> gpp_proc -> gpm_proc -> gpm_ctx * W -> Prop) g p s :
  (forall maj' min' ctx' (w' : W), ctx' = Some (in_ctx st) \/ ctx' = kept_context (in_ctx st) ->
     Q (maj', min', ctx', if claimant then Some (in_cred st) else None, Some (in_name st), in_answer st)
       g p (s.1, w')) ->
  pwp False False (init_end tmaj tmin maj min claimant st) Q g p s.
Proof.
  intros HQ. unfold init_end. destruct (worst tmaj tmin maj min) as [maj' min']. destruct s as [c w].
  apply pwp_bind. destruct claimant; [apply pwp_ret|apply pwp_lib_any; intros [? ?] w'];
    apply pwp_ret, HQ; destruct (is_established maj'); auto.
Qed.

Lemma kept_remote (c h : gpp_context_handle W) : kept_context c = Some h -> ctx_remote h = ctx_remote c.
Proof. unfold kept_context. by destruct (ctx_local c), (ctx_remote c) eqn:E; intros [= <-]. Qed.

(** C11. Once the local mechanism has been settled for - it has the context or the credential, or
    GSSPROXY_BEHAVIOR says so - establishing the context goes on without the daemon and
    without a crash, whatever the mechanism answers: no byte is exchanged, a remote half of
    the context is kept, and so is the credential of the caller. *)
Theorem init_local_only cred ctx name q g p s :
  iq_mech q = OidAt a m -> sound (gpp_mechs g) -> settled_local cred ctx g ->
  pwp False False (gssi_init_sec_context GP_SOCKET_NAME fuel GPP_DEFAULT_BEHAVIOR GSS_ALWAYS_INTERPOSE
    cred ctx (Some name) q) (fun '(_, _, ctx', cred', _, _) g' p' s' =>
      offline g p s g' p' s' /\ cred' = cred /\
      (forall h, ctx' = Some h -> ctx_remote h = ctx ≫= ctx_remote)) g p s.
Proof.
  intros Hq Hs Hset. unfold gssi_init_sec_context. rewrite Hq. apply pwp_bind, pwp_bind, pwp_ret, pwp_ret.
  rewrite Hregular. case_bool_decide; [done|]. cbn [orb]. apply pwp_bind.
  eapply (pwp_conseq _ _ _ (fun ok => offline g p s)).
  { destruct ctx; [by apply pwp_ret|]. apply pwp_lib_any. done. }
  intros ok g1 p1 s1 H1. destruct ok; cbn [negb]; [|by apply pwp_ret].
  set (c := default (ContextHandle None None) ctx).
  assert (Hset1 : settled_local cred (Some c) g1).
  { destruct H1 as (_ & _ & _ & Hb). destruct Hset as [E|[E|[E1 E2]]]; [left; congruence|by right; left|].
    right; right. split; [done|]. by destruct ctx. }
  assert (Hc : ctx_remote c = ctx ≫= ctx_remote) by (by destruct ctx).
  destruct (init_behavior _ c cred) as [b|] eqn:Eb.
  2: { apply pwp_ret. split_and!; [done|done|]. intros h Hk. rewrite <- Hc. by apply kept_remote. }
  apply pwp_bind. eapply (pwp_conseq _ _ _ (fun '(_, _, o) g' p' s' => offline g p s g' p' s' /\
    gpp_behavior_is g' = gpp_behavior_is g1 /\ forall c', cred = Some c' -> o = Some c')).
  { destruct cred as [c0|]; [apply pwp_ret; split_and!; [done|done|by intros ? [= <-]]|].
    by apply pwp_lib_any; intros [[? ?] ?] ?. }
  intros [[maj min] o] g2 p2 s2 (H2 & Hb2 & Ho). destruct o as [c'|].
  2: { apply pwp_ret. destruct cred as [c0|]; [by specialize (Ho c0 eq_refl)|].
       split_and!; [done|done|]. intros h Hk. rewrite <- Hc. by apply kept_remote. }
  assert (Hr : reads g2 p2 s2 b GPP_LOCAL_ONLY).
  { pose proof (settled_behavior c cred g2 p2 s2) as Hr. rewrite Eb in Hr. apply Hr.
    destruct Hset1 as [E|E]; [left; congruence|by right]. }
  eapply pwp_reads; [exact Hr|]. cbv zeta. rewrite (bool_decide_eq_true_2 (GPP_LOCAL_ONLY = _ \/ _)) by auto.
  apply pwp_bind. eapply pwp_conseq; [by apply init_ctx_local_offline; [|apply H2]|].
  intros [[maj1 min1] st] g3 p3 s3 (H3 & Hcr & Hx). rewrite bool_decide_eq_true_2, orb_true_r by done.
  apply init_end_offline. intros maj' min' ctx' w' Hctx. split_and!.
  - pose proof (offline_trans _ _ _ _ _ _ _ _ _ H2 H3) as (? & ? & ? & ?). done.
  - rewrite Hcr. destruct cred as [c0|]; [|done]. specialize (Ho c0 eq_refl). by injection Ho as ->.
  - intros h ->. simpl in Hx. rewrite <- Hc, <- Hx. destruct Hctx as [[= ->]|Hk]; [done|]. by apply kept_remote.
Qed.
(** ** The error that is reported *)

Definition runs {B} (x : Pp W B) (b : B) : Prop :=
  exists g p s g' p' s', x g p s = Some (Some ((b, g'), p'), s').

(** what is known of a run that ended is that it ended so *)
Lemma pwp_runs {B} (x : Pp W B) (Q : B -> gpp_proc -> gpm_proc -> gpm_ctx * W -> Prop) g p s :
  (forall b g' p' s', runs x b -> Q b g' p' s') -> pwp True True x Q g p s.
Proof.
  intros HQ. unfold pwp, gwp, wpc. destruct (x g p s) as [[[[[b g'] p']|] s']|] eqn:E; try done.
  apply HQ. by exists g, p, s, g', p', s'.
Qed.

Lemma worst_local tmaj tmin maj min : is_established tmaj = false -> is_established maj = false ->
  worst tmaj tmin maj min = (tmaj, tmin).
Proof.
  unfold is_established, worst. intros [-> _]%orb_false_iff [-> ->]%orb_false_iff. done.
Qed.

Lemma worst_progress tmaj tmin maj min : is_established maj = true -> worst tmaj tmin maj min = (maj, min).
Proof. unfold is_established, worst. by intros [-> | ->]%orb_true_iff; rewrite ?andb_false_r. Qed.

Lemma worst_none maj min : worst GSS_S_COMPLETE 0 maj min = (maj, min).
Proof. unfold worst. by rewrite andb_false_r. Qed.

(** where a function that failed ends, for the error of [maj] and [min] *)
Lemma init_end_fails tmaj tmin maj min claimant st (P : Z -> Z -> Prop) g p s :
  (is_established (worst tmaj tmin maj min).1 = false ->
     P (worst tmaj tmin maj min).1 (gpp_map_error (worst tmaj tmin maj min).2)) ->
  pwp True True (init_end tmaj tmin maj min claimant st)
    (fun '(maj, min, _, _, _, _) _ _ _ => is_established maj = false -> P maj min) g p s.
Proof.
  intros HP. unfold init_end. destruct (worst _ _ _ _) as [maj' min']. simpl in HP.
  apply pwp_bind, pwp_any. intros _ g' p' s'. apply pwp_ret. intros E. rewrite E. by apply HP.
Qed.

Lemma make_remote_named n r : name_remote n = Some r ->
  make_remote (Some n) = mret (W := W) (GSS_S_COMPLETE, 0, Some n).
Proof. intros E. unfold make_remote. rewrite E. by destruct (name_local n). Qed.

(** With both sides to ask, a failure is reported with the statuses of the local mechanism,
    mapped, whether it was asked before the daemon or after it. *)
Theorem init_reports_local cred ctx name q g p s :
  iq_mech q = OidAt a m -> cred_local cred = None -> ctx_local ctx = None -> is_Some (name_remote name) ->
  gpp_behavior_is g = GPP_LOCAL_FIRST \/ gpp_behavior_is g = GPP_REMOTE_FIRST ->
  pwp True True (gssi_init_sec_context GP_SOCKET_NAME fuel GPP_DEFAULT_BEHAVIOR GSS_ALWAYS_INTERPOSE
    (Some cred) (Some ctx) (Some name) q) (fun '(maj, min, _, _, _, _) _ _ _ =>
      is_established maj = false -> exists st lmin st',
        runs (init_ctx_local q st) (maj, lmin, st') /\ min = gpp_map_error lmin) g p s.
Proof.
  intros Hq Hc Hx Hn Hb. unfold gssi_init_sec_context. rewrite Hq. apply pwp_bind, pwp_bind, pwp_ret, pwp_ret.
  rewrite Hregular. case_bool_decide; [done|]. cbn [orb]. apply pwp_bind, pwp_ret. cbn [negb].
  set (P := fun maj min => exists st lmin st',
    runs (init_ctx_local q st) (maj, lmin, st') /\ min = gpp_map_error lmin).
  unfold init_behavior. rewrite Hc. simpl (default _ _). rewrite Hx. rewrite !bool_decide_eq_false_2 by (by intros [? ?]).
  apply pwp_bind, pwp_ret.
  assert (Hg : reads g p s (gpp_get_behavior GPP_DEFAULT_BEHAVIOR) (gpp_behavior_is g)).
  { unfold gpp_get_behavior. eapply reads_bind; [done|]. by destruct Hb as [-> | ->]. }
  eapply pwp_reads; [exact Hg|]. clear Hg. cbv zeta.
  destruct Hb as [-> | ->].
  - rewrite (bool_decide_eq_true_2 (GPP_LOCAL_FIRST = GPP_LOCAL_ONLY \/ _)) by auto.
    apply pwp_bind, pwp_runs. intros [[tmaj tmin] st] g1 p1 s1 Hr.
    destruct (is_established tmaj) eqn:Et; cbn [orb].
    { apply (init_end_fails _ _ _ _ _ _ P). rewrite worst_none. cbn [fst]. by rewrite Et. }
    rewrite bool_decide_eq_false_2 by done.
    assert (HP : P tmaj (gpp_map_error tmin)) by (by exists (InitState cred ctx name nothing_stored), tmin, st).
    assert (Hend : forall maj min st g p s, pwp True True (init_end tmaj tmin maj min true st)
      (fun '(maj, min, _, _, _, _) _ _ _ => is_established maj = false -> P maj min) g p s).
    { intros maj min st2 g2 p2 s2. apply (init_end_fails _ _ _ _ _ _ P).
      destruct (is_established maj) eqn:Em; [by rewrite (worst_progress _ _ _ _ Em); cbn [fst]; rewrite Em|].
      by rewrite worst_local. }
    apply pwp_bind, pwp_any. intros [[maj min] n] g2 p2 s2. destruct (negb (maj =? 0)); [apply Hend|].
    apply pwp_bind, pwp_any. intros [[maj' min'] st2] g3 p3 s3. rewrite orb_true_r. apply Hend.
  - rewrite (bool_decide_eq_false_2 (GPP_REMOTE_FIRST = GPP_LOCAL_ONLY \/ _)) by (by intros [|]).
    destruct Hn as [r Hr]. destruct s as [c w]. apply pwp_bind, pwp_lib. cbn [in_name].
    rewrite (make_remote_named _ _ Hr). apply wp_ret. cbn [Z.eqb negb default].
    apply pwp_bind, pwp_any. intros [[maj min] st] g2 p2 s2.
    assert (Hend : forall maj min st g p s, (is_established maj = false -> P maj (gpp_map_error min)) ->
      pwp True True (init_end GSS_S_COMPLETE 0 maj min true st)
        (fun '(maj, min, _, _, _, _) _ _ _ => is_established maj = false -> P maj min) g p s).
    { intros maj0 min0 st0 g0 p0 s0 HP. apply (init_end_fails _ _ _ _ _ _ P). by rewrite worst_none. }
    destruct (is_established maj) eqn:Em; cbn [orb]; [by apply Hend; rewrite Em|].
    rewrite bool_decide_eq_true_2 by done. apply pwp_bind, pwp_runs.
    intros [[maj' min'] st'] g3 p3 s3 Hrun. apply Hend. intros _. by exists st, min', st'.
Qed.
End init.
