(* ===== verification/GppRemote.v ===== *)
(** * The plugin: a context of the daemon, end to end

    The theorems of GpmRemote.v carried through the plugin: what the application gets from
    gssi_init_sec_context is what gp_init_sec_context of the daemon computed. *)

From S2P Require Import Prelude Xdr RpcXdr GssxXdr RpcProcess RpcTable RpcReply World Util Conv Creds Handlers.
From S2P Require Import Client ClientLogic ClientWire RemoteCall Gpm GpmLogic GpmNames GpmContexts GpmRemote.
From S2P Require Import Plugin Glue GppNames GppCreds GppAcquire GppInit SpecialList PluginProps GppInitProps.

Section remote.
Context {XL : XdrLib} {LAWS : XdrLaws XL}.
Context {V : Type} {HD : RpcHandlers V} {TYPED : HandlersTyped V}.
Context {W : Type} {AL : Alloc W} {NET : NetLib W} {NW : NetWire W} {GL : GssLib W} {MG : MechGlue W}
  {CL : CacheLib W} {SE : Strerror}.
Variable GP_SOCKET_NAME : string.
Variable fuel : nat.
Variable GPP_DEFAULT_BEHAVIOR : gpp_behavior.
Variable GSS_ALWAYS_INTERPOSE : bool.

(** what the application has of a result of the daemon: the status, the context and nothing
    local, the token, and the flags and the lifetime it asked for *)
Definition given (q : init_request) (maj : Z) (ctx : option (gpp_context_handle W)) (out : init_answer)
    (r : gssx_res_init_sec_context) : Prop :=
  u32 (status_major_status (res_init_sec_context_status r)) = maj /\
  ctx = Some (ContextHandle (res_init_sec_context_context_handle r) None) /\
  default [] (ia_token out) = default [] (res_init_sec_context_output_token r) /\
  (iq_want_flags q = true ->
     ia_flags out = (fun c => u32 (ctx_ctx_flags c)) <$> res_init_sec_context_context_handle r) /\
  (iq_want_time q = true ->
     ia_time out = (fun c => u32 (ctx_lifetime c)) <$> res_init_sec_context_context_handle r).

Lemma established_true maj : is_established maj = true -> established maj.
Proof. by intros [H%Z.eqb_eq|H%Z.eqb_eq]%orb_true_iff; [left|right]. Qed.

Section call.
Variables (cred : gpp_cred_handle W) (r : gssx_cred) (ctx : gpp_context_handle W).
Variables (name : gpp_name_handle W) (n : gssx_name) (q : init_request) (a : Z) (m : bytes).
Hypothesis Hlocal : cred_local cred = None.
Hypothesis Hremote : cred_remote cred = Some r.
Hypothesis Hctx : ctx_local ctx = None.
Hypothesis Hname : name_remote name = Some n.
Hypothesis Hmech : iq_mech q = OidAt a m.
Hypothesis Hregular : gpp_is_special_oid (Some m) = false.

(** the request of the client library *)
Definition wire_arg (options : list gssx_option) : gssx_arg_init_sec_context :=
  init_arg (Some r) (ctx_remote ctx) (Some n) (Some m) (iq_flags q) (iq_time q) (iq_cb q) (iq_token q) options.

(** the run has answered the caller, with the result of the daemon *)
Definition daemon_answer (h : bytes * bytes) (maj : Z) (ctx' : option (gpp_context_handle W))
    (out : init_answer) (s1 : gpm_ctx * W) : Prop :=
  exists options, (options = [] \/ options = [sync_option]) /\
    answered gp_init_sec_context (wire_arg options) (given q maj ctx' out) h s1.

Lemma init_ctx_remote_answered g p s st :
  in_cred st = cred -> in_ctx st = ctx -> in_name st = name -> in_answer st = nothing_stored ->
  in_s32 (g_next_xid s.1) -> iq_want_mech q = false \/ table_ready p ->
  (forall options, options = [] \/ options = [sync_option] ->
     xdom xdr_gssx_arg_init_sec_context (wire_arg options)) ->
  pwp True True (init_ctx_remote GP_SOCKET_NAME fuel GSS_ALWAYS_INTERPOSE q st)
    (fun '(maj, min, st') _ _ s' => is_established maj = true ->
       in_name st' = name /\
       exists s1, s1.1 = s'.1 /\ daemon_answer (hist s) maj (Some (in_ctx st')) (in_answer st') s1) g p s.
Proof.
  intros Hc Hx Hn Ha Hz Hm Hdom. unfold init_ctx_remote. rewrite Hc, Hx, Hn, Ha, Hremote, Hname, Hmech.
  apply pwp_bind, pwp_ret, pwp_bind, pwp_bind, pwp_ret, pwp_ret.
  apply pwp_bind, pwp_client. rewrite Hremote.
  eapply gwp_conseq; [by apply (init_sec_context_wp GP_SOCKET_NAME fuel (Some r) (ctx_remote ctx) (Some n)
    (Some m) (iq_flags q) (iq_time q) (iq_cb q) (iq_token q))|].
  intros [[maj min] out] p1 s1 H. rewrite Hctx.
  destruct (is_established maj) eqn:Em; cbn [negb]; [|by apply pwp_ret; rewrite Em].
  destruct (H (established_true _ Em)) as (options & Ho & Hans).
  assert (Hday : daemon_answer (hist s) maj (Some (ContextHandle (is_context out) None))
    (answer_of out nothing_stored) s1).
  { exists options. split; [exact Ho|]. eapply answered_conseq; [|exact Hans].
    intros res (Hst & Hcx & Ht & Hf & Hl). split_and!; [done|by rewrite Hcx| | |]; cbn.
    - rewrite <- Ht. by destruct (is_token out).
    - intros E. rewrite (Hf E). by destruct (res_init_sec_context_context_handle res).
    - intros E. rewrite (Hl E). by destruct (res_init_sec_context_context_handle res). }
  destruct (is_cred out) as [new|]; [|by apply pwp_ret; intros _; split; [|exists s1]].
  destruct s1 as [c1 w1]. apply pwp_bind, pwp_lib_any. intros stored w2.
  apply pwp_bind, pwp_deref; [done|]. intros _ _. apply pwp_ret. intros _. split; [done|].
  by exists (c1, w1).
Qed.

End call.
End remote.
