(* ===== verification/GppCache.v ===== *)
(** * The plugin: a credential of the daemon in the user's cache

    What gpp_store_remote_creds put into a FILE cache, gppint_retrieve_remote_creds finds:
    how a credential outlives the process that got it.  Caches in memory show it. *)

From S2P Require Import Prelude Xdr Rfc4506 RpcXdr GssxXdr RpcExamples World Util Conv Creds Client Gpm.
From S2P Require Import GpmNames GpmExamples Plugin Glue GppCreds.

(** What is relied on of the caches of libkrb5.  A cache belongs to one principal and holds
    tickets for servers; [fc_works] is a state from which reading does not fail. *)
Class FileCaches (W : Type) {AL : Alloc W} {CL : CacheLib W} := {
  principal_of : bytes -> option principal;
  cache_named : option bytes -> cc_handle;
  cache_name : option bytes -> bytes;
  file_holds : W -> cc_handle -> principal -> list (principal * bytes) -> Prop;
  fc_works : W -> Prop;
  reading {A} (P : A -> Prop) (a : A) (w w' : W) :=
    P a /\ fc_works w' /\ forall c p l, file_holds w c p l -> file_holds w' c p l;
  (* what a call that succeeded did *)
  parse_law t w : wp (krb5_parse_name t) (fun '(ret, o) _ => ret = 0 -> o = principal_of t /\ is_Some o) w;
  default_name_law n w : wp (krb5_cc_default_name n) (fun r _ => r = cache_name n) w;
  default_law n w : wp (krb5_cc_default n) (fun '(ret, o) _ => ret = 0 -> o = Some (cache_named n)) w;
  initialize_law c p w : wp (krb5_cc_initialize (Some c) (Some p))
    (fun ret w' => ret = 0 -> file_holds w' c p []) w;
  store_law c p server t l w : file_holds w c p l ->
    wp (krb5_cc_store_cred (Some c) (Some p, Some server, t))
      (fun ret w' => ret = 0 -> file_holds w' c p (l ++ [(server, t)])) w;
  (* reading *)
  init_works w : fc_works w -> wp glue_init_context (fun ret => reading (fun ret => ret = 0) ret w) w;
  resolve_works n w : fc_works w ->
    wp (glue_cc_resolve n) (fun r => reading (eq (0, Some (cache_named (Some n)))) r w) w;
  default_works w : fc_works w ->
    wp (krb5_cc_default None) (fun r => reading (eq (0, Some (cache_named None))) r w) w;
  parse_works t p w : fc_works w -> principal_of t = Some p ->
    wp (krb5_parse_name t) (fun r => reading (eq (0, Some p)) r w) w;
  get_principal_works c p l w : fc_works w -> file_holds w c p l ->
    wp (krb5_cc_get_principal (Some c)) (fun r => reading (eq (0, Some p)) r w) w;
  retrieve_works c p l server w : fc_works w -> file_holds w c p l -> server ∈ l.*1 ->
    wp (krb5_cc_retrieve_cred (Some c) (Some p, Some server))
      (fun r => reading (fun '(ret, t) => ret = 0 /\ (server, t) ∈ l) r w) w;
}.

Section cache.
Context {XL : XdrLib} {LAWS : XdrLaws XL}.
Context {W : Type} {AL : Alloc W} {CL : CacheLib W} {FC : FileCaches W}.

(** the store of a handle made for a cache *)
Definition store_of (cc : option bytes) : list kv_element :=
  match cc with Some n => [KV "ccache" (Some n)] | None => [] end.

(** the cache holds the credential, and nothing else *)
Definition holds_cred (cc : option bytes) (creds : gssx_cred) (w : W) : Prop :=
  exists p server t, principal_of GPKRB_SRV_NAME = Some server /\
    xdec xdr_gssx_cred t = Some (creds, []) /\ file_holds w (cache_named cc) p [(server, t)].

Lemma encoded_alone {A} (c : codec A) (a : A) n s : 0 <= n -> codec_ok c -> xdom c a ->
  xenc c a (xdrmem_create n) = Some s -> xdec c (xdr_buffer s) = Some (a, []).
Proof.
  intros Hn Hok Ha He. destruct (image_eval _ _ _ _ Hn Hok Ha He) as (Hd & _ & _).
  rewrite <- (app_nil_r (xdr_buffer s)). exact (Hd []).
Qed.

(** the ticket is the image of the credential, whatever it was *)
Lemma construct_cred_image creds w : xdom xdr_gssx_cred creds ->
  wp (gpp_construct_cred creds) (fun r _ => forall client server t,
    r = Some (0, (client, server, t)) -> is_Some client /\ server = principal_of GPKRB_SRV_NAME /\
      is_Some server /\ xdec xdr_gssx_cred t = Some (creds, [])) w.
Proof.
  intros Hc. unfold gpp_construct_cred. apply wp_bind. eapply wp_conseq; [apply parse_law|].
  intros [ret client] w1 H1. destruct (Z.eqb_spec ret 0) as [E1|E1]; cbn [negb].
  2: { apply wp_ret. intros ??? [= ? ? ? ?]. done. }
  apply wp_bind. eapply wp_conseq; [apply parse_law|].
  intros [ret' server] w2 H2. destruct (Z.eqb_spec ret' 0) as [E2|E2]; cbn [negb].
  2: { apply wp_ret. intros ??? [= ? ? ? ?]. done. }
  destruct (H1 E1) as [_ Hcl], (H2 E2) as [Hsv Hsv'].
  apply wp_bind, wp_any. intros ok w3. destruct ok; cbn [negb]; apply wp_ret; [|done].
  destruct (xenc xdr_gssx_cred creds (xdrmem_create GPKRB_MAX_CRED_SIZE)) as [s|] eqn:Ee.
  2: { intros ??? [=]. }
  intros c sv t E. injection E as <- <- <-. split_and!; [done|done|done|].
  exact (encoded_alone _ _ GPKRB_MAX_CRED_SIZE _ ltac:(done) codec_ok_cred Hc Ee).
Qed.

Lemma set_default_named cc w : wp (set_default_cache (store_of cc)) (fun '(_, name) _ => name = cc) w.
Proof.
  destruct cc as [n|]; simpl; [|done]. apply wp_bind, wp_any. intros ret w'. by apply wp_ret.
Qed.

(** a function that stops at an error does not report success *)
Ltac failing ret := destruct (Z.eqb_spec ret 0) as [->|]; cbn [negb]; [|by apply wp_ret; intros ? [=]].

(** a cache on file, written *)
Lemma store_holds dflt cc creds w : xdom xdr_gssx_cred creds -> is_file (cache_name cc) = true ->
  wp (gpp_store_remote_creds dflt (Some (store_of cc)) creds)
    (fun r w' => forall min, r = Some (GSS_S_COMPLETE, min) -> holds_cred cc creds w') w.
Proof.
  intros Hc Hf. unfold gpp_store_remote_creds. cbv zeta.
  apply wp_bind, wp_any. intros ret w0. failing ret.
  apply wp_bind. eapply wp_conseq; [by apply construct_cred_image|].
  intros [[ret1 [[client server] t]]|] w1 Himg; [|by apply wp_ret; intros ? [=]]. failing ret1.
  destruct (Himg _ _ _ eq_refl) as ([p ->] & Hsv & [sv ->] & Ht).
  apply wp_bind. eapply wp_conseq; [apply set_default_named|]. intros [ret2 name] w2 ->. failing ret2.
  apply wp_bind. eapply wp_conseq; [apply default_name_law|]. intros nm w3 ->. rewrite Hf.
  apply wp_bind. eapply wp_conseq; [apply default_law|]. intros [ret3 c] w4 Hcc. failing ret3.
  rewrite (Hcc eq_refl).
  apply wp_bind. eapply wp_conseq; [apply initialize_law|]. intros ret4 w5 Hinit. failing ret4.
  apply wp_bind. eapply wp_conseq; [by apply store_law, Hinit|]. intros ret5 w6 Hstore. failing ret5.
  apply wp_ret. intros min _. exists p, sv, t. split_and!; [done|done|]. by apply Hstore.
Qed.

(** What the cache holds is found, from a state from which reading does not fail. *)
Lemma retrieve_held cc creds w : holds_cred cc creds w -> fc_works w ->
  wp (gppint_retrieve_remote_creds cc None) (fun r _ => r = (GSS_S_COMPLETE, 0, Some creds)) w.
Proof.
  intros (p & sv & t & Hsv & Ht & Hc) Hw. unfold gppint_retrieve_remote_creds. cbv zeta.
  apply wp_bind. eapply wp_conseq; [by apply init_works|]. intros ret w1 (-> & Hw1 & Hk1). cbn [Z.eqb negb].
  apply wp_bind. eapply (wp_conseq _ (fun r => reading (eq (0, Some (cache_named cc))) r w1)).
  { destruct cc; [by apply resolve_works|by apply default_works]. }
  intros r w2 (<- & Hw2 & Hk2). cbn [Z.eqb negb].
  apply wp_bind. eapply wp_conseq; [eapply get_principal_works; [done|by apply Hk2, Hk1]|].
  intros r w3 (<- & Hw3 & Hk3). cbn [Z.eqb negb].
  apply wp_bind. eapply wp_conseq; [by apply parse_works|]. intros r w4 (<- & Hw4 & Hk4). cbn [Z.eqb negb].
  apply wp_bind. eapply wp_conseq.
  { eapply retrieve_works; [done|by apply Hk4, Hk3, Hk2, Hk1|]. by left. }
  intros [ret t'] w5 ([-> Ht'] & _ & _). cbn [Z.eqb negb].
  apply list_elem_of_singleton in Ht' as [= ->]. rewrite Ht. by apply wp_ret.
Qed.

(** C10. A credential the daemon gave, once it has been stored in a cache on file, is the one that
    is found there, byte for byte, by whoever looks for a credential in this cache next. *)
Theorem cached_cred_found dflt cc creds w min w' :
  xdom xdr_gssx_cred creds -> is_file (cache_name cc) = true ->
  gpp_store_remote_creds dflt (Some (store_of cc)) creds w = (Some (GSS_S_COMPLETE, min), w') ->
  fc_works w' ->
  wp (gppint_retrieve_remote_creds cc None) (fun r _ => r = (GSS_S_COMPLETE, 0, Some creds)) w'.
Proof.
  intros Hc Hf Hrun Hw. apply retrieve_held; [|done].
  exact (wp_run _ _ _ _ _ Hrun (store_holds dflt cc creds w Hc Hf) min eq_refl).
Qed.
End cache.

(** ** Caches in memory

    An instance of the caches GppCache.v relies on: a cache is known by its name, belongs to a
    principal and holds tickets; a principal is its text. *)

Definition caches : Type := list (option bytes * (bytes * list (bytes * bytes))).

Fixpoint find_cache (c : option bytes) (w : caches) : option (bytes * list (bytes * bytes)) :=
  match w with
  | [] => None
  | (c', x) :: w => if decide (c = c') then Some x else find_cache c w
  end.

#[export] Instance caches_alloc : Alloc caches := mret true.

Definition ticket_of (server : bytes) (l : list (bytes * bytes)) : option bytes :=
  snd <$> find (fun e => bool_decide (e.1 = server)) l.

#[export] Instance memory_caches : CacheLib caches := {|
  cc_handle := option bytes; principal := bytes;
  glue_init_context := mret 0; krb5_parse_name t := mret (0, Some t);
  krb5_cc_set_default_name _ := mret 0;
  krb5_cc_default_name n := mret (default (String.list_byte_of_string "FILE:/tmp/krb5cc") n);
  krb5_cc_default n := mret (0, Some n); glue_cc_resolve n := mret (0, Some (Some n));
  krb5_cc_initialize c p := fun w => match c, p with
    | Some c, Some p => (0, (c, (p, [])) :: w) | _, _ => (EINVAL, w) end;
  krb5_cc_store_cred c t := fun w => match c, t with
    | Some c, (Some _, Some server, t) =>
        match find_cache c w with
        | Some (p, l) => (0, (c, (p, l ++ [(server, t)])) :: w)
        | None => (EINVAL, w)
        end
    | _, _ => (EINVAL, w)
    end;
  krb5_cc_cache_match _ := mret (EINVAL, None); krb5_cc_new_unique _ := mret (EINVAL, None);
  krb5_cc_switch _ := mret EINVAL;
  krb5_cc_get_principal c := fun w => match c ≫= fun c => find_cache c w with
    | Some (p, _) => (0, Some p, w) | None => (EINVAL, None, w) end;
  krb5_cc_retrieve_cred c who := fun w =>
    match (c ≫= fun c => find_cache c w) ≫= fun x => who.2 ≫= fun s => ticket_of s x.2 with
    | Some t => (0, t, w) | None => (EINVAL, [], w) end;
|}.

Lemma ticket_found server l : server ∈ l.*1 -> exists t, ticket_of server l = Some t /\ (server, t) ∈ l.
Proof.
  intros ([s t] & Hs & Hin)%list_elem_of_fmap. simpl in Hs. subst s. unfold ticket_of.
  destruct (find _ l) as [[s' t']|] eqn:E.
  - apply find_some in E as [E%list_elem_of_In Hs%bool_decide_eq_true]. simpl in Hs. subst s'. by exists t'.
  - exfalso. apply list_elem_of_In in Hin. pose proof (find_none _ _ E _ Hin) as H.
    simpl in H. by rewrite bool_decide_eq_true_2 in H.
Qed.

#[export] Instance memory_files : FileCaches caches.
Proof.
  refine {| principal_of t := Some t; cache_named := fun n => n : cc_handle (W := caches);
    cache_name := fun n => default (String.list_byte_of_string "FILE:/tmp/krb5cc") n;
    file_holds w c p l := find_cache c w = Some (p, l); fc_works _ := True |}; try done.
  - intros c p w _. simpl. by rewrite decide_True.
  - intros c p server t l w E. unfold wp. simpl. rewrite E. intros _. simpl. by rewrite decide_True.
  - intros t p w _ [= ->]. done.
  - intros c p l w _ E. unfold wp. simpl. rewrite E. done.
  - intros c p l server w _ E Hs. unfold wp. simpl. rewrite E. simpl.
    destruct (ticket_found server l Hs) as (t & -> & Ht). done.
Defined.

(** ** A credential, stored and found *)

Definition cached : gssx_cred := Mk_cred empty_name [] [Byte.x55; Byte.x66] false.
Definition stored : caches :=
  Eval vm_compute in (gpp_store_remote_creds (W := caches) true (Some (store_of None)) cached []).2.

Lemma stored_run : gpp_store_remote_creds (W := caches) true (Some (store_of None)) cached [] =
  (Some (GSS_S_COMPLETE, 0), stored).
Proof. vm_compute. reflexivity. Qed.

Lemma cached_cred_found_witness :
  wp (gppint_retrieve_remote_creds None None) (fun r _ => r = (GSS_S_COMPLETE, 0, Some cached)) stored.
Proof. exact (cached_cred_found true None cached [] 0 stored ltac:(constant_dom) eq_refl stored_run I). Defined.
