(* ===== verification/PluginExamples.v ===== *)
(** * Concrete runs of the plugin

    The plugin over the network of ClientExamples.v: a mechglue in which only the
    establishment of a context works, caches of credentials in memory, and two threads that
    add a special OID at the same time. *)

From S2P Require Import Prelude Xdr Rfc4506 RpcXdr GssxXdr RpcProcess RpcTable RpcReply RpcExamples Socket.
From S2P Require Import Accept World Util Conv Creds Client ClientLogic ClientFds ClientWire RemoteCall.
From S2P Require Import ClientExamples Gpm GpmLogic GpmNames GpmCreds GpmContexts GpmRemote GpmProps.
From S2P Require Import GpmExamples Plugin Glue GppContext GppNames GppCreds GppAcquire GppInit SpecialList.
From S2P Require Import SpecialConc PluginProps GppInitProps GppRemote GppCache.

(** ** Libraries *)

Definition local_token : bytes := [Byte.x4c].

#[export] Instance set_glue : MechGlue net := {|
  gss_any := unit;
  glue_canonicalize_name _ _ := refuse None; glue_duplicate_name _ := refuse None;
  glue_inquire_name _ := refuse (0, None, None); glue_display_name_ext _ _ := refuse [];
  glue_get_name_attribute _ _ _ := refuse (0, 0, [], [], 0);
  glue_set_name_attribute _ _ _ _ := refuse None; glue_delete_name_attribute _ _ := refuse None;
  glue_release_name _ := mret (GSS_S_COMPLETE, 0); glue_authorize_localname _ _ := mret (GSS_S_UNAVAILABLE, 0);
  glue_map_name_to_any _ _ _ := refuse None; glue_release_any_name_mapping _ _ _ := mret (GSS_S_UNAVAILABLE, 0);
  glue_inquire_names_for_mech _ := refuse None; glue_inquire_attrs_for_mech _ := refuse (None, None);
  glue_inquire_saslname_for_mech _ := refuse None; gssspi_mech_invoke _ _ _ := refuse [];
  glue_acquire_cred_from _ _ _ _ _ := refuse (None, None, 0);
  glue_acquire_cred_impersonate_name _ _ _ _ _ := refuse (None, None, 0);
  glue_acquire_cred_with_password _ _ _ _ _ := refuse (None, None, 0);
  glue_inquire_cred_by_mech _ _ _ := refuse (CredByMech None 0 0 0);
  glue_store_cred_into _ _ _ _ _ _ := refuse (None, 0); glue_set_cred_option _ _ _ := refuse None;
  glue_release_cred _ := mret (GSS_S_COMPLETE, 0);
  glue_init_sec_context _ _ _ mech flags _ _ _ := (* one set of flags is refused *)
    if flags =? 4 then mret (GSS_S_FAILURE, 77, (None, None, None, 0, 0))
    else mret (GSS_S_CONTINUE_NEEDED, 0, (Some tt, mech, Some local_token, 2, 60));
  glue_accept_sec_context _ _ _ _ _ _ := refuse (None, None, None, None, 0, 0, None);
  glue_delete_sec_context _ := mret (GSS_S_COMPLETE, 0);
  gss_process_context_token _ _ := mret (GSS_S_UNAVAILABLE, 0); gss_context_time _ := refuse 0;
  gss_inquire_sec_context_by_oid _ _ := refuse []; gss_set_sec_context_option _ _ _ := refuse None;
  gss_pseudo_random _ _ _ _ := refuse []; gss_wrap_iov _ _ _ _ := refuse (0, []);
  gss_wrap_iov_length _ _ _ _ := refuse (0, []); gss_unwrap_iov _ _ := refuse (0, 0, []);
  gss_wrap_aead _ _ _ _ _ := refuse (0, []); gss_unwrap_aead _ _ _ := refuse ([], 0, 0);
|}.

#[export] Instance set_gss_equal : OidEqual net.
Proof. intros a b. apply bool_decide_eq_true. Qed.

(** no caches *)
#[export] Instance no_caches : CacheLib net := {|
  cc_handle := unit; principal := unit;
  glue_init_context := mret 1; krb5_parse_name _ := mret (1, None);
  krb5_cc_set_default_name _ := mret 1; krb5_cc_default_name _ := mret [];
  krb5_cc_default _ := mret (1, None); glue_cc_resolve _ := mret (1, None);
  krb5_cc_initialize _ _ := mret 1; krb5_cc_store_cred _ _ := mret 1;
  krb5_cc_cache_match _ := mret (1, None); krb5_cc_new_unique _ := mret (1, None);
  krb5_cc_switch _ := mret 1; krb5_cc_get_principal _ := mret (1, None);
  krb5_cc_retrieve_cred _ _ := mret (1, []);
|}.

#[local] Abbreviation sock := "/run/gssproxy".
#[local] Abbreviation V := Z (only parsing).

(** what a run from the start gives; [None] is a crash *)
Definition outcome_in {A} (w : gpm_ctx * net) (g : gpp_proc) (m : Pp net A) : option A :=
  match m g gpm_start w with Some (Some ((a, _), _), _) => Some a | _ => None end.
Lemma outcome_run {A} w g (m : Pp net A) a : outcome_in w g m = Some a ->
  exists g' p' s', m g gpm_start w = Some (Some ((a, g'), p'), s').
Proof.
  unfold outcome_in. destruct (m g gpm_start w) as [[[[[x g'] p']|] s']|]; intros [= ->]. by exists g', p', s'.
Qed.
#[local] Abbreviation outcome_from := (outcome_in calm).
#[local] Abbreviation outcome := (outcome_in calm gpp_start).

(** ** Special OIDs *)

Definition m1 : bytes := [Byte.x2a; Byte.x01].
Definition m2 : bytes := [Byte.x2a; Byte.x02].

Lemma special_mech_roundtrip_witness :
  pwp False False (gpp_special_mech (W := net) (OidAt 0 m1)) (fun r g' p' s' =>
    sound (gpp_mechs g') /\ same_oids (s_items (gpp_mechs gpp_start)) (s_items (gpp_mechs g')) /\
    (r = GSS_C_NO_OID \/
     reads g' p' s' (oid_at r) (Some (gssproxy_mech_interposer ++ m1)) /\
     (exists r', reads g' p' s' (gpp_special_mech (OidAt 0 m1)) r' /\
        reads g' p' s' (oid_at r') (Some (gssproxy_mech_interposer ++ m1))) /\
     (exists u, reads g' p' s' (gpp_unspecial_mech r) u /\ reads g' p' s' (oid_at u) (Some m1))))
    gpp_start gpm_start calm.
Proof.
  apply (special_mech_roundtrip 0 m1 gpp_start gpm_start calm no_special_mechs_sound); reflexivity.
Defined.

Lemma map_error_roundtrip_witness : in_u32 (gpp_map_error 22) /\
  (gpp_unmap_error (gpp_map_error 22) = 22 <-> 22 <> 2 ^ 32 - MAP_ERROR_BASE).
Proof. apply (map_error_roundtrip 22). split; [discriminate|reflexivity]. Defined.

(** the status that is lost *)
Example map_error_lost : gpp_unmap_error (gpp_map_error (2 ^ 32 - MAP_ERROR_BASE)) = 0.
Proof. by vm_compute. Qed.

(** ** Tokens *)

Definition krb5_ctx : gssx_ctx :=
  Mk_ctx (wrap_token gpoid_krb5 local_token) [] false [] empty_name empty_name 0 0 true true [].

Lemma remote_to_local_imports_witness :
  pwp False False (gpp_remote_to_local_ctx (W := net) krb5_ctx)
    (fun r g' p' s' => sound (gpp_mechs g') /\ p' = gpm_start /\
    (r = (GSS_S_FAILURE, None, Some krb5_ctx, None) \/
     exists w, let '((maj, min, local), w') :=
       gss_import_sec_context (wrap_token (gssproxy_mech_interposer ++ gpoid_krb5) local_token) w in
       r = (maj, Some min, None, local) /\ s' = (calm.1, w'))) gpp_start gpm_start calm.
Proof.
  by apply (remote_to_local_imports krb5_ctx gpoid_krb5 local_token gpp_start gpm_start calm no_special_mechs_sound).
Defined.

(** A length whose sum with the header wraps: the OID is copied from past the token. *)
Example token_overflow : outcome (gpp_remote_to_local_ctx
  (Mk_ctx (be_bytes 4 (2 ^ 32 - 1) ++ local_token) [] false [] empty_name empty_name 0 0 true true [])) = None.
Proof. by vm_compute. Qed.

(** ** Two threads *)

(** An item before it is linked, one that is the head of a list of one. *)
Definition lone (m : bytes) : gpp_special_oid_list := SpecialOid m (gssproxy_mech_interposer ++ m) None false.
Definition both_added : special_mechs := SpecialMechs [lone m1; lone m2] (Some 1%nat) true.

(** Both threads have seen an empty list, and both have written the head. *)
Lemma both_added_reachable : conc_reachable (Conc both_added [Done; Done]).
Proof.
  unfold conc_reachable.
  eapply rtc_l; [by apply (step_adder no_special_mechs [] m1)|].
  eapply rtc_l; [by apply (step_adder _ _ m2)|].
  eapply rtc_l; [by eapply (step_thread _ _ 0)|]. eapply rtc_l; [by eapply (step_thread _ _ 1)|].
  eapply rtc_l; [by eapply (step_thread _ _ 0)|]. eapply rtc_l; [by eapply (step_thread _ _ 1)|].
  eapply rtc_l; [by eapply (step_thread _ _ 0)|]. eapply rtc_l; [by eapply (step_thread _ _ 1)|].
  apply rtc_refl.
Qed.

(** The second thread's head has replaced the first one's: the item of the first mechanism is
    in no traversal, though its special OID has been handed out, and gpp_unspecial_mech does
    not know it. *)
Example lost_item : listed both_added [1%nat] /\ length (s_items both_added) = 2%nat /\
  outcome_from (GppProc GPP_UNINITIALIZED both_added) (gpp_unspecial_mech (OidSpecial 0)) = Some (OidSpecial 0) /\
  outcome_from (GppProc GPP_UNINITIALIZED both_added) (gpp_unspecial_mech (OidSpecial 1)) = Some (OidRegular 1).
Proof. split; [split; [done|by exists (lone m2)]|]. split; [done|]. split; by vm_compute. Qed.

(** ... and a third thread that reads *)
Definition reading_one : conc := Conc both_added [Done; Done; ReadTest 1].
Lemma reading_one_reachable : conc_reachable reading_one.
Proof.
  apply (rtc_r _ (Conc both_added [Done; Done; ReadHead])).
  { apply (rtc_r _ (Conc both_added [Done; Done; ReadStart])).
    { eapply rtc_r; [exact both_added_reachable|apply (step_reader both_added)]. }
    by apply (step_thread both_added [Done; Done; ReadStart] 2 ReadStart both_added ReadHead). }
  by apply (step_thread both_added [Done; Done; ReadHead] 2 ReadHead both_added (ReadTest 1)).
Qed.

Lemma special_list_safe_witness :
  (ReadTest 1 = Done \/ exists h' t', thread_step both_added (ReadTest 1) = Some (h', t')) /\
  (forall i, cursor (ReadTest 1) = Some i -> exists it, s_items both_added !! i = Some it /\
     special_oid it = gssproxy_mech_interposer ++ regular_oid it).
Proof. exact (special_list_safe reading_one 2 (ReadTest 1) reading_one_reachable eq_refl). Defined.

Lemma traversal_ends_witness : finishes 8 both_added (ReadTest 1).
Proof. exact (traversal_ends reading_one 2 (ReadTest 1) reading_one_reachable eq_refl). Defined.

(** ** Establishing a context *)

Definition krb5_request : init_request :=
  InitRequest (OidAt 0 gss_mech_krb5) 2 0 None None false true true.
Definition host : gssx_name := Mk_name message GSS_C_NT_ANONYMOUS [] [] [] [].
Definition host_name : gpp_name_handle net := NameHandle None (Some host) None.
Definition known_name : gpp_name_handle net := NameHandle None (Some host) (Some tt).
Definition user_cred : gssx_cred := Mk_cred empty_name [] [Byte.x55] false.
Definition remote_cred : gpp_cred_handle net := CredHandle (Some user_cred) [] false None.
Definition local_cred : gpp_cred_handle net := CredHandle None [] false (Some tt).
Definition new_context : gpp_context_handle net := ContextHandle None None.

Definition behaving (b : gpp_behavior) : gpp_proc := GppProc b no_special_mechs.

#[local] Abbreviation initiate := (gssi_init_sec_context (W := net) sock 100 GPP_LOCAL_FIRST true).

(** A local credential: the mechanism goes on, although the daemon was to be asked. *)
Example local_goes_on : outcome_from (behaving GPP_REMOTE_ONLY)
  (initiate (Some local_cred) None (Some (NameHandle None None (Some tt))) krb5_request) =
  Some (GSS_S_CONTINUE_NEEDED, 0, Some (ContextHandle None (Some tt)), Some local_cred,
    Some (NameHandle None None (Some tt)),
    InitAnswer (OidAt 0 (gssproxy_mech_interposer ++ gss_mech_krb5)) (Some local_token) (Some 2) (Some 60)).
Proof. vm_compute. reflexivity. Qed.

Lemma init_local_only_witness :
  pwp False False (initiate (Some local_cred) None (Some host_name) krb5_request)
    (fun '(_, _, ctx', cred', _, _) g' p' s' =>
      offline (behaving GPP_REMOTE_ONLY) gpm_start calm g' p' s' /\ cred' = Some local_cred /\
      (forall h, ctx' = Some h -> ctx_remote h = None ≫= ctx_remote (W := net)))
    (behaving GPP_REMOTE_ONLY) gpm_start calm.
Proof.
  apply (init_local_only sock 100 GPP_LOCAL_FIRST true 0 gss_mech_krb5 ltac:(done) ltac:(done) (Some local_cred)
    None host_name krb5_request (behaving GPP_REMOTE_ONLY) gpm_start calm eq_refl no_special_mechs_sound).
  right. left. by exists tt.
Defined.

(** Both sides fail: the status of the local mechanism, 77, is reported, whichever was first. *)
Definition refused_request : init_request :=
  InitRequest (OidAt 0 gss_mech_krb5) 4 0 None None false true true.
Definition short_of_memory : gpm_ctx * net := net_with signing_handlers 1 (repeat false 50).

Example both_fail b : b = GPP_LOCAL_FIRST \/ b = GPP_REMOTE_FIRST ->
  (fun '(maj, min, ctx, _, _, _) => (maj, min, ctx)) <$> outcome_in short_of_memory (behaving b)
    (initiate (Some remote_cred) (Some new_context) (Some known_name) refused_request) =
  Some (GSS_S_FAILURE, gpp_map_error 77, None).
Proof. by intros [-> | ->]; vm_compute. Qed.

Lemma init_reports_local_witness :
  pwp True True (initiate (Some remote_cred) (Some new_context) (Some known_name) refused_request)
    (fun '(maj, min, _, _, _, _) _ _ _ => is_established maj = false -> exists st lmin st',
       runs (init_ctx_local refused_request st) (maj, lmin, st') /\ min = gpp_map_error lmin)
    (behaving GPP_REMOTE_FIRST) gpm_start short_of_memory.
Proof.
  exact (init_reports_local sock 100 GPP_LOCAL_FIRST true 0 gss_mech_krb5 eq_refl remote_cred new_context
    known_name refused_request (behaving GPP_REMOTE_FIRST) gpm_start short_of_memory eq_refl eq_refl eq_refl
    (ex_intro _ host eq_refl) (or_intror eq_refl)).
Defined.

(** ** The daemon's context *)

Lemma gssi_initiated : outcome_from (behaving GPP_REMOTE_ONLY)
    (initiate (Some remote_cred) (Some new_context) (Some host_name) krb5_request) =
  Some (GSS_S_COMPLETE, 0, Some (ContextHandle (Some (d_ctx [Byte.x07])) None), Some remote_cred,
    Some host_name, InitAnswer GSS_C_NO_OID (Some d_token) (Some 2) (Some 0)).
Proof. vm_compute. reflexivity. Qed.

Lemma krb5_wire_dom options : options = [] \/ options = [sync_option] ->
  xdom xdr_gssx_arg_init_sec_context (wire_arg user_cred new_context host krb5_request gss_mech_krb5 options).
Proof. intros [->| ->]; constant_dom. Qed.

