(* ===== verification/Reload.v ===== *)
(** * Listening sockets and the reload of the configuration

    setup_socket, init_sockets, init_userproxy_socket, init_proc_nfsd and hup_handler of
    src/gp_init.c.

    The event loop owns the listening sockets: an event is a number, and the private data of
    a live one is in a table, which several pointers lead to - the default socket, the
    services of the configuration, the connections that were accepted.  The name of a socket
    is a string of the configuration it was made for, so the table says which one that is:
    configurations are numbered in the order they are read, and free_config takes the strings
    of the old one away. *)

From S2P Require Import Prelude RpcProcess Socket Accept World Service Crypt Outcome Trace Config.

(** ** The state *)

(** struct gp_sock_ctx, and the number of the configuration its name belongs to *)
Record live_sock := LiveSock { ls_socket : option string; ls_fd : Z; ls_owner : nat }.

(** struct gssproxy_ctx, where the services of the configuration have their events *)
Record server := Server {
  g_config : gp_config;
  g_number : nat;                  (* of the configuration *)
  g_evs : list (option nat);       (* ev of each service *)
  g_sock_ev : option nat;
  g_term_timeout : Z;
  g_socks : gmap nat live_sock;    (* the private data of the live events *)
  g_next : nat;
  g_poked : bool;                  (* the kernel has been told: poked of try_init_proc_nfsd *)
  g_retry : bool;                  (* retry_proc_ev is there *)
}.

Definition set_evs (evs : list (option nat)) (s : server) : server :=
  Server (g_config s) (g_number s) evs (g_sock_ev s) (g_term_timeout s) (g_socks s) (g_next s) (g_poked s) (g_retry s).
Definition set_sock_ev (ev : option nat) (s : server) : server :=
  Server (g_config s) (g_number s) (g_evs s) ev (g_term_timeout s) (g_socks s) (g_next s) (g_poked s) (g_retry s).
Definition set_socks (socks : gmap nat live_sock) (s : server) : server :=
  Server (g_config s) (g_number s) (g_evs s) (g_sock_ev s) (g_term_timeout s) socks (g_next s) (g_poked s) (g_retry s).
Definition no_timeout (s : server) : server :=
  Server (g_config s) (g_number s) (g_evs s) (g_sock_ev s) 0 (g_socks s) (g_next s) (g_poked s) (g_retry s).
Definition add_event (sock : live_sock) (s : server) : server :=
  Server (g_config s) (g_number s) (g_evs s) (g_sock_ev s) (g_term_timeout s)
    (<[g_next s := sock]> (g_socks s)) (S (g_next s)) (g_poked s) (g_retry s).

Definition set_poked (poked retry : bool) (s : server) : server :=
  Server (g_config s) (g_number s) (g_evs s) (g_sock_ev s) (g_term_timeout s) (g_socks s) (g_next s)
    poked retry.

(** a configuration that has just been read: no service has an event yet *)
Definition install (cfg : gp_config) (s : server) : server :=
  Server cfg (S (g_number s)) (repeat None (length (cfg_svcs cfg))) (g_sock_ev s)
    (g_term_timeout s) (g_socks s) (g_next s) (g_poked s) (g_retry s).

(** a server that has only been configured *)
Definition fresh_server (cfg : gp_config) (term_timeout : Z) : server :=
  Server cfg 0 (repeat None (length (cfg_svcs cfg))) None term_timeout ∅ 0 false false.

(** what the kernel, systemd and libverto answer *)
Class LoopLib (W : Type) := {
  listen_answers : string -> M W listen_env;
  (* sd_listen_fds, memory, and the flags of the descriptor *)
  activation_answers : M W (Z * bool * fcntl_env * fcntl_env);
  verto_add_io : Z -> M W bool;
  verto_add_timeout : Z -> M W bool;
  (* open(2) of the kernel's file, an errno or then what write(2) returned and its errno *)
  poke_nfsd : M W (Z + Z * Z);
}.

Section reload.
Context {W : Type} {LL : LoopLib W}.
Variable HAVE_SYSTEMD_DAEMON : bool.

Definition find_service_by_name (cfg : gp_config) (name : string) : option (nat * gp_service) :=
  list_find (fun svc => svc_name svc = name) (cfg_svcs cfg).

(** [Done None] is NULL; a null name is read by strncpy(3).  The descriptor is lost when the
    event cannot be added. *)
Definition setup_socket (name : option string) (with_activation : bool) (s : server)
  : Cf W (option nat * server) :=
  let* '(ret, sock) :=
    if HAVE_SYSTEMD_DAEMON && with_activation then
      let* '(num, mem, status, fd) := activation_answers in
      mret (init_activation_socket num mem status fd (default "" name))
    else mret (0, None) in
  if negb (ret =? 0) then mret (Done (None, s)) else
  try* '(sock, s) :=
    match sock, name with
    | Some k, _ => mret (Done (Some k, s))
    | None, None => mret Fault
    | None, Some n =>
        let* e := listen_answers n in
        mret (Done ((init_unix_socket e n).1, no_timeout s))
    end in
  match sock with
  | None => mret (Done (None, s))
  | Some k =>
      let* ok := verto_add_io (sock_fd k) in
      mret (Done (if ok : bool then
                    (Some (g_next s), add_event (LiveSock name (sock_fd k) (g_number s)) s)
                  else (None, s)))
  end.

(** the event is gone, with its private data *)
Definition verto_del (ev : nat) (s : server) : server := set_socks (delete ev (g_socks s)) s.

(** sock_ctx->socket of an event becomes a string of the current configuration *)
Definition rename (ev : nat) (name : option string) (s : server) : server :=
  set_socks (alter (fun k => LiveSock name (ls_fd k) (g_number s)) ev (g_socks s)) s.

(** the default socket; [Done (false, _)] is the return with 1 *)
Definition init_main_socket (old : option gp_config) (s : server) : Cf W (bool * server) :=
  let name := cfg_socket_name (g_config s) in
  match old with
  | None =>
      try* '(ev, s) := setup_socket name false s in
      mret (Done (match ev with Some _ => (true, set_sock_ev ev s) | None => (false, s) end))
  | Some old =>
      match cfg_socket_name old, name with
      | Some o, Some n =>
          if bool_decide (o <> n) then
            try* '(ev, s) := setup_socket name false s in
            match ev, g_sock_ev s with
            | Some _, Some e => mret (Done (true, set_sock_ev ev (verto_del e s)))
            | Some _, None => mret (Done (true, set_sock_ev ev s))
            | None, _ => mret (Done (false, s))
            end
          else match g_sock_ev s with
               | Some e => mret (Done (true, rename e name s))
               | None => mret Fault
               end
      | _, _ => mret Fault
      end
  end.

(** the pointers to two strings are equal, or the strings are *)
Definition same_socket (a b : option string) : bool :=
  match a, b with Some a, Some b => bool_decide (a = b) | None, None => true | _, _ => false end.

(** the events of the old services, kept or deleted *)
Fixpoint propagate (olds : list (gp_service * option nat)) (s : server) : server :=
  match olds with
  | [] => s
  | (old, None) :: olds => propagate olds s
  | (old, Some ev) :: olds =>
      propagate olds
        match find_service_by_name (g_config s) (svc_name old) with
        | Some (j, svc) =>
            if same_socket (svc_socket svc) (svc_socket old)
            then rename ev (svc_socket svc) (set_evs (<[j := Some ev]> (g_evs s)) s)
            else verto_del ev s
        | None => verto_del ev s
        end
  end.

(** the sockets that are missing; [i] is the number of the first of [svcs] *)
Fixpoint init_other_sockets (i : nat) (svcs : list gp_service) (s : server) : Cf W (bool * server) :=
  match svcs with
  | [] => mret (Done (true, s))
  | svc :: svcs =>
      match svc_socket svc, g_evs s !! i with
      | Some _, Some None =>
          try* '(ev, s) := setup_socket (svc_socket svc) false s in
          match ev with
          | None => mret (Done (false, s))
          | Some _ => init_other_sockets (S i) svcs (set_evs (<[i := ev]> (g_evs s)) s)
          end
      | _, _ => init_other_sockets (S i) svcs s
      end
  end.

Definition init_sockets (old : option (gp_config * list (option nat))) (s : server)
  : Cf W (Z * server) :=
  try* '(ok, s) := init_main_socket (fst <$> old) s in
  if negb ok then mret (Done (1, s)) else
  let s := match old with
           | Some (cfg, evs) => propagate (zip (cfg_svcs cfg) evs) s
           | None => s
           end in
  try* '(ok, s) := init_other_sockets 0 (cfg_svcs (g_config s)) s in
  mret (Done (if ok : bool then 0 else 1, s)).

Definition init_userproxy_socket (s : server) : Cf W (Z * server) :=
  try* '(ev, s) := setup_socket (cfg_socket_name (g_config s)) true s in
  mret (Done (match ev with Some _ => (0, set_sock_ev ev s) | None => (1, s) end)).

(** ** The kernel's NFS server *)

(** A write that returns neither 1 nor -1 gives the errno of some call before it. *)
Definition try_init_proc_nfsd (s : server) : M W (Z * server) :=
  if g_poked s then mret (0, s) else
  let* r := poke_nfsd in
  mret (match r with
        | inl errno => (errno, s)
        | inr (n, errno) => if negb (n =? 1) then (errno, s) else (0, set_poked true (g_retry s) s)
        end).

(** the timer is repeated until it is deleted *)
Definition delayed_proc_nfsd (s : server) : M W server :=
  let* '(ret, s) := try_init_proc_nfsd s in
  mret (if ret =? 0 then set_poked (g_poked s) false s else s).

Definition init_proc_nfsd (s : server) : M W (Z * server) :=
  let out s := mret (0, set_poked (g_poked s) false s) in
  if negb (existsb svc_kernel_nfsd (cfg_svcs (g_config s))) then out s else
  let* '(ret, s) := try_init_proc_nfsd s in
  if ret =? 0 then out s else
  let* retry := if g_retry s then mret true else verto_add_timeout (10 * 1000) in
  mret (1, set_poked (g_poked s) retry s).

(** ** SIGHUP *)

Inductive hup := HupKept (s : server) | HupReloaded (s : server) | HupExit (code : Z).

Context {AL : Alloc W} {INI : IniLib W} {SYS : ConfSys W} {KL : KrbLib W} {TL : TraceLib W} {ST : Statics W}.
Variables (GP_SOCKET_NAME PUBCONF_PATH : string).
(** what the daemon was started with *)
Variables (config_file config_dir config_socket : option string) (daemonize : Z).

(** a configuration that cannot be read keeps the old one; else the old one is freed at the
    end *)
Definition hup_handler (fuel : nat) (s : server) : Cf W hup :=
  let* r := read_config GP_SOCKET_NAME PUBCONF_PATH fuel config_file config_dir config_socket daemonize in
  match r with
  | Failed _ => mret (Done (HupKept s))
  | Fault => mret Fault
  | Loops => mret Loops
  | Done cfg =>
      try* '(ret, s') := init_sockets (Some (g_config s, g_evs s)) (install cfg s) in
      if negb (ret =? 0) then mret (Done (HupExit ret)) else
      let* '(_, s') := init_proc_nfsd s' in
      mret (Done (HupReloaded s'))
  end.
End reload.
