(* ===== verification/ReloadProps.v ===== *)
(** * A reload keeps the sockets right

    The invariant of the listening sockets of Reload.v, that init_sockets establishes it for
    a new configuration from the sockets of an old one, and which of those go on. *)

From S2P Require Import Prelude RpcProcess Socket Accept World Service Crypt Outcome Trace Config Reload.

(** ** The invariant *)

(** who a socket is for: [None] is the default socket, [Some i] service [i] *)
Definition role : Type := option nat.

Definition ev_of (s : server) (r : role) : option nat :=
  match r with None => g_sock_ev s | Some i => mjoin (g_evs s !! i) end.
Definition wanted (s : server) (r : role) : option string :=
  match r with
  | None => cfg_socket_name (g_config s)
  | Some i => svc ← cfg_svcs (g_config s) !! i; svc_socket svc
  end.

(** What holds while the events [pending] of an old configuration are still to be looked at:
    an event in use is live under the name its role wants, in a string of the current
    configuration; the events in use and the pending ones are different, and all that are
    live. *)
Record sockets_inv (pending : list nat) (s : server) : Prop := SocketsInv {
  inv_length : length (g_evs s) = length (cfg_svcs (g_config s));
  inv_named r e : ev_of s r = Some e -> exists n fd, wanted s r = Some n /\
    g_socks s !! e = Some (LiveSock (Some n) fd (g_number s));
  inv_inj r r' e : ev_of s r = Some e -> ev_of s r' = Some e -> r = r';
  inv_fresh r e : ev_of s r = Some e -> e ∉ pending;
  inv_pending e : e ∈ pending -> is_Some (g_socks s !! e);
  inv_nodup : NoDup pending;
  inv_live e : is_Some (g_socks s !! e) -> e ∈ pending \/ exists r, ev_of s r = Some e;
  inv_next e : is_Some (g_socks s !! e) -> (e < g_next s)%nat }.

(** every socket that is wanted is there, and no other *)
Record sockets_ok (s : server) : Prop := SocketsOk {
  ok_inv : sockets_inv [] s;
  ok_all r : is_Some (wanted s r) -> is_Some (ev_of s r) }.

(** what is in use stays in use, by the same role and on the same descriptor *)
Definition keeps_used (s s' : server) : Prop :=
  g_config s' = g_config s /\ g_number s' = g_number s /\ forall r e, ev_of s r = Some e -> ev_of s' r = Some e /\ g_socks s' !! e = g_socks s !! e.

Lemma keeps_refl s : keeps_used s s.
Proof. done. Qed.
Lemma keeps_trans s1 s2 s3 : keeps_used s1 s2 -> keeps_used s2 s3 -> keeps_used s1 s3.
Proof.
  intros (C1 & N1 & H1) (C2 & N2 & H2). split_and!; [congruence..|]. intros r e H.
  destruct (H1 r e H) as [E1 S1]. destruct (H2 r e E1) as [E2 S2]. split; congruence.
Qed.

Lemma wanted_config s s' r : g_config s' = g_config s -> wanted s' r = wanted s r.
Proof. unfold wanted. by intros ->. Qed.

Lemma evs_insert s j o r : ev_of (set_evs (<[j := o]> (g_evs s)) s) r =
  if decide (r = Some j /\ (j < length (g_evs s))%nat) then o else ev_of s r.
Proof.
  case_decide as H; destruct r as [i|]; simpl.
  - destruct H as [[= ->] Hj]. by rewrite list_lookup_insert_eq.
  - by destruct H.
  - destruct (decide (i = j)) as [->|Hne].
    + rewrite list_insert_ge; [done|]. destruct (decide (j < length (g_evs s))%nat); [by destruct H|lia].
    + by rewrite list_lookup_insert_ne by congruence.
  - done.
Qed.

(** ** One event *)

(** a pending event is deleted *)
Lemma inv_delete e pending s : sockets_inv (e :: pending) s ->
  sockets_inv pending (verto_del e s) /\ keeps_used s (verto_del e s) /\ g_socks (verto_del e s) !! e = None.
Proof.
  intros H. pose proof (inv_nodup _ _ H) as Hnd. apply NoDup_cons in Hnd as [Hni Hnd].
  assert (Hne : forall r e', ev_of s r = Some e' -> e' <> e).
  { intros r e' Hr ->. by eapply (inv_fresh _ _ H); [exact Hr|left]. }
  assert (Hk : keeps_used s (verto_del e s)).
  { split_and!; [done..|]. intros r e' Hr. split; [done|]. simpl. rewrite lookup_delete_ne; [done|]. intros ->. by eapply Hne. }
  split_and!; [|done|apply lookup_delete_eq].
  split; simpl; try apply H; try done.
  - intros r e' Hr. destruct (inv_named _ _ H r e' Hr) as (n & fd & Hw & Hs). exists n, fd. split; [exact Hw|].
    rewrite lookup_delete_ne; [exact Hs|]. intros ->. by eapply Hne.
  - intros r e' Hr Hin. by eapply (inv_fresh _ _ H); [exact Hr|right].
  - intros e' Hin. rewrite lookup_delete_ne by set_solver. apply (inv_pending _ _ H). by right.
  - intros e' [k Hk']. apply lookup_delete_Some in Hk' as [Hne' Hk'].
    destruct (inv_live _ _ H e') as [Hin|Hr]; [by exists k| |by right].
    apply elem_of_cons in Hin as [->|Hin]; [done|by left].
  - intros e' [k Hk']. apply lookup_delete_Some in Hk' as [_ Hk']. apply (inv_next _ _ H). by exists k.
Qed.

Lemma inv_rename e name pending s : sockets_inv (e :: pending) s ->
  sockets_inv (e :: pending) (rename e name s) /\ keeps_used s (rename e name s).
Proof.
  intros H.
  assert (Hne : forall r e', ev_of s r = Some e' -> e' <> e).
  { intros r e' Hr ->. by eapply (inv_fresh _ _ H); [exact Hr|left]. }
  assert (Hs : forall e', is_Some (g_socks (rename e name s) !! e') <-> is_Some (g_socks s !! e')).
  { intros e'. simpl. rewrite lookup_alter. case_decide; [subst; apply fmap_is_Some|done]. }
  split.
  - split; simpl; try apply H; try done.
    + intros r e' Hr. destruct (inv_named _ _ H r e' Hr) as (n & fd & Hw & Hk). exists n, fd.
      split; [exact Hw|]. rewrite lookup_alter_ne; [exact Hk|]. intros ->. by eapply Hne.
    + intros e' Hin. apply Hs. by apply (inv_pending _ _ H).
    + intros e' Hin%Hs. by apply (inv_live _ _ H).
    + intros e' Hin%Hs. by apply (inv_next _ _ H).
  - split_and!; [done..|]. intros r e' Hr. split; [done|]. simpl. rewrite lookup_alter_ne; [done|]. intros ->. by eapply Hne.
Qed.

Lemma inv_add sock pending s : sockets_inv pending s ->
  sockets_inv (g_next s :: pending) (add_event sock s) /\ keeps_used s (add_event sock s).
Proof.
  intros H.
  assert (Hnew : forall e, is_Some (g_socks s !! e) -> e <> g_next s).
  { intros e He ->. apply (inv_next _ _ H) in He. lia. }
  assert (Hused : forall r e, ev_of s r = Some e -> e <> g_next s).
  { intros r e Hr. destruct (inv_named _ _ H r e Hr) as (n & fd & _ & Hk). apply Hnew. by eexists. }
  split.
  - split; simpl; try apply H; try done.
    + intros r e Hr. destruct (inv_named _ _ H r e Hr) as (n & fd & Hw & Hk). exists n, fd.
      split; [exact Hw|]. rewrite lookup_insert_ne; [exact Hk|]. intros <-. by eapply Hused.
    + intros r e Hr [->|Hin]%elem_of_cons; [by eapply Hused|by eapply (inv_fresh _ _ H)].
    + intros e [->|Hin]%elem_of_cons; [rewrite lookup_insert_eq; by eexists|].
      pose proof (inv_pending _ _ H e Hin) as Hp. rewrite lookup_insert_ne; [exact Hp|]. intros <-. by eapply Hnew.
    + apply NoDup_cons. split; [|apply H]. intros Hin. by apply (Hnew _ (inv_pending _ _ H _ Hin)).
    + intros e [k Hk]. destruct (decide (e = g_next s)) as [->|Hne]; [by left; left|].
      rewrite lookup_insert_ne in Hk by done. destruct (inv_live _ _ H e) as [Hin|Hr]; [by exists k|left; by right|by right].
    + intros e [k Hk]. destruct (decide (e = g_next s)) as [->|Hne]; [lia|].
      rewrite lookup_insert_ne in Hk by done. pose proof (inv_next _ _ H e ltac:(by exists k)). lia.
  - split_and!; [done..|]. intros r e Hr. split; [done|]. simpl. rewrite lookup_insert_ne; [done|]. intros <-. by eapply Hused.
Qed.

Definition assign (r : role) (e : nat) (s : server) : server :=
  match r with None => set_sock_ev (Some e) s | Some j => set_evs (<[j := Some e]> (g_evs s)) s end.

Lemma assign_evs r e s r' : (forall j, r = Some j -> (j < length (g_evs s))%nat) ->
  ev_of (assign r e s) r' = if decide (r' = r) then Some e else ev_of s r'.
Proof.
  intros Hj. destruct r as [j|]; [|by case_decide; destruct r'].
  unfold assign. rewrite evs_insert. specialize (Hj j eq_refl). repeat case_decide; naive_solver.
Qed.

(** a pending event that has the right name gets its role *)
Lemma inv_assign r e n fd pending s : sockets_inv (e :: pending) s -> ev_of s r = None ->
  wanted s r = Some n -> g_socks s !! e = Some (LiveSock (Some n) fd (g_number s)) ->
  sockets_inv pending (assign r e s) /\ keeps_used s (assign r e s) /\ ev_of (assign r e s) r = Some e.
Proof.
  intros H Hr Hw Hk. pose proof (inv_nodup _ _ H) as [Hni Hnd]%NoDup_cons.
  assert (Hsame : g_socks (assign r e s) = g_socks s /\ g_next (assign r e s) = g_next s /\
    g_config (assign r e s) = g_config s /\ g_number (assign r e s) = g_number s /\
    length (g_evs (assign r e s)) = length (g_evs s)).
  { destruct r; simpl; rewrite ?length_insert; done. }
  destruct Hsame as (Es & En & Ec & Eu & El).
  assert (Hj : forall j, r = Some j -> (j < length (g_evs s))%nat).
  { intros j ->. simpl in Hw. rewrite (inv_length _ _ H).
    destruct (cfg_svcs (g_config s) !! j) eqn:E; [by eapply lookup_lt_Some|done]. }
  assert (Hev : forall r', ev_of (assign r e s) r' = if decide (r' = r) then Some e else ev_of s r')
    by (intros; by apply assign_evs).
  split_and!.
  - split; rewrite ?Es, ?En, ?Ec, ?El; try apply H; try done.
    + intros r' e'. rewrite Hev, Eu, (wanted_config s) by done. case_decide as Hd; [|apply (inv_named _ _ H)].
      intros [= <-]. subst r'. by exists n, fd.
    + intros r1 r2 e'. rewrite !Hev. repeat case_decide; subst; [done| | |apply (inv_inj _ _ H)].
      * intros [= <-] H2. exfalso. by eapply (inv_fresh _ _ H); [exact H2|left].
      * intros H2 [= <-]. exfalso. by eapply (inv_fresh _ _ H); [exact H2|left].
    + intros r' e'. rewrite Hev. case_decide; [by intros [= <-]|]. intros H' Hin.
      eapply (inv_fresh _ _ H); [exact H'|by right].
    + intros e' Hin. apply (inv_pending _ _ H). by right.
    + intros e' Hl. destruct (inv_live _ _ H e' Hl) as [[->|Hin]%elem_of_cons|[r' Hr']].
      * right. exists r. rewrite Hev. by case_decide.
      * by left.
      * right. exists r'. rewrite Hev. case_decide; [congruence|done].
  - split_and!; [done..|]. intros r' e' Hr'. rewrite Es, Hev. case_decide; [congruence|done].
  - rewrite Hev. by case_decide.
Qed.

Lemma inv_no_timeout pending s : sockets_inv pending s -> sockets_inv pending (no_timeout s).
Proof. intros [? ? ? ? ? ? ? ?]. by split. Qed.

Lemma keeps_no_timeout s : keeps_used s (no_timeout s).
Proof. done. Qed.

(** ** The events of the old services *)

Definition events (olds : list (gp_service * option nat)) : list nat := omap snd olds.

(** the service of the new configuration that takes over the socket of an old one *)
Definition goes_on (cfg : gp_config) (old : gp_service) : option (nat * gp_service) :=
  '(j, svc) ← find_service_by_name cfg (svc_name old);
  if same_socket (svc_socket svc) (svc_socket old) then Some (j, svc) else None.

(** one round of the loop *)
Definition propagate_one (old : gp_service) (ev : nat) (s : server) : server :=
  match goes_on (g_config s) old with
  | Some (j, svc) => rename ev (svc_socket svc) (assign (Some j) ev s)
  | None => verto_del ev s
  end.

Lemma propagate_cons old ev olds s :
  propagate ((old, Some ev) :: olds) s = propagate olds (propagate_one old ev s).
Proof.
  simpl. unfold propagate_one, goes_on. destruct (find_service_by_name _ _) as [[j svc]|]; simpl; [|done].
  by destruct (same_socket _ _).
Qed.

Lemma find_some cfg name j svc : find_service_by_name cfg name = Some (j, svc) ->
  cfg_svcs cfg !! j = Some svc /\ svc_name svc = name.
Proof. unfold find_service_by_name. intros (? & ? & _)%list_find_Some. done. Qed.

Lemma goes_on_some cfg old j svc : goes_on cfg old = Some (j, svc) -> is_Some (svc_socket old) ->
  cfg_svcs cfg !! j = Some svc /\ svc_name svc = svc_name old /\ svc_socket svc = svc_socket old.
Proof.
  unfold goes_on. destruct (find_service_by_name cfg _) as [[j' svc']|] eqn:E; [|done]. simpl.
  destruct (same_socket _ _) eqn:Es; intros [= <- <-] [n Hn]. apply find_some in E as [??].
  split_and!; [done..|]. unfold same_socket in Es. rewrite Hn in *.
  destruct (svc_socket svc') as [n'|]; [|done]. by apply bool_decide_eq_true in Es as ->.
Qed.

(** what one round does *)
Record round_ok (old : gp_service) (ev : nat) (pending : list nat) (s s' : server) : Prop := RoundOk {
  round_inv : sockets_inv pending s';
  round_keeps : keeps_used s s';
  round_gone e : g_socks s !! e = None -> g_socks s' !! e = None;
  round_frame e : e <> ev -> g_socks s' !! e = g_socks s !! e;
  round_new j : is_Some (ev_of s' (Some j)) -> is_Some (ev_of s (Some j)) \/
    exists svc, cfg_svcs (g_config s) !! j = Some svc /\ svc_name svc = svc_name old;
  round_ev : match goes_on (g_config s) old with
             | Some (j, svc) => ev_of s' (Some j) = Some ev /\
                 g_socks s' !! ev = (fun k => LiveSock (svc_socket svc) (ls_fd k) (g_number s)) <$> g_socks s !! ev
             | None => g_socks s' !! ev = None
             end }.

Lemma propagate_round old ev pending s : sockets_inv (ev :: pending) s -> is_Some (svc_socket old) ->
  (forall j svc, cfg_svcs (g_config s) !! j = Some svc -> svc_name svc = svc_name old -> ev_of s (Some j) = None) ->
  round_ok old ev pending s (propagate_one old ev s).
Proof.
  intros H Hsock Hfree. unfold propagate_one. destruct (goes_on (g_config s) old) as [[j svc]|] eqn:E.
  - pose proof E as (Hj & Hname & Hs)%goes_on_some; [|done]. pose proof Hsock as [n Hn].
    destruct (inv_rename ev (Some n) pending s H) as [H1 K1].
    destruct (inv_pending _ _ H ev ltac:(by left)) as [k Hk].
    assert (Hk1 : g_socks (rename ev (Some n) s) !! ev = Some (LiveSock (Some n) (ls_fd k) (g_number s))).
    { simpl. by rewrite lookup_alter_eq, Hk. }
    assert (Hw : wanted (rename ev (Some n) s) (Some j) = Some n) by (simpl; by rewrite Hj; simpl; rewrite Hs).
    destruct (inv_assign (Some j) ev n (ls_fd k) pending _ H1 (Hfree j svc Hj Hname) Hw Hk1) as (H2 & K2 & E2).
    change (assign (Some j) ev (rename ev (Some n) s)) with (rename ev (Some n) (assign (Some j) ev s)) in *.
    rewrite Hs, Hn. split; [done|by eapply keeps_trans| | | |].
    + intros e He. simpl. rewrite lookup_alter. case_decide; subst; by rewrite ?He.
    + intros e He. simpl. by rewrite lookup_alter_ne by done.
    + intros j' Hj'. destruct (decide (j' = j)) as [->|Hne]; [right; by exists svc|left].
      simpl in Hj'. rewrite list_lookup_insert_ne in Hj' by done. done.
    + rewrite E. split; [done|]. rewrite Hs, Hn, Hk. exact Hk1.
  - destruct (inv_delete ev pending s H) as (H1 & K1 & E1). split; try done.
    + intros e He. simpl. rewrite lookup_delete. by case_decide.
    + intros e He. simpl. by rewrite lookup_delete_ne by done.
    + by left.
    + by rewrite E.
Qed.

(** what the whole loop does *)
Record propagated (olds : list (gp_service * option nat)) (s s' : server) : Prop := Propagated {
  prop_inv : sockets_inv [] s';
  prop_keeps : keeps_used s s';
  prop_gone e : g_socks s !! e = None -> g_socks s' !! e = None;
  prop_ev old ev : (old, Some ev) ∈ olds ->
    match goes_on (g_config s) old with
    | Some (j, svc) => ev_of s' (Some j) = Some ev /\
        g_socks s' !! ev = (fun k => LiveSock (svc_socket svc) (ls_fd k) (g_number s)) <$> g_socks s !! ev
    | None => g_socks s' !! ev = None
    end }.

Lemma propagate_all olds s : sockets_inv (events olds) s -> NoDup (svc_name <$> olds.*1) ->
  (forall old ev, (old, Some ev) ∈ olds -> is_Some (svc_socket old)) ->
  (forall j svc old, cfg_svcs (g_config s) !! j = Some svc -> is_Some (ev_of s (Some j)) ->
     old ∈ olds.*1 -> svc_name svc <> svc_name old) ->
  propagated olds s (propagate olds s).
Proof.
  revert s. induction olds as [|[old [ev|]] olds IH]; intros s H Hnd Hsock Hfree.
  - split; [done|done|done|]. by intros ? ? ?%not_elem_of_nil.
  - simpl in Hnd. apply NoDup_cons in Hnd as [Hni Hnd]. rewrite propagate_cons.
    assert (Hround : round_ok old ev (events olds) s (propagate_one old ev s)).
    { apply propagate_round; [done|by eapply Hsock; left|]. intros j svc Hj Hname.
      destruct (ev_of s (Some j)) as [e|] eqn:E; [|done]. exfalso.
      by apply (Hfree j svc old Hj); [rewrite E|left|]. }
    set (s1 := propagate_one old ev s) in *.
    pose proof (round_keeps _ _ _ _ _ Hround) as (Ec & En & _).
    assert (Hrest : propagated olds s1 (propagate olds s1)).
    { apply IH; [apply Hround|done|intros o e Ho; by eapply Hsock; right|].
      intros j svc o Hj Hev Ho. rewrite Ec in Hj. destruct (round_new _ _ _ _ _ Hround j Hev) as [Hold|(svc' & Hj' & Hn')].
      - apply (Hfree j svc o Hj Hold). by right.
      - rewrite Hj in Hj'. injection Hj' as <-. rewrite Hn'. intros Heq. apply Hni. rewrite Heq.
        by apply list_elem_of_fmap_2. }
    split; [apply Hrest|eapply keeps_trans; [apply Hround|apply Hrest]| |].
    + intros e He. by apply Hrest, (round_gone _ _ _ _ _ Hround).
    + intros o e [[= -> ->]|Hin]%elem_of_cons.
      * pose proof (round_ev _ _ _ _ _ Hround) as He.
        destruct (goes_on (g_config s) old) as [[j svc]|]; [|by apply Hrest].
        destruct He as [He Hk]. destruct (prop_keeps _ _ _ Hrest) as (_ & _ & Hkeep).
        destruct (Hkeep _ _ He) as [-> ->]. done.
      * pose proof (prop_ev _ _ _ Hrest o e Hin) as He. rewrite Ec, En in He.
        rewrite (round_frame _ _ _ _ _ Hround e) in He; [done|]. intros ->.
        apply (proj1 (proj1 (NoDup_cons _ _) (inv_nodup _ _ H))). unfold events.
        apply list_elem_of_omap. by exists (o, Some ev).
  - simpl in Hnd. apply NoDup_cons in Hnd as [Hni Hnd].
    assert (Hrest : propagated olds s (propagate olds s)).
    { apply IH; [done|done|intros o e Ho; by eapply Hsock; right|]. intros j svc o Hj Hev Ho. apply (Hfree j svc o Hj Hev). by right. }
    destruct Hrest as [? ? ? Hp]. split; [done..|]. intros o e [[=]|Hin]%elem_of_cons. by apply Hp.
Qed.

Lemma propagate_next olds s : g_next (propagate olds s) = g_next s.
Proof.
  revert s. induction olds as [|[old [ev|]] olds IH]; intros s; [done| |apply IH].
  simpl. rewrite IH. by destruct (find_service_by_name _ _) as [[j svc]|]; [destruct (same_socket _ _)|].
Qed.

(** ** New sockets *)

(** what is in use stays so, and the numbers of events that are gone are not used again *)
Definition extends (s s' : server) : Prop :=
  keeps_used s s' /\ (g_next s <= g_next s')%nat /\ forall e, (e < g_next s)%nat -> g_socks s !! e = None -> g_socks s' !! e = None.

Lemma extends_refl s : extends s s.
Proof. split_and!; [apply keeps_refl|done|done]. Qed.
Lemma extends_trans s1 s2 s3 : extends s1 s2 -> extends s2 s3 -> extends s1 s3.
Proof.
  intros (K1 & N1 & G1) (K2 & N2 & G2). split_and!; [by eapply keeps_trans|lia|].
  intros e He Hn. apply G2; [lia|by apply G1].
Qed.

Section new.
Context {W : Type} {LL : LoopLib W}.
Variable HAVE_SYSTEMD_DAEMON : bool.

(** a new socket is pending until it is given to the one it is for *)
Lemma setup_socket_new n act s (w : W) :
  wp (setup_socket HAVE_SYSTEMD_DAEMON (Some n) act s) (fun r _ => exists s1, (s1 = s \/ s1 = no_timeout s) /\
    (r = Done (None, s1) \/
     exists fd, r = Done (Some (g_next s), add_event (LiveSock (Some n) fd (g_number s)) s1))) w.
Proof.
  unfold setup_socket. apply wp_bind, wp_any. intros [ret sock] w1.
  destruct (negb (ret =? 0)); [apply wp_ret; exists s; auto|].
  assert (Hadd : forall k s1, s1 = s \/ s1 = no_timeout s -> forall w,
    wp (let* ok := verto_add_io (sock_fd k) in
        mret (Done (if ok : bool then (Some (g_next s1), add_event (LiveSock (Some n) (sock_fd k) (g_number s1)) s1)
                    else (None, s1)))) (fun r _ => exists s1, (s1 = s \/ s1 = no_timeout s) /\
    (r = Done (None, s1) \/
     exists fd, r = Done (Some (g_next s), add_event (LiveSock (Some n) fd (g_number s)) s1))) w).
  { intros k s1 Hs1 w2. apply wp_bind, wp_any. intros ok w3. apply wp_ret. exists s1. split; [done|].
    assert (g_next s1 = g_next s /\ g_number s1 = g_number s) as [-> ->] by (by destruct Hs1 as [-> | ->]).
    destruct ok; [right; by exists (sock_fd k)|by left]. }
  unfold tbind. destruct sock as [k|]; [apply wp_bind, wp_ret, Hadd; auto|].
  apply wp_bind, wp_bind, wp_any. intros e w2. apply wp_ret.
  destruct (init_unix_socket e n).1 as [k|]; [apply Hadd; auto|]. apply wp_ret. exists (no_timeout s). auto.
Qed.

Lemma extends_new s1 s sock pending : sockets_inv pending s -> (s1 = s \/ s1 = no_timeout s) ->
  sockets_inv (g_next s :: pending) (add_event sock s1) /\ extends s (add_event sock s1) /\
  g_socks (add_event sock s1) !! g_next s = Some sock /\ g_config s1 = g_config s /\ sockets_inv pending s1 /\ extends s s1.
Proof.
  intros H Hs1. assert (H1 : sockets_inv pending s1) by (destruct Hs1 as [-> | ->]; [done|by apply inv_no_timeout]).
  assert (Hx : extends s s1) by (by destruct Hs1 as [-> | ->]; split_and!).
  destruct (inv_add sock pending s1 H1) as [H2 K2].
  assert (g_next s1 = g_next s) as En by (by destruct Hs1 as [-> | ->]). rewrite En in H2.
  split_and!; [done| |simpl; by rewrite En, lookup_insert_eq|by destruct Hs1 as [-> | ->]|done|done].
  eapply extends_trans; [exact Hx|]. split_and!; [done|simpl; lia|].
  intros e He Hn. simpl. rewrite lookup_insert_ne; [done|lia].
Qed.

Lemma extends_assign r e s s' : extends s s' -> keeps_used s' (assign r e s') -> extends s (assign r e s').
Proof.
  intros (K & N & G) K'. split_and!; [by eapply keeps_trans|by destruct r|by destruct r].
Qed.

(** ** The sockets that are missing *)

Lemma init_others i svcs s (w : W) : sockets_inv [] s -> svcs = drop i (cfg_svcs (g_config s)) ->
  wp (init_other_sockets HAVE_SYSTEMD_DAEMON i svcs s) (fun r _ => exists ok s', r = Done (ok, s') /\
    sockets_inv [] s' /\ extends s s' /\
    (ok = true -> forall j, (i <= j)%nat -> is_Some (wanted s (Some j)) -> is_Some (ev_of s' (Some j)))) w.
Proof.
  revert i s w. induction svcs as [|svc svcs IH]; intros i s w H Hd.
  { apply wp_ret. exists true, s. split_and!; [done|done|apply extends_refl|]. intros _ j Hj [n Hw]. exfalso.
    simpl in Hw. destruct (cfg_svcs (g_config s) !! j) as [x|] eqn:E; [|done].
    assert (Hx : drop i (cfg_svcs (g_config s)) !! (j - i)%nat = Some x) by (rewrite lookup_drop; by replace (i + (j - i))%nat with j by lia).
    by rewrite <- Hd in Hx. }
  assert (Hi : cfg_svcs (g_config s) !! i = Some svc).
  { replace i with (i + 0)%nat by lia. rewrite <- lookup_drop, <- Hd. done. }
  assert (Hd' : svcs = drop (S i) (cfg_svcs (g_config s))).
  { replace (S i) with (i + 1)%nat by lia. rewrite <- drop_drop, <- Hd. done. }
  set (Q := fun (r : outcome (bool * server)) (_ : W) => exists ok s', r = Done (ok, s') /\ sockets_inv [] s' /\ extends s s' /\
    (ok = true -> forall j, (i <= j)%nat -> is_Some (wanted s (Some j)) -> is_Some (ev_of s' (Some j)))).
  assert (Hgo : forall s2 w, sockets_inv [] s2 -> extends s s2 ->
    (is_Some (wanted s (Some i)) -> is_Some (ev_of s2 (Some i))) ->
    wp (init_other_sockets HAVE_SYSTEMD_DAEMON (S i) svcs s2) Q w).
  { intros s2 w2 H2 X2 Hev. pose proof X2 as ((Ec & _) & _).
    eapply wp_conseq; [apply (IH (S i) s2 w2 H2); by rewrite Ec|].
    intros ? ? (ok & s' & -> & H' & X' & Hall). exists ok, s'. split_and!; [done|done|by eapply extends_trans|].
    intros Hok j Hj Hw. destruct (decide (j = i)) as [->|Hne].
    - destruct (Hev Hw) as [e He]. destruct X' as ((_ & _ & Hk) & _). exists e. by apply Hk.
    - apply Hall; [done|lia|]. by rewrite (wanted_config s s2). }
  simpl. destruct (svc_socket svc) as [n|] eqn:Es.
  2: { apply Hgo; [done|apply extends_refl|]. simpl. rewrite Hi. simpl. rewrite Es. by intros [? ?]. }
  destruct (g_evs s !! i) as [[e|]|] eqn:Ee.
  - apply Hgo; [done|apply extends_refl|]. intros _. exists e. simpl. by rewrite Ee.
  - apply wp_bind. eapply wp_conseq; [apply setup_socket_new|].
    intros ? w1 (s1 & Hs1 & [->|[fd ->]]).
    + apply wp_ret. destruct (extends_new s1 s (LiveSock None 0 0) [] H Hs1) as (_ & _ & _ & _ & H1 & X1).
      by exists false, s1.
    + destruct (extends_new s1 s (LiveSock (Some n) fd (g_number s)) [] H Hs1) as (H2 & X2 & Hk2 & _).
      set (s2 := add_event _ s1) in *. pose proof X2 as ((Ec & Eu & _) & _).
      destruct (inv_assign (Some i) (g_next s) n fd [] s2 H2) as (H3 & K3 & E3).
      { destruct Hs1 as [-> | ->]; simpl; by rewrite Ee. }
      { rewrite (wanted_config s) by done. simpl. by rewrite Hi. }
      { by rewrite Hk2, Eu. }
      apply (Hgo (assign (Some i) (g_next s) s2)); [done|by apply extends_assign|]. intros _. by eexists.
  - exfalso. apply lookup_ge_None in Ee. rewrite (inv_length _ _ H) in Ee. apply lookup_lt_Some in Hi. lia.
Qed.
End new.

(** ** The default socket *)

Section reload.
Context {W : Type} {LL : LoopLib W}.
Variable HAVE_SYSTEMD_DAEMON : bool.
Variables (s : server) (cfg : gp_config) (m : nat) (fd : Z) (n0 n : string).
Hypothesis Hok : sockets_ok s.
Hypothesis Hmain : g_sock_ev s = Some m.
Hypothesis Hn0 : cfg_socket_name (g_config s) = Some n0.
Hypothesis Hfd : g_socks s !! m = Some (LiveSock (Some n0) fd (g_number s)).
Hypothesis Hn : cfg_socket_name cfg = Some n.

(** the services of the old configuration, with their events *)
Definition old_services : list (gp_service * option nat) := zip (cfg_svcs (g_config s)) (g_evs s).

Lemma old_service old o : (old, o) ∈ old_services <->
  exists i, cfg_svcs (g_config s) !! i = Some old /\ g_evs s !! i = Some o.
Proof.
  unfold old_services. rewrite list_elem_of_lookup. split; intros [i Hi]; exists i.
  - apply lookup_zip_Some in Hi. done.
  - by apply lookup_zip_Some.
Qed.

Lemma old_event e : e ∈ events old_services <-> exists i, ev_of s (Some i) = Some e.
Proof.
  unfold events. rewrite list_elem_of_omap. split.
  - intros ([old o] & Hin & Ho). simpl in Ho. subst o. apply old_service in Hin as (i & _ & Hi). exists i. simpl. by rewrite Hi.
  - intros [i Hi]. simpl in Hi. destruct (g_evs s !! i) as [[e'|]|] eqn:E; simplify_eq/=.
    pose proof (inv_length _ _ (ok_inv _ Hok)) as Hl. apply lookup_lt_Some in E as Hlt. rewrite Hl in Hlt.
    destruct (lookup_lt_is_Some_2 _ _ Hlt) as [old Hold]. exists (old, Some e). split; [|done]. apply old_service. by exists i.
Qed.

Lemma events_nodup l : (forall i j e, l !! i = Some (Some e) -> l !! j = Some (Some e) -> i = j) ->
  NoDup (omap (fun o : option nat => o) l).
Proof.
  induction l as [|[e|] l IH]; intros H; simpl; [constructor| |].
  - apply NoDup_cons. split.
    + intros (o & Ho & E)%list_elem_of_omap. subst o. apply list_elem_of_lookup in Ho as [i Hi].
      by specialize (H 0%nat (S i) e eq_refl Hi).
    + apply IH. intros i j e' Hi Hj. by specialize (H (S i) (S j) e' Hi Hj); simplify_eq.
  - apply IH. intros i j e' Hi Hj. by specialize (H (S i) (S j) e' Hi Hj); simplify_eq.
Qed.

Lemma old_events_nodup : NoDup (events old_services).
Proof.
  assert (E : events old_services = omap (fun o : option nat => o) (g_evs s)).
  { unfold events, old_services. pose proof (inv_length _ _ (ok_inv _ Hok)) as Hl. revert Hl.
    generalize (cfg_svcs (g_config s)). generalize (g_evs s).
    induction l as [|o l IH]; intros [|x xs] Hl; simplify_eq/=; [done|]. destruct o; simpl; by rewrite IH. }
  rewrite E. apply events_nodup. intros i j e Hi Hj.
  pose proof (inv_inj _ _ (ok_inv _ Hok) (Some i) (Some j) e) as H. simpl in H. rewrite Hi, Hj in H.
  by specialize (H eq_refl eq_refl); simplify_eq.
Qed.

(** with nothing assigned yet, everything that is live is pending *)
Lemma start_inv : sockets_inv (m :: events old_services) (set_sock_ev None (install cfg s)).
Proof.
  pose proof (ok_inv _ Hok) as H.
  assert (Hno : forall r, ev_of (set_sock_ev None (install cfg s)) r = None).
  { intros [i|]; [|done]. simpl. destruct (repeat None _ !! i) as [o|] eqn:E; [|done].
    apply list_elem_of_lookup_2, list_elem_of_In, repeat_spec in E. by subst. }
  split; simpl.
  - by rewrite repeat_length.
  - intros r e. by rewrite Hno.
  - intros r r' e. by rewrite Hno.
  - intros r e. by rewrite Hno.
  - intros e [->|[i Hi]%old_event]%elem_of_cons; [by rewrite Hfd|].
    destruct (inv_named _ _ H _ _ Hi) as (? & ? & _ & ->). done.
  - apply NoDup_cons. split; [|apply old_events_nodup]. intros [i Hi]%old_event.
    by pose proof (inv_inj _ _ H None (Some i) m Hmain Hi).
  - intros e He. left. destruct (inv_live _ _ H e He) as [[]%not_elem_of_nil|[[i|] Hr]].
    + right. apply old_event. by exists i.
    + simpl in Hr. rewrite Hmain in Hr. injection Hr as ->. left.
  - apply H.
Qed.

(** what init_sockets has done when it comes to the services *)
Record main_done (s1 : server) : Prop := MainDone {
  main_inv : sockets_inv (events old_services) s1;
  main_config : g_config s1 = cfg;
  main_number : g_number s1 = S (g_number s);
  main_evs : g_evs s1 = repeat None (length (cfg_svcs cfg));
  main_next : (g_next s <= g_next s1)%nat;
  main_frame e : e ∈ events old_services -> g_socks s1 !! e = g_socks s !! e;
  main_ev : if decide (n0 = n)
            then g_sock_ev s1 = Some m /\ g_socks s1 !! m = Some (LiveSock (Some n) fd (S (g_number s)))
            else is_Some (g_sock_ev s1) /\ g_socks s1 !! m = None }.

Lemma old_event_ne e : e ∈ events old_services -> e <> m /\ e <> g_next s.
Proof.
  intros He. pose proof (inv_nodup _ _ start_inv) as [Hni _]%NoDup_cons. split; [by intros ->|].
  intros ->. apply old_event in He as [i Hi]. pose proof (ok_inv _ Hok) as H.
  destruct (inv_named _ _ H _ _ Hi) as (? & ? & _ & Hk).
  pose proof (inv_next _ _ H _ (ex_intro _ _ Hk)). lia.
Qed.

Lemma same_name : n0 = n -> main_done (rename m (Some n) (install cfg s)).
Proof.
  intros E. pose proof start_inv as H0. destruct (inv_rename m (Some n) _ _ H0) as [H1 _].
  assert (Hk : g_socks (rename m (Some n) (set_sock_ev None (install cfg s))) !! m =
    Some (LiveSock (Some n) fd (S (g_number s)))) by (simpl; by rewrite lookup_alter_eq, Hfd).
  destruct (inv_assign None m n fd _ _ H1 eq_refl Hn Hk) as (H2 & _ & _).
  replace (assign None m (rename m (Some n) (set_sock_ev None (install cfg s))))
    with (rename m (Some n) (install cfg s)) in H2
    by (unfold rename, install, assign, set_sock_ev, set_socks; simpl; by rewrite Hmain).
  split; [exact H2|done|done|done|done| |].
  - intros e [Hne _]%old_event_ne. simpl. by rewrite lookup_alter_ne by congruence.
  - rewrite decide_True by done. split; [exact Hmain|exact Hk].
Qed.

Lemma other_name s1 fd' : n0 <> n -> s1 = install cfg s \/ s1 = no_timeout (install cfg s) ->
  main_done (set_sock_ev (Some (g_next s)) (verto_del m (add_event (LiveSock (Some n) fd' (S (g_number s))) s1))).
Proof.
  intros Hne Hs1. set (sock := LiveSock _ _ _). set (s2 := set_sock_ev None s1).
  assert (H0 : sockets_inv (m :: events old_services) s2).
  { destruct Hs1 as [-> | ->]; [exact start_inv|]. apply (inv_no_timeout _ _ start_inv). }
  destruct (inv_delete m _ s2 H0) as (H1 & _ & Hgone). destruct (inv_add sock _ _ H1) as [H2 _].
  assert (En : g_next (verto_del m s2) = g_next s) by (by destruct Hs1 as [-> | ->]). rewrite En in H2.
  assert (Hm : m <> g_next s).
  { pose proof (inv_next _ _ (ok_inv _ Hok) m (ex_intro _ _ Hfd)). lia. }
  assert (Hk : g_socks (add_event sock (verto_del m s2)) !! g_next s = Some sock).
  { rewrite <- En. apply lookup_insert_eq. }
  assert (Hw : wanted (add_event sock (verto_del m s2)) None = Some n) by (destruct Hs1 as [-> | ->]; exact Hn).
  assert (Hu : g_number (add_event sock (verto_del m s2)) = S (g_number s)) by (by destruct Hs1 as [-> | ->]).
  destruct (inv_assign None (g_next s) n fd' _ _ H2) as (H3 & _ & _);
    [by destruct Hs1 as [-> | ->]|done|by rewrite Hk, Hu|].
  assert (E : set_sock_ev (Some (g_next s)) (verto_del m (add_event sock s1)) =
    assign None (g_next s) (add_event sock (verto_del m s2))).
  { destruct Hs1 as [-> | ->]; unfold s2, assign, verto_del, add_event, set_sock_ev, set_socks; simpl;
      by rewrite delete_insert_ne by congruence. }
  rewrite E. split; [exact H3|by destruct Hs1 as [-> | ->]..| | |].
  - destruct Hs1 as [-> | ->]; simpl; lia.
  - intros e [He1 He2]%old_event_ne. destruct Hs1 as [-> | ->]; simpl; by rewrite lookup_insert_ne, lookup_delete_ne by congruence.
  - rewrite decide_False by done. split; [by eexists|]. destruct Hs1 as [-> | ->]; simpl; by rewrite lookup_insert_ne, lookup_delete_eq by congruence.
Qed.

Lemma init_main w : wp (init_main_socket HAVE_SYSTEMD_DAEMON (Some (g_config s)) (install cfg s))
  (fun r _ => exists ok s1, r = Done (ok, s1) /\ (ok = true -> main_done s1)) w.
Proof.
  unfold init_main_socket. simpl (cfg_socket_name (g_config (install cfg s))). rewrite Hn0, Hn.
  case_bool_decide as Hd.
  - apply wp_bind. eapply wp_conseq; [apply setup_socket_new|]. intros ? w1 (s1 & Hs1 & [->|[fd' ->]]).
    + apply wp_ret. by exists false, s1.
    + cbv beta iota. assert (Em : g_sock_ev (add_event (LiveSock (Some n) fd' (g_number (install cfg s))) s1) = Some m)
        by (destruct Hs1 as [-> | ->]; exact Hmain).
      rewrite Em. apply wp_ret. eexists true, _. split; [done|]. intros _. by apply other_name.
  - simpl (g_sock_ev _). rewrite Hmain. apply wp_ret. eexists true, _. split; [done|]. intros _.
    apply same_name. destruct (decide (n0 = n)); [done|by destruct Hd].
Qed.

(** what has become of the socket of an old service, or of any event of the old sockets: it
    goes on, on the same descriptor, with a name of the new configuration, or it is gone *)
Definition carried (s' : server) (old : gp_service) (e : nat) : Prop :=
  match goes_on cfg old with
  | Some (j, svc) => ev_of s' (Some j) = Some e /\
      g_socks s' !! e = (fun k => LiveSock (svc_socket svc) (ls_fd k) (g_number s')) <$> g_socks s !! e
  | None => g_socks s' !! e = None
  end.

Definition main_carried (s' : server) : Prop :=
  if decide (n0 = n)
  then g_sock_ev s' = Some m /\ g_socks s' !! m = Some (LiveSock (Some n) fd (g_number s'))
  else g_socks s' !! m = None.

Hypothesis Hnames : NoDup (svc_name <$> cfg_svcs (g_config s)).

Lemma main_propagated s1 : main_done s1 -> propagated old_services s1 (propagate old_services s1).
Proof.
  intros H1. apply propagate_all; [apply H1| | |].
  - unfold old_services. rewrite fst_zip; [exact Hnames|].
    by rewrite (inv_length _ _ (ok_inv _ Hok)).
  - intros old ev (i & Hold & Hev)%old_service.
    assert (Hr : ev_of s (Some i) = Some ev) by (simpl; by rewrite Hev).
    destruct (inv_named _ _ (ok_inv _ Hok) _ _ Hr) as (n' & ? & Hw & _).
    simpl in Hw. rewrite Hold in Hw. simpl in Hw. by rewrite Hw.
  - intros j svc old _ [e He]. simpl in He. rewrite (main_evs _ H1) in He.
    destruct (repeat None _ !! j) as [o|] eqn:E; [|done].
    apply list_elem_of_lookup_2, list_elem_of_In, repeat_spec in E. by subst.
Qed.

(** what the last loop leaves *)
Lemma reload_done s1 s' : main_done s1 -> sockets_inv [] s' -> extends (propagate old_services s1) s' ->
  (forall j, is_Some (wanted (propagate old_services s1) (Some j)) -> is_Some (ev_of s' (Some j))) ->
  sockets_ok s' /\ g_config s' = cfg /\ g_number s' = S (g_number s) /\ main_carried s' /\
  forall i old e, cfg_svcs (g_config s) !! i = Some old -> ev_of s (Some i) = Some e -> carried s' old e.
Proof.
  intros H1 H' (K' & _ & G') Hall. pose proof (main_propagated s1 H1) as Hp.
  pose proof (keeps_trans _ _ _ (prop_keeps _ _ _ Hp) K') as (Ec & En & Hk).
  rewrite (main_config _ H1) in Ec. rewrite (main_number _ H1) in En.
  assert (Hgone : forall e, (e < g_next s)%nat -> g_socks (propagate old_services s1) !! e = None -> g_socks s' !! e = None).
  { intros e He. apply G'. rewrite propagate_next. pose proof (main_next _ H1). lia. }
  assert (Hlt : forall e, is_Some (g_socks s !! e) -> (e < g_next s)%nat) by apply (inv_next _ _ (ok_inv _ Hok)).
  split_and!; [|done|done| |].
  - split; [done|]. intros [j|] Hw; [apply Hall|].
    + rewrite (wanted_config s'); [done|]. by destruct K' as (-> & _).
    + pose proof (main_ev _ H1) as Hm. assert (is_Some (g_sock_ev s1)) as [e He]
        by (case_decide; destruct Hm as [Hm _]; [by rewrite Hm|done]).
      destruct (Hk None e He) as [-> _]. done.
  - pose proof (main_ev _ H1) as Hm. unfold main_carried. case_decide.
    + destruct Hm as [Hm Hs]. destruct (Hk None m Hm) as [E ->]. by rewrite Hs, En.
    + destruct Hm as [_ Hs]. apply Hgone; [apply Hlt; by rewrite Hfd|]. by apply (prop_gone _ _ _ Hp).
  - intros i old e Hold He. pose proof (inv_named _ _ (ok_inv _ Hok) _ _ He) as (? & ? & _ & Hs).
    assert (Hin : (old, Some e) ∈ old_services).
    { apply old_service. exists i. split; [done|]. simpl in He. by destruct (g_evs s !! i) as [[?|]|]; simplify_eq/=. }
    pose proof (prop_ev _ _ _ Hp old e Hin) as Ho. rewrite (main_config _ H1) in Ho. unfold carried.
    rewrite (main_frame _ H1 e) in Ho by (apply old_event; by exists i). rewrite (main_number _ H1), <- En in Ho.
    destruct (goes_on cfg old) as [[j svc]|].
    + destruct Ho as [Ho Hos]. destruct K' as (_ & _ & K'). destruct (K' _ _ Ho) as [-> ->]. done.
    + apply Hgone; [|done]. apply Hlt. by rewrite Hs.
Qed.

Lemma reload_wp w : wp (init_sockets HAVE_SYSTEMD_DAEMON (Some (g_config s, g_evs s)) (install cfg s))
  (fun r _ => exists ret s', r = Done (ret, s') /\ (ret = 0 \/ ret = 1) /\ (ret = 0 ->
    sockets_ok s' /\ g_config s' = cfg /\ g_number s' = S (g_number s) /\ main_carried s' /\
    forall i old e, cfg_svcs (g_config s) !! i = Some old -> ev_of s (Some i) = Some e -> carried s' old e)) w.
Proof.
  unfold init_sockets. apply wp_bind. eapply wp_conseq; [apply init_main|].
  intros ? w1 (ok & s1 & -> & H1). simpl. destruct ok; [|apply wp_ret; exists 1, s1; auto with lia].
  specialize (H1 eq_refl). apply wp_bind. fold old_services.
  eapply wp_conseq; [apply init_others; [apply (main_propagated s1 H1)|done]|].
  intros ? w2 (ok & s' & -> & H' & X' & Hall). apply wp_ret.
  exists (if ok then 0 else 1), s'. split; [done|]. destruct ok; [|auto with lia].
  split; [by left|]. intros _. eapply reload_done; eauto with lia.
Qed.
End reload.
