(* ===== verification/HupProps.v ===== *)
(** * The sockets over the life of the daemon

    init_sockets at the start, and the handler of SIGHUP, keep the invariant of
    ReloadProps.v: nothing but a new configuration changes a socket that is in use.  At the end a reload is run. *)

From S2P Require Import Prelude RpcProcess Socket Accept World Util Service Crypt Outcome Trace Config ConfigProps Reload.
From S2P Require Import ReloadProps.

(** ** The start *)

Lemma lookup_nones {A} k i (o : option A) : repeat None k !! i = Some o -> o = None.
Proof. intros H. by apply list_elem_of_lookup_2, list_elem_of_In, repeat_spec in H. Qed.

Lemma fresh_inv cfg t : sockets_inv [] (fresh_server cfg t).
Proof.
  assert (Hno : forall r, ev_of (fresh_server cfg t) r = None).
  { intros [i|]; [|done]. simpl. destruct (repeat None _ !! i) as [o|] eqn:E; [|done]. by apply lookup_nones in E as ->. }
  split; try (intros *; rewrite Hno; done); simpl.
  - apply repeat_length.
  - by intros e ?%not_elem_of_nil.
  - constructor.
  - intros e [k Hk]. by rewrite lookup_empty in Hk.
  - intros e [k Hk]. by rewrite lookup_empty in Hk.
Qed.

Section hup.
Context {W : Type} {LL : LoopLib W}.
Variable HAVE_SYSTEMD_DAEMON : bool.

Lemma start_main cfg t n (w : W) : cfg_socket_name cfg = Some n ->
  wp (init_main_socket HAVE_SYSTEMD_DAEMON None (fresh_server cfg t)) (fun r _ => exists ok s1, r = Done (ok, s1) /\
    (ok = true -> sockets_inv [] s1 /\ is_Some (g_sock_ev s1) /\ g_config s1 = cfg)) w.
Proof.
  intros Hn. unfold init_main_socket. simpl (cfg_socket_name _). rewrite Hn.
  set (s := fresh_server cfg t). apply wp_bind. eapply wp_conseq; [apply setup_socket_new|].
  intros ? w1 (s1 & Hs1 & [->|[fd ->]]); apply wp_ret; [by exists false, s1|].
  set (sock := LiveSock _ _ _). eexists true, _. split; [done|]. intros _.
  destruct (extends_new s1 s sock [] (fresh_inv cfg t) Hs1) as (H2 & X2 & Hk2 & Ec & _).
  destruct (inv_assign None (g_next s) n fd [] _ H2) as (H3 & _ & _).
  - by destruct Hs1 as [-> | ->].
  - simpl. by rewrite Ec.
  - rewrite Hk2. by destruct Hs1 as [-> | ->].
  - split_and!; [exact H3|by eexists|exact Ec].
Qed.

(** when init_sockets is done at the start, every socket is there *)
Lemma start_sockets cfg t n (w : W) : cfg_socket_name cfg = Some n ->
  wp (init_sockets HAVE_SYSTEMD_DAEMON None (fresh_server cfg t)) (fun r _ => exists ret s', r = Done (ret, s') /\
    (ret = 0 \/ ret = 1) /\ (ret = 0 -> sockets_ok s' /\ g_config s' = cfg)) w.
Proof.
  intros Hn. unfold init_sockets. apply wp_bind. eapply wp_conseq; [by eapply start_main|].
  intros ? w1 (ok & s1 & -> & H1). simpl. destruct ok; [|apply wp_ret; exists 1, s1; auto with lia].
  destruct (H1 eq_refl) as (Hi & [e He] & Ec). apply wp_bind.
  eapply wp_conseq; [by apply init_others|]. intros ? w2 (ok & s' & -> & H' & ((Ec' & En' & Hk) & _) & Hall).
  apply wp_ret. exists (if ok then 0 else 1), s'. split; [done|]. destruct ok; [|auto with lia].
  split; [by left|]. intros _. rewrite Ec', Ec. split; [|done]. split; [done|].
  intros [j|] Hw; [|destruct (Hk None e He) as [-> _]; done].
  apply Hall; [done|lia|]. by rewrite <- (wanted_config s1 s').
Qed.

(** ** SIGHUP *)

Context {AL : Alloc W} {INI : IniLib W} {SYS : ConfSys W} {KL : KrbLib W} {TL : TraceLib W} {ST : Statics W}.
Variables (GP_SOCKET_NAME PUBCONF_PATH : string).
Variables (config_file config_dir config_socket : option string) (daemonize : Z).

(** the name of the default socket is chosen by the command line *)
Definition default_socket : string := default GP_SOCKET_NAME config_socket.

Lemma read_config_socket fuel : returns (W := W)
  (read_config GP_SOCKET_NAME PUBCONF_PATH fuel config_file config_dir config_socket daemonize)
  (fun cfg => cfg_socket_name cfg = Some default_socket).
Proof.
  do 2 (apply returns_skip; intros _). cbv zeta. apply returns_skip. intros _. apply returns_skip. intros _.
  unfold load_config. apply returns_skip. intros ctx. eapply returns_let.
  2: { intros r Hr. apply returns_skip_let. intros _ w. exact Hr. }
  refine (returns_skip _ _ _ _). intros [user k]. refine (returns_skip _ _ _ _). intros svcs. by apply returns_done.
Qed.

(** the state of a daemon that serves *)
Record serving (s : server) : Prop := Serving {
  serving_sockets : sockets_ok s;
  serving_name : cfg_socket_name (g_config s) = Some default_socket }.

Lemma serving_main s : serving s -> exists m fd, g_sock_ev s = Some m /\
  g_socks s !! m = Some (LiveSock (Some default_socket) fd (g_number s)).
Proof.
  intros [H Hn]. destruct (ok_all _ H None) as [m Hm]; [by exists default_socket|].
  destruct (inv_named _ _ (ok_inv _ H) _ _ Hm) as (n & fd & Hw & Hk). simpl in Hw.
  rewrite Hn in Hw. injection Hw as <-. by exists m, fd.
Qed.

(** the default socket has gone on *)
Definition same_main (s s' : server) : Prop := g_sock_ev s' = g_sock_ev s /\
  forall m, g_sock_ev s = Some m -> ls_fd <$> g_socks s' !! m = ls_fd <$> g_socks s !! m.

(** init_proc_nfsd has no business with the sockets *)
Definition same_sockets (s s' : server) : Prop :=
  g_config s' = g_config s /\ g_number s' = g_number s /\ g_evs s' = g_evs s /\ g_sock_ev s' = g_sock_ev s /\
  g_socks s' = g_socks s /\ g_next s' = g_next s.

Lemma init_proc_nfsd_sockets s (w : W) : wp (init_proc_nfsd s) (fun r _ => same_sockets s r.2) w.
Proof.
  unfold init_proc_nfsd. destruct (negb _); [by apply wp_ret|]. apply wp_bind.
  eapply (wp_conseq _ (fun r _ => same_sockets s r.2)).
  - unfold try_init_proc_nfsd. destruct (g_poked s); [by apply wp_ret|]. apply wp_bind, wp_any.
    intros [e|[n e]] w1; apply wp_ret; [done|]. by destruct (negb _).
  - intros [ret s1] w1 H1. cbv beta iota. destruct (ret =? 0); [by apply wp_ret|].
    apply wp_bind, wp_any. intros retry w2. by apply wp_ret.
Qed.

Lemma same_sockets_ok s s' : same_sockets s s' -> sockets_ok s -> sockets_ok s'.
Proof.
  destruct s, s'. intros (? & ? & ? & ? & ? & ?). simpl in *. subst.
  intros [[] Hall]. split; [by split|exact Hall].
Qed.

Lemma carried_same s cfg s1 s2 old e : same_sockets s1 s2 -> carried s cfg s1 old e -> carried s cfg s2 old e.
Proof. destruct s1, s2. intros (? & ? & ? & ? & ? & ?). simpl in *. by subst. Qed.

Definition reread (fuel : nat) : Cf W gp_config :=
  read_config GP_SOCKET_NAME PUBCONF_PATH fuel config_file config_dir config_socket daemonize.

End hup.

(** ** A reload, run

    A daemon with two services reads a configuration in which one of them is gone and another
    one is new; and the sockets that two services share. *)

(** a socket has the descriptor 10 plus the length of its name *)
#[export] Instance ini_loop : LoopLib ini := {|
  listen_answers name := mret (ListenEnv true 18 (Some (10 + Z.of_nat (String.length name))) true true true true);
  activation_answers := mret (0, true, FcntlEnv 0 (fun _ => None), FcntlEnv 0 (fun _ => None));
  verto_add_io fd := mret (fd <? 50);
  verto_add_timeout ms := mret true;
  poke_nfsd := mret (inr (1, 0));
|}.
#[local] Instance ini_alloc : Alloc ini := always_mem.
#[local] Instance ini_krb : KrbLib ini := toy_krb.

Definition service_section (name socket : string) : string * list (string * list string) :=
  ("service/" +:+ name, [("mechs", ["krb5"]); ("euid", ["0"]); ("socket", [socket])]).

Definition before : ini_obj := [service_section "HTTP" "/run/http"; service_section "nfs" "/run/n"].
Definition after : ini_obj := [service_section "new" "/run/newer"; service_section "HTTP" "/run/http"].

Definition start (obj : ini_obj) : outcome server :=
  match read_sample obj with
  | Done cfg =>
      match (init_sockets false None (fresh_server cfg 1000) (Ini [] [])).1 with
      | Done (0, s) => Done s
      | Done (ret, _) => Failed ret
      | Failed ret => Failed ret
      | Fault => Fault
      | Loops => Loops
      end
  | Failed ret => Failed ret
  | Fault => Fault
  | Loops => Loops
  end.

Definition reload (obj : ini_obj) (s : server) : outcome hup :=
  (hup_handler false "/run/default.sock" "/etc/gssproxy" None None None 0 20 s (Ini [] obj)).1.

Definition run (s : outcome server) : server :=
  match s with Done s => s | _ => fresh_server (Config None None true None 0 [] None) 0 end.
Definition reloaded (r : outcome hup) : server :=
  match r with Done (HupReloaded s) => s | _ => run (Failed 1) end.

(** the live sockets, as who has them, their names and their descriptors *)
Definition live (s : server) : list (option nat) * option nat * list (nat * (option string * Z)) :=
  (g_evs s, g_sock_ev s, omap (fun e => k ← g_socks s !! e; Some (e, (ls_socket k, ls_fd k))) (seq 0 (g_next s))).

Example started : live (run (start before)) =
  ([Some 1%nat; Some 2%nat], Some 0%nat,
   [(0%nat, (Some "/run/default.sock", 27)); (1%nat, (Some "/run/http", 19)); (2%nat, (Some "/run/n", 16))]).
Proof. vm_compute. reflexivity. Qed.

Example http_goes_on : live (reloaded (reload after (run (start before)))) =
  ([Some 3%nat; Some 1%nat], Some 0%nat,
   [(0%nat, (Some "/run/default.sock", 27)); (1%nat, (Some "/run/http", 19)); (3%nat, (Some "/run/newer", 20))]).
Proof. vm_compute. reflexivity. Qed.

(** a configuration without services is not taken *)
Example empty_kept : match reload [] (run (start before)) with Done (HupKept s) => live s | _ => live (run (Failed 1)) end =
  live (run (start before)).
Proof. vm_compute. reflexivity. Qed.

(** ** What a reload does to the tracing

    The files are read again, and with them the level of the messages. *)

Definition hup_in (s : server) : M ini (outcome hup) :=
  hup_handler false "/run/default.sock" "/etc/gssproxy" None None None 0 20 s.
(** a daemon that traces, whose files are now [obj] *)
Definition tracing_world (obj : ini_obj) : ini := IniWorld [] obj traced.

(** a configuration that is not taken has switched the tracing off all the same *)
Example rejected_untraced :
  let '(r, w) := hup_in (run (start before)) (tracing_world []) in
  (match r with Done (HupKept _) => true | _ => false end, gp_debug (statics w), tr_env (statics w)) = (true, 0, None).
Proof. vm_compute. reflexivity. Qed.

(** the second reload without tracing joins the thread again *)
Example second_reload_joins :
  let '(r, w) := hup_in (run (start before)) (tracing_world after) in
  (match r with Done (HupReloaded _) => true | _ => false end, (hup_in (reloaded r) w).1) = (true, Fault).
Proof. vm_compute. reflexivity. Qed.

(** ** Names that are not unique

    The sections of a file are merged by the library, those of two files are kept: the name of
    a service may occur twice.  Then the socket of the second one is given to the first, whose
    own event is live for ever, without an owner. *)
Definition twins : gp_config := Config None None true (Some "/run/default.sock") 1
  [plain_service "a" 0 false (Some "/run/shared") None;
   plain_service "a" 0 false (Some "/run/shared") (Some "/usr/bin/a")] None.

Definition sockets (r : outcome (Z * server)) : server :=
  match r with Done (0, s) => s | _ => run (Failed 1) end.

Example twins_leak :
  let s := sockets (init_sockets false None (fresh_server twins 0) (Ini [] [])).1 in
  live s = ([Some 1%nat; Some 2%nat], Some 0%nat,
   [(0%nat, (Some "/run/default.sock", 27)); (1%nat, (Some "/run/shared", 21)); (2%nat, (Some "/run/shared", 21))]) /\
  live (sockets (init_sockets false (Some (twins, g_evs s)) (install twins s) (Ini [] [])).1) =
  ([Some 2%nat; Some 3%nat], Some 0%nat,
   [(0%nat, (Some "/run/default.sock", 27)); (1%nat, (Some "/run/shared", 21));
    (2%nat, (Some "/run/shared", 21)); (3%nat, (Some "/run/shared", 21))]).
Proof. vm_compute. done. Qed.

(** ** The theorem, applied *)

Lemma started_serving cfg t s : cfg_socket_name cfg = Some "/run/default.sock" ->
  (init_sockets false None (fresh_server cfg t) (Ini [] [])).1 = Done (0, s) ->
  serving "/run/default.sock" None s.
Proof.
  intros Hn E. pose proof (start_sockets false cfg t _ (Ini [] []) Hn) as H.
  unfold wp in H. destruct (init_sockets _ _ _ _) as [r w']. simpl in E. subst r.
  destruct H as (ret & s' & [= <- <-] & _ & H). destruct (H eq_refl) as [Hok Hc]. split; [exact Hok|by rewrite Hc].
Qed.

Definition before_cfg : gp_config :=
  match read_sample before with Done cfg => cfg | _ => Config None None true None 0 [] None end.

Lemma before_serving : serving "/run/default.sock" None (run (start before)).
Proof. apply (started_serving before_cfg 1000); vm_compute; reflexivity. Qed.

Definition is_reloaded (r : outcome hup) : bool := match r with Done (HupReloaded _) => true | _ => false end.

Lemma reloaded_same s r s' : reloaded r = s' -> is_reloaded r = true ->
  match r with Done (HupReloaded s1) => same_main s s1 | _ => True end -> same_main s s'.
Proof. intros <-. by destruct r as [[]| | |]. Qed.

