(* ===== verification/Privs.v ===== *)
(** * Privileges

    drop_privs, clear_bound_caps and drop_caps of src/gp_init.c: the daemon becomes the user
    that is configured, and keeps of its capabilities the one to read /proc/pid/exe. *)

From S2P Require Import Prelude World Outcome.

Definition CAP_SETPCAP := 8.
Definition CAP_SYS_PTRACE := 19.
(** enum cap_flag_t *)
Inductive cap_flag := CAP_EFFECTIVE | CAP_PERMITTED.

(** the fields of struct passwd that are read *)
Record passwd := Passwd { pw_name : string; pw_uid : Z; pw_gid : Z }.

(** The system calls, and libcap.  Where a function sets errno, the second part is errno. *)
Class ProcLib (W : Type) := {
  cap_t : Type;
  prctl_keepcaps : bool -> M W (Z * Z);
  getpwnam_r : string -> M W (Z * option passwd);
  initgroups : string -> Z -> M W Z;
  setgid : Z -> M W (Z * Z);
  setuid : Z -> M W (Z * Z);
  cap_get_proc : M W (option cap_t * Z);
  cap_init : M W (option cap_t * Z);
  (* CAP_SET of one capability, in place *)
  cap_set_flag : cap_t -> cap_flag -> Z -> M W (Z * Z * cap_t);
  cap_set_proc : cap_t -> M W (Z * Z);
  cap_get_bound : Z -> M W Z;
  cap_drop_bound : Z -> M W (Z * Z);
  cap_free : cap_t -> M W (Z * Z);
}.

Section privs.
Context {W : Type} {PL : ProcLib W}.

(** the macro of sys/capability.h *)
Definition CAP_IS_SUPPORTED (cap : Z) : M W Z :=
  let* r := cap_get_bound cap in mret (if 0 <=? r then 1 else 0).

(** [Loops] when the fuel is gone *)
Fixpoint drop_bound (fuel : nat) (cap : Z) : Cf W Z :=
  match fuel with
  | O => mret Loops
  | S fuel =>
      let* b := CAP_IS_SUPPORTED cap in
      if b =? 0 then done 0 else
      let* '(r, errno) := cap_drop_bound cap in
      if negb (r =? 0) then done errno else drop_bound fuel (cap + 1)
  end.

(** the label [done] *)
Definition free_caps (caps : option cap_t) (ret : Z) : Cf W Z :=
  match caps with
  | None => done ret
  | Some c => let* '(r, errno) := cap_free c in done (if r =? -1 then errno else ret)
  end.

Definition clear_bound_caps (fuel : nat) : Cf W Z :=
  let* '(caps, errno) := cap_get_proc in
  match caps with
  | None => free_caps None errno
  | Some c =>
      let* '(r, errno, c) := cap_set_flag c CAP_EFFECTIVE CAP_SETPCAP in
      if r =? -1 then free_caps (Some c) errno else
      let* '(r, errno) := cap_set_proc c in
      if r =? -1 then free_caps (Some c) errno else
      try* ret := drop_bound fuel 0 in
      free_caps (Some c) ret
  end.

(** the macro is never -1: no capability's errno is asked for *)
Definition drop_caps (fuel : nat) : Cf W Z :=
  try* ret := clear_bound_caps fuel in
  if negb (ret =? 0) then free_caps None ret else
  let* ret := CAP_IS_SUPPORTED CAP_SYS_PTRACE in
  if ret =? 0 then free_caps None EINVAL else
  let* '(caps, errno) := cap_init in
  match caps with
  | None => free_caps None errno
  | Some c =>
      let* '(r, errno, c) := cap_set_flag c CAP_PERMITTED CAP_SYS_PTRACE in
      if r =? -1 then free_caps (Some c) errno else
      let* '(r, errno, c) := cap_set_flag c CAP_EFFECTIVE CAP_SYS_PTRACE in
      if r =? -1 then free_caps (Some c) errno else
      let* '(r, errno) := cap_set_proc c in
      if r =? -1 then free_caps (Some c) errno else
      free_caps (Some c) 0
  end.

(** a user that does not exist is no error of getpwnam_r(3): the null pointer is read *)
Definition drop_privs (HAVE_CAP : bool) (fuel : nat) (proxy_user : string) : Cf W Z :=
  let* '(r, errno) := if HAVE_CAP then prctl_keepcaps true else mret (0, 0) in
  if negb (r =? 0) then done errno else
  let* '(ret, pw) := getpwnam_r proxy_user in
  if negb (ret =? 0) then done ret else
  match pw with
  | None => mret Fault
  | Some pw =>
      let* ret := initgroups (pw_name pw) (pw_gid pw) in
      if negb (ret =? 0) then done ret else
      let* '(r, errno) := setgid (pw_gid pw) in
      if r =? -1 then done errno else
      let* '(r, errno) := setuid (pw_uid pw) in
      if r =? -1 then done errno else
      if negb HAVE_CAP then done 0 else
      try* ret := drop_caps fuel in
      if negb (ret =? 0) then done ret else
      let* '(r, errno) := prctl_keepcaps false in
      if negb (r =? 0) then done errno else done 0
  end.
End privs.

(** ** What the system promises *)

(** what a process may do; a user or group is the real, the effective and the saved one *)
Record proc := Proc {
  p_uid : Z * Z * Z; p_gid : Z * Z * Z; p_groups : list Z;
  p_permitted : gset Z; p_effective : gset Z; p_inheritable : gset Z; p_bounding : gset Z;
  p_keepcaps : bool }.

Definition CAP_SETGID := 6.
Definition CAP_SETUID := 7.

Definition set_ids (uid gid : Z * Z * Z) (groups : list Z) (p : proc) : proc :=
  Proc uid gid groups (p_permitted p) (p_effective p) (p_inheritable p) (p_bounding p) (p_keepcaps p).
Definition set_caps (permitted effective inheritable : gset Z) (p : proc) : proc :=
  Proc (p_uid p) (p_gid p) (p_groups p) permitted effective inheritable (p_bounding p) (p_keepcaps p).
Definition set_bounding (bounding : gset Z) (p : proc) : proc :=
  Proc (p_uid p) (p_gid p) (p_groups p) (p_permitted p) (p_effective p) (p_inheritable p) bounding (p_keepcaps p).
Definition set_keepcaps (b : bool) (p : proc) : proc :=
  Proc (p_uid p) (p_gid p) (p_groups p) (p_permitted p) (p_effective p) (p_inheritable p) (p_bounding p) b.

(** what setuid(2) changes: all three users of a process that may, and capabilities it need
    not say which *)
Definition ids_only (p p' : proc) : Prop :=
  p_gid p' = p_gid p /\ p_groups p' = p_groups p /\ p_bounding p' = p_bounding p.

(** A call that fails says why.  A call that succeeds does what its manual page says. *)
Class ProcLaws (W : Type) {PL : ProcLib W} := {
  proc_of : W -> proc;
  user_db : string -> option passwd;
  group_db : string -> Z -> list Z;
  cap_count : nat;
  caps_of : cap_t -> gset Z * gset Z * gset Z;      (* permitted, effective, inheritable *)
  prctl_law b w : wp (prctl_keepcaps b) (fun r w' =>
    if r.1 =? 0 then proc_of w' = set_keepcaps b (proc_of w) else r.2 <> 0) w;
  getpwnam_r_law name w : wp (getpwnam_r name) (fun r w' => proc_of w' = proc_of w /\
    (r.1 = 0 -> r.2 = user_db name)) w;
  initgroups_law name gid w : wp (initgroups name gid) (fun r w' => r = 0 ->
    proc_of w' = set_ids (p_uid (proc_of w)) (p_gid (proc_of w)) (group_db name gid) (proc_of w)) w;
  setgid_law gid w : CAP_SETGID ∈ p_effective (proc_of w) -> wp (setgid gid) (fun r w' =>
    if r.1 =? -1 then r.2 <> 0
    else proc_of w' = set_ids (p_uid (proc_of w)) (gid, gid, gid) (p_groups (proc_of w)) (proc_of w)) w;
  setuid_law uid w : CAP_SETUID ∈ p_effective (proc_of w) -> wp (setuid uid) (fun r w' =>
    if r.1 =? -1 then r.2 <> 0
    else p_uid (proc_of w') = (uid, uid, uid) /\ ids_only (proc_of w) (proc_of w')) w;
  cap_get_proc_law w : wp cap_get_proc (fun r w' => proc_of w' = proc_of w /\ (r.1 = None -> r.2 <> 0)) w;
  cap_init_law w : wp cap_init (fun r w' => proc_of w' = proc_of w /\
    match r.1 with Some c => caps_of c = (∅, ∅, ∅) | None => r.2 <> 0 end) w;
  cap_set_flag_law c f cap w : wp (cap_set_flag c f cap) (fun r w' => proc_of w' = proc_of w /\
    if r.1.1 =? -1 then r.1.2 <> 0
    else caps_of r.2 = let '(p, e, i) := caps_of c in
                       match f with CAP_PERMITTED => ({[cap]} ∪ p, e, i) | CAP_EFFECTIVE => (p, {[cap]} ∪ e, i) end) w;
  cap_set_proc_law c w : wp (cap_set_proc c) (fun r w' =>
    if r.1 =? -1 then r.2 <> 0
    else proc_of w' = let '(p, e, i) := caps_of c in set_caps p e i (proc_of w)) w;
  cap_get_bound_law cap w : wp (cap_get_bound cap) (fun r w' => proc_of w' = proc_of w /\
    (0 <= r <-> 0 <= cap < Z.of_nat cap_count)) w;
  cap_drop_bound_law cap w : wp (cap_drop_bound cap) (fun r w' =>
    if r.1 =? 0 then proc_of w' = set_bounding (p_bounding (proc_of w) ∖ {[cap]}) (proc_of w)
    else r.2 <> 0) w;
  cap_free_law c w : wp (cap_free c) (fun r w' => proc_of w' = proc_of w /\ (r.1 = -1 -> r.2 <> 0)) w;
  bounding_law w cap : cap ∈ p_bounding (proc_of w) -> 0 <= cap < Z.of_nat cap_count;
}.
