(* ===== verification/PrivsProps.v ===== *)
(** * Privileges are dropped

    A daemon that was started by root, and has done drop_privs of Privs.v without an error,
    is the configured user, in a build with libcap with one capability; and a kernel to see it
    happen. *)

From S2P Require Import Prelude World Outcome Privs.

(** ** Each step *)

Section props.
Context {W : Type} {PL : ProcLib W} {LAWS : ProcLaws W}.

(** a computation that ends in 0 only where [P] holds of the process *)
Definition ends (P : proc -> Prop) (r : outcome Z) (w : W) : Prop :=
  exists ret, r = Done ret /\ (ret = 0 -> P (proc_of w)).

Lemma ends_error P errno w : errno <> 0 -> ends P (Done errno) w.
Proof. intros H. by exists errno. Qed.

Lemma ends_conseq (P Q : proc -> Prop) m w : (forall p, P p -> Q p) -> wp m (ends P) w -> wp m (ends Q) w.
Proof. intros H Hm. eapply wp_conseq; [exact Hm|]. intros r w' (ret & -> & Hr). exists ret. auto. Qed.

(** one call, then the test of its result *)
Lemma ends_call {A} (m : M W A) Q (b : A -> bool) (k1 k2 : A -> Cf W Z) P w : wp m Q w ->
  (forall a w', Q a w' -> b a = true -> wp (k1 a) (ends P) w') ->
  (forall a w', Q a w' -> b a = false -> wp (k2 a) (ends P) w') ->
  wp (let* a := m in if b a then k1 a else k2 a) (ends P) w.
Proof.
  intros Hm H1 H2. apply wp_bind. eapply wp_conseq; [exact Hm|]. intros a w' Ha.
  destruct (b a) eqn:E; auto.
Qed.

Lemma free_caps_ends caps ret (P : proc -> Prop) w : (ret = 0 -> P (proc_of w)) ->
  wp (free_caps caps ret) (ends P) w.
Proof.
  intros H. destruct caps as [c|]; simpl; [|by apply wp_ret; exists ret].
  apply wp_bind. eapply wp_conseq; [apply cap_free_law|]. intros [r errno] w' [E Hr]. apply wp_ret.
  simpl in *. destruct (Z.eqb_spec r (-1)); [by apply ends_error, Hr|]. exists ret. by rewrite E.
Qed.

Lemma CAP_IS_SUPPORTED_ok cap w : wp (CAP_IS_SUPPORTED cap) (fun r w' => proc_of w' = proc_of w /\
  r = if decide (0 <= cap < Z.of_nat cap_count) then 1 else 0) w.
Proof.
  apply wp_bind. eapply wp_conseq; [apply cap_get_bound_law|]. intros r w' [E Hr]. apply wp_ret.
  split; [done|]. destruct (Z.leb_spec 0 r); case_decide; tauto || (exfalso; lia).
Qed.

(** who the process is, whatever it may do *)
Definition is_user (pw : passwd) (p : proc) : Prop :=
  p_uid p = (pw_uid pw, pw_uid pw, pw_uid pw) /\ p_gid p = (pw_gid pw, pw_gid pw, pw_gid pw) /\
  p_groups p = group_db (pw_name pw) (pw_gid pw).

(** the loop ends, with nothing left in the bounding set *)
Lemma drop_bound_ends fuel cap pw w : (cap_count < Z.to_nat cap + fuel)%nat ->
  0 <= cap <= Z.of_nat cap_count ->
  is_user pw (proc_of w) -> (forall c, c ∈ p_bounding (proc_of w) -> cap <= c) ->
  wp (drop_bound fuel cap) (ends (fun p => is_user pw p /\ p_bounding p = ∅)) w.
Proof.
  revert cap w. induction fuel as [|fuel IH]; intros cap w Hf Hc Hu Hb; [lia|]. cbn [drop_bound].
  eapply ends_call; [apply CAP_IS_SUPPORTED_ok| |].
  - intros b w1 [E ->] Hd. apply wp_ret. exists 0. split; [done|]. intros _. rewrite E. split; [done|].
    case_decide as Hs; [done|]. apply leibniz_equiv. intros c. split; [|set_solver]. intros Hin. exfalso.
    pose proof (bounding_law w c Hin). specialize (Hb c Hin). lia.
  - intros b w1 [E ->] Hd. case_decide as Hs; [|done]. apply wp_bind.
    eapply wp_conseq; [apply cap_drop_bound_law|]. intros [r errno] w2 Hr. simpl in *.
    destruct (r =? 0); [|by apply wp_ret, ends_error]. simpl. apply IH; [lia|lia| |].
    + rewrite Hr, E. exact Hu.
    + rewrite Hr, E. simpl. intros c [Hin Hne]%elem_of_difference. specialize (Hb c Hin). set_solver by lia.
Qed.

(** libcap on a set of capabilities, then the error path *)
Lemma set_flag_ends c f cap (k : cap_t -> Cf W Z) P w :
  (forall c' w', proc_of w' = proc_of w ->
     caps_of c' = (let '(p, e, i) := caps_of c in
                   match f with CAP_PERMITTED => ({[cap]} ∪ p, e, i) | CAP_EFFECTIVE => (p, {[cap]} ∪ e, i) end) ->
     wp (k c') (ends P) w') ->
  wp (let* '(r, errno, c) := cap_set_flag c f cap in if r =? -1 then free_caps (Some c) errno else k c) (ends P) w.
Proof.
  intros Hk. apply wp_bind. eapply wp_conseq; [apply cap_set_flag_law|].
  intros [[r errno] c'] w' [E Hr]. simpl in Hr. cbv beta iota. destruct (r =? -1); [by apply free_caps_ends|]. by apply Hk.
Qed.

Lemma set_proc_ends c (k : Cf W Z) P w :
  (forall w', proc_of w' = (let '(p, e, i) := caps_of c in set_caps p e i (proc_of w)) -> wp k (ends P) w') ->
  wp (let* '(r, errno) := cap_set_proc c in if r =? -1 then free_caps (Some c) errno else k) (ends P) w.
Proof.
  intros Hk. apply wp_bind. eapply wp_conseq; [apply cap_set_proc_law|].
  intros [r errno] w' Hr. simpl in Hr. cbv beta iota. destruct (r =? -1); [by apply free_caps_ends|]. by apply Hk.
Qed.

Lemma is_user_same pw p p' : p_uid p' = p_uid p -> p_gid p' = p_gid p -> p_groups p' = p_groups p ->
  is_user pw p -> is_user pw p'.
Proof. unfold is_user. congruence. Qed.

Lemma clear_bound_caps_ends fuel pw w : (cap_count < fuel)%nat -> is_user pw (proc_of w) ->
  wp (clear_bound_caps fuel) (ends (fun p => is_user pw p /\ p_bounding p = ∅)) w.
Proof.
  intros Hf Hu. apply wp_bind. eapply wp_conseq; [apply cap_get_proc_law|].
  intros [[c|] errno] w1 [E Hn]; cbv beta iota; simpl in Hn; [|apply free_caps_ends; naive_solver].
  apply set_flag_ends. intros c' w2 E2 _. apply set_proc_ends. intros w3 E3. apply wp_bind.
  eapply wp_conseq; [apply (drop_bound_ends fuel 0 pw); [lia|lia| |]|].
  - rewrite E3, E2, E. destruct (caps_of c') as [[p e] i]. by eapply is_user_same; [..|exact Hu].
  - intros cap Hc%bounding_law. lia.
  - intros r w4 (ret & -> & Hret). by apply free_caps_ends.
Qed.

(** only the one capability is left *)
Definition only_ptrace (p : proc) : Prop :=
  p_permitted p = {[CAP_SYS_PTRACE]} /\ p_effective p = {[CAP_SYS_PTRACE]} /\ p_inheritable p = ∅ /\
  p_bounding p = ∅.

Lemma drop_caps_ends fuel pw w : (cap_count < fuel)%nat -> is_user pw (proc_of w) ->
  wp (drop_caps fuel) (ends (fun p => is_user pw p /\ only_ptrace p)) w.
Proof.
  intros Hf Hu. apply wp_bind. eapply wp_conseq; [by eapply clear_bound_caps_ends|].
  intros r w1 (ret & -> & H1). cbv beta iota. destruct (Z.eqb_spec ret 0) as [->|Hne]; simpl negb; cbv iota;
    [|by apply free_caps_ends].
  destruct (H1 eq_refl) as [Hu1 Hb1].
  eapply ends_call; [apply CAP_IS_SUPPORTED_ok|by intros; apply free_caps_ends|].
  intros b w2 [E2 _] _. apply wp_bind. eapply wp_conseq; [apply cap_init_law|].
  intros [[c|] errno] w3 [E3 Hc]; cbv beta iota; simpl in Hc; [|by apply free_caps_ends].
  apply set_flag_ends. intros c1 w4 E4 C1. apply set_flag_ends. intros c2 w5 E5 C2.
  apply set_proc_ends. intros w6 E6. apply free_caps_ends. intros _.
  rewrite C2, C1, Hc in E6. rewrite E6, E5, E4, E3, E2. split; [by eapply is_user_same; [..|exact Hu1]|].
  split_and!; simpl; [set_solver|set_solver|done|exact Hb1].
Qed.

(** the process is [user] and, in a build with libcap, can only read /proc/pid/exe *)
Definition dropped_to (HAVE_CAP : bool) (user : string) (p : proc) : Prop :=
  exists pw, user_db user = Some pw /\ is_user pw p /\
    (HAVE_CAP = true -> only_ptrace p /\ p_keepcaps p = false).

(** what a build with libcap does last *)
Lemma finish_caps_ends fuel pw w : (cap_count < fuel)%nat -> is_user pw (proc_of w) ->
  wp (try* ret := drop_caps fuel in
      if negb (ret =? 0) then done ret else
      let* '(r, errno) := prctl_keepcaps false in
      if negb (r =? 0) then done errno else done 0)
    (ends (fun p => is_user pw p /\ only_ptrace p /\ p_keepcaps p = false)) w.
Proof.
  intros Hf Hu. apply wp_bind. eapply wp_conseq; [by apply (drop_caps_ends fuel pw)|]. intros ? w1 (ret & -> & H1).
  cbv beta iota. destruct (Z.eqb_spec ret 0) as [->|Hne]; simpl negb; cbv iota; [|by apply wp_ret, ends_error].
  destruct (H1 eq_refl) as [Hu1 Hc1].
  apply wp_bind. eapply wp_conseq; [apply prctl_law|]. intros [r errno] w2 H2. simpl in H2. cbv beta iota.
  destruct (r =? 0); simpl negb; cbv iota; [|by apply wp_ret, ends_error].
  apply wp_ret. exists 0. split; [done|]. intros _. by rewrite H2.
Qed.

Lemma drop_privs_wp HAVE_CAP fuel proxy_user w : (cap_count < fuel)%nat ->
  {[CAP_SETUID; CAP_SETGID]} ⊆ p_effective (proc_of w) ->
  wp (drop_privs HAVE_CAP fuel proxy_user) (fun r w' =>
    ends (fun p => dropped_to HAVE_CAP proxy_user p /\
      (HAVE_CAP = false -> p_bounding p = p_bounding (proc_of w))) r w' \/
    r = Fault /\ user_db proxy_user = None) w.
Proof.
  intros Hf Hcap. set (P := fun p => dropped_to HAVE_CAP proxy_user p /\ _). unfold drop_privs.
  assert (Hgo : forall m (w : W), wp m (ends P) w ->
    wp m (fun r w' => ends P r w' \/ r = Fault /\ user_db proxy_user = None) w).
  { intros m w' Hm. eapply wp_conseq; [exact Hm|]. auto. }
  apply wp_bind.
  eapply (wp_conseq _ (fun r w' => if r.1 =? 0 then exists b, proc_of w' = set_keepcaps b (proc_of w) else r.2 <> 0)).
  { destruct HAVE_CAP; [|by apply wp_ret; exists (p_keepcaps (proc_of w)); simpl; destruct (proc_of w)].
    eapply wp_conseq; [apply prctl_law|]. intros [r errno] w1. simpl. destruct (r =? 0); eauto. }
  intros [r errno] w1 H1. simpl in H1. cbv beta iota.
  destruct (r =? 0); cbv beta iota; simpl negb; cbv iota; [|by apply Hgo, wp_ret, ends_error]. destruct H1 as [b H1].
  apply wp_bind. eapply wp_conseq; [apply getpwnam_r_law|]. intros [ret pw] w2 [E2 Hpw]. simpl in Hpw. cbv beta iota.
  destruct (Z.eqb_spec ret 0) as [->|Hne]; simpl negb; cbv iota; [|by apply Hgo, wp_ret, ends_error].
  specialize (Hpw eq_refl). destruct pw as [pw|]; [|apply wp_ret; by right]. apply Hgo.
  apply wp_bind. eapply wp_conseq; [apply initgroups_law|]. intros ret w3 H3.
  destruct (Z.eqb_spec ret 0) as [->|Hne]; simpl negb; cbv iota; [|by apply wp_ret, ends_error].
  specialize (H3 eq_refl). rewrite E2, H1 in H3.
  apply wp_bind. eapply wp_conseq; [apply setgid_law; rewrite H3; set_solver|].
  intros [r4 e4] w4 H4. simpl in H4. cbv beta iota. destruct (r4 =? -1); [by apply wp_ret, ends_error|]. rewrite H3 in H4.
  apply wp_bind. eapply wp_conseq; [apply setuid_law; rewrite H4; set_solver|].
  intros [r5 e5] w5 H5. simpl in H5. cbv beta iota. destruct (r5 =? -1); [by apply wp_ret, ends_error|].
  destruct H5 as (Hu & Hg & Hgr & Hbound). rewrite H4 in Hg, Hgr, Hbound. simpl in Hg, Hgr, Hbound.
  assert (Hpwu : is_user pw (proc_of w5)) by by split_and!.
  destruct HAVE_CAP; simpl negb; cbv iota; [|by apply wp_ret; exists 0; split; [|intros _; split; [exists pw|]]].
  eapply wp_conseq; [by apply (finish_caps_ends fuel pw)|]. intros ? w6 (ret & -> & H6). exists ret. split; [done|].
  intros E. split; [|done]. exists pw. by destruct (H6 E) as (? & ? & ?).
Qed.

(** C4. When drop_privs returns 0 in a process that may change its user and its groups
    (CAP_SETUID and CAP_SETGID), the process is the configured user in all of its user and group
    ids, with this user's groups.  In a build with libcap, reading /proc/pid/exe is moreover the
    only capability it has or can ever get, and it will not keep it over a change of the user;
    in a build without libcap, the default one, the bounding set is as it was.  The loop over the
    capabilities ends.  A user that does not exist crashes the daemon, and nothing else does. *)
Theorem privileges_dropped HAVE_CAP fuel proxy_user w : (cap_count < fuel)%nat ->
  {[CAP_SETUID; CAP_SETGID]} ⊆ p_effective (proc_of w) ->
  wp (drop_privs HAVE_CAP fuel proxy_user) (fun r w' =>
    (exists ret, r = Done ret /\ (ret = 0 -> exists pw, user_db proxy_user = Some pw /\ is_user pw (proc_of w') /\
       (HAVE_CAP = true -> only_ptrace (proc_of w') /\ p_keepcaps (proc_of w') = false) /\
       (HAVE_CAP = false -> p_bounding (proc_of w') = p_bounding (proc_of w)))) \/
    r = Fault /\ user_db proxy_user = None) w.
Proof.
  intros Hf Hcap. eapply wp_conseq; [by apply drop_privs_wp|]. intros r w' [(ret & -> & H)|[-> Hn]]; [left|by right].
  exists ret. split; [done|]. intros E. destruct (H E) as [(pw & ? & ? & ?) ?]. by exists pw.
Qed.
End props.

(** ** A kernel that drops privileges

    The part of the kernel and of libcap that Privs.v relies on, as functions on a process. *)

Definition EPERM := 1.
Definition LAST_CAP := 40.

(** the bounding set holds nothing past the last capability *)
Definition supported (p : proc) : proc :=
  set_bounding (filter (fun c => 0 <= c < LAST_CAP + 1) (p_bounding p)) p.

(** what is left of the capabilities when no user of the process is root any more *)
Definition after_setuid (uid : Z) (p : proc) : proc :=
  let p' := set_ids (uid, uid, uid) (p_gid p) (p_groups p) p in
  if uid =? 0 then p' else set_caps (if p_keepcaps p then p_permitted p else ∅) ∅ (p_inheritable p) p'.

Definition users (name : string) : option passwd :=
  if String.eqb name "gssproxy" then Some (Passwd "gssproxy" 990 985) else None.

#[export] Instance kernel : ProcLib proc := {|
  cap_t := gset Z * gset Z * gset Z;
  prctl_keepcaps b p := ((0, 0), set_keepcaps b p);
  getpwnam_r name := mret (0, users name);
  initgroups name gid p :=
    if bool_decide (CAP_SETGID ∈ p_effective p) then (0, set_ids (p_uid p) (p_gid p) [gid] p) else (-1, p);
  setgid gid p :=
    if bool_decide (CAP_SETGID ∈ p_effective p) then ((0, 0), set_ids (p_uid p) (gid, gid, gid) (p_groups p) p)
    else ((-1, EPERM), p);
  setuid uid p :=
    if bool_decide (CAP_SETUID ∈ p_effective p) then ((0, 0), after_setuid uid p) else ((-1, EPERM), p);
  cap_get_proc p := ((Some (p_permitted p, p_effective p, p_inheritable p), 0), p);
  cap_init := mret (Some (∅, ∅, ∅), 0);
  cap_set_flag c f cap := mret ((0, 0), let '(p, e, i) := c in
    match f with CAP_PERMITTED => ({[cap]} ∪ p, e, i) | CAP_EFFECTIVE => (p, {[cap]} ∪ e, i) end);
  cap_set_proc c p :=
    let '(perm, e, i) := c in
    if bool_decide (perm ⊆ p_permitted p /\ e ⊆ perm) then ((0, 0), set_caps perm e i p) else ((-1, EPERM), p);
  cap_get_bound cap p :=
    (if negb (bool_decide (0 <= cap < LAST_CAP + 1)) then -1
     else if bool_decide (cap ∈ p_bounding p) then 1 else 0, p);
  cap_drop_bound cap p :=
    if bool_decide (CAP_SETPCAP ∈ p_effective p) then ((0, 0), set_bounding (p_bounding p ∖ {[cap]}) p)
    else ((-1, EPERM), p);
  cap_free _ := mret (0, 0);
|}.

#[export] Instance kernel_laws : ProcLaws proc.
Proof.
  refine {| proc_of := supported; user_db := users; group_db _ gid := [gid]; cap_count := 41;
            caps_of c := c |}.
  - done.
  - done.
  - intros name gid p. unfold wp. simpl. by case_bool_decide.
  - intros gid p H. unfold wp. simpl in *. by rewrite bool_decide_eq_true_2.
  - intros uid p H. unfold wp. simpl in *. rewrite bool_decide_eq_true_2 by done. unfold after_setuid.
    simpl. by destruct (uid =? 0).
  - done.
  - done.
  - by intros [[p e] i] [].
  - intros [[perm e] i] p. unfold wp. simpl. by case_bool_decide.
  - intros cap p. unfold wp. simpl. split; [done|]. unfold LAST_CAP in *.
    repeat case_bool_decide; simpl; lia.
  - intros cap p. unfold wp. simpl. case_bool_decide; [|done]. unfold supported, set_bounding. simpl. f_equal.
    apply leibniz_equiv. intros c. rewrite elem_of_filter, !elem_of_difference, elem_of_filter. tauto.
  - done.
  - intros p cap. simpl. rewrite elem_of_filter. unfold LAST_CAP. lia.
Defined.

(** a daemon that root has started *)
Definition all_caps : gset Z := list_to_set (seqZ 0 41).
Definition root_proc : proc := Proc (0, 0, 0) (0, 0, 0) [0] all_caps all_caps ∅ all_caps false.

Definition dropped : proc :=
  Proc (990, 990, 990) (985, 985, 985) [985] {[CAP_SYS_PTRACE]} {[CAP_SYS_PTRACE]} ∅ ∅ false.

Example root_drops : drop_privs true 42 "gssproxy" root_proc = (Done 0, dropped).
Proof. vm_compute. reflexivity. Qed.

(** once is enough: the user may not do it again *)
Example dropped_cannot : (drop_privs true 42 "gssproxy" dropped).1 = Done (-1).
Proof. vm_compute. reflexivity. Qed.

(** a user that does not exist *)
Example nobody_crashes : (drop_privs true 42 "nobody" root_proc).1 = Fault.
Proof. vm_compute. reflexivity. Qed.

(** without the capabilities, the change of the user is all *)
Example no_caps : (drop_privs false 42 "gssproxy" root_proc).2 =
  Proc (990, 990, 990) (985, 985, 985) [985] ∅ ∅ ∅ all_caps false.
Proof. vm_compute. reflexivity. Qed.

(** both builds *)
Lemma privileges_dropped_witness : exists pw, users "gssproxy" = Some pw /\
  (is_user pw dropped /\ only_ptrace dropped) /\
  (let p := supported (drop_privs false 42 "gssproxy" root_proc).2 in is_user pw p /\ p_bounding p = all_caps).
Proof.
  assert (Hcap : {[CAP_SETUID; CAP_SETGID]} ⊆ p_effective (supported root_proc))
    by (refine (bool_decide_eq_true_1 (_ ⊆ _) _); vm_compute; reflexivity).
  pose proof (privileges_dropped (LAWS := kernel_laws) true 42 "gssproxy" root_proc ltac:(simpl; lia) Hcap) as H.
  pose proof (privileges_dropped (LAWS := kernel_laws) false 42 "gssproxy" root_proc ltac:(simpl; lia) Hcap) as H'.
  unfold wp in H, H'. rewrite root_drops in H. destruct H as [(ret & [= <-] & H)|[? ?]]; [|done].
  destruct (H eq_refl) as (pw & Hpw & Hu & Hc & _). exists pw. split; [exact Hpw|]. split; [by destruct (Hc eq_refl)|].
  destruct H' as [(ret & [= <-] & H')|[? ?]]; [|done]. destruct (H' eq_refl) as (pw' & Hpw' & Hu' & _ & Hb').
  assert (pw' = pw) as -> by (change (users "gssproxy" = Some pw') in Hpw'; change (users "gssproxy" = Some pw) in Hpw; congruence).
  split; [exact Hu'|]. refine (eq_trans (Hb' eq_refl) _). vm_compute. reflexivity.
Defined.
