(* ===== verification/Mgmt.v ===== *)
(** * The end of a daemon that is not used

    idle_terminate, idle_handler and gp_activity_accounting of src/gp_mgmt.c, delayed_init of
    src/gp_init.c: a daemon of a user session, which its service manager can start again, ends
    when no request has come for a while; neither earlier nor later, as the life of the daemon
    in the second half shows.

    Times are in milliseconds.  A timer of the event loop is a number; the loop runs its
    callback once, when its time has come, unless it was deleted before. *)

From S2P Require Import Prelude World.

(** the part of struct gssproxy_ctx that is used *)
Record mgmt := Mgmt {
  userproxymode : bool;
  term_timeout : Z;
  term_ev : option nat;
  readstats : Z;
  writestats : Z;
  last_activity : Z;
}.

Definition set_term_ev (ev : option nat) (m : mgmt) : mgmt :=
  Mgmt (userproxymode m) (term_timeout m) ev (readstats m) (writestats m) (last_activity m).
Definition count_read (rb now : Z) (m : mgmt) : mgmt :=
  Mgmt (userproxymode m) (term_timeout m) (term_ev m) (readstats m + rb) (writestats m) now.
Definition count_write (wb now : Z) (m : mgmt) : mgmt :=
  Mgmt (userproxymode m) (term_timeout m) (term_ev m) (readstats m) (writestats m + wb) now.

(** libverto, and time(2) in seconds *)
Class TimerLib (W : Type) := {
  timer_del : option nat -> M W unit;
  timer_add : Z -> M W (option nat);
  verto_break : M W unit;
  time_now : M W Z;
}.

Section mgmt.
Context {W : Type} {TL : TimerLib W}.

Definition idle_terminate : M W unit := verto_break.

Definition idle_handler (m : mgmt) : M W mgmt :=
  if negb (userproxymode m) || (term_timeout m =? 0) then mret m else
  let* _ := timer_del (term_ev m) in
  let* ev := timer_add (term_timeout m) in
  mret (set_term_ev ev m).

(** src/gp_init.c: the first event of the loop *)
Definition delayed_init (m : mgmt) : M W mgmt := idle_handler m.

Definition gp_activity_accounting (rb wb : Z) (m : mgmt) : M W mgmt :=
  let* now := time_now in
  let* m := if negb (rb =? 0) then
              let* m := idle_handler m in mret (count_read rb now m)
            else mret m in
  mret (if negb (wb =? 0) then count_write wb now m else m).
End mgmt.

(** ** An idle daemon ends in time

    The life of a daemon as steps: data is read and written, time goes by, and any timer that
    idle_handler has made, and that was not deleted since, fires when it is due. *)

(** ** What the event loop promises *)

(** the deadlines of the timers whose callback is idle_terminate, all of those timer_add has
    made and that were not deleted since; the time; and whether the loop was told to end *)
Class TimerLaws (W : Type) {TL : TimerLib W} := {
  timers : W -> gmap nat Z;
  clock : W -> Z;
  stopped : W -> bool;
  timer_del_law ev w : wp (timer_del ev) (fun _ w' => clock w' = clock w /\ stopped w' = stopped w /\
    timers w' = match ev with Some e => delete e (timers w) | None => timers w end) w;
  timer_add_law ms w : wp (timer_add ms) (fun r w' => clock w' = clock w /\ stopped w' = stopped w /\
    match r with
    | Some e => timers w !! e = None /\ timers w' = <[e := clock w + ms]> (timers w)
    | None => timers w' = timers w
    end) w;
  verto_break_law w : wp verto_break (fun _ w' => clock w' = clock w /\ stopped w' = true /\ timers w' = timers w) w;
  time_now_law w : wp time_now (fun _ w' => w' = w) w;
}.

Section props.
Context {W : Type} {TL : TimerLib W} {LAWS : TimerLaws W}.

(** ** The life of a daemon *)

(** what is not about these timers leaves them alone, and no time goes by that is past a
    deadline: the loop would have run that timer *)
Record elapses (w w' : W) : Prop := Elapses {
  el_clock : clock w <= clock w';
  el_stopped : stopped w' = stopped w;
  el_timers : timers w' = timers w;
  el_due e d : timers w !! e = Some d -> clock w' <= d }.

(** a timer fires when it is due, once *)
Record fires (e : nat) (w w' : W) : Prop := Fires {
  fi_due : exists d, timers w !! e = Some d /\ d <= clock w;
  fi_clock : clock w' = clock w;
  fi_stopped : stopped w' = stopped w;
  fi_timers : timers w' = delete e (timers w) }.

(** [life m w last]: the daemon has come to [m] and [w], and had its last request, or else
    its start, at the time [last] *)
Inductive life (m0 : mgmt) (w0 : W) : mgmt -> W -> Z -> Prop :=
| life_start m w : delayed_init m0 w0 = (m, w) -> life m0 w0 m w (clock w0)
| life_read m w last rb m' w' : life m0 w0 m w last -> stopped w = false -> rb <> 0 ->
    gp_activity_accounting rb 0 m w = (m', w') -> life m0 w0 m' w' (clock w)
| life_write m w last wb m' w' : life m0 w0 m w last -> stopped w = false ->
    gp_activity_accounting 0 wb m w = (m', w') -> life m0 w0 m' w' last
| life_time m w last w' : life m0 w0 m w last -> stopped w = false -> elapses w w' ->
    life m0 w0 m w' last
| life_fire m w last e w1 w' : life m0 w0 m w last -> stopped w = false ->
    fires e w w1 -> (idle_terminate w1).2 = w' -> life m0 w0 m w' last.

(** ** Each operation *)

(** only the timer, and the counters, change *)
Definition same_mode (m m' : mgmt) : Prop :=
  userproxymode m' = userproxymode m /\ term_timeout m' = term_timeout m.

Definition may_end (m : mgmt) : bool := userproxymode m && negb (term_timeout m =? 0).

Lemma same_mode_enabled m m' : same_mode m m' -> may_end m' = may_end m.
Proof. unfold may_end. by intros [-> ->]. Qed.

(** the one timer there is, if any, is the daemon's, and runs out at [t] *)
Definition one_timer (t : Z) (m : mgmt) (w : W) : Prop :=
  timers w = match term_ev m with Some e => {[e := t]} | None => ∅ end.

Lemma idle_handler_on t m w : may_end m = true -> one_timer t m w ->
  wp (idle_handler m) (fun m' w' => same_mode m m' /\ clock w' = clock w /\ stopped w' = stopped w /\
    one_timer (clock w + term_timeout m) m' w') w.
Proof.
  unfold idle_handler, may_end, one_timer. intros H Hone.
  destruct (userproxymode m), (term_timeout m =? 0); try done. simpl.
  apply wp_bind. eapply wp_conseq; [apply timer_del_law|]. intros _ w1 (C1 & S1 & T1).
  assert (T : timers w1 = ∅).
  { rewrite T1, Hone. destruct (term_ev m); [|done]. apply delete_singleton_eq. }
  apply wp_bind. eapply wp_conseq; [apply timer_add_law|]. intros r w2 (C2 & S2 & H2).
  apply wp_ret. split_and!; [done|congruence|congruence|]. simpl. destruct r as [e|]; [|by rewrite H2].
  destruct H2 as [_ ->]. by rewrite T, C1, insert_empty.
Qed.

Lemma idle_handler_off m : may_end m = false -> idle_handler m = mret (A := mgmt) (W := W) m.
Proof. unfold idle_handler, may_end. by destruct (userproxymode m), (term_timeout m =? 0). Qed.

Lemma read_counts rb m w : rb <> 0 -> wp (gp_activity_accounting rb 0 m) (fun m' w' =>
  wp (idle_handler m) (fun m1 w1 => w' = w1 /\ m' = count_read rb (last_activity m') m1) w) w.
Proof.
  intros Hrb. unfold gp_activity_accounting. apply wp_bind. eapply wp_conseq; [apply time_now_law|].
  intros now w1 ->. rewrite (proj2 (Z.eqb_neq _ _) Hrb). simpl. apply wp_bind, wp_bind. unfold wp at 1.
  unfold wp at 3. destruct (idle_handler m w) as [m1 w1]. by repeat apply wp_ret.
Qed.

Lemma write_counts wb m w : wp (gp_activity_accounting 0 wb m) (fun m' w' => w' = w /\ same_mode m m' /\
  term_ev m' = term_ev m) w.
Proof.
  unfold gp_activity_accounting. apply wp_bind. eapply wp_conseq; [apply time_now_law|]. intros now w1 ->.
  apply wp_bind, wp_ret, wp_ret. by destruct (negb _).
Qed.

(** ** The invariant *)

(** before the end the timer runs out a while after the last request, and the end is then *)
Record life_ok (m : mgmt) (w : W) (last : Z) : Prop := LifeOk {
  lo_one : stopped w = false -> one_timer (last + term_timeout m) m w;
  lo_time : last <= clock w;
  lo_early : stopped w = false -> is_Some (term_ev m) -> clock w <= last + term_timeout m;
  lo_end : stopped w = true -> clock w = last + term_timeout m }.

(** a fresh timer is all the invariant needs *)
Lemma idle_handler_ok t m w : may_end m = true -> 0 <= term_timeout m -> stopped w = false ->
  one_timer t m w -> wp (idle_handler m) (fun m' w' => same_mode m m' /\ life_ok m' w' (clock w)) w.
Proof.
  intros He Ht Hs Ho. eapply wp_conseq; [by eapply idle_handler_on|]. intros m' w' (Hm & C & S & D). split; [done|].
  destruct Hm as [Hu Htt]. rewrite <- Htt in D, Ht. split; [done|lia|intros; lia|congruence].
Qed.

(** a timer that fires is the one there is, and it is on time *)
Lemma fires_on_time m w last e w1 : stopped w = false -> life_ok m w last -> fires e w w1 ->
  clock w1 = last + term_timeout m.
Proof.
  intros Hw [O L Ea En] [(d & Hd & Hdue) C S T]. rewrite C. specialize (O Hw). unfold one_timer in O.
  rewrite O in Hd. destruct (term_ev m) as [e'|]; [|by rewrite lookup_empty in Hd].
  apply lookup_singleton_Some in Hd as [-> <-]. specialize (Ea Hw ltac:(done)). lia.
Qed.

Lemma life_mode m0 w0 m w last : may_end m0 = true -> 0 <= term_timeout m0 -> stopped w0 = false ->
  one_timer 0 m0 w0 -> life m0 w0 m w last -> same_mode m0 m /\ life_ok m w last.
Proof.
  intros He Ht Hs H0. induction 1 as [m w E|m w last rb m' w' _ [Hm IH] Hw Hrb E|m w last wb m' w' _ [Hm IH] Hw E
    |m w last w' _ [Hm IH] Hw El|m w last e w1 w' _ [Hm IH] Hw Hf E].
  - pose proof (idle_handler_ok 0 m0 w0 He Ht Hs H0) as H. unfold wp in H. unfold delayed_init in E. by rewrite E in H.
  - assert (He' : may_end m = true) by (by rewrite (same_mode_enabled m0 m)).
    pose proof (read_counts rb m w Hrb) as H. unfold wp at 1 in H. rewrite E in H.
    pose proof (idle_handler_ok _ m w He' ltac:(by destruct Hm as [_ ->]) Hw (lo_one _ _ _ IH Hw)) as H'.
    unfold wp in H, H'. destruct (idle_handler m w) as [m1 w1]. destruct H as [-> ->]. destruct H' as [H1 H2].
    split; [|by destruct H2; split].
    destruct Hm as [Hu Htt], H1 as [Hu1 Htt1]. split; simpl; congruence.
  - pose proof (write_counts wb m w) as H. unfold wp in H. rewrite E in H. destruct H as (-> & [Hu Htt] & Hev).
    destruct Hm as [Hu0 Htt0]. split; [split; congruence|].
    destruct IH as [O L Ea En]. unfold one_timer in O. rewrite <- Htt, <- Hev in *. by split.
  - split; [done|]. destruct IH as [O L Ea En], El as [C S T Du]. specialize (O Hw). unfold one_timer in O.
    split; [|lia| |by rewrite S, Hw]; intros _; [by unfold one_timer; rewrite T|]. intros [e He1].
    apply (Du e). by rewrite O, He1, lookup_singleton_eq.
  - split; [done|]. pose proof (fires_on_time _ _ _ _ _ Hw IH Hf) as Hon. destruct IH as [O L Ea En].
    pose proof (verto_break_law w1) as H. unfold wp in H. unfold idle_terminate in E.
    destruct (verto_break w1) as [u w2]. simpl in E. subst w2. destruct H as (C1 & S1 & T1).
    split; [congruence| |congruence|intros _; lia]. rewrite C1, (fi_clock _ _ _ Hf). exact L.
Qed.

(** C5. A daemon that may end by itself, from its first event on, when there is no timer yet.  It
    ends exactly when its time is over since the last request, or since the start when there
    was none, whichever of the timers that were not deleted fires; until it ends the one timer
    of this kind there is runs out then, and the time does not go past that, as long as the
    timer could be made; with none it does not end.  Answers do not keep it alive. *)
Theorem idle_daemon_ends m0 w0 m w last : may_end m0 = true -> 0 <= term_timeout m0 ->
  stopped w0 = false -> term_ev m0 = None -> timers w0 = ∅ -> life m0 w0 m w last ->
  (stopped w = true -> clock w = last + term_timeout m0) /\
  (stopped w = false ->
     timers w = match term_ev m with Some e => {[e := last + term_timeout m0]} | None => ∅ end /\
     (is_Some (term_ev m) -> clock w <= last + term_timeout m0)).
Proof.
  intros He Ht Hs Hn H0 Hl.
  assert (Ho : one_timer 0 m0 w0) by (unfold one_timer; by rewrite Hn).
  destruct (life_mode m0 w0 m w last He Ht Hs Ho Hl) as [[_ Htt] [O L Ea En]].
  rewrite <- Htt. split; [done|]. intros Hw. split; [exact (O Hw)|exact (Ea Hw)].
Qed.

(** a daemon that was not started for it never ends by itself *)
Lemma life_off m0 w0 m w last : may_end m0 = false -> timers w0 = ∅ -> stopped w0 = false ->
  life m0 w0 m w last -> same_mode m0 m /\ timers w = ∅ /\ stopped w = false.
Proof.
  intros He Hn Hs. induction 1 as [m w E|m w last rb m' w' _ (Hm & IH & IS) Hw Hrb E|m w last wb m' w' _ (Hm & IH & IS) Hw E
    |m w last w' _ (Hm & IH & IS) Hw El|m w last e w1 w' _ (Hm & IH & IS) Hw Hf E].
  - unfold delayed_init in E. rewrite idle_handler_off in E by done. by injection E as <- <-.
  - pose proof (read_counts rb m w Hrb) as H. unfold wp at 1 in H. rewrite E in H.
    rewrite idle_handler_off in H by (by rewrite (same_mode_enabled m0 m)). destruct H as [-> ->].
    by split_and!; [destruct Hm; split|..].
  - pose proof (write_counts wb m w) as H. unfold wp in H. rewrite E in H. destruct H as (-> & [Hu Htt] & Hev).
    destruct Hm as [Hu0 Htt0]. split_and!; [split; congruence|congruence|done].
  - split_and!; [done|by rewrite (el_timers _ _ El)|by rewrite (el_stopped _ _ El)].
  - destruct (fi_due _ _ _ Hf) as (d & Hd & _). by rewrite IH, lookup_empty in Hd.
Qed.
End props.

(** ** A daemon that was idle for a second

    An event loop as a table of deadlines, and a daemon that has one request and ends. *)

Record loop := Loop { l_timers : gmap nat Z; l_clock : Z; l_stopped : bool }.

Definition set_timers (t : gmap nat Z) (l : loop) : loop := Loop t (l_clock l) (l_stopped l).
Definition later (ms : Z) (l : loop) : loop := Loop (l_timers l) (l_clock l + ms) (l_stopped l).

#[export] Instance table_loop : TimerLib loop := {|
  timer_del ev l := (tt, set_timers (match ev with Some e => delete e (l_timers l) | None => l_timers l end) l);
  timer_add ms l := let e := fresh (dom (l_timers l)) in
    (Some e, set_timers (<[e := l_clock l + ms]> (l_timers l)) l);
  verto_break l := (tt, Loop (l_timers l) (l_clock l) true);
  time_now l := (l_clock l / 1000, l);
|}.

#[export] Instance table_laws : TimerLaws loop.
Proof.
  refine {| timers := l_timers; clock := l_clock; stopped := l_stopped |}; unfold wp; simpl; try done.
  intros ms l. split_and!; try done. apply not_elem_of_dom, is_fresh.
Defined.

Definition new_daemon (timeout : Z) : mgmt := Mgmt true timeout None 0 0 0.
Definition loop0 : loop := Loop ∅ 0 false.

(** a request after 600 ms *)
Definition started : mgmt * loop := idle_handler (new_daemon 1000) loop0.
Definition asked : mgmt * loop := gp_activity_accounting 48 0 started.1 (later 600 started.2).
(** its answer a little later, then nothing *)
Definition answered : mgmt * loop := gp_activity_accounting 0 36 asked.1 (later 20 asked.2).
Definition waited : loop := later 980 answered.2.
Definition ended : loop := (idle_terminate (set_timers ∅ waited)).2.

Example idle_ended : (l_clock ended, l_stopped ended, readstats answered.1, writestats answered.1) = (1600, true, 48, 36).
Proof. vm_compute. reflexivity. Qed.

(** zero is not a short time *)
Example zero_never : idle_handler (new_daemon 0) loop0 = (new_daemon 0, loop0).
Proof. reflexivity. Qed.

(** time goes by in this loop, up to its deadlines *)
Lemma later_elapses ms l : 0 <= ms -> map_Forall (fun _ d => l_clock l + ms <= d) (l_timers l) -> elapses l (later ms l).
Proof. intros H Hd. split; [simpl; lia|done|done|]. exact Hd. Qed.

Lemma asked_alive : life (new_daemon 1000) loop0 asked.1 asked.2 600.
Proof.
  replace 600 with (clock (later 600 started.2)) by (vm_compute; reflexivity).
  apply (life_read _ _ started.1 (later 600 started.2) 0 48); [|reflexivity|lia|exact (surjective_pairing asked)].
  apply (life_time _ _ _ started.2); [exact (life_start (new_daemon 1000) loop0 started.1 started.2 (surjective_pairing started))|reflexivity|].
  apply later_elapses; [lia|]. apply (bool_decide_eq_true_1 _). vm_compute. reflexivity.
Qed.

Lemma ended_life : life (new_daemon 1000) loop0 answered.1 ended 600.
Proof.
  apply (life_fire _ _ _ waited _ 0 (set_timers ∅ waited)); [|reflexivity| |reflexivity].
  - apply (life_time _ _ _ answered.2); [|reflexivity|].
    + apply (life_write _ _ asked.1 (later 20 asked.2) _ 36); [|reflexivity|exact (surjective_pairing answered)].
      apply (life_time _ _ _ asked.2); [exact asked_alive|reflexivity|].
      apply later_elapses; [lia|]. apply (bool_decide_eq_true_1 _). vm_compute. reflexivity.
    + apply later_elapses; [lia|]. apply (bool_decide_eq_true_1 _). vm_compute. reflexivity.
  - split; [|reflexivity|reflexivity|reflexivity]. exists 1600. split; [vm_compute; reflexivity|vm_compute; congruence].
Qed.

Lemma idle_daemon_ends_witness : stopped ended = true /\ clock ended = 600 + 1000.
Proof.
  split; [reflexivity|].
  apply (idle_daemon_ends (new_daemon 1000) loop0 answered.1 ended 600); try reflexivity; [vm_compute; congruence|].
  exact ended_life.
Defined.
