(* ===== verification/Log.v ===== *)
(** * Messages of the daemon

    gp_append, gp_fmt_status and gp_log_status of src/gp_log.c, gp_log_failure and what is put
    before each message, of src/gp_debug.c.

    The text of a status is made in a buffer on the stack.  A string that is written past the
    end of it is [None]; the second half of the file says when that is. *)

From S2P Require Import Prelude World Toy Util Format Conv.

Definition MAX_LOG_LINE := 1024.

(** vsnprintf(3) of a text at [at_] of the buffer, in what the caller takes for its size; the
    result is the length of the text, written or not *)
Definition gp_append (buf : bytes) (at_ max : Z) (text : bytes) : option (Z * bytes) :=
  if max <=? 0 then Some (0, buf) else
  let n := Z.to_nat (Z.min (Z.of_nat (length text)) (max - 1)) in
  let i := Z.to_nat at_ in
  if Nat.ltb (length buf) (i + n + 1) then None
  else Some (Z.of_nat (length text), take i buf ++ take n text ++ Byte.x00 :: drop (i + n + 1) buf).

(** the next part: size_t wraps around *)
Definition append_next (used : Z) (buf : bytes) (text : bytes) : option (Z * bytes) :=
  match gp_append buf used (u64 (Z.of_nat (length buf) - used)) text with
  | Some (n, buf) => Some (u64 (used + n), buf)
  | None => None
  end.

Class OidText (W : Type) := gss_oid_to_str : bytes -> M W bytes.

Definition oid_part (oid : bytes) : bytes :=
  String.list_byte_of_string "(OID: " ++ oid ++ String.list_byte_of_string ") ".

Section log.
Context {W : Type} {GL : GssLib W} {OT : OidText W}.

Definition gp_fmt_status (mech : option bytes) (maj min : Z) (buf : bytes) : M W (option bytes) :=
  let* r := match mech with
            | Some oid => let* s := gss_oid_to_str oid in mret (append_next 0 buf (oid_part (to_nul s)))
            | None => mret (Some (0, buf))
            end in
  match r with
  | None => mret None
  | Some (used, buf) =>
      let* '(_, _, (_, s)) := gss_display_status maj GSS_C_GSS_CODE mech 0 in
      match append_next used buf (to_nul s ++ comma_space) with
      | None => mret None
      | Some (used, buf) =>
          let* '(_, _, (_, s)) := gss_display_status min GSS_C_MECH_CODE mech 0 in
          mret (snd <$> append_next used buf (to_nul s))
      end
  end.

(** the line that is logged; [None] for a write outside of the buffer.  What the buffer held
    before is [junk]. *)
Definition gp_log_failure (junk : bytes) (mech : option bytes) (maj min : Z) : M W (option bytes) :=
  let* r := gp_fmt_status mech maj min junk in
  mret (b ← r; Some (String.list_byte_of_string "Failed with: " ++ to_nul b)).

(** [Some None]: nothing is logged *)
Definition gp_log_status (gp_syslog_status : bool) (junk : bytes) (mech : option bytes) (maj min : Z)
  : M W (option (option bytes)) :=
  if negb gp_syslog_status then mret (Some None) else
  let* r := gp_fmt_status mech maj min junk in
  mret (b ← r; Some (Some (to_nul b))).
End log.

(** ** What is put before a message: the buffers of one thread *)

Record stamp := Stamp { st_time : Z; st_buffer : string }.
(** the start of a thread *)
Definition stamp0 : stamp := Stamp 0 "".

Definition gp_debug_timestamp (strftime : Z -> string) (now : Z) (s : stamp) : string * stamp :=
  if now =? st_time s then (st_buffer s, s) else (strftime now, Stamp now (strftime now)).

Record conn_id := ConnId { ci_last : Z; ci_buffer : bytes }.
Definition conn_id0 : conn_id := ConnId 0 [].

(** the text is cut to fit: "[CID -2147483648]" needs 18 bytes and gets 17 *)
Definition cid_text (cid : Z) : bytes :=
  take 16 (String.list_byte_of_string "[CID " ++ dec cid ++ String.list_byte_of_string "]").

Definition gp_debug_conn_id (cid : Z) (s : conn_id) : bytes * conn_id :=
  if cid =? 0 then ([], ConnId (ci_last s) [])
  else if ci_last s =? cid then (ci_buffer s, s)
  else (cid_text cid, ConnId cid (cid_text cid)).

(** ** The lines that are logged

    When the text of a status fits in the buffer, and when it is written outside of
    it; what is put before a message. *)

(** ** The buffer *)

Definition LINE := 1024%nat.

(** [t] was written, cut to the buffer and ended with a NUL; before the first part there is
    nothing *)
Definition written (t b : bytes) : Prop := length b = LINE /\
  (t = [] \/ exists rest, b = take 1023 t ++ Byte.x00 :: rest).

Lemma written_take t b : written t b -> (length t <= 1023)%nat -> take (length t) b = t.
Proof.
  intros [_ [->|[rest ->]]] Hl; [done|]. by rewrite (take_ge t), take_app_length by lia.
Qed.

Lemma take_app_cut (t s : bytes) : (length t <= 1023)%nat ->
  take 1023 (t ++ s) = t ++ take (Nat.min (length s) (1023 - length t)) s.
Proof.
  intros H. rewrite take_app, (take_ge t) by lia. f_equal.
  destruct (Nat.min_spec (length s) (1023 - length t)) as [[? ->]|[? ->]]; [|done]. by rewrite !take_ge by lia.
Qed.

Lemma append_fits t s b : written t b -> (length t <= 1023)%nat -> Z.of_nat (length s) < 2 ^ 32 ->
  exists b', append_next (Z.of_nat (length t)) b s = Some (Z.of_nat (length (t ++ s)), b') /\
    length b' = LINE /\ exists rest, b' = take 1023 (t ++ s) ++ Byte.x00 :: rest.
Proof.
  intros Hw Hl Hs. pose proof Hw as [Hb _]. unfold append_next, gp_append.
  rewrite Hb. unfold LINE.
  assert (Eu : u64 (Z.of_nat 1024 - Z.of_nat (length t)) = Z.of_nat 1024 - Z.of_nat (length t))
    by (apply Z.mod_small; lia).
  rewrite Eu. destruct (Z.leb_spec (Z.of_nat 1024 - Z.of_nat (length t)) 0); [lia|].
  rewrite Nat2Z.id. set (n := Z.to_nat _). assert (En : n = Nat.min (length s) (1023 - length t)) by lia.
  destruct (Nat.ltb_spec 1024 (length t + n + 1)); [lia|].
  unfold u64. rewrite Z.mod_small by lia. rewrite length_app, Nat2Z.inj_add. eexists. split; [done|].
  rewrite (written_take t b Hw Hl), take_app_cut, <- En by done. split.
  - rewrite !length_app, length_take, length_cons, length_drop, Hb. unfold LINE. lia.
  - eexists. by rewrite <- app_assoc.
Qed.

(** the buffer is full to the last byte: nothing more is written *)
Lemma append_full s b : length b = LINE -> append_next 1024 b s = Some (1024, b).
Proof. intros Hb. unfold append_next, gp_append. by rewrite Hb. Qed.

(** the text so far did not fit: the rest is written past the end *)
Lemma append_outside used s b : length b = LINE -> 1024 < used < 2 ^ 62 -> Z.of_nat (length s) < 2 ^ 32 ->
  append_next used b s = None.
Proof.
  intros Hb Hu Hs. unfold append_next, gp_append. rewrite Hb. unfold LINE, u64.
  assert (Eu : (Z.of_nat 1024 - used) mod 2 ^ 64 = 2 ^ 64 + 1024 - used)
    by (rewrite <- (Z_mod_plus_full _ 1), Z.mod_small; lia).
  rewrite Eu.
  destruct (Z.leb_spec (2 ^ 64 + 1024 - used) 0); [lia|].
  destruct (Nat.ltb_spec 1024 (Z.to_nat used + Z.to_nat (Z.min (Z.of_nat (length s)) (2 ^ 64 + 1024 - used - 1)) + 1)); [done|lia].
Qed.

Lemma append_next_fits t s b : written t b -> (length t <= 1024)%nat -> Z.of_nat (length s) < 2 ^ 32 ->
  exists used b', append_next (Z.of_nat (length t)) b s = Some (used, b') /\ length b' = LINE /\
    (used = Z.of_nat (length (t ++ s)) \/ length t = 1024%nat) /\
    (t ++ s <> [] -> exists rest, b' = take 1023 (t ++ s) ++ Byte.x00 :: rest).
Proof.
  intros Hw Hl Hs. destruct (decide (length t = 1024)%nat) as [E|Hne].
  - rewrite E. exists 1024, b. pose proof Hw as [Hb Hr]. split; [by apply append_full|]. split_and!; [done|by right|].
    intros _. destruct Hr as [->|[rest ->]]; [done|]. exists rest. by rewrite take_app_le by lia.
  - destruct (append_fits t s b Hw ltac:(lia) Hs) as (b' & E & Hb & rest & Hr).
    exists (Z.of_nat (length (t ++ s))), b'. split_and!; [done|done|by left|]. intros _. by exists rest.
Qed.

(** ** The text of a status *)

Lemma to_nul_written t rest : Byte.x00 ∉ t -> to_nul (t ++ Byte.x00 :: rest) = t.
Proof.
  induction t as [|c t IH]; intros H; simpl; [done|]. rewrite bool_decide_eq_false_2 by set_solver.
  rewrite IH; [done|set_solver].
Qed.

Lemma to_nul_ended b : Byte.x00 ∉ to_nul b.
Proof. induction b as [|c b IH]; simpl; [set_solver|]. case_bool_decide; set_solver. Qed.

(** the texts the library has, shorter than four gigabytes *)
Class LogTexts (W : Type) {GL : GssLib W} {OT : OidText W} := {
  oid_text : bytes -> bytes;
  status_text : Z -> Z -> option bytes -> bytes;
  oid_law oid w : wp (gss_oid_to_str oid) (fun s _ => to_nul s = oid_text oid) w;
  status_law status type mech w : wp (gss_display_status status type mech 0)
    (fun r _ => to_nul r.2.2 = status_text status type mech) w;
  oid_short oid : Z.of_nat (length (oid_text oid)) < 2 ^ 31;
  status_short status type mech : Z.of_nat (length (status_text status type mech)) < 2 ^ 31;
}.

Section props.
Context {W : Type} {GL : GssLib W} {OT : OidText W} {TEXTS : LogTexts W}.

Definition mech_part (mech : option bytes) : bytes :=
  match mech with Some oid => oid_part (oid_text oid) | None => [] end.
(** what is before the text of the minor status *)
Definition status_head (mech : option bytes) (maj : Z) : bytes :=
  mech_part mech ++ status_text maj GSS_C_GSS_CODE mech ++ comma_space.
Definition minor_part (mech : option bytes) (min : Z) : bytes := status_text min GSS_C_MECH_CODE mech.

(** the two texts of the status, after what was written *)
Lemma status_parts mech maj min t b (Q : option bytes -> W -> Prop) w : written t b ->
  (forall w', Q (match append_next (Z.of_nat (length t)) b (status_text maj GSS_C_GSS_CODE mech ++ comma_space) with
                 | Some (used, b) => snd <$> append_next used b (minor_part mech min)
                 | None => None
                 end) w') ->
  wp (let* '(_, _, (_, s)) := gss_display_status maj GSS_C_GSS_CODE mech 0 in
      match append_next (Z.of_nat (length t)) b (to_nul s ++ comma_space) with
      | None => mret None
      | Some (used, buf) =>
          let* '(_, _, (_, s)) := gss_display_status min GSS_C_MECH_CODE mech 0 in
          mret (snd <$> append_next used buf (to_nul s))
      end) Q w.
Proof.
  intros Hw HQ. apply wp_bind. eapply wp_conseq; [apply status_law|]. intros [[? ?] [? s]] w1 E. simpl in E.
  cbv beta iota. rewrite E. destruct (append_next _ b _) as [[used b']|]; [|by apply wp_ret].
  apply wp_bind. eapply wp_conseq; [apply status_law|]. intros [[? ?] [? s']] w2 E'. simpl in E'.
  apply wp_ret. unfold minor_part in HQ. by rewrite E'.
Qed.

(** what is written after [t]: [s1], then [s2] *)
Definition two_parts (t s1 s2 b : bytes) : option bytes :=
  match append_next (Z.of_nat (length t)) b s1 with
  | Some (used, b) => snd <$> append_next used b s2
  | None => None
  end.

(** [t] fits: [s1] is added, and [s2], or does not fit *)
Lemma two_parts_fit t s1 s2 b : written t b -> (length t <= 1023)%nat ->
  Z.of_nat (length s1) < 2 ^ 32 -> Z.of_nat (length s2) < 2 ^ 32 -> Byte.x00 ∉ t ++ s1 ++ s2 -> t ++ s1 <> [] ->
  match two_parts t s1 s2 b with
  | Some b => length b = LINE /\ to_nul b = take 1023 (t ++ s1 ++ s2) /\ (length (t ++ s1) <= 1024)%nat
  | None => (1024 < length (t ++ s1))%nat
  end.
Proof.
  intros Hw Hl H1 H2 Hn Hne. unfold two_parts. destruct (append_fits t s1 b Hw Hl H1) as (b1 & -> & Hb1 & rest & Er).
  destruct (decide (length (t ++ s1) <= 1024)%nat) as [Hle|Hgt].
  - destruct (append_next_fits (t ++ s1) s2 b1) as (used & b2 & -> & Hb2 & _ & Hr); [|done|done|].
    { split; [done|right; by exists rest]. }
    simpl. split_and!; [done| |done]. rewrite <- app_assoc in Hr. destruct Hr as [rest' ->].
    { intros E. apply Hne. rewrite app_assoc in E. by apply app_eq_nil in E as [? _]. }
    apply to_nul_written. intros Hin. apply Hn.
    rewrite <- (take_drop 1023 (t ++ s1 ++ s2)). apply elem_of_app. by left.
  - rewrite append_outside; [simpl; lia|done| |done]. rewrite length_app in *. lia.
Qed.

(** [t] is as long as the buffer: nothing is added *)
Lemma two_parts_full t s1 s2 b : length b = LINE -> length t = 1024%nat -> two_parts t s1 s2 b = Some b.
Proof. intros Hb Ht. unfold two_parts. rewrite Ht. change (Z.of_nat 1024) with 1024. by rewrite !append_full. Qed.

(** [t] is longer than the buffer *)
Lemma two_parts_outside t s1 s2 b : length b = LINE -> 1024 < Z.of_nat (length t) < 2 ^ 62 ->
  Z.of_nat (length s1) < 2 ^ 32 -> two_parts t s1 s2 b = None.
Proof. intros Hb Ht Hs. unfold two_parts. by rewrite append_outside. Qed.

(** the three cases: what is said of a line that is made, or of one that is written outside *)
Lemma two_parts_line t s1 s2 b : written t b -> Z.of_nat (length t) < 2 ^ 62 ->
  Z.of_nat (length s1) < 2 ^ 32 -> Z.of_nat (length s2) < 2 ^ 32 -> Byte.x00 ∉ t ++ s1 ++ s2 -> s1 <> [] ->
  match two_parts t s1 s2 b with
  | Some b => length b = LINE /\ to_nul b = take 1023 (t ++ s1 ++ s2) /\
      ((length (t ++ s1) <= 1024)%nat \/ length t = 1024%nat)
  | None => (1024 < length (t ++ s1))%nat /\ length t <> 1024%nat
  end.
Proof.
  intros Hw Ht H1 H2 Hn Hne. pose proof Hw as [Hb Hr].
  destruct (decide (length t <= 1023)%nat) as [Hl|Hl].
  - pose proof (two_parts_fit t s1 s2 b Hw Hl H1 H2 Hn) as H.
    destruct (two_parts t s1 s2 b); [|split; [|lia]].
    + destruct H as (? & ? & ?); [by destruct t|]. by split_and!; [..|left].
    + apply H. by destruct t.
  - destruct (decide (length t = 1024%nat)) as [E|E].
    + rewrite two_parts_full by done. split_and!; [done| |by right].
      destruct Hr as [->|[rest ->]]; [done|]. rewrite (take_app_le _ (s1 ++ s2)) by lia. apply to_nul_written.
      intros Hin. apply Hn. rewrite <- (take_drop 1023 t), <- app_assoc. apply elem_of_app. by left.
    + rewrite two_parts_outside by (done || lia). rewrite length_app. lia.
Qed.

Lemma status_text_ended status type mech (w : W) : Byte.x00 ∉ status_text status type mech.
Proof.
  pose proof (status_law status type mech w) as H. unfold wp in H.
  destruct (gss_display_status _ _ _ _ _) as [r ?]. rewrite <- H. apply to_nul_ended.
Qed.

(** C36. The line of a status, in the buffer of 1024 bytes, is its texts cut to 1023 bytes, when the
    text of the mechanism and of the major status together are not longer than the buffer, or the
    one of the mechanism alone is exactly as long, so that nothing is added to it.  In every other
    case, and only then, a text is written past the end of the buffer. *)
Theorem status_line junk mech maj min w : length junk = LINE ->
  wp (gp_fmt_status mech maj min junk) (fun r _ => match r with
    | Some b => length b = LINE /\ to_nul b = take 1023 (status_head mech maj ++ minor_part mech min) /\
        ((length (status_head mech maj) <= 1024)%nat \/ length (mech_part mech) = 1024%nat)
    | None => (1024 < length (status_head mech maj))%nat /\ length (mech_part mech) <> 1024%nat
    end) w.
Proof.
  intros Hj. set (s1 := status_text maj GSS_C_GSS_CODE mech ++ comma_space).
  assert (H1 : Z.of_nat (length s1) < 2 ^ 32).
  { unfold s1. rewrite length_app. pose proof (status_short maj GSS_C_GSS_CODE mech). simpl. lia. }
  assert (H2 : Z.of_nat (length (minor_part mech min)) < 2 ^ 32).
  { pose proof (status_short min GSS_C_MECH_CODE mech). unfold minor_part. lia. }
  assert (Hs : Byte.x00 ∉ s1 ++ minor_part mech min).
  { unfold s1. rewrite !not_elem_of_app. split_and!; [apply (status_text_ended _ _ _ w)| |apply (status_text_ended _ _ _ w)].
    unfold comma_space. set_solver. }
  assert (Hne : s1 <> []) by (unfold s1; by destruct (status_text _ _ _)).
  unfold gp_fmt_status, status_head. fold s1. rewrite <- app_assoc.
  destruct mech as [oid|]; simpl mech_part in *.
  - apply wp_bind, wp_bind. eapply wp_conseq; [apply oid_law|]. intros s w1 E. apply wp_ret. rewrite E.
    assert (Ho : Byte.x00 ∉ oid_part (oid_text oid)).
    { unfold oid_part. rewrite !not_elem_of_app, <- E. split_and!; [by vm_compute; set_solver|apply to_nul_ended|by vm_compute; set_solver]. }
    assert (Hol : Z.of_nat (length (oid_part (oid_text oid))) < 2 ^ 32).
    { unfold oid_part. rewrite !length_app. pose proof (oid_short oid). simpl. lia. }
    destruct (append_fits [] (oid_part (oid_text oid)) junk) as (b1 & Eb & Hb1 & rest & Er); [by split; [|left]|simpl; lia|done|].
    change (Z.of_nat (length [])) with 0 in Eb. rewrite Eb, !app_nil_l. cbv beta iota.
    assert (Hw : written (oid_part (oid_text oid)) b1) by (split; [done|right; by exists rest]).
    apply (status_parts (Some oid) maj min _ b1 _ _ Hw). intros w2.
    apply two_parts_line; try done; [lia|by apply not_elem_of_app].
  - apply wp_bind, wp_ret. apply (status_parts None maj min [] junk); [by split; [|left]|]. intros w2.
    apply (two_parts_line []); try done. by split; [|left].
Qed.
End props.

(** ** What is put before a message *)

(** the time, whatever was asked before; midnight of 1970 excepted *)
Lemma timestamp_current strftime now s : st_time s <> 0 -> st_buffer s = strftime (st_time s) ->
  (gp_debug_timestamp strftime now s).1 = strftime now.
Proof. unfold gp_debug_timestamp. intros _ Hs. destruct (Z.eqb_spec now (st_time s)); [by subst|done]. Qed.

(** a message of nobody makes the next one of the client before it a message of nobody *)
Example conn_id_lost :
  let s1 := (gp_debug_conn_id 7 conn_id0).2 in
  let s2 := (gp_debug_conn_id 0 s1).2 in
  ((gp_debug_conn_id 7 conn_id0).1, (gp_debug_conn_id 7 s1).1, (gp_debug_conn_id 7 s2).1) =
  (String.list_byte_of_string "[CID 7]", String.list_byte_of_string "[CID 7]", []).
Proof. vm_compute. reflexivity. Qed.

(** ** Lines that fit, and one that does not

    The small GSSAPI library of Toy.v, whose statuses have no text, and where the text of an
    object identifier is what it is made of. *)

#[local] Existing Instance toy_gss.

#[local] Instance toy_oid_text : OidText toy := fun oid => mret (take 2000 (to_nul oid)).

Lemma to_nul_twice b n : to_nul (take n (to_nul b)) = take n (to_nul b).
Proof.
  revert n. induction b as [|c b IH]; intros n; simpl; [by rewrite take_nil|]. case_bool_decide as Hc; [by rewrite take_nil|].
  destruct n as [|n]; simpl; [done|]. by rewrite bool_decide_eq_false_2, IH.
Qed.

#[local] Instance toy_texts : LogTexts toy.
Proof.
  refine {| oid_text oid := take 2000 (to_nul oid); status_text _ _ _ := [] |}; unfold wp; simpl; try done.
  - intros oid w. apply to_nul_twice.
  - intros status type mech w. unfold toy_op, mret. by destruct (decide _).
  - intros oid. rewrite length_take. lia.
Defined.

Definition line (oid : bytes) : option bytes :=
  to_nul <$> (gp_fmt_status (Some oid) 1 2 (replicate 1024 Byte.xff) (toy_world [])).1.

Example line_short : line (String.list_byte_of_string "1.2.840") = Some (String.list_byte_of_string "(OID: 1.2.840) , ").
Proof. vm_compute. reflexivity. Qed.

(** one byte too many before the minor status *)
Example line_outside : (length <$> line (replicate 1014 Byte.x31), line (replicate 1015 Byte.x31)) = (Some 1023%nat, None).
Proof. vm_compute. reflexivity. Qed.

(** the mechanism alone fills the buffer: nothing is added *)
Example line_full : length <$> line (replicate 1016 Byte.x31) = Some 1023%nat.
Proof. vm_compute. reflexivity. Qed.

Lemma status_line_witness :
  match (gp_fmt_status (Some [Byte.x31]) 1 2 (replicate 1024 Byte.xff) (toy_world [])).1 with
  | Some b => to_nul b = String.list_byte_of_string "(OID: 1) , "
  | None => False
  end.
Proof.
  pose proof (status_line (TEXTS := toy_texts) (replicate 1024 Byte.xff) (Some [Byte.x31]) 1 2 (toy_world [])
    ltac:(vm_compute; reflexivity)) as H. unfold wp in H.
  destruct (gp_fmt_status _ _ _ _ _) as [[b|] w']; [by destruct H as (_ & H & _)|].
  destruct H as [H _]. simpl in H. lia.
Defined.
