(* ===== verification/Extract.v ===== *)
(** * A cache of the plugin, made one of the library

    src/extract_ccache.c: the ticket in a cache the plugin wrote is an encrypted credential;
    with the daemon's key it is decrypted, imported, and stored as it is.  Messages are not
    modelled, and a store of NULL is the empty one. *)

From S2P Require Import Prelude Xdr RpcXdr GssxXdr World Util Conv Outcome Crypt Creds Plugin Glue GppCreds.

(** [for (i = last_byte - pad; i <= last_byte; i++)]: the index where the loop stops; [n] bytes
    are left.  A plain char is signed. *)
Fixpoint same_bytes (data : bytes) (pad : Z) (i : Z) (n : nat) : option Z :=
  match n with
  | O => Some i
  | S n =>
      match data !! Z.to_nat i with
      | None => None
      | Some c => if negb (pad =? char_val c) then Some i else same_bytes data pad (i + 1) n
      end
  end.

(** the token that is imported; [None] for a byte that is read outside of the buffer *)
Definition extract_depad (data : bytes) : option bytes :=
  let last_byte := u32 (len data - 1) in
  match data !! Z.to_nat last_byte with
  | None => None
  | Some c =>
      let pad := byte_val c in
      if (ENC_MIN_PAD_LEN <=? pad) && (pad <? last_byte) then
        match same_bytes data pad (last_byte - pad) (Z.to_nat pad + 1) with
        | None => None
        | Some i => if i =? last_byte then Some (take (Z.to_nat (len data - pad)) data) else Some data
        end
      else Some data
  end.

Section extract.
Context {XL : XdrLib} {W : Type} {AL : Alloc W} {GL : GssLib W} {KL : KrbLib W} {CL : CacheLib W}.

Definition ccache_key : string := "ccache".

(** the value main returns: 0, or an error of the library; where GSSAPI fails it is the minor
    status, whatever that is *)
Definition extract_ccache (ccache_name : bytes) (dest_ccache : option bytes) : Cf W Z :=
  let* ret := glue_init_context in
  if negb (ret =? 0) then done ret else
  let* '(ret, ccache) := glue_cc_resolve ccache_name in
  if negb (ret =? 0) then done ret else
  let* '(ret, client) := krb5_cc_get_principal ccache in
  if negb (ret =? 0) then done ret else
  let* '(ret, server) := krb5_parse_name GPKRB_SRV_NAME in
  if negb (ret =? 0) then done ret else
  let* '(ret, ticket) := krb5_cc_retrieve_cred ccache (client, server) in
  if negb (ret =? 0) then done ret else
  match xdec xdr_gssx_cred ticket with
  | None => done EIO
  | Some (xcred, _) =>
      let* '(maj, min, handle) := gp_init_creds_handle None in
      if negb (maj =? 0) then done (s32 min) else
      match handle with
      | None => mret Fault
      | Some key =>
          let* ok := malloc in
          if negb ok then done ENOMEM else
          let '(ret, data) := krb5_c_decrypt key (cred_cred_handle_reference xcred) in
          if negb (ret =? 0) then done ret else
          match extract_depad data with
          | None => mret Fault
          | Some token =>
              let* '(maj, min, gcred) := gss_import_cred token in
              if negb (maj =? 0) then
                let* _ := gss_release_cred gcred in done (s32 min)
              else
                let store := match dest_ccache with Some d => [KV ccache_key (Some d)] | None => [] end in
                let* '(maj, min) := gss_store_cred_into gcred GSS_C_BOTH store in
                let* _ := gss_release_cred gcred in
                done (if negb (maj =? 0) then s32 min else 0)
          end
      end
  end.
End extract.

(** ** The padding stays *)

(** the loop looks at the byte before the padding too, and stops past the last byte when all
    are the same *)
Lemma same_bytes_end data pad i n j : same_bytes data pad i n = Some j ->
  i <= j <= i + Z.of_nat n /\ (j < i + Z.of_nat n -> exists c, data !! Z.to_nat j = Some c /\ pad <> char_val c).
Proof.
  revert i. induction n as [|n IH]; intros i; simpl.
  - intros [= <-]. split; lia.
  - destruct (data !! Z.to_nat i) as [c|] eqn:E; [|done]. destruct (Z.eqb_spec pad (char_val c)) as [He|He]; simpl.
    + intros H%IH. destruct H as [H1 H2]. split; [lia|]. intros Hj. apply H2. lia.
    + intros [= <-]. split; [lia|]. intros _. by exists c.
Qed.

Lemma same_bytes_in data pad i n : 0 <= i -> i + Z.of_nat n <= len data -> is_Some (same_bytes data pad i n).
Proof.
  revert i. induction n as [|n IH]; intros i Hi Hn; simpl; [by eexists|].
  destruct (lookup_lt_is_Some_2 data (Z.to_nat i)) as [c ->]; [unfold len in *; lia|].
  destruct (negb _); [by eexists|]. apply IH; lia.
Qed.

(** no byte is the same as a large one *)
Lemma same_bytes_negative data pad i n : 128 <= pad -> 0 <= i < len data -> (0 < n)%nat ->
  same_bytes data pad i n = Some i.
Proof.
  intros Hp Hi Hn. destruct n as [|n]; [lia|]. simpl.
  destruct (lookup_lt_is_Some_2 data (Z.to_nat i)) as [c ->]; [unfold len in *; lia|].
  assert (char_val c < 128).
  { destruct (Z.lt_ge_cases (byte_val c) 128) as [H|H]; [by rewrite char_val_small|].
    pose proof (char_val_large c H). lia. }
  by rewrite (proj2 (Z.eqb_neq _ _)) by lia.
Qed.

(** Whatever was decrypted is imported as it is: the padding that was added to a credential
    of the daemon is never taken away, though this is what the function means to do.  A
    credential that is empty is read outside of its buffer. *)
Theorem extract_depad_keeps data : len data < 2 ^ 32 ->
  extract_depad data = (if decide (data = []) then None else Some data).
Proof.
  intros Hlen. unfold extract_depad. case_decide as Hd; [by subst|].
  assert (H1 : 1 <= len data) by (unfold len; destruct data; simpl in *; [done|lia]).
  unfold u32. rewrite Z.mod_small by lia.
  destruct (lookup_lt_is_Some_2 data (Z.to_nat (len data - 1))) as [c Hc]; [unfold len in *; lia|].
  rewrite Hc. destruct ((ENC_MIN_PAD_LEN <=? byte_val c) && _) eqn:Hp; [|done].
  apply andb_true_iff in Hp as [Hp1%Z.leb_le Hp2%Z.ltb_lt]. unfold ENC_MIN_PAD_LEN in Hp1.
  destruct (same_bytes_in data (byte_val c) (len data - 1 - byte_val c) (Z.to_nat (byte_val c) + 1)) as [j Hj]; [lia|lia|].
  rewrite Hj. apply same_bytes_end in Hj as Hend. destruct Hend as [Hr Hlt].
  destruct (Z.eqb_spec j (len data - 1)) as [->|]; [|done]. exfalso.
  destruct Hlt as (c' & Hc' & Hne); [lia|]. rewrite Hc in Hc'. injection Hc' as <-.
  (* the last byte is not itself: it is negative, and then the loop has stopped before *)
  assert (Hbig : 128 <= byte_val c).
  { destruct (Z.lt_ge_cases (byte_val c) 128); [|lia]. by rewrite char_val_small in Hne. }
  rewrite (same_bytes_negative data (byte_val c)) in Hj by lia. injection Hj as Hj. lia.
Qed.

(** what the daemon itself takes for padding is imported *)
Example padding_kept :
  let blob := [Byte.x01; Byte.x02] ++ replicate 8 Byte.x08 in
  gp_depad blob = Some [Byte.x01; Byte.x02] /\ extract_depad blob = Some blob.
Proof. vm_compute. done. Qed.
