(* ===== verification/Start.v ===== *)
(** * The start of the daemon

    main of src/gssproxy.c, and what it calls of src/gp_init.c: init_server, init_done,
    init_event_loop, write_pid, init_event_fini, fini_server; gp_workers_init of
    src/gp_workers.c with its failures.

    A pipe joins the process that is started and the daemon it forks: the first ends when the
    daemon has written a byte, or is gone. *)

From S2P Require Import Prelude Xdr RpcProcess Socket Accept World Util Service Crypt Workers.
From S2P Require Import Plugin Glue GppCreds Outcome Trace Config Extract Reload Privs.

(** what is done with a signal *)
Inductive handler := break_loop | on_hup | VERTO_SIG_IGN.
Definition SIGHUP := 1.
Definition SIGINT := 2.
Definition SIGQUIT := 3.
Definition SIGPIPE := 13.
Definition SIGTERM := 15.
Definition EXIT_SUCCESS := 0.
Definition EXIT_FAILURE := 1.

(** system calls, pthreads, and the event loop; [bool] where it is asked whether they failed *)
Class DaemonLib (W : Type) := {
  sys_pipe : M W (option (Z * Z));
  sys_fork : M W Z;
  read_script : Z -> M W (list read_answer);
  write_script : Z -> M W (list write_answer);
  sys_close : Z -> M W unit;
  sys_setsid : M W bool;
  sys_chdir : string -> M W bool;
  sys_umask : Z -> M W unit;
  sys_setlocale : M W unit;
  sys_setenv : string -> string -> M W unit;
  sys_openlog : M W unit;
  sys_closelog : M W unit;
  pid_fopen : M W bool;
  pid_fprintf : M W Z;
  pid_fclose : M W Z;
  verto_default : M W bool;
  verto_add_signal : handler -> Z -> M W bool;
  verto_free : M W unit;
  verto_run : M W unit;
  pthread_mutex_init : M W Z;
  pthread_attr_init : M W Z;
  pthread_cond_init : M W Z;
  pthread_create : M W Z;
  pthread_join : M W unit;
  sys_pipe2 : M W (option (Z * Z));
}.

(** exit(3), a read or write that waits for ever, or what comes next *)
Inductive fate (A : Type) := Exits (code : Z) | Waits | Goes (a : A).
Arguments Exits {A}.
Arguments Waits {A}.
Arguments Goes {A}.

Section start.
Context {W : Type} {AL : Alloc W} {DL : DaemonLib W} {LL : LoopLib W}.

Definition fbind {A B} (m : M W (fate A)) (k : A -> M W (fate B)) : M W (fate B) :=
  let* r := m in match r with Exits code => mret (Exits code) | Waits => mret Waits | Goes a => k a end.

(** ** src/gp_init.c *)

(** what the process that was started does after the fork *)
Definition wait_ready {A} (pipefd : Z * Z) : M W (fate A) :=
  let* _ := sys_close pipefd.2 in
  let* script := read_script pipefd.1 in
  mret (match gp_safe_read script 1 [] with
        | Some (inr [_]) => Exits EXIT_SUCCESS
        | Some _ => Exits EXIT_FAILURE
        | None => Waits
        end).

(** the descriptor to write to, or -1 *)
Definition become_daemon (daemonize : bool) : M W (fate Z) :=
  if negb daemonize then mret (Goes (-1)) else
  let* p := sys_pipe in
  match p with
  | None => mret (Exits EXIT_FAILURE)
  | Some pipefd =>
      let* pid := sys_fork in
      if pid =? -1 then mret (Exits EXIT_FAILURE) else
      if negb (pid =? 0) then wait_ready pipefd else
      let* _ := sys_close pipefd.1 in
      let* ok := sys_setsid in
      mret (if ok : bool then Goes pipefd.2 else Exits EXIT_FAILURE)
  end.

Definition init_server (daemonize userproxy : bool) : M W (fate Z) :=
  fbind (become_daemon daemonize) (fun wait_fd =>
    if userproxy then mret (Goes wait_fd) else
    let* ok := sys_chdir "/" in
    if negb ok then mret (Exits EXIT_FAILURE) else
    let* _ := sys_umask 127 in
    let* _ := sys_setlocale in
    let* _ := sys_setenv "GSS_USE_PROXY" "NO" in
    let* _ := sys_openlog in
    mret (Goes wait_fd)).

Definition init_done (wait_fd : Z) : M W (fate unit) :=
  if wait_fd =? -1 then mret (Goes tt) else
  let* script := write_script wait_fd in
  match (gp_safe_write script [Byte.x00] 0).1 with
  | Some (inr 1%nat) => let* _ := sys_close wait_fd in mret (Goes tt)
  | Some _ => mret (Exits EXIT_FAILURE)
  | None => mret Waits
  end.

(** the signals in order, until one cannot be had *)
Fixpoint add_signals (sigs : list (handler * Z)) : M W bool :=
  match sigs with
  | [] => mret true
  | (h, s) :: sigs => let* ok := verto_add_signal h s in if ok : bool then add_signals sigs else mret false
  end.

Definition signals (userproxymode : bool) : list (handler * Z) :=
  [(break_loop, SIGINT); (break_loop, SIGTERM); (break_loop, SIGQUIT); (VERTO_SIG_IGN, SIGPIPE);
   (if userproxymode then VERTO_SIG_IGN else on_hup, SIGHUP)].

(** whether there is a loop after it *)
Definition init_event_loop (userproxymode : bool) : M W bool :=
  let* ok := verto_default in
  if negb ok then mret false else
  let* ok := add_signals (signals userproxymode) in
  if ok : bool then mret true else let* _ := verto_free in mret false.

Definition write_pid : M W unit :=
  let* ok := pid_fopen in
  if negb ok then mret tt else let* _ := pid_fprintf in let* _ := pid_fclose in mret tt.

Definition init_event_fini : M W Z :=
  let* ok := verto_add_timeout 1 in mret (if ok : bool then 0 else EXIT_FAILURE).

(** ** src/gp_workers.c *)

(** [n] more threads; the result, and how many there are *)
Fixpoint make_threads (n made : nat) : M W (Z * nat) :=
  match n with
  | O => mret (0, made)
  | S n =>
      let* ok := malloc in
      if negb ok then mret (-1, made) else
      let* ret := pthread_cond_init in
      if negb (ret =? 0) then mret (ret, made) else
      let* ret := pthread_mutex_init in
      if negb (ret =? 0) then mret (ret, made) else
      let* ret := pthread_create in
      if negb (ret =? 0) then mret (ret, made) else make_threads n (S made)
  end.

Fixpoint join_threads (n : nat) : M W unit :=
  match n with O => mret tt | S n => let* _ := pthread_join in join_threads n end.

(** gp_workers_free of threads that wait; both ends of a pipe that was not made are 0 *)
Definition free_workers (made : nat) (sig_pipe : Z * Z) : M W unit :=
  let* _ := join_threads made in
  let* _ := sys_close sig_pipe.1 in sys_close sig_pipe.2.

(** the threads, and their pipe *)
Definition gp_workers_start (num_workers : Z) : M W (Z + nat * (Z * Z)) :=
  let* ok := malloc in
  if negb ok then mret (inl ENOMEM) else
  let* ret := pthread_mutex_init in
  if negb (ret =? 0) then mret (inl ENOMEM) else
  let* ret := pthread_attr_init in
  if negb (ret =? 0) then mret (inl ret) else
  let* '(ret, made) := make_threads (num_threads num_workers) 0 in
  if negb (ret =? 0) then let* _ := free_workers made (0, 0) in mret (inl ret) else
  let* p := sys_pipe2 in
  match p with
  | None => let* _ := free_workers made (0, 0) in mret (inl (-1))
  | Some sig_pipe =>
      let* ok := verto_add_io sig_pipe.1 in
      if ok : bool then mret (inr (made, sig_pipe))
      else let* _ := free_workers made sig_pipe in mret (inl (-1))
  end.
End start.

(** ** src/gssproxy.c *)

(** the options, parsed; their messages apart *)
Record options := Options {
  opt_daemon : bool;
  opt_interactive : bool;
  opt_config_file : option string;
  opt_config_dir : option string;
  opt_config_socket : option string;
  opt_userproxy : bool;
  opt_version : bool;
  opt_debug : bool;
  opt_debug_level : Z;
  opt_syslog_status : bool;
  opt_idle_timeout : Z;
  opt_extract_ccache : option bytes;
  opt_dest_ccache : option bytes;
}.

(** how a process ends: with a status, or waiting, or in what C does not define - a null pointer
    read, a thread joined twice -, or in a loop *)
Inductive ended := Ends (code : Z) | Blocks | Crashes | Diverges.

Section main.
Context {XL : XdrLib} {W : Type} {AL : Alloc W} {GL : GssLib W} {KL : KrbLib W} {CL : CacheLib W}.
Context {DL : DaemonLib W} {LL : LoopLib W} {PL : ProcLib W} {INI : IniLib W} {SYS : ConfSys W}.
Context {TL : TraceLib W} {ST : Statics W}.
Variables (HAVE_SYSTEMD_DAEMON HAVE_CAP : bool) (GP_SOCKET_NAME PUBCONF_PATH : string) (fuel : nat).

(** the rest of main, or its end *)
Definition St (A : Type) : Type := M W (ended + A).
Definition sbind {A B} (m : St A) (k : A -> St B) : St B :=
  let* r := m in match r with inl e => mret (inl e) | inr a => k a end.
Definition ends {A} (code : Z) : St A := mret (inl (Ends code)).
Definition goes {A} (a : A) : St A := mret (inr a).

Definition of_fate {A} (m : M W (fate A)) : St A :=
  let* r := m in
  mret (match r with Exits code => inl (Ends code) | Waits => inl Blocks | Goes a => inr a end).
(** an error ends main with [code] *)
Definition of_outcome {A} (code : Z -> Z) (m : Cf W A) : St A :=
  let* r := m in
  mret (match r with
        | Done a => inr a | Failed ret => inl (Ends (code ret)) | Fault => inl Crashes | Loops => inl Diverges
        end).

(** a change of what is traced and logged; these functions return nothing *)
Definition debugging (m : Cf W unit) : St unit := of_outcome (fun ret => ret) m.

(** the options on messages *)
Definition debug_options (opts : options) : St unit :=
  sbind (debugging debug_check_env) (fun _ =>
  sbind (if opt_debug opts || (0 <? opt_debug_level opts)
         then debugging (debug_toggle (if opt_debug_level opts =? 0 then 1 else opt_debug_level opts))
         else goes tt) (fun _ =>
  if opt_interactive opts then debugging debug_set_krb5_tracing_fn else goes tt)).

Definition daemonize_option (opts : options) : Z :=
  if opt_interactive opts then 2 else if opt_daemon opts then 1 else 0.

Definition configure (opts : options) : St gp_config :=
  sbind (let* ok := malloc in if ok : bool then goes tt else ends EXIT_FAILURE) (fun _ =>
  of_outcome (fun _ => EXIT_FAILURE)
    (if opt_userproxy opts then userproxy_config (opt_config_socket opts) (daemonize_option opts)
     else read_config GP_SOCKET_NAME PUBCONF_PATH fuel (opt_config_file opts) (opt_config_dir opts)
            (opt_config_socket opts) (daemonize_option opts))).

(** the sockets of a server; an int is multiplied *)
Definition open_sockets (opts : options) (cfg : gp_config) : St server :=
  let s := fresh_server cfg (s32 (opt_idle_timeout opts * 1000)) in
  sbind (of_outcome (fun ret => ret)
    (if opt_userproxy opts then init_userproxy_socket HAVE_SYSTEMD_DAEMON s
     else init_sockets HAVE_SYSTEMD_DAEMON None s)) (fun '(ret, s) =>
  if negb (ret =? 0) then ends ret else
  if opt_userproxy opts then goes s else let* '(_, s) := init_proc_nfsd s in goes s).

(** up to the end of the process that was started *)
Definition prepare (opts : options) : St server :=
  sbind (configure opts) (fun cfg =>
  sbind (of_fate (init_server (cfg_daemonize cfg) (opt_userproxy opts))) (fun wait_fd =>
  sbind (if opt_interactive opts then goes tt else debugging debug_set_krb5_tracing_fn) (fun _ =>
  let* _ := if opt_userproxy opts then mret tt else write_pid in
  let* ok := init_event_loop (opt_userproxy opts) in
  if negb ok then ends 1 else
  sbind (open_sockets opts cfg) (fun s =>
  sbind (of_fate (init_done wait_fd)) (fun _ => goes s))))).

Definition fini_server : St unit :=
  sbind (debugging krb5_fini_tracing) (fun _ => let* _ := sys_closelog in goes tt).

(** the rest of the initialization: the server, its threads and their pipe *)
Definition finish (s : server) : St (server * nat * (Z * Z)) :=
  sbind (match cfg_proxy_user (g_config s) with
         | None => goes 0
         | Some user => of_outcome (fun ret => ret) (drop_privs HAVE_CAP fuel user)
         end) (fun ret =>
  if negb (ret =? 0) then ends EXIT_FAILURE else
  let* r := gp_workers_start (cfg_num_workers (g_config s)) in
  match r with
  | inl _ => ends EXIT_FAILURE
  | inr (made, sig_pipe) =>
      let* ret := init_event_fini in
      if negb (ret =? 0) then ends EXIT_FAILURE else goes (s, made, sig_pipe)
  end).

Definition start_up (opts : options) : St (server * nat * (Z * Z)) := sbind (prepare opts) finish.

(** [None]: the options are not valid.  The threads wait when the loop has ended. *)
Definition main (opts : option options) : M W ended :=
  let* r :=
    match opts with
    | None => ends 1
    | Some opts =>
        if opt_version opts then ends 0 else
        sbind (debug_options opts) (fun _ =>
        match opt_extract_ccache opts with
        | Some ccache => of_outcome (fun ret => ret) (extract_ccache ccache (opt_dest_ccache opts))
        | None =>
            sbind (if opt_syslog_status opts then debugging (syslog_status true) else goes tt) (fun _ =>
            if opt_daemon opts && opt_interactive opts then ends 0 else
            sbind (start_up opts) (fun '(_, made, sig_pipe) =>
            let* _ := verto_run in
            let* _ := verto_free in
            let* _ := free_workers made sig_pipe in
            sbind fini_server (fun _ => goes 0)))
        end)
    end in
  mret (match r with inl e => e | inr ret => Ends ret end).
End main.
