(* ===== verification/StartProps.v ===== *)
(** * A daemon that serves has dropped its privileges

    What is true of the process and of its sockets when main of Start.v comes to the event
    loop; and a daemon that is started. *)

From S2P Require Import Prelude Xdr RpcProcess Socket Accept World Util Service Crypt Workers Outcome Trace Config.
From S2P Require Import ConfigProps Plugin Glue GppCreds Reload ReloadProps HupProps Privs PrivsProps Extract.
From S2P Require Import Start.

(** ** The end of the initialization *)

(** A thread has the privileges of the one that makes it.  What becomes of those that are there
    when the main one drops its own is not said, only that there are as many of them.  Pipes,
    events and memory are not privileges. *)
Class Threads (W : Type) {AL : Alloc W} {DL : DaemonLib W} {LL : LoopLib W} {PL : ProcLib W}
    {LAWS : ProcLaws W} := {
  threads_of : W -> list proc;
  create_law w : wp pthread_create (fun r w' => proc_of w' = proc_of w /\
    threads_of w' = if r =? 0 then proc_of w :: threads_of w else threads_of w) w;
  malloc_frame : preserves (fun w => (proc_of w, threads_of w)) (malloc (W := W));
  mutex_frame : preserves (fun w => (proc_of w, threads_of w)) pthread_mutex_init;
  attr_frame : preserves (fun w => (proc_of w, threads_of w)) pthread_attr_init;
  cond_frame : preserves (fun w => (proc_of w, threads_of w)) pthread_cond_init;
  pipe2_frame : preserves (fun w => (proc_of w, threads_of w)) sys_pipe2;
  add_io_frame fd : preserves (fun w => (proc_of w, threads_of w)) (verto_add_io fd);
  add_timeout_frame ms : preserves (fun w => (proc_of w, threads_of w)) (verto_add_timeout ms);
  prctl_threads b : preserves (fun w => length (threads_of w)) (prctl_keepcaps b);
  getpwnam_threads n : preserves (fun w => length (threads_of w)) (getpwnam_r n);
  initgroups_threads n g : preserves (fun w => length (threads_of w)) (initgroups n g);
  setgid_threads g : preserves (fun w => length (threads_of w)) (setgid g);
  setuid_threads u : preserves (fun w => length (threads_of w)) (setuid u);
  get_proc_threads : preserves (fun w => length (threads_of w)) cap_get_proc;
  cap_init_threads : preserves (fun w => length (threads_of w)) cap_init;
  set_flag_threads c f cap : preserves (fun w => length (threads_of w)) (cap_set_flag c f cap);
  set_proc_threads c : preserves (fun w => length (threads_of w)) (cap_set_proc c);
  get_bound_threads cap : preserves (fun w => length (threads_of w)) (cap_get_bound cap);
  drop_bound_threads cap : preserves (fun w => length (threads_of w)) (cap_drop_bound cap);
  cap_free_threads c : preserves (fun w => length (threads_of w)) (cap_free c);
}.

#[local] Create HintDb threads.
#[local] Hint Resolve prctl_threads getpwnam_threads initgroups_threads setgid_threads setuid_threads
  get_proc_threads cap_init_threads set_flag_threads set_proc_threads get_bound_threads drop_bound_threads
  cap_free_threads : threads.

Section finish.
Context {W : Type} {AL : Alloc W} {DL : DaemonLib W} {LL : LoopLib W} {PL : ProcLib W} {LAWS : ProcLaws W}.
Context {THR : Threads W}.

(** ** To drop privileges makes no thread *)

Ltac keeps := repeat first
  [ apply preserves_ret | apply preserves_bind; [|intros ?] | progress eauto with threads
  | match goal with |- preserves _ (match ?x with _ => _ end) => destruct x end
  | match goal with |- preserves _ (let '_ := ?x in _) => destruct x end ].

Definition thread_count (w : W) : nat := length (threads_of w).

Lemma free_caps_keeps caps ret : preserves thread_count (free_caps caps ret).
Proof. unfold free_caps, done. keeps. Qed.

Lemma drop_bound_keeps fuel cap : preserves thread_count (drop_bound fuel cap).
Proof.
  revert cap. induction fuel as [|fuel IH]; intros cap; cbn [drop_bound]; unfold CAP_IS_SUPPORTED, done; [apply preserves_ret|].
  keeps.
Qed.

#[local] Hint Resolve free_caps_keeps drop_bound_keeps : threads.

Lemma drop_privs_keeps b fuel user : preserves thread_count (drop_privs b fuel user).
Proof.
  unfold drop_privs, drop_caps, clear_bound_caps, CAP_IS_SUPPORTED, tbind, done. keeps.
Qed.

(** ** The threads *)

Definition view (w : W) : proc * list proc := (proc_of w, threads_of w).

(** one call that may fail, then the rest *)
Lemma wp_next {A B} (m : M W A) (k : A -> M W B) Q w : preserves view m ->
  (forall a w', view w' = view w -> wp (k a) Q w') -> wp (let* a := m in k a) Q w.
Proof.
  intros H Hk. apply wp_bind. specialize (H w). unfold wp. destruct (m w) as [a w'] eqn:E.
  simpl in H. exact (Hk a w' H).
Qed.

(** threads that have the privileges of the process, and those that were there *)
Definition threads_ok (made : nat) (w w' : W) : Prop :=
  proc_of w' = proc_of w /\ threads_of w' = replicate made (proc_of w) ++ threads_of w.

Lemma threads_view made w w1 w2 : view w2 = view w1 -> threads_ok made w w1 -> threads_ok made w w2.
Proof. intros [= E1 E2] [H1 H2]. split; congruence. Qed.

Lemma make_threads_ok n made w w0 : threads_ok made w0 w ->
  wp (make_threads n made) (fun r w' => r.1 = 0 -> r.2 = (n + made)%nat /\ threads_ok r.2 w0 w') w.
Proof.
  revert made w. induction n as [|n IH]; intros made w H; cbn [make_threads]; [by apply wp_ret|].
  apply (wp_next _ _ _ _ malloc_frame). intros ok w1 E1. destruct ok; simpl negb; cbv iota; [|by apply wp_ret].
  apply (wp_next _ _ _ _ cond_frame). intros r w2 E2.
  destruct (Z.eqb_spec r 0); simpl negb; cbv iota; [|by apply wp_ret; simpl; lia].
  apply (wp_next _ _ _ _ mutex_frame). intros r' w3 E3.
  destruct (Z.eqb_spec r' 0); simpl negb; cbv iota; [|by apply wp_ret; simpl; lia].
  assert (H3 : threads_ok made w0 w3) by (by repeat (eapply threads_view; [eassumption|])).
  apply wp_bind. eapply wp_conseq; [apply create_law|]. intros r'' w4 [E4 T4].
  destruct (Z.eqb_spec r'' 0); simpl negb; cbv iota; [|by apply wp_ret; simpl; lia].
  eapply wp_conseq; [apply (IH (S made))|].
  - destruct H3 as [P3 T3]. split; [congruence|]. by rewrite T4, T3, P3.
  - intros p w5 H5 Hp. destruct (H5 Hp) as [-> ?]. split; [lia|done].
Qed.

(** when gp_workers_init returns 0, it has made all the threads *)
Lemma workers_started n w : wp (gp_workers_start n) (fun r w' =>
  match r with inr (made, _) => made = num_threads n /\ threads_ok made w w' | inl _ => True end) w.
Proof.
  unfold gp_workers_start.
  apply (wp_next _ _ _ _ malloc_frame). intros ok w1 E1. destruct ok; simpl negb; cbv iota; [|by apply wp_ret].
  apply (wp_next _ _ _ _ mutex_frame). intros r w2 E2. destruct (negb (r =? 0)); [by apply wp_ret|].
  apply (wp_next _ _ _ _ attr_frame). intros r' w3 E3. destruct (negb (r' =? 0)); [by apply wp_ret|].
  assert (H3 : threads_ok 0 w w3) by (by repeat (eapply threads_view; [eassumption|])).
  apply wp_bind. eapply wp_conseq; [by apply make_threads_ok|]. intros [ret made] w4 H4. cbv beta iota.
  destruct (Z.eqb_spec ret 0) as [->|]; simpl negb; cbv iota; [|by apply wp_bind, wp_any; intros; apply wp_ret].
  destruct (H4 eq_refl) as [Hmade H4']. simpl in Hmade, H4'.
  apply (wp_next _ _ _ _ pipe2_frame). intros [p|] w5 E5; [|by apply wp_bind, wp_any; intros; apply wp_ret].
  apply (wp_next _ _ _ _ (add_io_frame _)). intros [] w6 E6; [|by apply wp_bind, wp_any; intros; apply wp_ret].
  apply wp_ret. split; [lia|]. by repeat (eapply threads_view; [eassumption|]).
Qed.

(** what finish promises, where [k] threads were there *)
Definition ready (HAVE_CAP : bool) (k : nat) (s : server) (r : ended + server * nat * (Z * Z)) (w : W) : Prop :=
  match r with
  | inr (s', made, _) => s' = s /\ made = num_threads (cfg_num_workers (g_config s)) /\
      (exists others, length others = k /\ threads_of w = replicate made (proc_of w) ++ others) /\
      (forall user, cfg_proxy_user (g_config s) = Some user -> dropped_to HAVE_CAP user (proc_of w))
  | inl _ => True
  end.

Lemma finish_ready HAVE_CAP fuel s w : (cap_count < fuel)%nat -> {[CAP_SETUID; CAP_SETGID]} ⊆ p_effective (proc_of w) ->
  wp (finish HAVE_CAP fuel s) (ready HAVE_CAP (length (threads_of w)) s) w.
Proof.
  intros Hf Hcap. unfold finish, sbind. apply wp_bind.
  eapply (wp_conseq _ (fun r w' => length (threads_of w') = length (threads_of w) /\ (r = inr 0 ->
    forall user, cfg_proxy_user (g_config s) = Some user -> dropped_to HAVE_CAP user (proc_of w')))).
  { destruct (cfg_proxy_user (g_config s)) as [user|]; [|by apply wp_ret].
    pose proof (drop_privs_keeps HAVE_CAP fuel user w) as Hk. pose proof (drop_privs_wp HAVE_CAP fuel user w Hf Hcap) as H.
    apply wp_bind. unfold wp in H |- *. destruct (drop_privs HAVE_CAP fuel user w) as [r w1]. simpl in *.
    split; [exact Hk|]. destruct H as [(ret & -> & H)|[-> _]]; [|done]. intros [= ->] user' [= <-]. by apply H. }
  intros [e|ret] w1 [Hn1 H1]; [by apply wp_ret|].
  destruct (Z.eqb_spec ret 0) as [->|]; simpl negb; cbv iota; [|by apply wp_ret].
  specialize (H1 eq_refl). apply wp_bind. eapply wp_conseq; [apply workers_started|].
  intros [e|[made p]] w2 H2; [by apply wp_ret|]. destruct H2 as (Hmade & E2 & T2).
  unfold init_event_fini. apply wp_bind, (wp_next _ _ _ _ (add_timeout_frame _)). intros ok w3 [= E3 T3]. apply wp_ret.
  destruct ok; simpl; [|by apply wp_ret]. apply wp_ret. simpl. split_and!; [done|done| |].
  { exists (threads_of w1). split; [done|]. congruence. }
  intros user Hu. rewrite E3, E2. by apply H1.
Qed.
End finish.

(** ** The whole start *)

Section start.
Context {XL : XdrLib} {W : Type} {AL : Alloc W} {GL : GssLib W} {KL : KrbLib W} {CL : CacheLib W}.
Context {DL : DaemonLib W} {LL : LoopLib W} {PL : ProcLib W} {INI : IniLib W} {SYS : ConfSys W}.
Context {TL : TraceLib W} {ST : Statics W} {LAWS : ProcLaws W} {THR : Threads W}.
Variables (HAVE_SYSTEMD_DAEMON : bool) (GP_SOCKET_NAME PUBCONF_PATH : string) (fuel : nat).

(** a result that goes on has the property *)
Definition on_going {A} (P : A -> Prop) (r : ended + A) (_ : W) : Prop :=
  match r with inr a => P a | inl _ => True end.

Lemma sbind_going {A B} (m : St (W := W) A) (k : A -> St (W := W) B) P Q w : wp m (on_going P) w ->
  (forall a w', P a -> wp (k a) (on_going Q) w') -> wp (sbind m k) (on_going Q) w.
Proof.
  intros Hm Hk. apply wp_bind. eapply wp_conseq; [exact Hm|]. intros [e|a] w' Ha; [by apply wp_ret|]. apply Hk, Ha.
Qed.

Lemma any_going {A} (m : St (W := W) A) w : wp m (on_going (fun _ => True)) w.
Proof. apply wp_any. by intros [] ?. Qed.

Lemma configure_socket opts w : opt_userproxy opts = false ->
  wp (configure GP_SOCKET_NAME PUBCONF_PATH fuel opts)
    (on_going (fun cfg => cfg_socket_name cfg = Some (default_socket GP_SOCKET_NAME (opt_config_socket opts)))) w.
Proof.
  intros Hu. unfold configure. rewrite Hu. eapply sbind_going; [apply any_going|]. intros [] w1 _.
  pose proof (read_config_socket GP_SOCKET_NAME PUBCONF_PATH (opt_config_file opts) (opt_config_dir opts)
    (opt_config_socket opts) (daemonize_option opts) fuel w1) as H.
  unfold of_outcome. apply wp_bind. unfold wp. destruct (read_config _ _ _ _ _ _ _ w1) as [[] ?]; done.
Qed.

Lemma open_sockets_serving opts cfg w : opt_userproxy opts = false ->
  cfg_socket_name cfg = Some (default_socket GP_SOCKET_NAME (opt_config_socket opts)) ->
  wp (open_sockets HAVE_SYSTEMD_DAEMON opts cfg) (on_going (fun s =>
    g_config s = cfg /\ serving GP_SOCKET_NAME (opt_config_socket opts) s)) w.
Proof.
  intros Hu Hn. unfold open_sockets. rewrite Hu.
  eapply (sbind_going _ _ (fun p => p.1 = 0 -> sockets_ok p.2 /\ g_config p.2 = cfg)).
  - apply wp_bind. eapply wp_conseq; [by eapply start_sockets|]. intros r w1 (ret & s & -> & _ & H). apply wp_ret. exact H.
  - intros [ret s] w1 H. destruct (Z.eqb_spec ret 0) as [->|]; simpl negb; cbv iota; [|by apply wp_ret].
    destruct (H eq_refl) as [Hok Hc]. apply wp_bind. eapply wp_conseq; [apply init_proc_nfsd_sockets|].
    intros [r s'] w2 Hs. apply wp_ret. simpl in *. pose proof Hs as (Ec & _). split; [congruence|].
    split; [by eapply same_sockets_ok|]. by rewrite Ec, Hc.
Qed.

Lemma prepare_serving opts w : opt_userproxy opts = false ->
  wp (prepare HAVE_SYSTEMD_DAEMON GP_SOCKET_NAME PUBCONF_PATH fuel opts)
    (on_going (serving GP_SOCKET_NAME (opt_config_socket opts))) w.
Proof.
  intros Hu. eapply sbind_going; [by apply configure_socket|]. intros cfg w1 Hn.
  eapply sbind_going; [apply any_going|]. intros wait_fd w2 _.
  eapply sbind_going; [apply any_going|]. intros _ w2' _. rewrite Hu.
  apply wp_bind, wp_any. intros _ w3. apply wp_bind, wp_any. intros ok w4.
  destruct ok; simpl negb; cbv iota; [|by apply wp_ret].
  eapply sbind_going; [by apply open_sockets_serving|]. intros s w5 [_ Hs].
  eapply sbind_going; [apply any_going|]. intros _ w6 _. by apply wp_ret.
Qed.

(** C2. The system's daemon, one that is not run as --userproxy.  When its main comes to the
    event loop, the sockets of the configuration are there and no other, all the threads that
    serve are made, and a daemon that is to run as a user is that user in each of them, in a
    build with libcap with one capability.  The process must have the right to change its user
    and its groups, CAP_SETUID and CAP_SETGID, when it comes to drop them; the threads that were
    made before that, the one that traces or none, are there as well. *)
Theorem serves_unprivileged HAVE_CAP opts k w : opt_userproxy opts = false -> (cap_count < fuel)%nat ->
  wp (prepare HAVE_SYSTEMD_DAEMON GP_SOCKET_NAME PUBCONF_PATH fuel opts)
    (fun _ w' => {[CAP_SETUID; CAP_SETGID]} ⊆ p_effective (proc_of w') /\ length (threads_of w') = k) w ->
  wp (start_up HAVE_SYSTEMD_DAEMON HAVE_CAP GP_SOCKET_NAME PUBCONF_PATH fuel opts) (fun r w' => match r with
    | inr (s, made, _) => serving GP_SOCKET_NAME (opt_config_socket opts) s /\
        made = num_threads (cfg_num_workers (g_config s)) /\
        length (threads_of w') = (made + k)%nat /\
        (forall user, cfg_proxy_user (g_config s) = Some user ->
           Forall (dropped_to HAVE_CAP user) (proc_of w' :: take made (threads_of w')))
    | inl _ => True
    end) w.
Proof.
  intros Hu Hf Hcap. pose proof (prepare_serving opts w Hu) as Hs. unfold start_up, sbind. apply wp_bind.
  unfold wp in Hcap, Hs. unfold wp at 1. destruct (prepare _ _ _ _ _ w) as [[e|s] w1]; [by apply wp_ret|].
  destruct Hcap as [Hcap <-]. eapply wp_conseq; [by apply finish_ready|]. intros [e|[[s' made] p]] w2; [done|].
  intros (-> & Hmade & (others & Hk & Ht) & Hd). rewrite Ht, <- Hk. split_and!; [done|done|by rewrite length_app, length_replicate|].
  intros user Huser. constructor; [by apply Hd|]. rewrite (take_app_length' _ _ made) by by rewrite length_replicate.
  apply Forall_replicate. by apply Hd.
Qed.
End start.

(** ** The process that was started *)

(** it reports success only for a daemon that has written its byte *)
Lemma wait_ready_success {W} {DL : DaemonLib W} (pipefd : Z * Z) (w : W) : wp (wait_ready (A := Z) pipefd) (fun r _ =>
  match r with Exits code => code = EXIT_SUCCESS \/ code = EXIT_FAILURE | Waits => True | Goes _ => False end) w.
Proof.
  unfold wait_ready. apply wp_bind, wp_any. intros _ w1. apply wp_bind, wp_any. intros script w2. apply wp_ret.
  destruct (gp_safe_read script 1 []) as [[|[|b []]]|]; auto.
Qed.

(** ** A daemon, started

    The library of configurations of ConfigProps.v and the kernel of PrivsProps.v, side
    by side, and the rest of what main calls, which succeeds. *)

Definition box : Type := ini * proc * list proc.
Definition on_ini {A} (m : M ini A) : M box A := fun w => let '(a, i) := m w.1.1 in (a, (i, w.1.2, w.2)).
Definition on_proc {A} (m : M proc A) : M box A := fun w => let '(a, p) := m w.1.2 in (a, (w.1.1, p, w.2)).

#[local] Instance box_alloc : Alloc box := always_mem.
#[local] Instance box_krb : KrbLib box := toy_krb.

#[local] Instance box_ini : IniLib box := {|
  ini_cfgobj := ini_obj; ini_cfgfile := unit; value_obj := string; ref_array := unit;
  INI_STOP_ON_ANY := 0; INI_PARSE_NOWRAP := 1; INI_MS_MERGE := 0; INI_MV1S_ALLOW := 2;
  INI_MV2S_ALLOW := 4; INI_MS_DETECT := 8; INI_MS_PRESERVE := 16;
  ini_config_create := on_ini ini_config_create;
  ini_config_destroy c := on_ini (ini_config_destroy c);
  ini_config_file_open f := on_ini (ini_config_file_open f);
  ini_config_file_destroy f := on_ini (ini_config_file_destroy f);
  ini_config_parse f a b c d := on_ini (ini_config_parse f a b c d);
  ini_config_augment a b c d e f g h := on_ini (ini_config_augment a b c d e f g h);
  ref_array_destroy l := on_ini (ref_array_destroy l);
  ini_get_config_valueobj a b c d := on_ini (ini_get_config_valueobj a b c d);
  ini_get_const_string_config_value v := on_ini (ini_get_const_string_config_value v);
  ini_get_int_config_value a b c := on_ini (ini_get_int_config_value a b c);
  ini_get_section_list c := on_ini (ini_get_section_list c);
|}.

#[local] Instance box_sys : ConfSys box := {|
  getpwnam n := on_ini (getpwnam n);
  SELINUX_context_new s := on_ini (SELINUX_context_new s);
  secure_getenv n := on_ini (secure_getenv n);
  sys_mkdir d m := on_ini (sys_mkdir d m);
  sys_geteuid := on_ini sys_geteuid;
|}.

#[local] Instance box_loop : LoopLib box := {|
  listen_answers n := on_ini (listen_answers n);
  activation_answers := on_ini activation_answers;
  verto_add_io fd := mret true; verto_add_timeout ms := mret true;
  poke_nfsd := on_ini poke_nfsd;
|}.

#[local] Instance box_proc : ProcLib box := {|
  cap_t := gset Z * gset Z * gset Z;
  prctl_keepcaps b := on_proc (prctl_keepcaps b);
  getpwnam_r n := on_proc (getpwnam_r n);
  initgroups n g := on_proc (initgroups n g);
  setgid g := on_proc (setgid g); setuid u := on_proc (setuid u);
  cap_get_proc := on_proc cap_get_proc; cap_init := on_proc cap_init;
  cap_set_flag c f cap := on_proc (cap_set_flag c f cap);
  cap_set_proc c := on_proc (cap_set_proc c);
  cap_get_bound cap := on_proc (cap_get_bound cap);
  cap_drop_bound cap := on_proc (cap_drop_bound cap);
  cap_free c := on_proc (cap_free c);
|}.

#[local] Instance box_daemon : DaemonLib box := {|
  sys_pipe := mret (Some (3, 4)); sys_fork := mret 0;
  read_script _ := mret [RData [Byte.x00]]; write_script _ := mret [WTook 1];
  sys_close _ := mret tt; sys_setsid := mret true; sys_chdir _ := mret true; sys_umask _ := mret tt;
  sys_setlocale := mret tt; sys_setenv _ _ := mret tt; sys_openlog := mret tt; sys_closelog := mret tt;
  pid_fopen := mret true; pid_fprintf := mret 4; pid_fclose := mret 0;
  verto_default := mret true; verto_add_signal _ _ := mret true; verto_free := mret tt; verto_run := mret tt;
  pthread_mutex_init := mret 0; pthread_attr_init := mret 0; pthread_cond_init := mret 0;
  pthread_create w := (0, (w.1, supported w.1.2 :: w.2)); pthread_join := mret tt; sys_pipe2 := mret (Some (9, 10));
|}.

Lemma on_proc_wp {A} (m : M proc A) (Q : A -> proc -> Prop) w : wp m Q w.1.2 -> wp (on_proc m) (fun a w' => Q a w'.1.2) w.
Proof. unfold wp, on_proc. by destruct (m w.1.2). Qed.

#[local] Instance box_laws : ProcLaws box.
Proof.
  refine {| proc_of w := supported w.1.2; user_db := users; group_db _ gid := [gid]; cap_count := 41; caps_of c := c |}.
  - intros b w. exact (on_proc_wp _ _ w (prctl_law b w.1.2)).
  - intros n w. exact (on_proc_wp _ _ w (getpwnam_r_law n w.1.2)).
  - intros n g w. exact (on_proc_wp _ _ w (initgroups_law n g w.1.2)).
  - intros g w H. exact (on_proc_wp _ _ w (setgid_law g w.1.2 H)).
  - intros u w H. exact (on_proc_wp _ _ w (setuid_law u w.1.2 H)).
  - intros w. exact (on_proc_wp _ _ w (cap_get_proc_law w.1.2)).
  - intros w. exact (on_proc_wp _ _ w (cap_init_law w.1.2)).
  - intros c f cap w. exact (on_proc_wp _ _ w (@cap_set_flag_law proc _ kernel_laws c f cap w.1.2)).
  - intros c w. exact (on_proc_wp _ _ w (@cap_set_proc_law proc _ kernel_laws c w.1.2)).
  - intros cap w. exact (on_proc_wp _ _ w (cap_get_bound_law cap w.1.2)).
  - intros cap w. exact (on_proc_wp _ _ w (cap_drop_bound_law cap w.1.2)).
  - intros c w. exact (on_proc_wp _ _ w (@cap_free_law proc _ kernel_laws c w.1.2)).
  - intros w cap. exact (@bounding_law proc _ kernel_laws w.1.2 cap).
Defined.

Lemma on_proc_threads {A} (m : M proc A) : preserves (fun w : box => length w.2) (on_proc m).
Proof. intros w. unfold on_proc. by destruct (m w.1.2). Qed.

#[local] Instance box_statics : Statics box :=
  {| statics w := statics w.1.1; set_statics s w := (set_statics s w.1.1, w.1.2, w.2) |}.
#[local] Instance box_trace : TraceLib box := {|
  trace_calloc := trace_calloc (TraceLib := trace_system); trace_name := trace_name (TraceLib := trace_system);
  trace_unlink := trace_unlink (TraceLib := trace_system); trace_mkfifo := trace_mkfifo (TraceLib := trace_system);
  trace_open := trace_open (TraceLib := trace_system); trace_close := trace_close (TraceLib := trace_system);
  trace_attr_init := trace_attr_init (TraceLib := trace_system);
  trace_attr_setdetachstate := trace_attr_setdetachstate (TraceLib := trace_system);
  trace_attr_destroy := trace_attr_destroy (TraceLib := trace_system);
  trace_create := pthread_create; trace_cancel_join := trace_cancel_join (TraceLib := trace_system);
|}.

#[local] Instance box_threads : Threads box.
Proof. refine {| threads_of w := w.2 |}; try done; intros; apply on_proc_threads. Defined.

(** the level of the messages is in the configuration: tracing needs 3 *)
Definition with_user (level : string) : ini_obj :=
  ("gssproxy", [("run_as_user", ["gssproxy"]); ("worker threads", ["3"]); ("debug_level", [level])]) :: before.

Definition plain : options := Options false false None None None false false false 0 false 1000 None None.

Definition from (level : string) : box := (Ini [] (with_user level), root_proc, []).
Definition started_up (level : string) : (ended + server * nat * (Z * Z)) * box :=
  start_up false true "/run/default.sock" "/etc/gssproxy" 60 plain (from level).

Definition went_on {A} (r : (ended + A) * box) : bool := match r.1 with inr _ => true | inl _ => false end.

Example serves : match started_up "1" with
  | (inr (s, made, _), w) => (live s).1.2 = Some 0%nat /\ made = 3%nat /\ w = (w.1.1, dropped, replicate 3 dropped) /\
      tr_env (statics w) = None
  | _ => False
  end.
Proof. vm_compute. done. Qed.

(** the thread that traces is made before the privileges are dropped *)
Example serves_traced : match started_up "3" with
  | (inr (s, made, _), w) => w = (w.1.1, dropped, replicate 3 dropped ++ [supported root_proc]) /\
      tr_env (statics w) = Some "/tmp/krb5.tracing.7"
  | _ => False
  end.
Proof. vm_compute. done. Qed.

(** ** The options on messages do not outlive the configuration *)

Definition verbose : options := Options false true None None None false false true 2 false 1000 None None.
Definition level_after (m : St (W := box) unit) (w : box) : Z := gp_debug (statics (m w).2).

(** -d --debug-level 2: the file, which says nothing of it, sets it to 0 *)
Example option_undone :
  let m := debug_options verbose in
  let c := sbind m (fun _ => sbind (configure "/run/default.sock" "/etc/gssproxy" 60 verbose) (fun _ => goes tt)) in
  let w := (Ini [] before, root_proc, []) in
  (level_after m w, level_after c w, went_on (c w)) = (2, 0, true).
Proof. vm_compute. reflexivity. Qed.

(** ** The theorem, applied *)

Example prepare_keeps :
  bool_decide ({[CAP_SETUID; CAP_SETGID]} ⊆ p_effective (proc_of
    (prepare (W := box) false "/run/default.sock" "/etc/gssproxy" 60 plain (from "3")).2)) = true.
Proof. vm_compute. reflexivity. Qed.

Example prepare_threads : length (threads_of
  (prepare (W := box) false "/run/default.sock" "/etc/gssproxy" 60 plain (from "3")).2) = 1%nat.
Proof. vm_compute. reflexivity. Qed.

Lemma wp_final {A} (m : M box A) w (P : box -> Prop) : P (m w).2 -> wp m (fun _ w' => P w') w.
Proof. unfold wp. by destruct (m w). Qed.

Example start_goes :
  went_on (start_up false true "/run/default.sock" "/etc/gssproxy" 60 plain (from "3")) = true.
Proof. vm_compute. reflexivity. Qed.

(** a start that went on, and what is known of it *)
Lemma went_on_known (m : M box (ended + server * nat * (Z * Z))) w (Q : server -> nat -> box -> Prop) :
  went_on (m w) = true ->
  wp m (fun r w' => match r with inr (s, made, _) => Q s made w' | inl _ => True end) w ->
  exists s made p w', m w = (inr (s, made, p), w') /\ Q s made w'.
Proof. unfold wp, went_on. destruct (m w) as [[e|[[s made] p]] w']; [done|]. intros _ H. by exists s, made, p, w'. Qed.

Lemma serves_unprivileged_witness : exists s made p w',
  start_up false true "/run/default.sock" "/etc/gssproxy" 60 plain (from "3") = (inr (s, made, p), w') /\ serving "/run/default.sock" None s /\
  made = num_threads (cfg_num_workers (g_config s)) /\ length (threads_of w') = (made + 1)%nat /\
  (forall user, cfg_proxy_user (g_config s) = Some user ->
     Forall (dropped_to true user) (proc_of w' :: take made (threads_of w'))).
Proof.
  refine (went_on_known (start_up false true "/run/default.sock" "/etc/gssproxy" 60 plain) (from "3")
    (fun s made w' => serving "/run/default.sock" None s /\
       made = num_threads (cfg_num_workers (g_config s)) /\ length (threads_of w') = (made + 1)%nat /\
       (forall user, cfg_proxy_user (g_config s) = Some user ->
          Forall (dropped_to true user) (proc_of w' :: take made (threads_of w')))) start_goes _).
  refine (serves_unprivileged (LAWS := box_laws) (THR := box_threads) false "/run/default.sock" "/etc/gssproxy" 60 true plain 1
    (from "3") eq_refl _ _); [simpl; lia|].
  refine (wp_final _ _ (fun w' => {[CAP_SETUID; CAP_SETGID]} ⊆ p_effective (proc_of w') /\ length (threads_of w') = 1%nat)
    (conj _ prepare_threads)).
  exact (bool_decide_eq_true_1 _ prepare_keeps).
Defined.
