(* ===== verification/Dump.v ===== *)
(** * Messages, dumped

    src/gp_rpc_debug.c: the text that is written for each message when the level of the
    messages of the daemon is high enough.  A function is the text it writes. *)

From S2P Require Import Prelude Xdr RpcXdr GssxXdr World Conv.

Definition GP_RPC_DEBUG_LVL := 2.
Definition GP_RPC_DEBUG_FULL := 3.

Definition txt (s : string) : bytes := String.list_byte_of_string s.
Definition newline : bytes := [Byte.x0a].

(** isalnum(3) *)
Definition isalnum (c : Z) : bool :=
  (48 <=? c) && (c <=? 57) || (65 <=? c) && (c <=? 90) || (97 <=? c) && (c <=? 122).

Definition hex_digit (n : Z) : Byte.byte := byte_of (if n <? 10 then 48 + n else 87 + n).

(** [%x] of an unsigned int: [n] digits at most, without leading zeros *)
Fixpoint hex_digits (n : nat) (z : Z) : bytes :=
  match n with
  | O => []
  | S n => (if z <? 16 then [] else hex_digits n (z / 16)) ++ [hex_digit (z mod 16)]
  end.
Definition print_hex (z : Z) : bytes := hex_digits 8 (u32 z).

(** [%llu], [%u] *)
Definition print_unsigned (z : Z) : bytes := txt (pretty (Z.to_N z)).
(** ["%d "] of a truth value *)
Definition print_bool (b : bool) : bytes := txt (if b then "1 " else "0 ").

Definition each {A} (f : A -> bytes) (l : list A) : bytes := concat (f <$> l).
Definition or_null {A} (f : A -> bytes) (x : option A) : bytes :=
  match x with Some a => f a | None => txt "<Null> " end.

Section dump.
Variable gp_debug : Z.
(** gss_oid_to_str, [None] for an error *)
Variable gss_oid_to_str : bytes -> option bytes.

(** ["%.*s" ] in quotes *)
Definition gpdbg_utf8string (x : bytes) : bytes := concat [[Byte.x22]; to_nul x; [Byte.x22]; txt " "].

(** a plain char is signed, so a large byte has eight digits *)
Definition gpdbg_octet_string (x : bytes) : bytes :=
  if (gp_debug <? GP_RPC_DEBUG_FULL) && (16 <? len x) then
    concat [txt "[ "; (fun c => if isalnum (char_val c) then c else Byte.x2e) <$> take 16 x; txt "... ] "]
  else concat [txt "[ "; each (fun c => print_hex (char_val c)) x; txt " ] "].

Definition gpdbg_gssx_uint64 (x : Z) : bytes := print_unsigned x ++ txt " ".
#[local] Abbreviation gpdbg_gssx_buffer := gpdbg_octet_string (only parsing).
#[local] Abbreviation gpdbg_gssx_qop := gpdbg_gssx_uint64 (only parsing).
#[local] Abbreviation gpdbg_gssx_time := gpdbg_gssx_uint64 (only parsing).

Definition gpdbg_gssx_OID (x : bytes) : bytes :=
  match x with
  | [] => txt "<None> "
  | _ => match gss_oid_to_str x with
         | None => txt "<BAD OID> "
         | Some s => to_nul s ++ txt " "
         end
  end.

Definition gpdbg_gssx_OID_set (x : list bytes) : bytes := concat [txt "{ "; each gpdbg_gssx_OID x; txt "} "].

Definition gpdbg_gssx_cred_usage (x : Z) : bytes :=
  if x =? GSSX_C_INITIATE then txt "INITIATE "
  else if x =? GSSX_C_ACCEPT then txt "ACCEPT "
  else if x =? GSSX_C_BOTH then txt "BOTH "
  else concat [txt "<BAD CRED USAGE ("; print_unsigned (u32 x); txt ")> "].

Definition gpdbg_gssx_option (x : gssx_option) : bytes :=
  concat [txt "{ "; gpdbg_gssx_buffer (option_option x); gpdbg_gssx_buffer (option_value x);
          txt "} "].

(** the macros for the lists of options *)
Definition gpdbg_options (l : list gssx_option) : bytes :=
  match l with [] => [] | _ => concat [txt "[ "; each gpdbg_gssx_option l; txt "] "] end.
#[local] Abbreviation gpdbg_extensions := gpdbg_options (only parsing).

Definition gpdbg_gssx_mech_attr (x : gssx_mech_attr) : bytes :=
  concat [txt "{ "; gpdbg_gssx_OID (mech_attr_attr x); gpdbg_gssx_buffer (mech_attr_name x);
          gpdbg_gssx_buffer (mech_attr_short_desc x);
          gpdbg_gssx_buffer (mech_attr_long_desc x); gpdbg_extensions (mech_attr_extensions x);
          txt "} "].

Definition gpdbg_gssx_mech_info (x : gssx_mech_info) : bytes :=
  concat [txt "{ "; gpdbg_gssx_OID (mech_info_mech x);
          gpdbg_gssx_OID_set (mech_info_name_types x);
          gpdbg_gssx_OID_set (mech_info_mech_attrs x);
          gpdbg_gssx_OID_set (mech_info_known_mech_attrs x);
          gpdbg_gssx_OID_set (mech_info_cred_options x);
          gpdbg_gssx_OID_set (mech_info_sec_ctx_options x);
          gpdbg_gssx_buffer (mech_info_saslname_sasl_mech_name x);
          gpdbg_gssx_buffer (mech_info_saslname_mech_name x);
          gpdbg_gssx_buffer (mech_info_saslname_mech_desc x);
          gpdbg_extensions (mech_info_extensions x); txt "} "].

Definition gpdbg_gssx_name_attr (x : gssx_name_attr) : bytes :=
  concat [txt "{ "; gpdbg_gssx_buffer (name_attr_attr x); gpdbg_gssx_buffer (name_attr_value x);
          gpdbg_extensions (name_attr_extensions x); txt "} "].

Definition gpdbg_gssx_status (x : gssx_status) : bytes :=
  concat [txt "{ "; gpdbg_gssx_uint64 (status_major_status x); gpdbg_gssx_OID (status_mech x);
          gpdbg_gssx_uint64 (status_minor_status x);
          gpdbg_utf8string (status_major_status_string x);
          gpdbg_utf8string (status_minor_status_string x);
          gpdbg_octet_string (status_server_ctx x); gpdbg_options (status_options x); txt "} "].

Definition gpdbg_gssx_call_ctx (x : gssx_call_ctx) : bytes :=
  concat [txt "{ "; gpdbg_utf8string (call_ctx_locale x);
          gpdbg_octet_string (call_ctx_server_ctx x); gpdbg_options (call_ctx_options x);
          txt "} "].


Definition gpdbg_name_attributes (l : list gssx_name_attr) : bytes :=
  concat [txt "[ "; each gpdbg_gssx_name_attr l; txt "] "].

(** below the full level a name is its display name *)
Definition gpdbg_gssx_name (x : gssx_name) : bytes :=
  let full := GP_RPC_DEBUG_FULL <=? gp_debug in
  concat [if full then txt "{ " else []; gpdbg_utf8string (name_display_name x);
          if full then
            concat [gpdbg_gssx_OID (name_name_type x); gpdbg_gssx_buffer (name_exported_name x);
                    gpdbg_gssx_buffer (name_exported_composite_name x);
                    gpdbg_name_attributes (name_name_attributes x);
                    gpdbg_extensions (name_extensions x); txt "} "]
          else []].

Definition gpdbg_gssx_cred_element (x : gssx_cred_element) : bytes :=
  concat [txt "{ "; gpdbg_gssx_name (cred_element_MN x); gpdbg_gssx_OID (cred_element_mech x);
          gpdbg_gssx_cred_usage (cred_element_cred_usage x);
          gpdbg_gssx_time (cred_element_initiator_time_rec x);
          gpdbg_gssx_time (cred_element_acceptor_time_rec x);
          gpdbg_options (cred_element_options x); txt "} "].

Definition gpdbg_gssx_cred (x : gssx_cred) : bytes :=
  concat [txt "{ "; gpdbg_gssx_name (cred_desired_name x); txt "[ ";
          each gpdbg_gssx_cred_element (cred_elements x); txt "] ";
          gpdbg_octet_string (cred_cred_handle_reference x); print_bool (cred_needs_release x);
          txt "} "].

Definition gpdbg_gssx_ctx (x : gssx_ctx) : bytes :=
  concat [txt "{ "; gpdbg_octet_string (ctx_exported_context_token x);
          gpdbg_octet_string (ctx_state x); print_bool (ctx_needs_release x);
          gpdbg_gssx_OID (ctx_mech x); gpdbg_gssx_name (ctx_src_name x);
          gpdbg_gssx_name (ctx_targ_name x); gpdbg_gssx_time (ctx_lifetime x);
          gpdbg_gssx_uint64 (ctx_ctx_flags x); print_bool (ctx_locally_initiated x);
          print_bool (ctx_open x); gpdbg_options (ctx_options x); txt "} "].


Definition gpdbg_gssx_handle (x : gssx_handle) : bytes :=
  match x with
  | HandleSecCtx c => gpdbg_gssx_ctx c
  | HandleCred c => gpdbg_gssx_cred c
  | HandleOther _ _ => txt "<BAD HANDLE> "
  end.

Definition gpdbg_gssx_cb (x : gssx_cb) : bytes :=
  concat [txt "{ "; gpdbg_gssx_uint64 (cb_initiator_addrtype x);
          gpdbg_gssx_buffer (cb_initiator_address x);
          gpdbg_gssx_uint64 (cb_acceptor_addrtype x);
          gpdbg_gssx_buffer (cb_acceptor_address x); gpdbg_gssx_buffer (cb_application_data x);
          txt "} "].

(** the macro GPRPCDEBUG on a pointer *)
Definition nullable {A} (f : A -> bytes) (x : option A) : bytes :=
  if GP_RPC_DEBUG_LVL <=? gp_debug then or_null f x else [].

Definition gpdbg_gssx_arg_release_handle (x : gssx_arg_release_handle) : bytes :=
  concat [txt "    GSSX_ARG_RELEASE_HANDLE( call_ctx: ";
          gpdbg_gssx_call_ctx (arg_release_handle_call_ctx x); txt "cred_handle: ";
          gpdbg_gssx_handle (arg_release_handle_cred_handle x); txt ")"; newline].

Definition gpdbg_gssx_res_release_handle (x : gssx_res_release_handle) : bytes :=
  concat [txt "    GSSX_RES_RELEASE_HANDLE( status: ";
          gpdbg_gssx_status (res_release_handle_status x); txt ")"; newline].

Definition gpdbg_gssx_arg_indicate_mechs (x : gssx_arg_indicate_mechs) : bytes :=
  concat [txt "    GSSX_ARG_INDICATE_MECHS( call_ctx: ";
          gpdbg_gssx_call_ctx (arg_indicate_mechs_call_ctx x); txt ")"; newline].

Definition gpdbg_gssx_res_indicate_mechs (x : gssx_res_indicate_mechs) : bytes :=
  concat [txt "    GSSX_RES_INDICATE_MECHS( status: ";
          gpdbg_gssx_status (res_indicate_mechs_status x); txt "mechs: [ ";
          each gpdbg_gssx_mech_info (res_indicate_mechs_mechs x); txt "] ";
          txt "mech_attr_descs: [ ";
          each gpdbg_gssx_mech_attr (res_indicate_mechs_mech_attr_descs x); txt "] ";
          txt "supported_extensions: [ ";
          each gpdbg_gssx_buffer (res_indicate_mechs_supported_extensions x); txt "] ";
          gpdbg_extensions (res_indicate_mechs_extensions x); txt ")"; newline].

Definition gpdbg_gssx_arg_import_and_canon_name (x : gssx_arg_import_and_canon_name) : bytes :=
  concat [txt "    GSSX_ARG_IMPORT_AND_CANON_NAME( call_ctx: ";
          gpdbg_gssx_call_ctx (arg_import_and_canon_name_call_ctx x); txt "input_name: ";
          gpdbg_gssx_name (arg_import_and_canon_name_input_name x); txt "mech: ";
          gpdbg_gssx_OID (arg_import_and_canon_name_mech x); txt "name_attributes: ";
          gpdbg_name_attributes (arg_import_and_canon_name_name_attributes x);
          gpdbg_options (arg_import_and_canon_name_options x); txt ")"; newline].

Definition gpdbg_gssx_res_import_and_canon_name (x : gssx_res_import_and_canon_name) : bytes :=
  concat [txt "    GSSX_RES_IMPORT_AND_CANON_NAME( status: ";
          gpdbg_gssx_status (res_import_and_canon_name_status x); txt "output_name: ";
          nullable gpdbg_gssx_name (res_import_and_canon_name_output_name x);
          gpdbg_options (res_import_and_canon_name_options x); txt ")"; newline].

Definition gpdbg_gssx_arg_get_call_context (x : gssx_arg_get_call_context) : bytes :=
  concat [txt "    GSSX_ARG_GET_CALL_CONTEXT( call_ctx: ";
          gpdbg_gssx_call_ctx (arg_get_call_context_call_ctx x);
          gpdbg_options (arg_get_call_context_options x); txt ")"; newline].

Definition gpdbg_gssx_res_get_call_context (x : gssx_res_get_call_context) : bytes :=
  concat [txt "    GSSX_RES_GET_CALL_CONTEXT( status: ";
          gpdbg_gssx_status (res_get_call_context_status x); txt "server_call_ctx: ";
          gpdbg_octet_string (res_get_call_context_server_call_ctx x);
          gpdbg_options (res_get_call_context_options x); txt ")"; newline].

Definition gpdbg_gssx_arg_acquire_cred (x : gssx_arg_acquire_cred) : bytes :=
  concat [txt "    GSSX_ARG_ACQUIRE_CRED( call_ctx: ";
          gpdbg_gssx_call_ctx (arg_acquire_cred_call_ctx x); txt "input_cred_handle: ";
          nullable gpdbg_gssx_cred (arg_acquire_cred_input_cred_handle x); txt "add_cred: ";
          print_bool (arg_acquire_cred_add_cred_to_input_handle x); txt "desired_name: ";
          nullable gpdbg_gssx_name (arg_acquire_cred_desired_name x); txt "time_req: ";
          gpdbg_gssx_time (arg_acquire_cred_time_req x); txt "desired_mechs: ";
          gpdbg_gssx_OID_set (arg_acquire_cred_desired_mechs x); txt "cred_usage: ";
          gpdbg_gssx_cred_usage (arg_acquire_cred_cred_usage x); txt "initiator_time_req: ";
          gpdbg_gssx_time (arg_acquire_cred_initiator_time_req x); txt "acceptor_time_req: ";
          gpdbg_gssx_time (arg_acquire_cred_acceptor_time_req x);
          gpdbg_options (arg_acquire_cred_options x); txt ")"; newline].

Definition gpdbg_gssx_res_acquire_cred (x : gssx_res_acquire_cred) : bytes :=
  concat [txt "    GSSX_RES_ACQUIRE_CRED( status: ";
          gpdbg_gssx_status (res_acquire_cred_status x); txt "output_cred_handle: ";
          nullable gpdbg_gssx_cred (res_acquire_cred_output_cred_handle x);
          gpdbg_options (res_acquire_cred_options x); txt ")"; newline].

Definition gpdbg_gssx_arg_export_cred (x : gssx_arg_export_cred) : bytes :=
  concat [txt "    GSSX_ARG_EXPORT_CRED( call_ctx: ";
          gpdbg_gssx_call_ctx (arg_export_cred_call_ctx x); txt "input_cred_handle: ";
          gpdbg_gssx_cred (arg_export_cred_input_cred_handle x); txt "cred_usage: ";
          gpdbg_gssx_cred_usage (arg_export_cred_cred_usage x);
          gpdbg_options (arg_export_cred_options x); txt ")"; newline].

Definition gpdbg_gssx_res_export_cred (x : gssx_res_export_cred) : bytes :=
  concat [txt "    GSSX_RES_EXPORT_CRED( status: "; gpdbg_gssx_status (res_export_cred_status x);
          txt "usage_exported: "; gpdbg_gssx_cred_usage (res_export_cred_usage_exported x);
          txt "exported_handle: ";
          or_null gpdbg_octet_string (res_export_cred_exported_handle x);
          gpdbg_options (res_export_cred_options x); txt ")"; newline].

Definition gpdbg_gssx_arg_import_cred (x : gssx_arg_import_cred) : bytes :=
  concat [txt "    GSSX_ARG_IMPORT_CRED( call_ctx: ";
          gpdbg_gssx_call_ctx (arg_import_cred_call_ctx x); txt "exported_handle: ";
          gpdbg_octet_string (arg_import_cred_exported_handle x);
          gpdbg_options (arg_import_cred_options x); txt ")"; newline].

Definition gpdbg_gssx_res_import_cred (x : gssx_res_import_cred) : bytes :=
  concat [txt "    GSSX_RES_IMPORT_CRED( status: "; gpdbg_gssx_status (res_import_cred_status x);
          txt "output_cred_handle: ";
          nullable gpdbg_gssx_cred (res_import_cred_output_cred_handle x);
          gpdbg_options (res_import_cred_options x); txt ")"; newline].

Definition gpdbg_gssx_arg_store_cred (x : gssx_arg_store_cred) : bytes :=
  concat [txt "    GSSX_ARG_STORE_CRED( call_ctx: ";
          gpdbg_gssx_call_ctx (arg_store_cred_call_ctx x); txt "input_cred_handle: ";
          gpdbg_gssx_cred (arg_store_cred_input_cred_handle x); txt "cred_usage: ";
          gpdbg_gssx_cred_usage (arg_store_cred_cred_usage x); txt "desired_mech: ";
          gpdbg_gssx_OID (arg_store_cred_desired_mech x); txt "overwrite_cred: ";
          print_bool (arg_store_cred_overwrite_cred x); txt "default_cred: ";
          print_bool (arg_store_cred_default_cred x); gpdbg_options (arg_store_cred_options x);
          txt ")"; newline].

Definition gpdbg_gssx_res_store_cred (x : gssx_res_store_cred) : bytes :=
  concat [txt "    GSSX_RES_STORE_CRED( status: "; gpdbg_gssx_status (res_store_cred_status x);
          txt "elements_stored: "; gpdbg_gssx_OID_set (res_store_cred_elements_stored x);
          txt "cred_usage_stored: ";
          gpdbg_gssx_cred_usage (res_store_cred_cred_usage_stored x);
          gpdbg_options (res_store_cred_options x); txt ")"; newline].

Definition gpdbg_gssx_arg_init_sec_context (x : gssx_arg_init_sec_context) : bytes :=
  concat [txt "    GSSX_ARG_INIT_SEC_CONTEXT( call_ctx: ";
          gpdbg_gssx_call_ctx (arg_init_sec_context_call_ctx x); txt "context_handle: ";
          nullable gpdbg_gssx_ctx (arg_init_sec_context_context_handle x); txt "cred_handle: ";
          nullable gpdbg_gssx_cred (arg_init_sec_context_cred_handle x); txt "target_name: ";
          nullable gpdbg_gssx_name (arg_init_sec_context_target_name x); txt "mech_type: ";
          gpdbg_gssx_OID (arg_init_sec_context_mech_type x); txt "req_flags: ";
          gpdbg_gssx_uint64 (arg_init_sec_context_req_flags x); txt "time_req: ";
          gpdbg_gssx_time (arg_init_sec_context_time_req x); txt "input_cb: ";
          nullable gpdbg_gssx_cb (arg_init_sec_context_input_cb x); txt "input_token: ";
          or_null gpdbg_octet_string (arg_init_sec_context_input_token x);
          gpdbg_options (arg_init_sec_context_options x); txt ")"; newline].

Definition gpdbg_gssx_res_init_sec_context (x : gssx_res_init_sec_context) : bytes :=
  concat [txt "    GSSX_RES_INIT_SEC_CONTEXT( status: ";
          gpdbg_gssx_status (res_init_sec_context_status x); txt "context_handle: ";
          nullable gpdbg_gssx_ctx (res_init_sec_context_context_handle x);
          txt "output_token: ";
          or_null gpdbg_octet_string (res_init_sec_context_output_token x);
          gpdbg_options (res_init_sec_context_options x); txt ")"; newline].

Definition gpdbg_gssx_arg_accept_sec_context (x : gssx_arg_accept_sec_context) : bytes :=
  concat [txt "    GSSX_ARG_ACCEPT_SEC_CONTEXT( call_ctx: ";
          gpdbg_gssx_call_ctx (arg_accept_sec_context_call_ctx x); txt "context_handle: ";
          nullable gpdbg_gssx_ctx (arg_accept_sec_context_context_handle x);
          txt "cred_handle: "; nullable gpdbg_gssx_cred (arg_accept_sec_context_cred_handle x);
          txt "input_token: "; gpdbg_octet_string (arg_accept_sec_context_input_token x);
          txt "input_cb: "; nullable gpdbg_gssx_cb (arg_accept_sec_context_input_cb x);
          txt "ret_deleg_cred: "; print_bool (arg_accept_sec_context_ret_deleg_cred x);
          gpdbg_options (arg_accept_sec_context_options x); txt ")"; newline].

Definition gpdbg_gssx_res_accept_sec_context (x : gssx_res_accept_sec_context) : bytes :=
  concat [txt "    GSSX_RES_ACCEPT_SEC_CONTEXT( status: ";
          gpdbg_gssx_status (res_accept_sec_context_status x); txt "context_handle: ";
          nullable gpdbg_gssx_ctx (res_accept_sec_context_context_handle x);
          txt "output_token: ";
          or_null gpdbg_octet_string (res_accept_sec_context_output_token x);
          txt "delegated_cred_handle: ";
          nullable gpdbg_gssx_cred (res_accept_sec_context_delegated_cred_handle x);
          gpdbg_options (res_accept_sec_context_options x); txt ")"; newline].

Definition gpdbg_gssx_arg_get_mic (x : gssx_arg_get_mic) : bytes :=
  concat [txt "    GSSX_ARG_GET_MIC( call_ctx: "; gpdbg_gssx_call_ctx (arg_get_mic_call_ctx x);
          txt "context_handle: "; gpdbg_gssx_ctx (arg_get_mic_context_handle x);
          txt "qop_req: "; gpdbg_gssx_qop (arg_get_mic_qop_req x); txt "message_buffer: ";
          gpdbg_octet_string (arg_get_mic_message_buffer x); txt ")"; newline].

Definition gpdbg_gssx_res_get_mic (x : gssx_res_get_mic) : bytes :=
  concat [txt "    GSSX_RES_GET_MIC( status: "; gpdbg_gssx_status (res_get_mic_status x);
          txt "context_handle: "; nullable gpdbg_gssx_ctx (res_get_mic_context_handle x);
          txt "token_buffer: "; gpdbg_octet_string (res_get_mic_token_buffer x);
          txt "qop_state: "; nullable gpdbg_gssx_qop (res_get_mic_qop_state x); txt ")";
          newline].

Definition gpdbg_gssx_arg_verify_mic (x : gssx_arg_verify_mic) : bytes :=
  concat [txt "    GSSX_ARG_VERIFY_MIC( call_ctx: ";
          gpdbg_gssx_call_ctx (arg_verify_mic_call_ctx x); txt "context_handle: ";
          gpdbg_gssx_ctx (arg_verify_mic_context_handle x); txt "message_buffer: ";
          gpdbg_octet_string (arg_verify_mic_message_buffer x); txt "token_buffer: ";
          gpdbg_octet_string (arg_verify_mic_token_buffer x); txt ")"; newline].

Definition gpdbg_gssx_res_verify_mic (x : gssx_res_verify_mic) : bytes :=
  concat [txt "    GSSX_RES_VERIFY_MIC( status: "; gpdbg_gssx_status (res_verify_mic_status x);
          txt "context_handle: "; nullable gpdbg_gssx_ctx (res_verify_mic_context_handle x);
          txt "qop_state: "; nullable gpdbg_gssx_qop (res_verify_mic_qop_state x); txt ")";
          newline].

Definition gpdbg_gssx_arg_wrap (x : gssx_arg_wrap) : bytes :=
  concat [txt "    GSSX_ARG_WRAP( call_ctx: "; gpdbg_gssx_call_ctx (arg_wrap_call_ctx x);
          txt "context_handle: "; gpdbg_gssx_ctx (arg_wrap_context_handle x); txt "conf_req: ";
          print_bool (arg_wrap_conf_req x); txt "message_buffer: [ ";
          each gpdbg_octet_string (arg_wrap_message_buffer x); txt "] "; txt "qop_state: ";
          gpdbg_gssx_qop (arg_wrap_qop_state x); txt ")"; newline].

Definition gpdbg_gssx_res_wrap (x : gssx_res_wrap) : bytes :=
  concat [txt "    GSSX_RES_WRAP( status: "; gpdbg_gssx_status (res_wrap_status x);
          txt "context_handle: "; nullable gpdbg_gssx_ctx (res_wrap_context_handle x);
          txt "token_buffer: [ "; each gpdbg_octet_string (res_wrap_token_buffer x); txt "] ";
          txt "conf_state: "; or_null print_bool (res_wrap_conf_state x); txt "qop_state: ";
          nullable gpdbg_gssx_qop (res_wrap_qop_state x); txt ")"; newline].

Definition gpdbg_gssx_arg_unwrap (x : gssx_arg_unwrap) : bytes :=
  concat [txt "    GSSX_ARG_UNWRAP( call_ctx: "; gpdbg_gssx_call_ctx (arg_unwrap_call_ctx x);
          txt "context_handle: "; gpdbg_gssx_ctx (arg_unwrap_context_handle x);
          txt "token_buffer: [ "; each gpdbg_octet_string (arg_unwrap_token_buffer x);
          txt "] "; txt "qop_state: "; gpdbg_gssx_qop (arg_unwrap_qop_state x); txt ")";
          newline].

Definition gpdbg_gssx_res_unwrap (x : gssx_res_unwrap) : bytes :=
  concat [txt "    GSSX_RES_UNWRAP( status: "; gpdbg_gssx_status (res_unwrap_status x);
          txt "context_handle: "; nullable gpdbg_gssx_ctx (res_unwrap_context_handle x);
          txt "message_buffer: [ "; each gpdbg_octet_string (res_unwrap_message_buffer x);
          txt "] "; txt "conf_state: "; or_null print_bool (res_unwrap_conf_state x);
          txt "qop_state: "; nullable gpdbg_gssx_qop (res_unwrap_qop_state x)].

Definition gpdbg_gssx_arg_wrap_size_limit (x : gssx_arg_wrap_size_limit) : bytes :=
  concat [txt "    GSSX_ARG_WRAP_SIZE_LIMIT( call_ctx: ";
          gpdbg_gssx_call_ctx (arg_wrap_size_limit_call_ctx x); txt "context_handle: ";
          gpdbg_gssx_ctx (arg_wrap_size_limit_context_handle x); txt "conf_req: ";
          print_bool (arg_wrap_size_limit_conf_req x); txt "qop_state: ";
          gpdbg_gssx_qop (arg_wrap_size_limit_qop_state x); txt "req_output_size: ";
          gpdbg_gssx_uint64 (arg_wrap_size_limit_req_output_size x)].

Definition gpdbg_gssx_res_wrap_size_limit (x : gssx_res_wrap_size_limit) : bytes :=
  concat [txt "    GSSX_RES_WRAP_SIZE_LIMIT( status: ";
          gpdbg_gssx_status (res_wrap_size_limit_status x); txt "max_input_size: ";
          gpdbg_gssx_uint64 (res_wrap_size_limit_max_input_size x)].

End dump.
