(* ===== verification/DumpProps.v ===== *)
(** * What the dumps of the messages show

    Below the full level, a dump of Dump.v is made of the first sixteen bytes of a token, a
    handle or an option; and bytes of a message do not reach the log unless as letters, digits
    or dots. *)

From S2P Require Import Prelude Xdr RpcXdr GssxXdr World Conv Dump.

(** ** What is left of a message *)

(** a long string of bytes without the end of it *)
Definition redact (b : bytes) : bytes := if 16 <? len b then take 16 b ++ [Byte.x00] else b.

Definition redact_option (o : gssx_option) : gssx_option :=
  Mk_option (redact (option_option o)) (redact (option_value o)).
Definition redact_options (l : list gssx_option) : list gssx_option := redact_option <$> l.
(** a name is its display name *)
Definition redact_name (n : gssx_name) : gssx_name := Mk_name (name_display_name n) [] [] [] [] [].
Definition redact_element (e : gssx_cred_element) : gssx_cred_element :=
  Mk_cred_element (redact_name (cred_element_MN e)) (cred_element_mech e) (cred_element_cred_usage e)
    (cred_element_initiator_time_rec e) (cred_element_acceptor_time_rec e) (redact_options (cred_element_options e)).
Definition redact_cred (c : gssx_cred) : gssx_cred :=
  Mk_cred (redact_name (cred_desired_name c)) (redact_element <$> cred_elements c)
    (redact (cred_cred_handle_reference c)) (cred_needs_release c).
Definition redact_ctx (c : gssx_ctx) : gssx_ctx :=
  Mk_ctx (redact (ctx_exported_context_token c)) (redact (ctx_state c)) (ctx_needs_release c) (ctx_mech c)
    (redact_name (ctx_src_name c)) (redact_name (ctx_targ_name c)) (ctx_lifetime c) (ctx_ctx_flags c)
    (ctx_locally_initiated c) (ctx_open c) (redact_options (ctx_options c)).
Definition redact_cb (c : gssx_cb) : gssx_cb :=
  Mk_cb (cb_initiator_addrtype c) (redact (cb_initiator_address c)) (cb_acceptor_addrtype c)
    (redact (cb_acceptor_address c)) (redact (cb_application_data c)).
Definition redact_call_ctx (c : gssx_call_ctx) : gssx_call_ctx :=
  Mk_call_ctx (call_ctx_locale c) (redact (call_ctx_server_ctx c)) (redact_options (call_ctx_options c)).
Definition redact_status (s : gssx_status) : gssx_status :=
  Mk_status (status_major_status s) (status_mech s) (status_minor_status s) (status_major_status_string s)
    (status_minor_status_string s) (redact (status_server_ctx s)) (redact_options (status_options s)).

Definition redact_arg_acquire (x : gssx_arg_acquire_cred) : gssx_arg_acquire_cred :=
  let '(Mk_arg_acquire_cred c h add n t m u i a o) := x in
  Mk_arg_acquire_cred (redact_call_ctx c) (redact_cred <$> h) add (redact_name <$> n) t m u i a (redact_options o).
Definition redact_res_acquire (x : gssx_res_acquire_cred) : gssx_res_acquire_cred :=
  let '(Mk_res_acquire_cred s h o) := x in
  Mk_res_acquire_cred (redact_status s) (redact_cred <$> h) (redact_options o).
Definition redact_arg_init (x : gssx_arg_init_sec_context) : gssx_arg_init_sec_context :=
  let '(Mk_arg_init_sec_context c h d n m f t b i o) := x in
  Mk_arg_init_sec_context (redact_call_ctx c) (redact_ctx <$> h) (redact_cred <$> d) (redact_name <$> n) m f t
    (redact_cb <$> b) (redact <$> i) (redact_options o).
Definition redact_res_init (x : gssx_res_init_sec_context) : gssx_res_init_sec_context :=
  let '(Mk_res_init_sec_context s h t o) := x in
  Mk_res_init_sec_context (redact_status s) (redact_ctx <$> h) (redact <$> t) (redact_options o).
Definition redact_arg_accept (x : gssx_arg_accept_sec_context) : gssx_arg_accept_sec_context :=
  let '(Mk_arg_accept_sec_context c h d i b r o) := x in
  Mk_arg_accept_sec_context (redact_call_ctx c) (redact_ctx <$> h) (redact_cred <$> d) (redact i)
    (redact_cb <$> b) r (redact_options o).
Definition redact_res_accept (x : gssx_res_accept_sec_context) : gssx_res_accept_sec_context :=
  let '(Mk_res_accept_sec_context s h t d o) := x in
  Mk_res_accept_sec_context (redact_status s) (redact_ctx <$> h) (redact <$> t) (redact_cred <$> d) (redact_options o).

Section props.
Variable gp_debug : Z.
Variable oid_str : bytes -> option bytes.
Hypothesis Hlevel : gp_debug < GP_RPC_DEBUG_FULL.

Lemma redact_dumped b : gpdbg_octet_string gp_debug (redact b) = gpdbg_octet_string gp_debug b.
Proof using Hlevel.
  unfold gpdbg_octet_string, redact. rewrite (proj2 (Z.ltb_lt _ _) Hlevel). simpl andb.
  destruct (Z.ltb_spec 16 (len b)) as [Hl|Hl].
  - assert (E : length (take 16 b) = 16%nat) by (rewrite length_take; unfold len in Hl; lia).
    assert (El : len (take 16 b ++ [Byte.x00]) = 17) by (unfold len; by rewrite length_app, E).
    rewrite El. simpl (16 <? 17).
    rewrite take_app_le, take_take by lia. reflexivity.
  - by rewrite (proj2 (Z.ltb_ge _ _) Hl).
Qed.

Lemma each_redacted {A} (f : A -> bytes) (r : A -> A) l : (forall x, f (r x) = f x) -> each f (r <$> l) = each f l.
Proof using. intros H. unfold each. f_equal. rewrite <- list_fmap_compose. apply list_fmap_ext. intros i x _. apply H. Qed.

Lemma nullable_redacted {A} (f : A -> bytes) (r : A -> A) o : (forall x, f (r x) = f x) ->
  nullable gp_debug f (r <$> o) = nullable gp_debug f o.
Proof using. intros H. unfold nullable, or_null. destruct o; simpl; [by rewrite H|done]. Qed.

Lemma or_null_redacted {A} (f : A -> bytes) (r : A -> A) o : (forall x, f (r x) = f x) ->
  or_null f (r <$> o) = or_null f o.
Proof using. intros H. destruct o; simpl; [by rewrite H|done]. Qed.

Lemma option_dumped o : gpdbg_gssx_option gp_debug (redact_option o) = gpdbg_gssx_option gp_debug o.
Proof using Hlevel. unfold gpdbg_gssx_option. simpl. by rewrite !redact_dumped. Qed.

Lemma options_dumped l : gpdbg_options gp_debug (redact_options l) = gpdbg_options gp_debug l.
Proof using Hlevel.
  unfold gpdbg_options, redact_options. destruct l as [|o l]; [done|].
  by rewrite (each_redacted _ _ (o :: l) option_dumped).
Qed.

Lemma name_dumped n : gpdbg_gssx_name gp_debug oid_str (redact_name n) = gpdbg_gssx_name gp_debug oid_str n.
Proof using Hlevel. unfold gpdbg_gssx_name. by rewrite (proj2 (Z.leb_gt _ _) Hlevel). Qed.

Ltac dumped := simpl; rewrite ?redact_dumped, ?options_dumped, ?name_dumped; reflexivity.

Lemma element_dumped e : gpdbg_gssx_cred_element gp_debug oid_str (redact_element e) =
  gpdbg_gssx_cred_element gp_debug oid_str e.
Proof using Hlevel. unfold gpdbg_gssx_cred_element. dumped. Qed.

Lemma cred_dumped c : gpdbg_gssx_cred gp_debug oid_str (redact_cred c) = gpdbg_gssx_cred gp_debug oid_str c.
Proof using Hlevel. unfold gpdbg_gssx_cred. cbn [redact_cred cred_elements]. rewrite (each_redacted _ _ _ element_dumped). dumped. Qed.

Lemma ctx_dumped c : gpdbg_gssx_ctx gp_debug oid_str (redact_ctx c) = gpdbg_gssx_ctx gp_debug oid_str c.
Proof using Hlevel. unfold gpdbg_gssx_ctx. dumped. Qed.

Lemma cb_dumped c : gpdbg_gssx_cb gp_debug (redact_cb c) = gpdbg_gssx_cb gp_debug c.
Proof using Hlevel. unfold gpdbg_gssx_cb. dumped. Qed.

Lemma call_ctx_dumped c : gpdbg_gssx_call_ctx gp_debug (redact_call_ctx c) = gpdbg_gssx_call_ctx gp_debug c.
Proof using Hlevel. unfold gpdbg_gssx_call_ctx. dumped. Qed.

Lemma status_dumped s : gpdbg_gssx_status gp_debug oid_str (redact_status s) = gpdbg_gssx_status gp_debug oid_str s.
Proof using Hlevel. unfold gpdbg_gssx_status. dumped. Qed.

(** C35. Below the full level of messages, what is dumped of the calls that acquire a credential
    and establish a context, and of their replies, does not depend on more than the first
    sixteen bytes of a token, a handle of a credential or a context, or an option, nor on more
    of a name than what is displayed of it. *)
Theorem secrets_not_dumped :
  (forall x, gpdbg_gssx_arg_acquire_cred gp_debug oid_str (redact_arg_acquire x) = gpdbg_gssx_arg_acquire_cred gp_debug oid_str x) /\
  (forall x, gpdbg_gssx_res_acquire_cred gp_debug oid_str (redact_res_acquire x) = gpdbg_gssx_res_acquire_cred gp_debug oid_str x) /\
  (forall x, gpdbg_gssx_arg_init_sec_context gp_debug oid_str (redact_arg_init x) = gpdbg_gssx_arg_init_sec_context gp_debug oid_str x) /\
  (forall x, gpdbg_gssx_res_init_sec_context gp_debug oid_str (redact_res_init x) = gpdbg_gssx_res_init_sec_context gp_debug oid_str x) /\
  (forall x, gpdbg_gssx_arg_accept_sec_context gp_debug oid_str (redact_arg_accept x) = gpdbg_gssx_arg_accept_sec_context gp_debug oid_str x) /\
  (forall x, gpdbg_gssx_res_accept_sec_context gp_debug oid_str (redact_res_accept x) = gpdbg_gssx_res_accept_sec_context gp_debug oid_str x).
Proof using Hlevel.
  split_and!; intros []; unfold gpdbg_gssx_arg_acquire_cred, gpdbg_gssx_res_acquire_cred, gpdbg_gssx_arg_init_sec_context,
    gpdbg_gssx_res_init_sec_context, gpdbg_gssx_arg_accept_sec_context, gpdbg_gssx_res_accept_sec_context; simpl;
    rewrite ?call_ctx_dumped, ?status_dumped, ?options_dumped, ?redact_dumped;
    rewrite ?(nullable_redacted _ _ _ cred_dumped), ?(nullable_redacted _ _ _ ctx_dumped),
      ?(nullable_redacted _ _ _ name_dumped), ?(nullable_redacted _ _ _ cb_dumped),
      ?(or_null_redacted _ _ _ redact_dumped); reflexivity.
Qed.
End props.

(** ** The bytes that are written *)

Definition printable (c : Byte.byte) : bool := (32 <=? byte_val c) && (byte_val c <? 127).

Lemma hex_digit_printable n : 0 <= n < 16 -> printable (hex_digit n) = true.
Proof.
  intros H. assert (Hn : n ∈ seqZ 0 16) by (apply elem_of_seqZ; lia). revert n Hn H.
  assert (Hall : forallb (fun n => printable (hex_digit n)) (seqZ 0 16) = true) by (vm_compute; reflexivity).
  intros n Hn _. rewrite forallb_forall in Hall. by apply Hall, list_elem_of_In.
Qed.

Lemma hex_digits_printable n z : 0 <= z -> forallb printable (hex_digits n z) = true.
Proof.
  revert z. induction n as [|n IH]; intros z Hz; [done|]. cbn [hex_digits]. rewrite forallb_app.
  apply andb_true_iff. split.
  - destruct (z <? 16); [done|]. apply IH. apply Z.div_pos; lia.
  - simpl. rewrite hex_digit_printable; [done|]. apply Z.mod_pos_bound. lia.
Qed.

Lemma each_printable {A} (f : A -> bytes) l : (forall x, forallb printable (f x) = true) ->
  forallb printable (each f l) = true.
Proof. intros H. induction l as [|x l IH]; [done|]. unfold each in *.
  simpl. rewrite forallb_app. apply andb_true_iff. split; [apply H|exact IH].
Qed.

Lemma dot_printable c : printable (if isalnum (char_val c) then c else Byte.x2e) = true.
Proof. destruct c; reflexivity. Qed.

(** C37. Whatever a client sends as a token, a handle or an option is written in printable
    characters, on one line. *)
Theorem octets_printable gp_debug x : forallb printable (gpdbg_octet_string gp_debug x) = true.
Proof.
  assert (H3 : forall a b c, forallb printable a = true -> forallb printable b = true ->
    forallb printable c = true -> forallb printable (concat [a; b; c]) = true).
  { intros a b c Ha Hb Hc. simpl. by rewrite app_nil_r, !forallb_app, Ha, Hb, Hc. }
  unfold gpdbg_octet_string. destruct (_ && _); apply H3; try reflexivity.
  - induction (take 16 x) as [|c l IH]; [done|]. cbn. rewrite dot_printable. exact IH.
  - apply each_printable. intros c. apply hex_digits_printable. apply Z.mod_pos_bound. lia.
Qed.

(** a name is written as it was sent: its newline starts a line of the log *)
Example name_not_printable :
  forallb printable (gpdbg_utf8string [Byte.x61; Byte.x0a; Byte.x62]) = false.
Proof. reflexivity. Qed.

(** neither the place of a digit nor the length of a large byte can be told *)
Example hex_ambiguous :
  gpdbg_octet_string 3 [Byte.x01; Byte.x10] = gpdbg_octet_string 3 [Byte.x11; Byte.x00] /\
  gpdbg_octet_string 3 [Byte.x80] = txt "[ ffffff80 ] ".
Proof. vm_compute. done. Qed.

Lemma secrets_not_dumped_witness :
  let token := txt "the first 16 bytesand a password" in
  gpdbg_octet_string 2 token = txt "[ the.first.16.byt... ] " /\
  forall c s d r, gpdbg_gssx_res_accept_sec_context 2 (fun _ => None) (redact_res_accept (Mk_res_accept_sec_context c s (Some token) d r)) =
    gpdbg_gssx_res_accept_sec_context 2 (fun _ => None) (Mk_res_accept_sec_context c s (Some token) d r).
Proof.
  split; [vm_compute; reflexivity|]. intros c s d r.
  apply (secrets_not_dumped 2 (fun _ => None)). reflexivity.
Defined.
